(* ===== verification/_CoqProject ===== *)
-Q . S2P
Prelude.v
PathComponents.v
Path.v
PathBuf.v
PathUtf8.v
PathOrd.v
PathExt.v
Layout.v
Frame.v
Kpage.v
PageAlloc.v
PageRanges.v
PageChain.v
MemoryStack.v
Bucket.v
HeapTrace.v
HeapLocks.v
Vfs.v
Ext2.v
RamFs.v
Dentry.v
FsWorld.v
DentryLocks.v
Serial.v
Timer.v
Trap.v
Boot.v
Runner.v
