(* ===== verification/Prelude.v ===== *)
(** * A verification development of the rustyos kernel

    rustyos is a small x86_64 kernel in Rust.  Its parts, and how they meet:

    - the boot loader passes a list of memory regions.  [memory/layout.rs]
      fixes the virtual address space, [memory/frame/] hands out physical
      frames (a boot allocator that counts frames, then a bitmap allocator
      placed in the frames the first one gives), and [memory/mod.rs] maps and
      unmaps kernel pages with them;
    - [memory/allocator/page.rs] keeps a list of free ranges of virtual pages
      and maps the pages it gives out through [memory/frame/];
      [memory/allocator/mod.rs] is the global allocator: requests of up to
      half a page are served from buckets of equal blocks with a bitmap each,
      larger ones go to the page allocator;
    - [fs/path/] is a port of the standard library's Path: a double-ended
      iterator over the components of a byte string, the queries built on it,
      and the mutable PathBuf;
    - [fs/vfs/] has the inode types and the FileSystem trait, [fs/ramfs/]
      implements it in memory, [fs/dentry.rs] resolves paths to inodes through
      a cache with eviction, and [fs/mod.rs] and [fs/mount.rs] hold the mounts;
    - [serial.rs] drives the console on COM1, which [kprintln!] locks,
      [pit.rs], [time.rs] and [apic.rs] drive the timers, [trap.rs] has the
      interrupt handlers, [panic.rs] the panic handler; [main.rs] starts all of
      this and reports on the console, with [acpi.rs] finding the I/O APIC;
    - on the host, [build.rs] makes a disk image of the kernel and
      [src/main.rs] starts it in an emulator.

    Source paths in this library are relative to [src/kernel/src/], but for these
    two programs of the workspace.

    ** Files

    - [Prelude] (this file): what a Rust expression can do ([outcome]: return,
      panic, wait for ever on a spin lock, or exhaust the fuel of the model),
      its monad and tactics, checked and wrapping arithmetic in the two build
      profiles ([profile]), byte strings, and lemmas on lists and bits.
    - [PathComponents] (fs/path/components.rs): the record [Components] with
      the source's four fields and the state of both ends; [next], [next_back],
      [as_path], comparison and the parser of one component, with their
      assertions and slice bounds.  [spec_components] is the reference: split at
      separators, drop empty and inner dot parts.
    - [Path] (fs/path/mod.rs, fs/path/ancestors.rs) and [PathBuf]
      (fs/path/pathbuf.rs): one definition per method; slices at a byte
      position that is not a character boundary are panics.  [PathUtf8] follows
      the encoding of the strings through both; [PathOrd] has the conversions,
      equalities and orders of both types, and equality of components as an
      equivalence the queries respect; [PathExt] has file names at their place in
      the string, and the methods of PathBuf on a string with a capacity.
    - [Layout] (memory/layout.rs): the constants, and the addresses of the
      x86_64 crate as a class with laws ([X86Addr]).  [Frame] (memory/frame/):
      both frame allocators, the bitmap as a list of 64-bit words, and the
      crate's page table as a class ([PageTable]), whose contract ([PageTableLaws])
      holds for frames that are unused, as the crate asks for.  [Kpage]
      (memory/mod.rs): alloc_kpage, free_kpage and the statics, and the class of what
      they promise to the next layer while there are such frames ([kp_room]).
    - [PageAlloc] (memory/allocator/page.rs): the linked pages of range
      entries, and the operations on them; [FullPageAllocator] with the page
      table.  [PageRanges] reads its entries as sets of free pages,
      [PageChain] several pages of entries as one list, and [MemoryStack] follows
      a block down to its physical frames.  [Bucket]
      (memory/allocator/mod.rs): the chains of bucket pages per
      size class, written against the class [PageAllocator], of which
      [PageAlloc] gives the instance; the buckets a deallocation drops are given
      back there one after the other ([drop_all]).  [HeapTrace] runs sequences of requests
      on it.  [HeapLocks] has the same operations on a memory that records the
      locks they take, and processors that take them at the same time.
    - [Vfs] (fs/vfs/): inode kinds, errors, the traits as classes
      ([SuperBlockOps], [InodeOps], [FileIterator]), and a heap of shared
      reader-writer-locked block lists ([Arc<RwLock<..>>]): copies of an inode
      share their blocks, and a lock taken twice is [Hang].  [RamFs]
      (fs/ramfs/mod.rs): every method of the super block, with directory
      entries as the 256-byte records the code keeps in the blocks.  [Ext2]
      (fs/ext2/): structures, sizes and flags.
    - [Dentry] (fs/dentry.rs): the cache, its eviction and the walk, written
      against the class [FileSystems]; [FsWorld] (fs/mod.rs, fs/mount.rs): the
      mounts, and the instance of that class by ramfs; [DentryLocks]: the same
      operations with the locks they take, and the guards their caller holds.
    - [Serial] (serial.rs): the driver over port accesses, and the UART as its
      register description has it.  [Timer] (pit.rs, time.rs, and the clock of
      apic.rs): programming and reading the interval timer, and calibrating the
      timer of the local APIC by it.  [Trap] (trap.rs, panic.rs, the macros of
      serial.rs): the record [Kernel] (hardware, console and its lock, ticks, the
      interrupt flag, whether the table of handlers is loaded) and the handlers, with
      lines printed as sequences of steps between which interrupts arrive.  [Boot]
      (main.rs, acpi.rs, and the I/O APIC of apic.rs): the boot configuration, the
      record [System] (kernel, memory statics, the I/O APIC found on first use through
      the page table), and [kmain] from its first statement to its idle loop, its
      prints interrupted once it has enabled interrupts.
    - [Runner] (build.rs and src/main.rs of the workspace): both programs as lists
      of actions on the host, over paths and arguments that are any bytes.

    ** What the theorems show

    - Paths: any interleaving of [next] and [next_back] is a double-ended queue
      over the reference components, never panics and always ends; [as_path]
      is what has not been yielded; the prefix, suffix, parent, ancestor and
      extension queries mean what their documentation says on components.
      [push] joins without a separator where one is needed, and the methods
      that slice at byte 1 panic on names outside ASCII.  All strings made
      without a check are valid UTF-8, and a PathBuf stays valid.  Queries see
      only the components of a path, and the order of paths is total;
      [with_extension] is [set_extension] on a copy, in the room it reserves, but
      for the cases it cuts wrongly.
    - Frames and pages: which frames a booted system hands out, in both
      allocators; the bitmap made at boot marks exactly the frames the page tables
      use; allocate and deallocate are inverse; mapping a page with unused frames and
      unmapping it restores the address space; as long as the frames last, the pages of
      a block have frames of their own.  They last to frame 64: the bitmap search stops
      advancing behind frame 63 and from then on gives frame 64 for ever, which the
      page tables do not allow for (nothing is claimed of them then); and frames
      of later regions cannot be given back.
    - Page allocator: every trace of operations behaves as a bump allocator
      over one range; what is handed out is aligned, pairwise disjoint and
      mapped.  Deallocation never returns the addresses.  The lists of free
      ranges, on one page with room, are sets of pages: taking removes and giving
      back adds exactly the pages named, with the ranges in order and apart, though
      touching ones are not always merged.  Over a chain of entry pages allocation is
      first fit on the one list of free ranges, but for exact fits on a chain whose last
      page is full or has become empty ([chain_room]), and giving a part of a range back
      undoes taking it.
    - Kernel allocator: an invariant on the bucket chains and, relative to it,
      a refinement of the set of live blocks: allocation adds one block that is
      large enough, aligned and disjoint from the live ones, deallocation
      removes exactly that block and gives back buckets that have become empty, and the
      first free block is preferred.  Over
      every history of requests, small and large, no two blocks held share a byte.
      The four locks below it change nothing, are taken in one order and given
      back, so that processors using the allocator at the same time get done;
      only [init_frame_allocator] takes two of them the other way round, which
      could stop it and another processor for ever.
    - File systems: a ramfs directory refines a finite map under sequences of
      create, mkdir and link; inode creation keeps the super block well formed;
      the cache lookup is the walk from the nearest cached ancestor; eviction
      takes the least recently used entry that is no mount point; a file that
      was created is found through the cache.  [symlink] never returns.  The
      locks of the cache change no result and are all given back, unless the
      caller holds a guard that conflicts: reloading an entry while one looks at
      its inode never returns.
    - Devices: a line printed under timer interrupts comes out whole and every
      tick is counted, but a byte received meanwhile hangs the kernel, as does a
      panic while the console is locked; received bytes are echoed in order; the
      timer is calibrated to a tenth of what it counts until a read of the interval
      timer finds 0, below the rate where the product overflows, and waits as long as
      every read misses 0.  [kmain] sets memory and devices up when memory map,
      firmware tables and timer allow it, and then prints its whole report under timer
      interrupts and idles; a serial interrupt inside a line of it hangs.  The offset it
      unwraps is there with the configuration it gives the boot loader.
    - Host: in UTF-8 directories the runner starts what the build script built, and
      the debugger's script names the symbols the build script split off; an argument
      that is not UTF-8 makes it panic.

    ** Loops and fuel

    A loop that is not structural takes fuel, and [NoFuel] is a value of its
    own, so that a theorem that says "returns" also says that the fuel is
    enough.  One step of the component iterators consumes at least one byte or
    moves a state forward: length of the path plus 3.  A path has at most as
    many components and ancestors as bytes, plus root and end: length plus 4 in
    [Path], [Dentry] and their clients.  A directory block of 4096 bytes holds
    16 entries: 17 turns per block plus 2 in [RamFs].  Allocating a block visits
    every bucket of a chain and at most one new one: length plus 2 in [Bucket].
    The chain of entry pages in [PageAlloc] is a finite list, and every turn of
    the loops over it passes an entry or merges two: twice the number of entries
    ([list_fuel]); [PageRanges] proves this enough on one page, [PageChain] for
    putting a range into any list with room.  The interrupt
    handler of [Serial] turns once per byte received and once more.  The wait for
    the interval timer in [Timer] need not end, and nothing is assumed of that timer:
    with [n] reads that find another count before the one that finds 0 ([polls]), any
    fuel above [n] is enough, and when no read finds 0 every fuel is used up.

    ** Parameters

    The x86_64 crate (addresses, page tables, the TLB), the iteration order of
    the hash map, port accesses with the UART and the interval timer behind them
    ([Ports], [UartLaws]), the timer of the local APIC ([LapicTimerLaws]), the
    registers of the local and the I/O APIC ([Lapic], [IoApic], [MachineLaws]), the
    acpi crate ([AcpiCrate]), the boot loader ([BootLoader]), how much room a String
    reserves ([Capacity]), what the host permits ([Host]) and Cargo ([Cargo]) are
    parameters with laws from their documentation; each class has a concrete
    instance, at which the theorems are applied.

    ** What is not modelled

    Page and frame contents other than the structures above (the allocators
    never read the memory they hand out); reading or writing the structures of
    fs/ext2, for which there is no code yet; how the processor finds a handler in the
    table it has loaded; the text formats of debug output, which come from the
    standard library's and the bitflags crate's formatters; mp.rs, which is empty,
    and the demonstration in main.rs that is commented out ([FsWorld] has its
    sequence of calls).  Merging ranges that lie
    on several entry pages ([squash_entries] behind [dealloc_pages], which has no
    caller) is modelled, and shown correct on one page only: on several pages it
    can run into the ranges that [remove_entry] leaves twice. *)

From Stdlib Require Import ZArith Lia.
From stdpp Require Import base list numbers strings.

(** ** Outcomes: what a Rust expression may do instead of returning *)

(** [Panic]: the panic handler runs and the kernel halts.  [Hang]: a spin lock
    is taken that its own holder waits for, or the processor is halted.
    [NoFuel]: the model's loop bound was too small (the theorems about a loop say
    which bound is enough). *)
Inductive outcome (A : Type) : Type :=
| Ret (a : A)
| Panic
| Hang
| NoFuel.
Arguments Ret {A} a.
Arguments Panic {A}.
Arguments Hang {A}.
Arguments NoFuel {A}.

(** [Result<T, E>]. *)
Inductive result (T E : Type) : Type :=
| Ok (t : T)
| Err (e : E).
Arguments Ok {T E} t.
Arguments Err {T E} e.

#[export] Instance outcome_ret : MRet outcome := @Ret.
#[export] Instance outcome_bind : MBind outcome := fun A B f m =>
  match m with
  | Ret a => f a
  | Panic => Panic
  | Hang => Hang
  | NoFuel => NoFuel
  end.
#[export] Instance outcome_fmap : FMap outcome := fun A B f m =>
  match m with
  | Ret a => Ret (f a)
  | Panic => Panic
  | Hang => Hang
  | NoFuel => NoFuel
  end.

(** The [?] operator on a call that returns a [Result]. *)
Definition try_bind {A B E} (m : outcome (result A E))
    (k : A -> outcome (result B E)) : outcome (result B E) :=
  match m with
  | Ret (Ok a) => k a
  | Ret (Err e) => Ret (Err e)
  | Panic => Panic
  | Hang => Hang
  | NoFuel => NoFuel
  end.

Declare Scope kernel_scope.
Delimit Scope kernel_scope with K.
Notation "x <-? m ; k" := (try_bind m (fun x => k))
  (at level 20, m at level 100, k at level 200, right associativity,
   only parsing) : kernel_scope.
Notation "' x <-? m ; k" := (try_bind m (fun x => k))
  (at level 20, x pattern, m at level 100, k at level 200, right associativity,
   only parsing) : kernel_scope.
Open Scope kernel_scope.

(** [Option::unwrap] / [expect], [assert!] and [debug_assert!].  A debug
    assertion is modelled as checked; where a theorem shows that it never
    fires, the release build behaves the same. *)
Definition unwrap {A} (o : option A) : outcome A :=
  match o with Some a => Ret a | None => Panic end.
Definition rust_assert (b : bool) : outcome unit := if b then Ret tt else Panic.

(** ** Machine integers *)

(** Overflow checks: on in the debug profile, off (wrap-around) in release. *)
Variant profile := Debug | Release.

Definition in_width (w x : Z) : bool := ((0 <=? x) && (x <? 2 ^ w))%Z.
Definition arith (p : profile) (w x : Z) : outcome Z :=
  if in_width w x then Ret x
  else match p with Debug => Panic | Release => Ret (x mod 2 ^ w)%Z end.

Definition u64_max : Z := 2 ^ 64 - 1.

(** [div_ceil] of the unsigned integers. *)
Definition div_ceil (a b : Z) : Z :=
  (if a mod b =? 0 then a / b else a / b + 1)%Z.

(** [uN::leading_ones]: the number of one bits from bit [w - 1] downwards. *)
Fixpoint leading_ones_from (n : nat) (x : Z) : Z :=
  match n with
  | O => 0
  | S n' => (if Z.testbit x (Z.of_nat n') then 1 + leading_ones_from n' x else 0)%Z
  end.
Definition leading_ones (w : nat) (x : Z) : Z := leading_ones_from w x.

(** ** Slices *)

Abbreviation u8 := Z (only parsing).

Definition slice_from {A} (l : list A) (n : nat) : outcome (list A) :=
  if n <=? length l then Ret (drop n l) else Panic.
Definition slice_to {A} (l : list A) (n : nat) : outcome (list A) :=
  if n <=? length l then Ret (take n l) else Panic.
Definition index {A} (l : list A) (n : nat) : outcome A := unwrap (l !! n).
Definition index_set {A} (l : list A) (n : nat) (x : A) : outcome (list A) :=
  if n <? length l then Ret (<[n := x]> l) else Panic.

(** [Iterator::position] and [rposition]. *)
Fixpoint position {A} (f : A -> bool) (l : list A) : option nat :=
  match l with
  | [] => None
  | x :: l' => if f x then Some 0 else S <$> position f l'
  end.
Fixpoint rposition {A} (f : A -> bool) (l : list A) : option nat :=
  match l with
  | [] => None
  | x :: l' =>
      match rposition f l' with
      | Some i => Some (S i)
      | None => if f x then Some 0 else None
      end
  end.

(** ** Strings: UTF-8 byte sequences *)

Abbreviation str := (list Z) (only parsing).

(** A byte string from a literal (ASCII). *)
Definition lit (s : string) : str :=
  map (fun a => Z.of_N (Ascii.N_of_ascii a)) (String.list_ascii_of_string s).
Arguments lit s%_string_scope.

Definition bytes_eqb (a b : list u8) : bool := bool_decide (a = b).

(** Continuation bytes are [0b10xxxxxx]. *)
Definition is_cont (b : u8) : bool := ((128 <=? b) && (b <? 192))%Z.

(** [str::is_char_boundary]. *)
Definition is_char_boundary (s : str) (i : nat) : bool :=
  match i with
  | O => true
  | _ => match s !! i with
         | Some b => negb (is_cont b)
         | None => i =? length s
         end
  end.

(** [&s[i..]] and [&s[..i]] on a [str], which panic off a boundary. *)
Definition str_from (s : str) (i : nat) : outcome str :=
  if is_char_boundary s i then Ret (drop i s) else Panic.
Definition str_to (s : str) (i : nat) : outcome str :=
  if is_char_boundary s i then Ret (take i s) else Panic.

(** [String::truncate]: a no-op beyond the length, a panic off a boundary. *)
Definition truncate (s : str) (n : nat) : outcome str :=
  if n <=? length s then
    (if is_char_boundary s n then Ret (take n s) else Panic)
  else Ret s.

(** [str::chars]: each character as its encoding, a lead byte with the
    continuation bytes that follow it. *)
Fixpoint chars (s : str) : list str :=
  match s with
  | [] => []
  | b :: s' =>
      match chars s' with
      | (c :: r) :: cs => if is_cont c then (b :: c :: r) :: cs else [b] :: (c :: r) :: cs
      | cs => [b] :: cs
      end
  end.

(** The UTF-8 well-formedness that the type [str] guarantees. *)
Definition in_range (lo hi b : u8) : bool := ((lo <=? b) && (b <=? hi))%Z.
Arguments in_range (lo hi b)%_Z_scope.
Fixpoint utf8 (s : str) : bool :=
  match s with
  | [] => true
  | b0 :: s1 =>
      if in_range 0 127 b0 then utf8 s1
      else match s1 with
      | [] => false
      | b1 :: s2 =>
          if in_range 194 223 b0 then is_cont b1 && utf8 s2
          else match s2 with
          | [] => false
          | b2 :: s3 =>
              if in_range 224 239 b0 then
                (if (b0 =? 224)%Z then in_range 160 191 b1
                 else if (b0 =? 237)%Z then in_range 128 159 b1
                 else is_cont b1) && is_cont b2 && utf8 s3
              else match s3 with
              | [] => false
              | b3 :: s4 =>
                  in_range 240 244 b0 &&
                  (if (b0 =? 240)%Z then in_range 144 191 b1
                   else if (b0 =? 244)%Z then in_range 128 143 b1
                   else is_cont b1) && is_cont b2 && is_cont b3 && utf8 s4
              end
          end
      end
  end.

(** ** Tactics and hints *)

Create HintDb kernel.
Create Rewrite HintDb kernel.

(** Split a bind of outcomes whose value is known to be a [Ret]. *)
Ltac inv_outcome :=
  repeat match goal with
  | H : (?m ≫= _) = Ret _ |- _ =>
      let E := fresh "E" in destruct m eqn:E; simpl in H; try discriminate H
  | H : try_bind ?m _ = Ret (Ok _) |- _ =>
      let E := fresh "E" in
      destruct m as [[]| | |] eqn:E; simpl in H; try discriminate H
  | H : (_ <$> ?m) = Ret _ |- _ =>
      let E := fresh "E" in destruct m eqn:E; simpl in H; try discriminate H
  | H : Ret _ = Ret _ |- _ => injection H; clear H; intros; subst
  end.

(** Run a bind on a value, without reducing the rest. *)
Ltac run_ret := cbn [mbind outcome_bind fmap outcome_fmap try_bind].

(** Turn boolean tests in hypotheses and goal into propositions. *)
Ltac bool_prop :=
  repeat match goal with
  | H : _ && _ = true |- _ => apply andb_prop in H; destruct H
  | H : (_ <=? _)%Z = true |- _ => apply Z.leb_le in H
  | H : (_ <=? _)%Z = false |- _ => apply Z.leb_gt in H
  | H : (_ <? _)%Z = true |- _ => apply Z.ltb_lt in H
  | H : (_ <? _)%Z = false |- _ => apply Z.ltb_ge in H
  | H : (_ =? _)%Z = true |- _ => apply Z.eqb_eq in H
  | H : (_ =? _)%Z = false |- _ => apply Z.eqb_neq in H
  | H : (_ <=? _)%nat = true |- _ => apply Nat.leb_le in H
  | H : (_ <=? _)%nat = false |- _ => apply Nat.leb_gt in H
  | H : (_ <? _)%nat = true |- _ => apply Nat.ltb_lt in H
  | H : (_ <? _)%nat = false |- _ => apply Nat.ltb_ge in H
  | H : (_ =? _)%nat = true |- _ => apply Nat.eqb_eq in H
  | H : (_ =? _)%nat = false |- _ => apply Nat.eqb_neq in H
  | H : negb _ = true |- _ => apply negb_true_iff in H
  | H : negb _ = false |- _ => apply negb_false_iff in H
  end.

(** ** Lemmas on slices and positions *)

Lemma slice_from_ok {A} (l : list A) n :
  n <= length l -> slice_from l n = Ret (drop n l).
Proof. intros H. unfold slice_from. by apply Nat.leb_le in H as ->. Qed.

Lemma slice_to_ok {A} (l : list A) n :
  n <= length l -> slice_to l n = Ret (take n l).
Proof. intros H. unfold slice_to. by apply Nat.leb_le in H as ->. Qed.

#[export] Hint Rewrite @slice_from_ok @slice_to_ok using (simpl in *; lia) : kernel.

(** What [position] finds splits the list at the first hit. *)
Lemma position_spec {A} (f : A -> bool) (l : list A) :
  match position f l with
  | None => Forall (fun x => f x = false) l
  | Some i => exists a x b, l = a ++ x :: b /\ length a = i /\ f x = true
                /\ Forall (fun x => f x = false) a
  end.
Proof.
  induction l as [|y l IH]; simpl; [constructor|].
  destruct (f y) eqn:E; [by exists [], y, l|].
  destruct (position f l) as [i|]; simpl.
  - destruct IH as (a & x & b & -> & <- & Hx & Ha).
    exists (y :: a), x, b. repeat split; auto.
  - by constructor.
Qed.

(** What [rposition] finds splits the list at the last hit. *)
Lemma rposition_spec {A} (f : A -> bool) (l : list A) :
  match rposition f l with
  | None => Forall (fun x => f x = false) l
  | Some i => exists a x b, l = a ++ x :: b /\ length a = i /\ f x = true
                /\ Forall (fun x => f x = false) b
  end.
Proof.
  induction l as [|y l IH]; simpl; [constructor|].
  destruct (rposition f l) as [i|]; simpl.
  - destruct IH as (a & x & b & -> & <- & Hx & Ha).
    exists (y :: a), x, b. repeat split; auto.
  - destruct (f y) eqn:E; [by exists [], y, l|]. by constructor.
Qed.

(** ** Lemmas on words and their bits *)

Local Open Scope Z_scope.

Lemma testbit_set x k j :
  0 <= k -> Z.testbit (Z.lor x (Z.shiftl 1 k)) j = Z.testbit x j || (j =? k).
Proof.
  intros Hk. rewrite Z.lor_spec, Z.shiftl_1_l, Z.pow2_bits_eqb by done.
  by rewrite Z.eqb_sym.
Qed.

Lemma testbit_clear w x k j :
  0 <= k -> 0 <= j < w ->
  Z.testbit (Z.land x (Z.lxor (Z.shiftl 1 k) (2 ^ w - 1))) j =
  Z.testbit x j && negb (j =? k).
Proof.
  intros Hk Hj. rewrite Z.land_spec, Z.lxor_spec, Z.shiftl_1_l, Z.pow2_bits_eqb by done.
  replace (2 ^ w - 1) with (Z.ones w) by (rewrite Z.ones_equiv; lia).
  rewrite Z.ones_spec_low by done. by rewrite xorb_true_r, Z.eqb_sym.
Qed.

(** The bits above the width are clear, exactly in a word of that width. *)
Lemma bits_above w x j : 0 <= x < 2 ^ w -> 0 <= w <= j -> Z.testbit x j = false.
Proof.
  intros Hx Hj. destruct (decide (x = 0)) as [->|]; [apply Z.testbit_0_l|].
  apply Z.bits_above_log2; [lia|]. apply Z.log2_lt_pow2; [lia|].
  apply Z.lt_le_trans with (2 ^ w); [lia|]. apply Z.pow_le_mono_r; lia.
Qed.

Lemma bits_above_range w x :
  0 <= w -> (forall j, w <= j -> Z.testbit x j = false) -> 0 <= x < 2 ^ w.
Proof.
  intros Hw Hb. assert (x = x mod 2 ^ w) as ->; [|apply Z.mod_pos_bound; lia].
  apply Z.bits_inj'. intros j Hj. destruct (decide (j < w)).
  - by rewrite Z.mod_pow2_bits_low by lia.
  - rewrite Z.mod_pow2_bits_high by lia. apply Hb. lia.
Qed.

Lemma set_bit_range w x k :
  0 <= x < 2 ^ w -> 0 <= k < w -> 0 <= Z.lor x (Z.shiftl 1 k) < 2 ^ w.
Proof.
  intros Hx Hk. apply bits_above_range; [lia|]. intros j Hj.
  rewrite testbit_set, (bits_above w x) by lia. simpl. lia.
Qed.

Lemma clear_bit_range w x y : 0 <= w -> 0 <= x < 2 ^ w -> 0 <= Z.land x y < 2 ^ w.
Proof.
  intros Hw Hx. apply bits_above_range; [lia|]. intros j Hj.
  by rewrite Z.land_spec, (bits_above w x) by lia.
Qed.

Lemma leading_ones_spec (w : nat) x :
  0 <= leading_ones w x <= Z.of_nat w /\
  (forall i, 0 <= i < leading_ones w x -> Z.testbit x (Z.of_nat w - 1 - i) = true) /\
  (leading_ones w x < Z.of_nat w ->
     Z.testbit x (Z.of_nat w - 1 - leading_ones w x) = false).
Proof.
  unfold leading_ones. induction w as [|w IH]; cbn [leading_ones_from]; [split_and!; lia|].
  destruct IH as (IHr & IHs & IHc).
  destruct (Z.testbit x (Z.of_nat w)) eqn:E.
  - split_and!; [lia|lia| |].
    + intros i Hi. destruct (decide (i = 0)) as [->|].
      { by replace (Z.of_nat (S w) - 1 - 0) with (Z.of_nat w) by lia. }
      replace (Z.of_nat (S w) - 1 - i) with (Z.of_nat w - 1 - (i - 1)) by lia.
      apply IHs. lia.
    + intros Hl. replace (Z.of_nat (S w) - 1 - (1 + leading_ones_from w x))
        with (Z.of_nat w - 1 - leading_ones_from w x) by lia.
      apply IHc. lia.
  - split_and!; [lia|lia|lia|].
    intros _. by replace (Z.of_nat (S w) - 1 - 0) with (Z.of_nat w) by lia.
Qed.

(** All bits of a word are set exactly when it is the largest word. *)
Lemma leading_ones_full (w : nat) x :
  0 <= x < 2 ^ Z.of_nat w -> leading_ones w x = Z.of_nat w <-> x = 2 ^ Z.of_nat w - 1.
Proof.
  intros Hx. destruct (leading_ones_spec w x) as (Hr & Hset & Hclr). split.
  - intros Hl. replace (2 ^ Z.of_nat w - 1) with (Z.ones (Z.of_nat w))
      by (rewrite Z.ones_equiv; lia).
    apply Z.bits_inj'. intros j Hj. destruct (decide (j < Z.of_nat w)).
    + rewrite Z.ones_spec_low by lia. rewrite Hl in Hset.
      replace j with (Z.of_nat w - 1 - (Z.of_nat w - 1 - j)) by lia. apply Hset. lia.
    + rewrite Z.ones_spec_high by lia. apply (bits_above (Z.of_nat w)); lia.
  - intros ->. destruct (decide (leading_ones w (2 ^ Z.of_nat w - 1) < Z.of_nat w)) as [Hl|]; [|lia].
    pose proof Hl as Hlt. apply Hclr in Hl. replace (2 ^ Z.of_nat w - 1) with (Z.ones (Z.of_nat w)) in * by (rewrite Z.ones_equiv; lia).
    rewrite Z.ones_spec_low in Hl; [done|lia].
Qed.

Lemma arith_ok prof w x : 0 <= x < 2 ^ w -> arith prof w x = Ret x.
Proof. intros Hx. unfold arith, in_width. by replace ((0 <=? x) && (x <? 2 ^ w)) with true by lia. Qed.

Lemma arith_overflow prof w x :
  x < 0 \/ 2 ^ w <= x ->
  arith prof w x = match prof with Debug => Panic | Release => Ret (x mod 2 ^ w) end.
Proof. intros Hx. unfold arith, in_width. by replace ((0 <=? x) && (x <? 2 ^ w)) with false by lia. Qed.

Lemma index_ok {A} (l : list A) n x : l !! n = Some x -> index l n = Ret x.
Proof. intros H. unfold index. by rewrite H. Qed.

Lemma index_set_ok {A} (l : list A) n x :
  (n < length l)%nat -> index_set l n x = Ret (<[n := x]> l).
Proof. intros H%Nat.ltb_lt. unfold index_set. by rewrite H. Qed.
