(* ===== verification/PathComponents.v ===== *)
(** * fs/path/components.rs: the double-ended component iterator *)

From Stdlib Require Import ZArith Lia.
From stdpp Require Import base list numbers strings.
From S2P Require Import Prelude.

(** ** Data *)

Definition SEPERATOR_BYTE : u8 := 47%Z.
Definition SEPERATOR_STR : str := [SEPERATOR_BYTE].
Definition DOT : u8 := 46%Z.

Inductive Component :=
| RootDir
| CurDir
| ParentDir
| Normal (s : str).

#[export] Instance Component_eq_dec : EqDecision Component.
Proof. solve_decision. Defined.

Inductive State := StartDir | Body | Done.

#[export] Instance State_eq_dec : EqDecision State.
Proof. solve_decision. Defined.

(** The derived order of [State]: declaration order. *)
Definition state_rank (s : State) : nat :=
  match s with StartDir => 0 | Body => 1 | Done => 2 end.

Record Components := mkComponents {
  path : str;
  has_physical_root : bool;
  front : State;
  back : State
}.

Definition set_path (c : Components) (p : str) : Components :=
  mkComponents p (has_physical_root c) (front c) (back c).
Definition set_front (c : Components) (s : State) : Components :=
  mkComponents (path c) (has_physical_root c) s (back c).
Definition set_back (c : Components) (s : State) : Components :=
  mkComponents (path c) (has_physical_root c) (front c) s.

(** ** Operations *)

Definition is_sep (b : u8) : bool := (b =? SEPERATOR_BYTE)%Z.

Definition has_physical_root_fn (s : str) : bool :=
  match s with
  | [] => false
  | b :: _ => is_sep b
  end.

Definition parse_single_component (comp : str) : option Component :=
  if bytes_eqb comp [DOT] || bytes_eqb comp [] then None
  else if bytes_eqb comp [DOT; DOT] then Some ParentDir
  else Some (Normal comp).

Definition new (p : str) : Components :=
  mkComponents p (has_physical_root_fn p) StartDir Body.

Definition has_root (c : Components) : bool := has_physical_root c.

Definition finished (c : Components) : bool :=
  bool_decide (front c = Done) || bool_decide (back c = Done)
  || (state_rank (back c) <? state_rank (front c)).

Definition include_cur_dir (c : Components) : bool :=
  if has_root c then false
  else match path c with
       | [b] => (b =? DOT)%Z
       | b :: b' :: _ => (b =? DOT)%Z && is_sep b'
       | [] => false
       end.

Definition len_before_body (c : Components) : nat :=
  let at_start := state_rank (front c) <=? state_rank StartDir in
  let root := if at_start && has_physical_root c then 1 else 0 in
  let cur_dir := if at_start && include_cur_dir c then 1 else 0 in
  root + cur_dir.

Definition parse_next_component (c : Components)
    : outcome (nat * option Component) :=
  _ ← rust_assert (bool_decide (front c = Body));
  '(extra, comp) ←
    match position is_sep (path c) with
    | None => Ret (0, path c)
    | Some i => comp ← slice_to (path c) i; Ret (1, comp)
    end;
  Ret (length comp + extra, parse_single_component comp).

Definition parse_next_component_back (c : Components)
    : outcome (nat * option Component) :=
  _ ← rust_assert (bool_decide (back c = Body));
  let start := len_before_body c in
  tl ← slice_from (path c) start;
  '(extra, comp) ←
    match rposition is_sep tl with
    | None => Ret (0, tl)
    | Some i => comp ← slice_from (path c) (start + i + 1); Ret (1, comp)
    end;
  Ret (length comp + extra, parse_single_component comp).

(** [&self.path[..self.path.len() - size]]: the subtraction panics when it
    would go below zero. *)
Definition drop_back (c : Components) (size : nat) : outcome Components :=
  if size <=? length (path c) then
    p ← slice_to (path c) (length (path c) - size); Ret (set_path c p)
  else Panic.
Definition drop_front (c : Components) (size : nat) : outcome Components :=
  p ← slice_from (path c) size; Ret (set_path c p).

Fixpoint trim_left_loop (fuel : nat) (c : Components) : outcome Components :=
  match fuel with
  | O => NoFuel
  | S fuel' =>
      match path c with
      | [] => Ret c
      | _ :: _ =>
          '(size, comp) ← parse_next_component c;
          match comp with
          | Some _ => Ret c
          | None => c' ← drop_front c size; trim_left_loop fuel' c'
          end
      end
  end.
Definition trim_left (c : Components) : outcome Components :=
  trim_left_loop (S (length (path c))) c.

Fixpoint trim_right_loop (fuel : nat) (c : Components) : outcome Components :=
  match fuel with
  | O => NoFuel
  | S fuel' =>
      if len_before_body c <? length (path c) then
        '(size, comp) ← parse_next_component_back c;
        match comp with
        | Some _ => Ret c
        | None => c' ← drop_back c size; trim_right_loop fuel' c'
        end
      else Ret c
  end.
Definition trim_right (c : Components) : outcome Components :=
  trim_right_loop (S (length (path c))) c.

Definition as_path (c : Components) : outcome str :=
  c ← (if bool_decide (front c = Body) then trim_left c else Ret c);
  c ← (if bool_decide (back c = Body) then trim_right c else Ret c);
  Ret (path c).

Fixpoint next_loop (fuel : nat) (c : Components)
    : outcome (option Component * Components) :=
  match fuel with
  | O => NoFuel
  | S fuel' =>
      if finished c then Ret (None, c)
      else match front c with
      | StartDir =>
          let c := set_front c Body in
          if has_physical_root c then
            _ ← rust_assert (negb (bytes_eqb (path c) []));
            c ← drop_front c 1;
            Ret (Some RootDir, c)
          else if include_cur_dir c then
            _ ← rust_assert (negb (bytes_eqb (path c) []));
            c ← drop_front c 1;
            Ret (Some CurDir, c)
          else next_loop fuel' c
      | Body =>
          match path c with
          | _ :: _ =>
              '(size, comp) ← parse_next_component c;
              c ← drop_front c size;
              match comp with
              | Some _ => Ret (comp, c)
              | None => next_loop fuel' c
              end
          | [] => next_loop fuel' (set_front c Done)
          end
      | Done => Panic
      end
  end.
Definition next (c : Components) : outcome (option Component * Components) :=
  next_loop (length (path c) + 3) c.

Fixpoint next_back_loop (fuel : nat) (c : Components)
    : outcome (option Component * Components) :=
  match fuel with
  | O => NoFuel
  | S fuel' =>
      if finished c then Ret (None, c)
      else match back c with
      | Body =>
          if len_before_body c <? length (path c) then
            '(size, comp) ← parse_next_component_back c;
            c ← drop_back c size;
            match comp with
            | Some _ => Ret (comp, c)
            | None => next_back_loop fuel' c
            end
          else next_back_loop fuel' (set_back c StartDir)
      | StartDir =>
          let c := set_back c Done in
          if has_physical_root c then
            c ← drop_back c 1;
            Ret (Some RootDir, c)
          else if include_cur_dir c then
            c ← drop_back c 1;
            Ret (Some CurDir, c)
          else next_back_loop fuel' c
      | Done => Panic
      end
  end.
Definition next_back (c : Components) : outcome (option Component * Components) :=
  next_back_loop (length (path c) + 4) c.

(** [AsRef<Path> for Component]. *)
Definition component_as_path (c : Component) : str :=
  match c with
  | RootDir => SEPERATOR_STR
  | CurDir => [DOT]
  | ParentDir => [DOT; DOT]
  | Normal s => s
  end.

(** ** Reference semantics: splitting the path at its separators *)

Fixpoint split_sep (s : str) : list str :=
  match s with
  | [] => [[]]
  | b :: s' =>
      if is_sep b then [] :: split_sep s'
      else match split_sep s' with
           | seg :: segs => (b :: seg) :: segs
           | [] => [[b]]
           end
  end.

Definition body_components (s : str) : list Component :=
  omap parse_single_component (split_sep s).

(** A leading [/] or a leading [.] segment. *)
Definition starts_cur_dir (s : str) : bool :=
  match s with
  | [b] => (b =? DOT)%Z
  | b :: b' :: _ => (b =? DOT)%Z && is_sep b'
  | [] => false
  end.
Definition start_components (s : str) : list Component :=
  if has_physical_root_fn s then [RootDir]
  else if starts_cur_dir s then [CurDir] else [].

Definition spec_components (s : str) : list Component :=
  start_components s ++ body_components s.

(** File names: what can be a [Normal] component. *)
Definition is_name (n : str) : bool :=
  forallb (fun b => negb (is_sep b)) n &&
  negb (bytes_eqb n []) && negb (bytes_eqb n [DOT]) && negb (bytes_eqb n [DOT; DOT]).

(** The components an iterator state has still to yield. *)
Definition remaining (c : Components) : list Component :=
  if finished c then []
  else match front c with
       | StartDir => spec_components (path c)
       | _ => body_components (path c)
       end.

(** The states the iterator reaches from [new]. *)
Definition wf (c : Components) : Prop :=
  (finished c = true -> path c = []) /\
  (finished c = false -> front c = StartDir ->
     has_physical_root c = has_physical_root_fn (path c) /\
     (back c = StartDir -> length (path c) <= len_before_body c)).

Example spec_ex : spec_components (lit "/usr/./lib//..") =
  [RootDir; Normal (lit "usr"); Normal (lit "lib"); ParentDir].
Proof. reflexivity. Qed.
Example next_ex : fst <$> next (new (lit "./a")) = Ret (Some CurDir).
Proof. reflexivity. Qed.
Example back_ex : fst <$> next_back (new (lit "./a/.")) = Ret (Some (Normal (lit "a"))).
Proof. reflexivity. Qed.

(** ** Splitting *)

Abbreviation no_sep s := (Forall (fun b => is_sep b = false) s).

Lemma is_sep_eq b : is_sep b = true -> b = SEPERATOR_BYTE.
Proof. apply Z.eqb_eq. Qed.

Lemma split_sep_no_sep s : no_sep s -> split_sep s = [s].
Proof. induction 1 as [|b s Hb _ IH]; simpl; [done|]. by rewrite Hb, IH. Qed.

Lemma split_sep_app a b :
  split_sep (a ++ SEPERATOR_BYTE :: b) = split_sep a ++ split_sep b.
Proof.
  induction a as [|x a IH]; simpl; [done|].
  destruct (is_sep x); rewrite IH; [done|].
  by destruct (split_sep a) eqn:E; [destruct a as [|y a]; simpl in E;
    [done|destruct (is_sep y), (split_sep a)]|].
Qed.

Lemma body_app a b :
  body_components (a ++ SEPERATOR_BYTE :: b) = body_components a ++ body_components b.
Proof. unfold body_components. by rewrite split_sep_app, omap_app. Qed.

Lemma body_no_sep s :
  no_sep s -> body_components s = option_list (parse_single_component s).
Proof.
  intros H. unfold body_components. rewrite split_sep_no_sep by done. simpl.
  by destruct (parse_single_component s).
Qed.

Lemma body_nil : body_components [] = [].
Proof. done. Qed.

(** The leading [/] or [.] contributes no body component. *)
Lemma body_drop_start s :
  body_components (drop (length (start_components s)) s) = body_components s.
Proof.
  unfold start_components. destruct s as [|x s]; [done|]. simpl.
  destruct (is_sep x) eqn:Hx; [apply is_sep_eq in Hx as ->; simpl|].
  - by change (SEPERATOR_BYTE :: s) with ([] ++ SEPERATOR_BYTE :: s); rewrite body_app.
  - destruct s as [|y s].
    + destruct (x =? DOT)%Z eqn:Hd; [|done]. apply Z.eqb_eq in Hd as ->. done.
    + destruct ((x =? DOT)%Z && is_sep y) eqn:Hd; [|done]. bool_prop. subst x.
      match goal with H : is_sep y = true |- _ => apply is_sep_eq in H as -> end.
      simpl. change (DOT :: SEPERATOR_BYTE :: s) with ([DOT] ++ SEPERATOR_BYTE :: s).
      change (SEPERATOR_BYTE :: s) with ([] ++ SEPERATOR_BYTE :: s) at 1.
      by rewrite !body_app.
Qed.

(** Cutting the path at a component boundary keeps its start. *)
Lemma start_components_prefix p r :
  length (start_components (p ++ r)) <= length p ->
  (r = [] \/ head r = Some SEPERATOR_BYTE \/ length p = length (start_components (p ++ r))) ->
  start_components p = start_components (p ++ r).
Proof.
  unfold start_components. destruct p as [|x p]; simpl.
  { intros Hl _. destruct (if has_physical_root_fn r then _ else _); [done|simpl in Hl; lia]. }
  destruct (is_sep x) eqn:Hx; [done|].
  destruct p as [|y p]; simpl; [|done].
  destruct r as [|y r]; simpl; [done|]. intros _ [?|[Hy|Hy]]; [done|simplify_eq|].
  - by rewrite andb_true_r.
  - destruct (x =? DOT)%Z; simpl in *; [|done]. by destruct (is_sep y).
Qed.

(** ** The start of an iterator state *)

Definition start_part (c : Components) : list Component :=
  match front c with StartDir => start_components (path c) | _ => [] end.

Definition root_ok (c : Components) : Prop :=
  front c = StartDir -> has_physical_root c = has_physical_root_fn (path c).

Lemma include_cur_dir_eq c :
  has_physical_root c = has_physical_root_fn (path c) ->
  include_cur_dir c = negb (has_physical_root_fn (path c)) && starts_cur_dir (path c).
Proof.
  intros H. unfold include_cur_dir, has_root, starts_cur_dir. rewrite H.
  by destruct (has_physical_root_fn (path c)).
Qed.

Lemma len_before_body_eq c : root_ok c -> len_before_body c = length (start_part c).
Proof.
  unfold root_ok, len_before_body, start_part, start_components.
  destruct (front c); simpl; intros H; [|done..].
  rewrite include_cur_dir_eq, H by auto.
  by destruct (has_physical_root_fn (path c)), (starts_cur_dir (path c)).
Qed.

Lemma start_part_len c : length (start_part c) <= length (path c).
Proof.
  unfold start_part, start_components. destruct (front c); simpl; [|lia..].
  destruct (path c) as [|x [|y p]]; simpl; [lia|..];
    destruct (is_sep x); simpl; try lia; [destruct (x =? DOT)%Z|destruct (_ && _)];
    simpl; lia.
Qed.

Lemma body_drop_start_part c :
  body_components (drop (length (start_part c)) (path c)) = body_components (path c).
Proof. unfold start_part. destruct (front c); [apply body_drop_start|done..]. Qed.

Lemma remaining_eq c :
  finished c = false -> remaining c = start_part c ++ body_components (path c).
Proof.
  intros H. unfold remaining, start_part, spec_components. rewrite H.
  by destruct (front c).
Qed.

(** ** Parsing one component at either end *)

Lemma parse_next_component_spec c :
  front c = Body ->
  exists size comp, parse_next_component c = Ret (size, comp) /\
    size <= length (path c) /\ (path c <> [] -> 0 < size) /\
    body_components (path c) = option_list comp ++ body_components (drop size (path c)).
Proof.
  intros Hf. unfold parse_next_component. rewrite Hf. simpl.
  pose proof (position_spec is_sep (path c)) as Hp.
  destruct (position is_sep (path c)) as [i|] eqn:E.
  - destruct Hp as (a & x & b & Hpath & <- & Hx & Ha). apply is_sep_eq in Hx as ->.
    rewrite Hpath, slice_to_ok by (rewrite length_app; lia). simpl.
    rewrite take_app_length. do 2 eexists. split_and!; [done|..].
    + rewrite length_app. simpl. lia.
    + lia.
    + rewrite body_app, body_no_sep by done.
      replace (length a + 1) with (length (a ++ [SEPERATOR_BYTE])) by (by rewrite length_app).
      change (SEPERATOR_BYTE :: b) with ([SEPERATOR_BYTE] ++ b).
      by rewrite (assoc_L (++)), drop_app_length.
  - do 2 eexists. split_and!; [done|..].
    + lia.
    + destruct (path c); [done|simpl; lia].
    + rewrite Nat.add_0_r, drop_all, body_nil, app_nil_r. by apply body_no_sep.
Qed.

(** The path splits into what stays and what the last component takes; the
    part that goes starts with a separator unless nothing but the start stays. *)
Lemma parse_next_component_back_spec c :
  back c = Body -> root_ok c ->
  exists p r seg,
    parse_next_component_back c = Ret (length r, parse_single_component seg) /\
    path c = p ++ r /\ length (start_part c) <= length p /\
    (length (start_part c) < length (path c) -> r <> []) /\
    ((r = SEPERATOR_BYTE :: seg) \/ (r = seg /\ length p = length (start_part c))) /\
    body_components (path c) = body_components p ++ option_list (parse_single_component seg).
Proof.
  intros Hb Hr. unfold parse_next_component_back. rewrite Hb, len_before_body_eq by done.
  simpl. pose proof (start_part_len c) as Hs.
  rewrite slice_from_ok by done. simpl.
  set (n := length (start_part c)) in *.
  pose proof (body_drop_start_part c) as Hbody. fold n in Hbody.
  pose proof (rposition_spec is_sep (drop n (path c))) as Hp.
  destruct (rposition is_sep (drop n (path c))) as [i|] eqn:E.
  - destruct Hp as (a & x & b & Hpath & <- & Hx & Ha). apply is_sep_eq in Hx as ->.
    assert (path c = (take n (path c) ++ a) ++ SEPERATOR_BYTE :: b) as Hsplit.
    { by rewrite <- (assoc_L (++)), <- Hpath, take_drop. }
    assert (drop (n + length a + 1) (path c) = b) as Hdrop.
    { rewrite <- Nat.add_assoc, <- drop_drop, Hpath.
      change (SEPERATOR_BYTE :: b) with ([SEPERATOR_BYTE] ++ b).
      rewrite (assoc_L (++)). apply drop_app_length'. by rewrite length_app. }
    assert (length (path c) = n + length a + S (length b)) as Hlen.
    { rewrite Hsplit, !length_app, length_take. simpl. lia. }
    rewrite slice_from_ok by lia. simpl. rewrite Hdrop.
    exists (take n (path c) ++ a), (SEPERATOR_BYTE :: b), b.
    split_and!.
    + simpl. by rewrite Nat.add_1_r.
    + done.
    + rewrite length_app, length_take. lia.
    + done.
    + by left.
    + rewrite <- (body_no_sep b) by done. by rewrite Hsplit at 1; rewrite body_app.
  - exists (take n (path c)), (drop n (path c)), (drop n (path c)).
    split_and!.
    + simpl. by rewrite Nat.add_0_r.
    + by rewrite take_drop.
    + rewrite length_take. lia.
    + intros Hlt Hnil. apply (f_equal length) in Hnil. rewrite length_drop in Hnil.
      simpl in Hnil. lia.
    + right. split; [done|]. rewrite length_take. lia.
    + rewrite <- (body_no_sep (drop n (path c))) by done. rewrite Hbody.
      assert (body_components (take n (path c)) = []) as ->; [|done].
      unfold n, start_part, start_components.
      destruct (front c); [|done..]. destruct (path c) as [|x0 p0]; [done|].
      unfold has_physical_root_fn.
      destruct (is_sep x0) eqn:Hx; [apply is_sep_eq in Hx as ->; done|].
      destruct (starts_cur_dir (x0 :: p0)) eqn:Hd; [|done].
      assert (x0 = DOT) as ->; [|done].
      destruct p0; simpl in Hd; bool_prop; done.
Qed.

(** ** Iterator states *)

Lemma finished_set_path c p : finished (set_path c p) = finished c.
Proof. done. Qed.

Lemma finished_front_done c : front c = Done -> finished c = true.
Proof. unfold finished. intros ->. done. Qed.

Lemma finished_back_done c : back c = Done -> finished c = true.
Proof. unfold finished. intros ->. by rewrite orb_true_r. Qed.

Lemma finished_body c : front c = Body -> back c = Body -> finished c = false.
Proof. unfold finished. by intros -> ->. Qed.

Lemma not_finished c :
  finished c = false ->
  (front c = StartDir /\ back c = StartDir) \/
  (front c = StartDir /\ back c = Body) \/ (front c = Body /\ back c = Body).
Proof. unfold finished. destruct (front c), (back c); simpl; naive_solver. Qed.

Lemma wf_new p : wf (new p).
Proof. split; done. Qed.

Lemma remaining_new p : remaining (new p) = spec_components p.
Proof. done. Qed.

Lemma wf_root_ok c : wf c -> finished c = false -> root_ok c.
Proof. intros [_ H] Hf Hs. by apply H. Qed.

(** In a reachable state the remaining components are the start and the body
    of the remaining path, also when the iterator is finished. *)
Lemma remaining_wf c :
  wf c -> remaining c = start_part c ++ body_components (path c).
Proof.
  intros [Hfin _]. destruct (finished c) eqn:E; [|by apply remaining_eq].
  unfold remaining, start_part. rewrite E, (Hfin eq_refl). by destruct (front c).
Qed.

Lemma wf_both_body c : front c = Body -> back c = Body -> wf c.
Proof.
  intros Hf Hb. split; rewrite finished_body by done; [done|]. by rewrite Hf.
Qed.

Lemma wf_empty c : path c = [] -> front c <> StartDir -> wf c.
Proof. intros Hp Hf. by split. Qed.

(** The path once the start has been taken from the front. *)
Lemma start_taken c r :
  wf c -> finished c = false -> front c = StartDir ->
  length (start_part c) = r ->
  wf (set_path (set_front c Body) (drop r (path c))).
Proof.
  intros [Hfin Hwf] Hnf Hf Hlen.
  destruct (Hwf Hnf Hf) as [Hroot Hback].
  destruct (not_finished c Hnf) as [[_ Hb]|[[_ Hb]|[? _]]]; [|by apply wf_both_body|congruence].
  apply wf_empty; [|done]. simpl. apply Hback in Hb.
  rewrite len_before_body_eq in Hb by (intros _; done). apply drop_ge. lia.
Qed.

#[export] Hint Resolve wf_new wf_root_ok : kernel.

(** ** Forward iteration *)

Lemma drop_front_ok c n :
  n <= length (path c) -> drop_front c n = Ret (set_path c (drop n (path c))).
Proof. intros H. unfold drop_front. by rewrite slice_from_ok. Qed.

Lemma drop_back_app c p r :
  path c = p ++ r -> drop_back c (length r) = Ret (set_path c p).
Proof.
  intros H. unfold drop_back. rewrite H, length_app.
  destruct (length r <=? _) eqn:E; bool_prop; [|lia].
  rewrite slice_to_ok by (rewrite length_app; lia). simpl.
  by rewrite Nat.add_sub, take_app_length.
Qed.

Definition front_measure (c : Components) : nat :=
  length (path c) + (2 - state_rank (front c)).

(** One turn of a loop: it returns the component [pick] selects, or it goes on
    from a state with the same components left and a smaller measure.  [rel]
    relates the state before with the result and the state after. *)
Definition turn (loop : nat -> Components -> outcome (option Component * Components))
    (measure : Components -> nat) (pick : list Component -> option Component)
    (rest : list Component -> list Component)
    (rel : Components -> option Component -> Components -> Prop)
    (fuel : nat) (c : Components) : Prop :=
  (exists c', loop (S fuel) c = Ret (pick (remaining c), c') /\
     wf c' /\ remaining c' = rest (remaining c) /\ rel c (pick (remaining c)) c') \/
  (exists c1, loop (S fuel) c = loop fuel c1 /\
     wf c1 /\ remaining c1 = remaining c /\ measure c1 < measure c /\
     (forall o c', rel c1 o c' -> rel c o c')).

Lemma turns_spec loop measure pick rest rel :
  (forall fuel c, wf c -> turn loop measure pick rest rel fuel c) ->
  forall fuel c, wf c -> measure c < fuel ->
  exists c', loop fuel c = Ret (pick (remaining c), c') /\
    wf c' /\ remaining c' = rest (remaining c) /\ rel c (pick (remaining c)) c'.
Proof.
  intros Hturn fuel. induction fuel as [|fuel IH]; intros c Hwf Hm; [lia|].
  destruct (Hturn fuel c Hwf) as [?|(c1 & -> & Hwf1 & <- & Hm1 & Hrel)]; [done|].
  destruct (IH c1 Hwf1) as (c' & ? & ? & ? & ?); [lia|]. eauto 10.
Qed.

Definition no_rel (_ : Components) (_ : option Component) (_ : Components) : Prop := True.
Abbreviation next_turn_at := (turn next_loop front_measure head tail no_rel).

Arguments starts_cur_dir : simpl never.

Lemma next_turn_start fuel c :
  wf c -> finished c = false -> front c = StartDir ->
  next_turn_at fuel c.
Proof.
  intros Hwf Hnf Hf. unfold turn. simpl. rewrite Hnf, Hf.
  pose proof (start_taken c _ Hwf Hnf Hf eq_refl) as Hst.
  pose proof (wf_root_ok c Hwf Hnf Hf) as Hroot.
  pose proof (remaining_wf _ Hst) as Hrest.
  rewrite (remaining_wf c) by done.
  rewrite <- body_drop_start_part.
  rewrite (include_cur_dir_eq (set_front c Body)) by done. simpl. rewrite Hroot.
  unfold start_part in *. rewrite Hf in *. unfold start_components in *.
  destruct (path c) as [|b p] eqn:Hp; simpl in *.
  { right. exists (set_front c Body). unfold front_measure. simpl. rewrite Hf, Hp. simpl.
    replace (set_front c Body) with (set_path (set_front c Body) []); [split_and!; [done|done|done|simpl; lia|done]|].
    unfold set_path. simpl. by rewrite <- Hp. }
  destruct (is_sep b); simpl in *;
    [|destruct (starts_cur_dir (b :: p)); simpl in *].
  1,2: left; rewrite drop_front_ok by (simpl; rewrite Hp; simpl; lia);
    simpl; rewrite Hp; simpl; rewrite ?drop_0 in *; eexists; by split_and!.
  right. exists (set_front c Body). unfold front_measure. simpl. rewrite Hf. simpl.
  replace (set_front c Body) with (set_path (set_front c Body) (b :: p)).
  { split_and!; [done|done|done|lia|done]. }
  unfold set_path. simpl. by rewrite <- Hp.
Qed.

Lemma next_turn_body fuel c :
  wf c -> finished c = false -> front c = Body ->
  next_turn_at fuel c.
Proof.
  intros Hwf Hnf Hf. unfold turn. simpl. rewrite Hnf, Hf.
  assert (back c = Body) as Hb by (destruct (not_finished c Hnf) as [[??]|[[??]|[??]]]; congruence).
  rewrite (remaining_wf c) by done. unfold start_part. rewrite Hf. simpl.
  destruct (path c) as [|b p] eqn:Hp.
  { right. exists (set_front c Done).
    assert (wf (set_front c Done)) by (by apply wf_empty).
    split_and!; [done..|unfold front_measure; simpl; rewrite Hp, Hf; simpl; lia|done]. }
  destruct (parse_next_component_spec c Hf) as (size & comp & -> & Hle & Hpos & Hbody).
  simpl. rewrite drop_front_ok by done. simpl. rewrite Hp in *.
  assert (wf (set_path c (drop size (b :: p)))) as Hwf' by (by apply wf_both_body).
  pose proof (remaining_wf _ Hwf') as Hrem. unfold start_part in Hrem. simpl in Hrem.
  rewrite Hf in Hrem. specialize (Hpos ltac:(done)).
  rewrite Hbody. destruct comp as [comp|]; simpl in *; [left; eexists; by split_and!|].
  right. eexists. split_and!; [done..| |done].
  unfold front_measure. simpl. rewrite length_drop, Hp. simpl. lia.
Qed.

Lemma next_turn fuel c : wf c -> next_turn_at fuel c.
Proof.
  intros Hwf. destruct (finished c) eqn:Hnf.
  { left. exists c. simpl. unfold remaining. by rewrite Hnf. }
  destruct (front c) eqn:Hf;
    [by apply next_turn_start|by apply next_turn_body|].
  by rewrite finished_front_done in Hnf.
Qed.

Lemma next_spec c :
  wf c -> exists c', next c = Ret (head (remaining c), c') /\
    wf c' /\ remaining c' = tail (remaining c).
Proof.
  intros Hwf.
  destruct (turns_spec _ _ _ _ _ next_turn (length (path c) + 3) c Hwf)
    as (c' & ? & ? & ? & _); [unfold front_measure; lia|eauto].
Qed.

(** ** Backward iteration *)

Lemma is_name_no_sep n : is_name n = true -> no_sep n.
Proof.
  unfold is_name. intros H. bool_prop. apply Forall_forall. intros b Hb.
  match goal with H : forallb _ _ = true |- _ =>
    rewrite forallb_forall in H; specialize (H b ltac:(by apply list_elem_of_In)) end.
  by bool_prop.
Qed.

Lemma is_name_parse n : is_name n = true -> parse_single_component n = Some (Normal n).
Proof.
  unfold is_name, parse_single_component. intros H. bool_prop.
  repeat match goal with H : bytes_eqb _ _ = false |- _ => rewrite H; clear H end. done.
Qed.

Lemma start_part_cases c :
  exists p, take (length (start_part c)) (path c) = p /\
    (p = [] \/ p = [SEPERATOR_BYTE] \/ p = [DOT]).
Proof.
  eexists. split; [done|]. unfold start_part, start_components, has_physical_root_fn.
  destruct (front c); [|by left..]. destruct (path c) as [|x p]; [by left|].
  destruct (is_sep x) eqn:Hx; [apply is_sep_eq in Hx as ->; right; by left|].
  destruct (starts_cur_dir (x :: p)) eqn:Hd; [|by left].
  right. right. unfold starts_cur_dir in Hd.
  by destruct p; bool_prop; subst.
Qed.

(** A name is longer than the start of a path. *)
Lemma name_not_start c n p q r :
  is_name n = true -> path c = p ++ r -> length p = length (start_part c) ->
  p = q ++ n \/ p = q ++ SEPERATOR_BYTE :: n -> False.
Proof.
  intros Hn Hp Hl Hq. destruct (start_part_cases c) as (p' & Hp' & Hc).
  rewrite Hp, <- Hl, take_app_length in Hp'. subst p'.
  pose proof (is_name_no_sep n Hn) as Hs. unfold is_name, bytes_eqb in Hn. bool_prop.
  repeat match goal with H : bool_decide _ = false |- _ => apply bool_decide_eq_false in H end.
  destruct n as [|x n]; [done|]. apply Forall_cons in Hs as [Hx _].
  destruct Hc as [->|[->| ->]], Hq as [Hq|Hq]; destruct q as [|? [|? q]]; simplify_eq/=; done.
Qed.

(** Where a path may be cut: before a separator, or after nothing but its start. *)
Definition cut (p t : str) : Prop :=
  t = [] \/ head t = Some SEPERATOR_BYTE \/ p = [] \/ p = [SEPERATOR_BYTE] \/ p = [DOT].

(** What a step from the back takes off the path, and where the name it yields
    stands in it. *)
Definition located (c : Components) (o : option Component) (c' : Components) : Prop :=
  front c' = front c /\ has_physical_root c' = has_physical_root c /\
  exists t, path c = path c' ++ t /\ cut (path c') t /\
    forall n, o = Some (Normal n) -> is_name n = true ->
      exists t', (t = n ++ t' \/ t = SEPERATOR_BYTE :: n ++ t') /\
        (t' = [] \/ head t' = Some SEPERATOR_BYTE).

Lemma cut_app p r t : cut p r -> cut (p ++ r) t -> cut p (r ++ t).
Proof.
  intros [->|Hp] Ht; [by rewrite app_nil_r in Ht|].
  destruct Hp as [Hh|Hp]; right; [left|by right].
  by destruct r.
Qed.

Lemma cut_back c p r seg :
  path c = p ++ r ->
  (r = SEPERATOR_BYTE :: seg) \/ (r = seg /\ length p = length (start_part c)) ->
  cut p r.
Proof.
  intros Hp [->|[_ Hl]]; unfold cut; [by right; left|].
  destruct (start_part_cases c) as (q & Hq & Hc).
  rewrite Hp, <- Hl, take_app_length in Hq. subst q. by right; right.
Qed.

(** Taking the last component off leaves a state of the iterator. *)
Lemma back_taken c p r seg :
  wf c -> finished c = false -> path c = p ++ r ->
  length (start_part c) <= length p ->
  (r = SEPERATOR_BYTE :: seg) \/ (r = seg /\ length p = length (start_part c)) ->
  back c = Body ->
  wf (set_path c p) /\ remaining (set_path c p) = start_part c ++ body_components p.
Proof.
  intros Hwf Hnf Hp Hle Hr Hb.
  assert (front c = StartDir -> start_components p = start_components (path c)) as Hst.
  { intros Hf. unfold start_part in *. rewrite Hf in *. rewrite Hp in *.
    apply start_components_prefix; [done|].
    destruct Hr as [->|[_ ->]]; [right; by left|by right; right]. }
  assert (wf (set_path c p)) as Hwf'.
  { split; simpl; [by rewrite finished_set_path, Hnf|]. intros _ Hf.
    rewrite Hb. split; [|done]. rewrite (wf_root_ok c Hwf Hnf Hf).
    specialize (Hst Hf). unfold start_components in Hst.
    destruct (has_physical_root_fn p), (has_physical_root_fn (path c)); try done;
      by destruct (starts_cur_dir _). }
  split; [done|]. rewrite remaining_wf by done. unfold start_part in *. simpl.
  destruct (front c); [|done..]. by rewrite Hst.
Qed.

Definition back_rank (s : State) : nat :=
  match s with Body => 2 | StartDir => 1 | Done => 0 end.
Definition back_measure (c : Components) : nat := length (path c) + back_rank (back c).
Abbreviation next_back_turn_at :=
  (turn next_back_loop back_measure last (@removelast Component) located).

Lemma next_back_turn_body fuel c :
  wf c -> finished c = false -> back c = Body -> next_back_turn_at fuel c.
Proof.
  intros Hwf Hnf Hb. pose proof (wf_root_ok c Hwf Hnf) as Hroot.
  unfold turn. simpl. rewrite Hnf, Hb, len_before_body_eq by done.
  rewrite (remaining_wf c) by done.
  destruct (length (start_part c) <? length (path c)) eqn:Hlt; bool_prop.
  - destruct (parse_next_component_back_spec c Hb Hroot)
      as (p & r & seg & -> & Hp & Hle & Hne & Hr & Hbody).
    simpl. rewrite (drop_back_app _ p r) by done. simpl.
    destruct (back_taken c p r seg) as [Hwf' Hrem]; [done..|].
    pose proof (cut_back _ _ _ _ Hp Hr) as Hcut.
    rewrite Hbody. specialize (Hne Hlt).
    destruct (parse_single_component seg) as [comp|] eqn:Hseg; simpl.
    + left. rewrite (assoc_L (++)), last_snoc, removelast_last. eexists.
      split_and!; [done..|]. split; [done|]. split; [done|].
      exists r. split_and!; [done..|].
      intros n [= ->] _. assert (seg = n) as ->.
      { unfold parse_single_component in Hseg. repeat case_match; congruence. }
      exists []. rewrite app_nil_r. split; [|by left]. by destruct Hr as [->|[-> _]]; [right|left].
    + right. rewrite app_nil_r. eexists. split_and!; [done..| |].
      { unfold back_measure. simpl. rewrite Hp, length_app.
        destruct r; [done|simpl; lia]. }
      intros o c' (? & ? & t & Ht & Hct & Hn). simpl in *.
      split; [done|]. split; [done|]. exists (t ++ r). rewrite Hp, Ht, (assoc_L (++)).
      split_and!; [done|rewrite Ht in Hcut; by apply cut_app|].
      intros n Ho Hname. destruct (Hn n Ho Hname) as (t' & Htn & Ht').
      exists (t' ++ r). split.
      { destruct Htn as [->| ->]; [left|right]; simpl; by rewrite (assoc_L (++)). }
      destruct t' as [|b t']; [|destruct Ht' as [?|[= ->]]; [done|by right]].
      simpl. destruct Hr as [->|[_ Hl]]; [by right|].
      exfalso. apply (name_not_start c n p (path c') r Hname Hp Hl).
      rewrite app_nil_r in Htn. by destruct Htn as [->| ->]; [left|right].
  - right. exists (set_back c StartDir).
    assert (wf (set_back c StartDir)) as Hwf'.
    { destruct (not_finished c Hnf) as [[??]|[[Hf _]|[Hf _]]]; [congruence|..].
      + split; [unfold finished; simpl; by rewrite Hf|]. intros _ _. split; [by apply Hroot|].
        intros _. rewrite len_before_body_eq by done. done.
      + apply wf_empty; simpl; [|congruence]. unfold start_part in Hlt.
        rewrite Hf in Hlt. simpl in Hlt. destruct (path c); [done|simpl in *; lia]. }
    split_and!; [done|done|by rewrite remaining_wf| |].
    + unfold back_measure. simpl. rewrite Hb. simpl. lia.
    + intros o c' H. done.
Qed.

Lemma next_back_turn_start fuel c :
  wf c -> finished c = false -> back c = StartDir -> next_back_turn_at fuel c.
Proof.
  intros Hwf Hnf Hb. pose proof (wf_root_ok c Hwf Hnf) as Hroot.
  destruct (not_finished c Hnf) as [[Hf _]|[[??]|[??]]]; [|congruence..].
  destruct Hwf as [Hfin Hwf]. destruct (Hwf Hnf Hf) as [Hr Hlen].
  specialize (Hlen Hb). rewrite len_before_body_eq in Hlen by done.
  pose proof (body_drop_start_part c) as Hbody.
  rewrite drop_ge, body_nil in Hbody by done.
  unfold turn. simpl. rewrite Hnf, Hb, remaining_eq, <- Hbody, app_nil_r by done.
  rewrite (include_cur_dir_eq (set_back c Done)) by done. simpl. rewrite Hr.
  unfold start_part in *. rewrite Hf in *. unfold start_components in *.
  assert (wf (set_path (set_back c Done) [])) as Hdone.
  { split; [done|]. intros Hn. by rewrite finished_back_done in Hn. }
  assert (remaining (set_path (set_back c Done) []) = []) as Hrem.
  { unfold remaining. by rewrite finished_back_done. }
  destruct (path c) as [|x [|y p]] eqn:Hp.
  - right. exists (set_back c Done). simpl.
    replace (set_back c Done) with (set_path (set_back c Done) [])
      by (unfold set_path; simpl; by rewrite <- Hp).
    split_and!; [done..| |].
    + unfold back_measure. simpl. rewrite Hb, Hp. simpl. lia.
    + intros o c' (? & ? & Ht). split; [done|]. split; [done|]. rewrite Hp. exact Ht.
  - left. rewrite (drop_back_app _ [] [x]) by (simpl; by rewrite Hp). simpl in *.
    destruct (is_sep x); simpl in *; [|destruct (starts_cur_dir [x]); simpl in *; [|lia]];
      (eexists; split_and!; [done..|]; split; [done|]; split; [done|]; simpl; rewrite Hp;
       exists [x]; split_and!; [done|by right; right; left|done]).
  - simpl in Hlen. destruct (is_sep x); simpl in *; [lia|].
    destruct (starts_cur_dir _); simpl in *; lia.
Qed.

Lemma next_back_turn fuel c : wf c -> next_back_turn_at fuel c.
Proof.
  intros Hwf. destruct (finished c) eqn:Hnf.
  { left. exists c. simpl. unfold remaining. rewrite Hnf. split_and!; [done..|].
    split; [done|]. split; [done|]. exists []. rewrite app_nil_r. by split_and!; [|left|]. }
  destruct (back c) eqn:Hb;
    [by apply next_back_turn_start|by apply next_back_turn_body|].
  by rewrite finished_back_done in Hnf.
Qed.

Lemma next_back_located c :
  wf c -> exists c', next_back c = Ret (last (remaining c), c') /\
    wf c' /\ remaining c' = removelast (remaining c) /\
    located c (last (remaining c)) c'.
Proof.
  intros Hwf. apply (turns_spec _ _ _ _ _ next_back_turn); [done|].
  unfold back_measure. destruct (back c); simpl; lia.
Qed.

Lemma next_back_spec c :
  wf c -> exists c', next_back c = Ret (last (remaining c), c') /\
    wf c' /\ remaining c' = removelast (remaining c).
Proof. intros Hwf. destruct (next_back_located c Hwf) as (c' & ? & ? & ? & _). eauto. Qed.

(** ** Trimming and [as_path] *)

(** Where trimming cuts: before a separator, or right after the start. *)
Definition trimmed (c : Components) (p t : str) : Prop :=
  path c = p ++ t /\ length (start_part c) <= length p /\
  (t = [] \/ head t = Some SEPERATOR_BYTE \/ length p = length (start_part c)).

Lemma trimmed_start c p t :
  front c = StartDir -> trimmed c p t -> start_components p = start_components (path c).
Proof.
  intros Hf (Hp & Hle & Ht). unfold start_part in *. rewrite Hf, Hp in *.
  by apply start_components_prefix.
Qed.

Lemma trimmed_start_part c p t :
  trimmed c p t -> start_part (set_path c p) = start_part c.
Proof.
  intros Ht. unfold start_part. simpl. destruct (front c) eqn:Hf; [|done..].
  by apply trimmed_start in Ht.
Qed.

Lemma trimmed_cut c p t : trimmed c p t -> cut p t.
Proof.
  intros (Hp & _ & Ht). destruct Ht as [->|[Ht|Hl]]; unfold cut; [tauto..|].
  destruct (start_part_cases c) as (q & Hq & Hc).
  rewrite Hp, <- Hl, take_app_length in Hq. subst q. tauto.
Qed.

Lemma trimmed_trans c p r p' t :
  trimmed c p r -> trimmed (set_path c p) p' t -> trimmed c p' (t ++ r).
Proof.
  intros Hpr Hpt. pose proof (trimmed_start_part _ _ _ Hpr) as Hsp.
  destruct Hpr as (Hp & Hle & Hr), Hpt as (Hp' & Hle' & Ht). simpl in *.
  rewrite Hsp in *. subst p. split; [by rewrite Hp, (assoc_L (++))|]. split; [done|].
  destruct Ht as [->|[Ht|Ht]].
  - by rewrite app_nil_r in *.
  - right. left. by destruct t.
  - by right; right.
Qed.

Lemma root_ok_trimmed c p t : root_ok c -> trimmed c p t -> root_ok (set_path c p).
Proof.
  intros Hr Ht Hf. simpl in *. rewrite (Hr Hf).
  apply trimmed_start in Ht; [|done]. unfold start_components in Ht.
  destruct (has_physical_root_fn p), (has_physical_root_fn (path c)); try done;
    by destruct (starts_cur_dir _).
Qed.

Lemma trim_right_loop_spec fuel c :
  back c = Body -> root_ok c -> length (path c) < fuel ->
  exists p t, trim_right_loop fuel c = Ret (set_path c p) /\ trimmed c p t /\
    body_components p = body_components (path c).
Proof.
  revert c. induction fuel as [|fuel IH]; intros c Hb Hr Hm; [lia|]. simpl.
  assert (set_path c (path c) = c) as Hid by (by destruct c).
  assert (trimmed c (path c) []) as Hid'.
  { split; [by rewrite app_nil_r|]. split; [apply start_part_len|by left]. }
  destruct (len_before_body c <? length (path c)) eqn:Hlt; [bool_prop|].
  2: { exists (path c), []. by rewrite Hid. }
  rewrite len_before_body_eq in Hlt by done.
  destruct (parse_next_component_back_spec c Hb Hr)
    as (p & r & seg & -> & Hp & Hle & Hne & Hseg & Hbody).
  simpl. destruct (parse_single_component seg) as [comp|].
  { exists (path c), []. by rewrite Hid. }
  rewrite (drop_back_app _ p r) by done. simpl in *. rewrite app_nil_r in Hbody.
  assert (trimmed c p r) as Hcut.
  { split; [done|]. split; [done|]. destruct Hseg as [->|[_ ?]]; [right; by left|by right; right]. }
  destruct (IH (set_path c p)) as (p' & t & -> & Ht & Hbody');
    [done|by apply (root_ok_trimmed c p r)| |].
  { simpl. specialize (Hne Hlt). rewrite Hp, length_app in Hm. destruct r; [done|simpl in *; lia]. }
  exists p', (t ++ r). split_and!; [done|by eapply trimmed_trans|by rewrite Hbody', Hbody].
Qed.

Lemma trim_left_loop_spec fuel c :
  front c = Body -> length (path c) < fuel ->
  exists p, trim_left_loop fuel c = Ret (set_path c p) /\
    body_components p = body_components (path c) /\ start_components p = [].
Proof.
  revert c. induction fuel as [|fuel IH]; intros c Hf Hm; [lia|]. simpl.
  assert (set_path c (path c) = c) as Hid by (by destruct c).
  destruct (path c) as [|b s] eqn:Hp.
  { exists []. by rewrite Hid. }
  destruct (parse_next_component_spec c Hf) as (size & comp & Hparse & Hle & Hpos & Hbody).
  rewrite Hparse. simpl. rewrite Hp in *. destruct comp as [comp|]; simpl in Hbody.
  - exists (b :: s). rewrite Hid. split_and!; [done|done|].
    unfold start_components. destruct (has_physical_root_fn (b :: s)) eqn:Hr.
    + exfalso. apply is_sep_eq in Hr as ->. unfold parse_next_component in Hparse.
      rewrite Hf, Hp in Hparse. by simpl in Hparse.
    + destruct (starts_cur_dir (b :: s)) eqn:Hc; [|done]. exfalso.
      unfold starts_cur_dir in Hc. unfold parse_next_component in Hparse.
      rewrite Hf, Hp in Hparse. simpl in Hparse, Hr. rewrite Hr in Hparse.
      destruct s as [|b' s]; bool_prop; subst b; [done|].
      match goal with H : is_sep b' = true |- _ => simpl in Hparse; rewrite H in Hparse end.
      done.
  - rewrite drop_front_ok by (rewrite Hp; done). simpl. rewrite Hp.
    destruct (IH (set_path c (drop size (b :: s)))) as (p & -> & Hb & Hs); [done| |].
    { simpl. rewrite length_drop. specialize (Hpos ltac:(done)). simpl in *. lia. }
    exists p. split_and!; [done|by rewrite Hb, Hbody|done].
Qed.

Lemma trim_right_spec c :
  back c = Body -> root_ok c ->
  exists p t, trim_right c = Ret (set_path c p) /\ trimmed c p t /\
    body_components p = body_components (path c).
Proof. intros. by apply trim_right_loop_spec; [..|lia]. Qed.

Lemma trim_left_spec c :
  front c = Body ->
  exists p, trim_left c = Ret (set_path c p) /\
    body_components p = body_components (path c) /\ start_components p = [].
Proof. intros. by apply trim_left_loop_spec; [|lia]. Qed.

(** [as_path] re-parses to what the iterator had left; before anything was
    taken from the front it is a prefix of the path, cut at a boundary. *)
Lemma as_path_spec c :
  wf c -> exists p, as_path c = Ret p /\ spec_components p = remaining c /\
    (front c = StartDir -> exists t, path c = p ++ t /\ cut p t).
Proof.
  intros Hwf. unfold as_path. rewrite remaining_wf by done.
  destruct (finished c) eqn:Hnf.
  { destruct Hwf as [Hfin _]. specialize (Hfin Hnf). exists [].
    unfold trim_left, start_part. rewrite Hfin. simpl. rewrite Hfin.
    assert ((if bool_decide (front c = Body) then Ret c else Ret c) = Ret c) as ->
      by (by case_match).
    simpl. unfold trim_right. simpl. rewrite Hfin.
    replace (len_before_body c <? length []) with false by (by destruct (len_before_body c)).
    split_and!; [by case_bool_decide; simpl; rewrite Hfin|by destruct (front c)|].
    intros _. exists []. by split; [|left]. }
  pose proof (wf_root_ok c Hwf Hnf) as Hroot.
  destruct (not_finished c Hnf) as [[Hf Hb]|[[Hf Hb]|[Hf Hb]]].
  - rewrite Hf. simpl. rewrite Hb. simpl. exists (path c). split_and!; [done|..].
    + unfold start_part. by rewrite Hf.
    + intros _. exists []. by rewrite app_nil_r; split; [|left].
  - rewrite Hf. simpl. rewrite Hb. simpl. destruct (trim_right_spec c Hb Hroot) as (p & t & -> & Ht & Hbody).
    simpl. exists p. split_and!; [done|..].
    + unfold spec_components, start_part. rewrite Hbody, Hf. f_equal.
      by apply trimmed_start in Ht.
    + intros _. exists t. split; [by destruct Ht|by apply trimmed_cut in Ht].
  - rewrite Hf. simpl. destruct (trim_left_spec c Hf) as (p & -> & Hbody & Hs). simpl.
    rewrite Hb. simpl.
    destruct (trim_right_spec (set_path c p)) as (q & t & -> & Ht & Hbody');
      [done|intros ?; simpl in *; congruence|].
    simpl. exists q. unfold start_part. rewrite Hf. split_and!; [done|..|done].
    unfold spec_components. simpl in *. rewrite Hbody', Hbody.
    destruct Ht as (Hpq & Hle & Ht). unfold start_part in Ht. simpl in *. rewrite Hf in Ht.
    subst p. rewrite (start_components_prefix q t), Hs; [done|by rewrite Hs; simpl; lia|by rewrite Hs].
Qed.

(** ** The iterator refines a double-ended queue of components *)

Variant step_end := Front | Back.

Fixpoint run (ops : list step_end) (c : Components)
    : outcome (list (option Component) * Components) :=
  match ops with
  | [] => Ret ([], c)
  | op :: ops' =>
      '(o, c) ← match op with Front => next c | Back => next_back c end;
      '(os, c) ← run ops' c;
      Ret (o :: os, c)
  end.

(** The queue: components leave at either end until none is left. *)
Fixpoint deque (ops : list step_end) (l : list Component)
    : list (option Component) * list Component :=
  match ops with
  | [] => ([], l)
  | Front :: ops' => let '(os, l') := deque ops' (tail l) in (head l :: os, l')
  | Back :: ops' => let '(os, l') := deque ops' (removelast l) in (last l :: os, l')
  end.

Lemma run_deque ops c :
  wf c -> exists c', run ops c = Ret (fst (deque ops (remaining c)), c') /\
    wf c' /\ remaining c' = snd (deque ops (remaining c)).
Proof.
  revert c. induction ops as [|[] ops IH]; intros c Hwf; simpl; [by eauto|..].
  - destruct (next_spec c Hwf) as (c1 & -> & Hwf1 & Hrem). simpl.
    destruct (IH c1 Hwf1) as (c' & -> & Hwf' & Hrem'). simpl.
    rewrite Hrem in *. destruct (deque ops _). eauto.
  - destruct (next_back_spec c Hwf) as (c1 & -> & Hwf1 & Hrem). simpl.
    destruct (IH c1 Hwf1) as (c' & -> & Hwf' & Hrem'). simpl.
    rewrite Hrem in *. destruct (deque ops _). eauto.
Qed.

(** C11: any interleaving of [next] and [next_back] on a path's [Components]
    returns (no panic, no endless loop), and yields exactly what taking the
    reference components of the path from the two ends of a queue yields. *)
Theorem components_refine_deque (p : str) (ops : list step_end) :
  exists c, run ops (new p) = Ret (fst (deque ops (spec_components p)), c) /\
    remaining c = snd (deque ops (spec_components p)).
Proof.
  destruct (run_deque ops (new p)) as (c & ? & _ & ?); eauto with kernel.
Qed.

(** C16: after any interleaving of steps, [as_path] returns a path whose
    components are exactly those the iterator has not yielded yet. *)
Theorem as_path_unyielded (p : str) (ops : list step_end) :
  exists os c q, run ops (new p) = Ret (os, c) /\ as_path c = Ret q /\
    spec_components q = snd (deque ops (spec_components p)).
Proof.
  destruct (run_deque ops (new p)) as (c & Hrun & Hwf & Hrem); [auto with kernel|].
  destruct (as_path_spec c Hwf) as (q & ? & Hq & _).
  do 3 eexists. split_and!; [done..|]. by rewrite Hq, Hrem.
Qed.

(** ** Printing and parsing back *)

(** The absolute path with these names. *)
Definition abs_path (names : list str) : str :=
  match names with
  | [] => SEPERATOR_STR
  | _ => concat (map (fun n => SEPERATOR_BYTE :: n) names)
  end.

#[export] Hint Resolve is_name_no_sep is_name_parse : kernel.

Lemma body_name n : is_name n = true -> body_components n = [Normal n].
Proof. intros H. rewrite body_no_sep by eauto with kernel. by rewrite is_name_parse. Qed.

Lemma body_abs_names names :
  Forall (fun n => is_name n = true) names ->
  body_components (concat (map (fun n => SEPERATOR_BYTE :: n) names)) = map Normal names.
Proof.
  induction names as [|n names IH] using rev_ind; intros H; [done|].
  rewrite Forall_app, Forall_singleton in H. destruct H as [Hs Hn].
  rewrite !map_app, concat_app. simpl. rewrite app_nil_r, body_app, IH, body_name by done.
  done.
Qed.

Lemma spec_abs_path names :
  Forall (fun n => is_name n = true) names ->
  spec_components (abs_path names) = RootDir :: map Normal names.
Proof.
  intros H. pose proof (body_abs_names names H) as Hb.
  destruct names as [|n names]; [done|].
  unfold spec_components, abs_path. by rewrite Hb.
Qed.

Lemma deque_front_all l :
  deque (replicate (length l) Front) l = (map Some l, []).
Proof. induction l as [|x l IH]; simpl; [done|]. by rewrite IH. Qed.

(** C19: printing an absolute path from file names and iterating over it gives
    the root and those names back, in order, and nothing after them. *)
Theorem abs_path_roundtrip (names : list str) :
  Forall (fun n => is_name n = true) names ->
  exists c, run (replicate (S (length names)) Front) (new (abs_path names)) =
      Ret (Some RootDir :: map (fun n => Some (Normal n)) names, c) /\
    exists c', next c = Ret (None, c').
Proof.
  intros H. pose proof (spec_abs_path names H) as Hs.
  pose proof (deque_front_all (RootDir :: map Normal names)) as Hd.
  rewrite <- Hs in Hd. rewrite Hs in Hd at 1. simpl length in Hd. rewrite length_map in Hd.
  destruct (run_deque (replicate (S (length names)) Front) (new (abs_path names)))
    as (c & Hrun & Hwf & Hrem); [auto with kernel|].
  rewrite remaining_new, Hd in *. rewrite Hs in Hrun. simpl in Hrem.
  exists c. split; [rewrite Hrun; simpl; by rewrite map_map|].
  destruct (next_spec c Hwf) as (c' & Hn & _). rewrite Hrem in Hn. eauto.
Qed.

Lemma abs_path_roundtrip_witness :
  Forall (fun n => is_name n = true) [lit "usr"; lit "lib"] /\
  exists c, run (replicate 3 Front) (new (lit "/usr/lib")) =
      Ret ([Some RootDir; Some (Normal (lit "usr")); Some (Normal (lit "lib"))], c) /\
    exists c', next c = Ret (None, c').
Proof.
  assert (Forall (fun n => is_name n = true) [lit "usr"; lit "lib"]) as H
    by (repeat constructor).
  split; [exact H|]. exact (abs_path_roundtrip [lit "usr"; lit "lib"] H).
Defined.
