(* ===== verification/Path.v ===== *)
(** * fs/path/mod.rs and fs/path/ancestors.rs: queries on paths *)

From Stdlib Require Import ZArith Lia.
From stdpp Require Import base list numbers strings sets.
From S2P Require Import Prelude PathComponents.

(** ** The iterator interface *)

(** [Iterator<Item = Component>], as [iter_after] uses it. *)
Class ComponentIter (I : Type) := {
  it_next : I -> outcome (option Component * I)
}.

(** What an implementation promises: a list of components to come, shortened
    by every step. *)
Class ComponentIterLaws (I : Type) `{ComponentIter I} := {
  it_view : I -> list Component;
  it_inv : I -> Prop;
  it_next_law : forall i, it_inv i ->
    exists i', it_next i = Ret (head (it_view i), i') /\
      it_inv i' /\ it_view i' = tail (it_view i)
}.

#[export] Instance components_iter : ComponentIter Components := {| it_next := next |}.

(** [Iterator::rev]. *)
Record Rev := mkRev { unrev : Components }.
#[export] Instance rev_iter : ComponentIter Rev := {|
  it_next r := '(o, c) ← next_back (unrev r); Ret (o, mkRev c)
|}.

(** ** Operations of [path/mod.rs] *)

Inductive StripPrefixError := strip_prefix_error.

Definition components (p : str) : Components := new p.
Definition path_has_root (p : str) : bool := has_root (components p).
Definition is_absolute (p : str) : bool := path_has_root p.
Definition is_relative (p : str) : bool := negb (is_absolute p).

Definition parent (p : str) : outcome (option str) :=
  '(comp, comps) ← next_back (components p);
  match comp with
  | Some (CurDir | ParentDir | Normal _) => q ← as_path comps; Ret (Some q)
  | Some RootDir => Ret None
  | None => Ret None
  end.

Definition file_name (p : str) : outcome (option str) :=
  '(comp, _) ← next_back (components p);
  match comp with
  | Some (Normal n) => Ret (Some n)
  | _ => Ret None
  end.

Fixpoint iter_after {I J} `{ComponentIter I, ComponentIter J}
    (fuel : nat) (iter : I) (prefix : J) : outcome (option I) :=
  match fuel with
  | O => NoFuel
  | S fuel' =>
      '(x, iter_next) ← it_next iter;
      '(y, prefix) ← it_next prefix;
      match x, y with
      | Some x, Some y =>
          if bool_decide (x = y) then iter_after fuel' iter_next prefix else Ret None
      | None, Some _ => Ret None
      | _, None => Ret (Some iter)
      end
  end.

(** Turns of [iter_after]: one more than the components of the prefix, which
    are at most two more than its bytes. *)
Definition after_fuel (base : str) : nat := length base + 3.

Definition strip_prefix (p base : str) : outcome (result str StripPrefixError) :=
  o ← iter_after (after_fuel base) (components p) (components base);
  match o with
  | Some c => q ← as_path c; Ret (Ok q)
  | None => Ret (Err strip_prefix_error)
  end.

Definition starts_with (p base : str) : outcome bool :=
  o ← iter_after (after_fuel base) (components p) (components base);
  Ret (bool_decide (is_Some o)).

Definition ends_with (p child : str) : outcome bool :=
  o ← iter_after (after_fuel child) (mkRev (components p)) (mkRev (components child));
  Ret (bool_decide (is_Some o)).

Definition is_dot (b : u8) : bool := (b =? DOT)%Z.

Definition rsplit_file_at_dot (file : str) : option str * option str :=
  if bytes_eqb file [DOT; DOT] then (Some file, None)
  else
    let '(after, before) :=
      match rposition is_dot file with
      | Some i => (Some (drop (S i) file), Some (take i file))
      | None => (Some file, None)
      end in
    if bool_decide (before = Some []) then (Some file, None) else (before, after).

(** The position [chars().position] finds counts characters, not bytes. *)
Definition split_file_at_dot (file : str) : outcome (str * option str) :=
  if bytes_eqb file [DOT; DOT] then Ret (file, None)
  else
    tl ← str_from file 1;
    match position (fun c => bytes_eqb c [DOT]) (chars tl) with
    | None => Ret (file, None)
    | Some i =>
        let i := i + 1 in
        before ← str_to file i;
        after ← str_from file (i + 1);
        Ret (before, Some after)
    end.

Definition option_or {A} (a b : option A) : option A :=
  match a with Some _ => a | None => b end.
Definition option_and {A B} (a : option A) (b : option B) : option B :=
  match a with Some _ => b | None => None end.

Definition file_stem (p : str) : outcome (option str) :=
  n ← file_name p;
  Ret (n ≫= fun n => let '(before, after) := rsplit_file_at_dot n in option_or before after).

Definition extension (p : str) : outcome (option str) :=
  n ← file_name p;
  Ret (n ≫= fun n => let '(before, after) := rsplit_file_at_dot n in option_and before after).

Definition file_prefix (p : str) : outcome (option str) :=
  n ← file_name p;
  match n with
  | None => Ret None
  | Some n => '(before, _) ← split_file_at_dot n; Ret (Some before)
  end.

(** ** [ancestors.rs] *)

Record Ancestors := mkAncestors { anc_next : option str }.

Definition ancestors (p : str) : Ancestors := mkAncestors (Some p).

Definition ancestors_next (a : Ancestors) : outcome (option str * Ancestors) :=
  let next := anc_next a in
  n ← match next with Some p => parent p | None => Ret None end;
  Ret (next, mkAncestors n).

(** A [for] loop over the ancestors, collecting them. *)
Fixpoint collect_ancestors (fuel : nat) (a : Ancestors) : outcome (list str) :=
  match fuel with
  | O => NoFuel
  | S fuel' =>
      '(o, a) ← ancestors_next a;
      match o with
      | None => Ret []
      | Some p => ps ← collect_ancestors fuel' a; Ret (p :: ps)
      end
  end.

Example parent_ex : parent (lit "/usr/./lib/") = Ret (Some (lit "/usr")).
Proof. reflexivity. Qed.
Example strip_ex : strip_prefix (lit "/usr//./lib/x") (lit "/usr/") = Ret (Ok (lit "lib/x")).
Proof. reflexivity. Qed.
Example ends_ex : ends_with (lit "/usr/lib/x") (lit "lib/x") = Ret true.
Proof. reflexivity. Qed.
Example ext_ex : extension (lit "/a/b.tar.gz") = Ret (Some (lit "gz")).
Proof. reflexivity. Qed.
Example stem_ex : file_stem (lit "/a/.bashrc") = Ret (Some (lit ".bashrc")).
Proof. reflexivity. Qed.
Example anc_ex : collect_ancestors 10 (ancestors (lit "/a/b")) =
  Ret [lit "/a/b"; lit "/a"; lit "/"].
Proof. reflexivity. Qed.
Example anc_rel_ex : collect_ancestors 10 (ancestors (lit "../a")) =
  Ret [lit "../a"; lit ".."; []].
Proof. reflexivity. Qed.
Example prefix_ex : file_prefix (lit "/a/b.tar.gz") = Ret (Some (lit "b")).
Proof. reflexivity. Qed.
(* "aéb.c": the dot is character 3 but byte 4 *)
Example prefix_bad : file_prefix [97; 195; 169; 98; 46; 99]%Z = Ret (Some [97; 195; 169]%Z).
Proof. reflexivity. Qed.
Example prefix_panic : file_prefix [195; 169; 46; 99]%Z = Panic.
Proof. reflexivity. Qed.

(** ** The two iterators keep the interface's promise *)

Lemma head_rev {A} (l : list A) : head (rev l) = last l.
Proof.
  induction l as [|x l IH] using rev_ind; [done|].
  by rewrite rev_app_distr, last_snoc.
Qed.

Lemma tail_rev {A} (l : list A) : tail (rev l) = rev (removelast l).
Proof.
  induction l as [|x l IH] using rev_ind; [done|].
  by rewrite rev_app_distr, removelast_last.
Qed.

#[export] Instance components_laws : ComponentIterLaws Components := {|
  it_view := remaining;
  it_inv := wf;
  it_next_law := next_spec
|}.

#[export, refine] Instance rev_laws : ComponentIterLaws Rev := {|
  it_view r := rev (remaining (unrev r));
  it_inv r := wf (unrev r)
|}.
Proof.
  intros [c] Hwf. simpl in *.
  destruct (next_back_spec c Hwf) as (c' & -> & Hwf' & Hrem). simpl.
  exists (mkRev c'). rewrite head_rev, tail_rev. simpl. by rewrite Hrem.
Defined.

(** ** [iter_after] against the interface *)

Section iter_after.
Context {I J : Type} `{ComponentIterLaws I, ComponentIterLaws J}.

(** [iter_after] walks past a prefix and gives back the iterator behind it. *)
Lemma iter_after_spec fuel (i : I) (j : J) :
  it_inv i -> it_inv j -> length (it_view j) < fuel ->
  (exists i', iter_after fuel i j = Ret (Some i') /\ it_inv i' /\
     it_view i = it_view j ++ it_view i') \/
  (iter_after fuel i j = Ret None /\ ~ it_view j `prefix_of` it_view i).
Proof.
  revert i j. induction fuel as [|fuel IH]; intros i j Hi Hj Hf; [lia|]. simpl.
  destruct (it_next_law i Hi) as (i' & -> & Hi' & Hvi). simpl.
  destruct (it_next_law j Hj) as (j' & -> & Hj' & Hvj). simpl.
  destruct (it_view j) as [|y vj] eqn:Ej; simpl in *.
  { left. exists i. split; [by destruct (head (it_view i))|done]. }
  destruct (it_view i) as [|x vi] eqn:Ei; simpl in *.
  { right. split; [done|]. by intros ?%prefix_nil_inv. }
  case_bool_decide as Hxy.
  - subst y. destruct (IH i' j') as [(i'' & -> & ? & Hv)|[-> Hn]]; [done..|rewrite Hvj; lia| |].
    + left. exists i''. split_and!; [done..|]. simpl. by rewrite <- Hvj, <- Hv, Hvi.
    + right. split; [done|]. intros Hp%prefix_cons_inv_2. apply Hn. by rewrite Hvi, Hvj.
  - right. split; [done|]. intros Hp%prefix_cons_inv_1. done.
Qed.

Lemma iter_after_is_some fuel (i : I) (j : J) :
  it_inv i -> it_inv j -> length (it_view j) < fuel ->
  exists o, iter_after fuel i j = Ret o /\
    (is_Some o <-> it_view j `prefix_of` it_view i).
Proof.
  intros Hi Hj Hf. destruct (iter_after_spec fuel i j) as [(i' & -> & _ & ->)|[-> Hn]];
    [done..| |].
  - eexists. split; [done|]. split; [|by eauto]. intros _. by eexists.
  - eexists. split; [done|]. by split; [intros [??]|].
Qed.
End iter_after.

(** ** How many components a path has *)

Lemma split_sep_length s : length (split_sep s) <= S (length s).
Proof.
  induction s as [|b s IH]; simpl; [lia|].
  destruct (is_sep b); simpl; [lia|]. destruct (split_sep s); simpl in *; lia.
Qed.

Lemma omap_length {A B} (f : A -> option B) l : length (omap f l) <= length l.
Proof. induction l as [|x l IH]; csimpl; [lia|]. destruct (f x); csimpl; lia. Qed.

Lemma spec_components_length p : length (spec_components p) <= length p + 2.
Proof.
  unfold spec_components, body_components. rewrite length_app.
  pose proof (omap_length parse_single_component (split_sep p)).
  pose proof (split_sep_length p). unfold start_components.
  repeat case_match; simpl; lia.
Qed.

(** ** [strip_prefix], [starts_with], [ends_with] *)

Lemma strip_prefix_spec p base :
  (exists q, strip_prefix p base = Ret (Ok q) /\
     spec_components p = spec_components base ++ spec_components q) \/
  (strip_prefix p base = Ret (Err strip_prefix_error) /\
     ~ spec_components base `prefix_of` spec_components p).
Proof.
  unfold strip_prefix. pose proof (spec_components_length base) as Hlen.
  destruct (iter_after_spec (after_fuel base) (components p) (components base))
    as [(c & -> & Hc & Hv)|[-> Hn]];
    [apply wf_new..|unfold after_fuel; change (length (spec_components base) < length base + 3); lia| |by right].
  destruct (as_path_spec c Hc) as (q & Hq & Hsq & _). simpl. rewrite Hq. simpl.
  left. exists q. by rewrite Hsq.
Qed.

(** C30: [strip_prefix] succeeds exactly when the components of [base] are a
    prefix of those of the path, and what it returns has the other components. *)
Theorem strip_prefix_correct (p base : str) :
  (exists q, strip_prefix p base = Ret (Ok q) /\
     spec_components p = spec_components base ++ spec_components q) \/
  (strip_prefix p base = Ret (Err strip_prefix_error) /\
     ~ spec_components base `prefix_of` spec_components p).
Proof. apply strip_prefix_spec. Qed.

Lemma prefix_rev {A} (a b : list A) : rev a `prefix_of` rev b <-> a `suffix_of` b.
Proof.
  split; intros [k Hk].
  - exists (rev k). by rewrite <- (rev_involutive b), Hk, rev_app_distr, rev_involutive.
  - exists (rev k). by rewrite Hk, rev_app_distr.
Qed.

Lemma starts_ends_with_spec (p q : str) :
  starts_with p q = Ret (bool_decide (spec_components q `prefix_of` spec_components p)) /\
  ends_with p q = Ret (bool_decide (spec_components q `suffix_of` spec_components p)).
Proof.
  pose proof (spec_components_length q) as Hlen. split.
  - unfold starts_with.
    destruct (iter_after_is_some (after_fuel q) (components p) (components q))
      as (o & -> & Ho);
      [apply wf_new..|unfold after_fuel; change (length (spec_components q) < length q + 3); lia|].
    simpl. by rewrite (bool_decide_ext _ _ Ho).
  - unfold ends_with.
    destruct (iter_after_is_some (after_fuel q) (mkRev (components p)) (mkRev (components q)))
      as (o & -> & Ho);
      [apply wf_new..|unfold after_fuel; simpl; rewrite length_rev; change (length (spec_components q) < length q + 3); lia|].
    simpl in Ho |- *. rewrite prefix_rev in Ho. by rewrite (bool_decide_ext _ _ Ho).
Qed.

(** [starts_with] and [ends_with] decide whether the components of the
    argument are a prefix, respectively a suffix, of those of the path. *)
Theorem starts_ends_with_correct (p q : str) :
  starts_with p q = Ret (bool_decide (spec_components q `prefix_of` spec_components p)) /\
  ends_with p q = Ret (bool_decide (spec_components q `suffix_of` spec_components p)).
Proof. apply starts_ends_with_spec. Qed.

(** ** [parent] and [file_name] *)

(** The parent's components; a parent is a prefix of the path, cut between
    components. *)
Definition parent_components (l : list Component) : option (list Component) :=
  match last l with
  | None | Some RootDir => None
  | Some _ => Some (removelast l)
  end.

Lemma parent_spec p :
  exists o, parent p = Ret o /\
    spec_components <$> o = parent_components (spec_components p) /\
    forall q, o = Some q -> exists t, p = q ++ t /\ cut q t.
Proof.
  unfold parent.
  destruct (next_back_located (components p) (wf_new p)) as (c & -> & Hwf & Hrem & Hloc).
  unfold components in *. rewrite remaining_new in *. simpl.
  destruct Hloc as (Hf & _ & t & Hp & Hcut & _). simpl in Hp, Hf.
  destruct (as_path_spec c Hwf) as (q & Hq & Hsq & Hpre).
  destruct (Hpre Hf) as (t' & Ht' & Hcut'). rewrite Hrem in Hsq.
  assert (forall q0, Some q = Some q0 -> exists t, p = q0 ++ t /\ cut q0 t) as Hres.
  { intros ? [= <-]. exists (t' ++ t). rewrite Hp, Ht', (assoc_L (++)).
    split; [done|]. rewrite Ht' in Hcut. by apply cut_app. }
  unfold parent_components. destruct (last (spec_components p)) as [[]|];
    rewrite ?Hq; simpl; eexists; split_and!; try done; simpl; by rewrite Hsq.
Qed.

(** C31: [parent] drops exactly the last component; only the root and a path
    without components have no parent.  As a string the parent is a prefix. *)
Theorem parent_correct (p : str) :
  exists o, parent p = Ret o /\
    spec_components <$> o = parent_components (spec_components p) /\
    forall q, o = Some q -> q `prefix_of` p.
Proof.
  destruct (parent_spec p) as (o & Hp & Hs & Hq). exists o. split_and!; [done..|].
  intros q Ho. destruct (Hq q Ho) as (t & -> & _). by exists t.
Qed.

Lemma file_name_spec p :
  file_name p = Ret (match last (spec_components p) with
                     | Some (Normal n) => Some n | _ => None end).
Proof.
  unfold file_name. destruct (next_back_spec (components p) (wf_new p)) as (c & -> & _ & _).
  simpl. unfold components. rewrite remaining_new. by destruct (last _) as [[]|].
Qed.

(** ** [ancestors] *)

Lemma removelast_prefix {A} (l : list A) : removelast l `prefix_of` l.
Proof.
  destruct l as [|x l _] using rev_ind; [done|]. rewrite removelast_last. by exists [x].
Qed.

Lemma removelast_length {A} (l : list A) : l <> [] -> length l = S (length (removelast l)).
Proof.
  destruct l as [|x l _] using rev_ind; [done|]. rewrite removelast_last, length_app.
  simpl. lia.
Qed.

Lemma collect_ancestors_spec fuel p :
  length (spec_components p) + 1 < fuel ->
  exists l, collect_ancestors fuel (ancestors p) = Ret (p :: l) /\
    length l <= length (spec_components p) /\
    Forall (fun a => spec_components a `prefix_of` spec_components p) l.
Proof.
  revert p. induction fuel as [|fuel IH]; intros p Hf; [lia|]. simpl.
  unfold ancestors_next. simpl.
  destruct (parent_spec p) as (o & -> & Hs & _). simpl.
  destruct o as [q|]; simpl in *.
  - unfold parent_components in Hs.
    assert (spec_components q = removelast (spec_components p) /\ spec_components p <> [])
      as [Hq Hne].
    { destruct (spec_components p) as [|x l] eqn:E; [done|].
      split; [|done]. by destruct (last (x :: l)) as [[]|]; simplify_eq. }
    pose proof (removelast_length _ Hne) as Hlen. rewrite <- Hq in Hlen.
    destruct (IH q) as (l & Hl & Hle & Hall); [lia|]. unfold ancestors in Hl. rewrite Hl.
    simpl. exists (q :: l). split_and!; [done|simpl; lia|].
    constructor; [rewrite Hq; apply removelast_prefix|].
    eapply Forall_impl; [exact Hall|]. simpl. intros a Ha.
    transitivity (spec_components q); [done|]. rewrite Hq. apply removelast_prefix.
  - destruct fuel; [lia|]. simpl. exists []. split_and!; [done|simpl; lia|done].
Qed.

(** C32: the loop over [ancestors] ends, after at most one path per component
    beyond the path itself, and stripping any ancestor from the path succeeds
    (so [DirectoryCache::_get] never panics on its [unwrap]). *)
Theorem ancestors_strip (p : str) :
  exists l, collect_ancestors (length p + 4) (ancestors p) = Ret (p :: l) /\
    length l <= length (spec_components p) /\
    Forall (fun a => exists q, strip_prefix p a = Ret (Ok q) /\
              spec_components p = spec_components a ++ spec_components q) (p :: l).
Proof.
  pose proof (spec_components_length p) as Hlen.
  destruct (collect_ancestors_spec (length p + 4) p) as (l & Hl & Hle & Hall); [lia|].
  exists l. split_and!; [done..|].
  assert (forall a, spec_components a `prefix_of` spec_components p ->
    exists q, strip_prefix p a = Ret (Ok q) /\
      spec_components p = spec_components a ++ spec_components q) as H.
  { intros a Ha. destruct (strip_prefix_spec p a) as [?|[_ Hn]]; [done|]. done. }
  constructor; [by apply H|]. by eapply Forall_impl; [exact Hall|].
Qed.

(** ** File names, stems and extensions *)

Lemma parse_single_name seg n :
  no_sep seg -> parse_single_component seg = Some (Normal n) -> is_name n = true.
Proof.
  unfold parse_single_component, is_name. intros Hs H.
  destruct (bytes_eqb seg [DOT]) eqn:E1; [done|].
  destruct (bytes_eqb seg []) eqn:E2; [done|]. simpl in H.
  destruct (bytes_eqb seg [DOT; DOT]) eqn:E3; [done|]. injection H as <-.
  rewrite E1, E2, E3. simpl. rewrite !andb_true_r. apply forallb_forall.
  intros b Hb. rewrite Forall_forall in Hs. rewrite Hs; [done|].
  by apply list_elem_of_In.
Qed.

Lemma split_sep_segments s : Forall (fun seg => no_sep seg) (split_sep s).
Proof.
  induction s as [|b s IH]; simpl; [by repeat constructor|].
  destruct (is_sep b) eqn:Hb; [by constructor|].
  destruct (split_sep s); [by repeat constructor|].
  inversion IH; subst. by repeat constructor.
Qed.

Lemma spec_components_names p n : Normal n ∈ spec_components p -> is_name n = true.
Proof.
  unfold spec_components, body_components. rewrite elem_of_app. intros [H|H].
  - exfalso. unfold start_components in H.
    destruct (has_physical_root_fn p), (starts_cur_dir p);
      by repeat (apply elem_of_cons in H as [?|H]; [done|]); apply elem_of_nil in H.
  - apply list_elem_of_omap in H as (seg & Hin & Hseg).
    eapply parse_single_name; [|exact Hseg].
    pose proof (split_sep_segments p) as Hall. rewrite Forall_forall in Hall. by apply Hall.
Qed.

Lemma file_name_is_name p n : file_name p = Ret (Some n) -> is_name n = true.
Proof.
  rewrite file_name_spec. intros H.
  destruct (last (spec_components p)) as [[]|] eqn:E; simplify_eq.
  apply (spec_components_names p). by apply last_Some_elem_of.
Qed.

#[export] Hint Resolve file_name_is_name : kernel.

Lemma is_name_not_special n :
  is_name n = true -> bytes_eqb n [DOT; DOT] = false /\ n <> [].
Proof.
  unfold is_name. intros H. bool_prop. split; [done|]. by intros ->.
Qed.

(** Has [n] a dot behind its first byte? *)
Definition has_extension (n : str) : Prop :=
  exists a b, a <> [] /\ n = a ++ DOT :: b.

Lemma is_dot_eq b : is_dot b = true -> b = DOT.
Proof. apply Z.eqb_eq. Qed.

Lemma rsplit_spec n :
  bytes_eqb n [DOT; DOT] = false -> n <> [] ->
  exists stem ext, (let '(b, a) := rsplit_file_at_dot n in option_or b a) = Some stem /\
    (let '(b, a) := rsplit_file_at_dot n in option_and b a) = ext /\
    match ext with
    | None => stem = n /\ ~ has_extension n
    | Some e => stem <> [] /\ n = stem ++ DOT :: e /\ DOT ∉ e
    end.
Proof.
  intros Hdd Hne. unfold rsplit_file_at_dot. rewrite Hdd.
  pose proof (rposition_spec is_dot n) as Hr.
  destruct (rposition is_dot n) as [i|]; simpl.
  - destruct Hr as (a & x & b & Hn & <- & Hx & Hb). apply is_dot_eq in Hx as ->.
    assert (drop (S (length a)) n = b) as Hd.
    { rewrite Hn. change (DOT :: b) with ([DOT] ++ b). rewrite (assoc_L (++)).
      apply drop_app_length'. rewrite length_app. simpl. lia. }
    rewrite Hd, Hn, take_app_length.
    assert (DOT ∉ b) as Hnin.
    { intros Hin. rewrite Forall_forall in Hb. by apply Hb in Hin. }
    case_bool_decide as Ha; simpl.
    + injection Ha as ->. exists ([] ++ DOT :: b), None. split_and!; [done..|].
      intros (a' & b' & Hne' & Heq). destruct a' as [|y a']; [done|].
      simplify_eq/=. set_solver.
    + exists a, (Some b). split_and!; [done|done|by intros ->|done|done].
  - exists n, None. split_and!; [done..|]. intros (a & b & _ & ->).
    rewrite Forall_app, Forall_cons in Hr. by destruct Hr as (_ & ? & _).
Qed.

(** C33: a file name splits into [file_stem] and [extension]: without an
    extension the stem is the whole name and the name has no dot behind its
    first byte; with one, name = stem, a dot, extension, the stem is not empty
    and the extension has no dot. *)
Theorem stem_extension_split (p n : str) :
  file_name p = Ret (Some n) ->
  exists stem ext, file_stem p = Ret (Some stem) /\ extension p = Ret ext /\
    match ext with
    | None => stem = n /\ ~ has_extension n
    | Some e => stem <> [] /\ n = stem ++ DOT :: e /\ DOT ∉ e
    end.
Proof.
  intros Hn. destruct (is_name_not_special n) as [Hdd Hne]; [by eauto with kernel|].
  destruct (rsplit_spec n Hdd Hne) as (stem & ext & Hs & He & Hspec).
  exists stem, ext. unfold file_stem, extension. rewrite Hn. simpl.
  destruct (rsplit_file_at_dot n). by rewrite Hs, He.
Qed.

Lemma stem_extension_split_witness :
  exists stem ext, file_stem (lit "/a/b.tar.gz") = Ret (Some stem) /\
    extension (lit "/a/b.tar.gz") = Ret ext /\
    match ext with
    | None => stem = lit "b.tar.gz" /\ ~ has_extension (lit "b.tar.gz")
    | Some e => stem <> [] /\ lit "b.tar.gz" = stem ++ DOT :: e /\ DOT ∉ e
    end.
Proof.
  apply (stem_extension_split (lit "/a/b.tar.gz") (lit "b.tar.gz")). reflexivity.
Defined.

(** ** [file_prefix] *)

Definition is_ascii (b : u8) : bool := in_range 0 127 b.

Lemma ascii_not_cont b : is_ascii b = true -> is_cont b = false.
Proof.
  unfold is_ascii, in_range, is_cont. intros H. bool_prop.
  apply andb_false_iff. left. apply Z.leb_gt. lia.
Qed.

Lemma chars_ascii s : Forall (fun b => is_ascii b = true) s -> chars s = map (fun b => [b]) s.
Proof.
  induction 1 as [|b s Hb Hs IH]; simpl; [done|]. rewrite IH.
  destruct s as [|c s]; simpl; [done|]. inversion Hs; subst.
  by rewrite ascii_not_cont.
Qed.

Lemma position_map {A B} (g : A -> B) (f : B -> bool) l :
  position f (map g l) = position (fun x => f (g x)) l.
Proof. induction l as [|x l IH]; simpl; [done|]. by rewrite IH. Qed.

Lemma position_ext {A} (f g : A -> bool) l :
  (forall x, f x = g x) -> position f l = position g l.
Proof. intros H. induction l as [|x l IH]; simpl; [done|]. by rewrite H, IH. Qed.

Lemma ascii_boundary s i :
  Forall (fun b => is_ascii b = true) s -> i <= length s -> is_char_boundary s i = true.
Proof.
  intros Hs Hi. unfold is_char_boundary. destruct i as [|i]; [done|].
  destruct (s !! S i) as [b|] eqn:E.
  - rewrite ascii_not_cont; [done|]. exact (Forall_lookup_1 _ _ _ _ Hs E).
  - apply lookup_ge_None in E. apply Nat.eqb_eq. lia.
Qed.

Lemma str_to_ok s i : is_char_boundary s i = true -> str_to s i = Ret (take i s).
Proof. intros H. unfold str_to. by rewrite H. Qed.
Lemma str_from_ok s i : is_char_boundary s i = true -> str_from s i = Ret (drop i s).
Proof. intros H. unfold str_from. by rewrite H. Qed.

Lemma bytes_eqb_single b x : bytes_eqb [b] [x] = (b =? x)%Z.
Proof. unfold bytes_eqb. case_bool_decide; simplify_eq; symmetry; [apply Z.eqb_refl|].
  apply Z.eqb_neq. congruence. Qed.

(** For an ASCII file name, [file_prefix] is the part before the first
    dot that is not the name's first byte, or the whole name. *)
Theorem file_prefix_ascii (p n : str) :
  file_name p = Ret (Some n) -> Forall (fun b => is_ascii b = true) n ->
  exists x l, file_prefix p = Ret (Some (x :: l)) /\ (DOT ∉ l) /\
    (n = x :: l \/ exists r, n = x :: (l ++ DOT :: r)).
Proof.
  intros Hn Ha. destruct (is_name_not_special n) as [Hdd Hne]; [by eauto with kernel|].
  unfold file_prefix. rewrite Hn. simpl. unfold split_file_at_dot. rewrite Hdd.
  destruct n as [|x tl]; [done|]. rewrite str_from_ok by (apply ascii_boundary; [done|simpl; lia]).
  simpl. rewrite drop_0. inversion Ha as [|?? Hx Htl]; subst.
  rewrite chars_ascii, position_map by done.
  rewrite (position_ext _ is_dot) by (intros; apply bytes_eqb_single).
  pose proof (position_spec is_dot tl) as Hpos.
  destruct (position is_dot tl) as [i|].
  - destruct Hpos as (a & y & b & -> & <- & Hy & Hall). apply is_dot_eq in Hy as ->.
    rewrite str_to_ok by (apply ascii_boundary; [done|simpl; rewrite length_app; simpl; lia]).
    simpl. rewrite str_from_ok by (apply ascii_boundary; [done|simpl; rewrite length_app; simpl; lia]).
    rewrite Nat.add_1_r. simpl. rewrite take_app_length. exists x, a. split_and!; [done| |by eauto].
    intros Hin. rewrite Forall_forall in Hall. by apply Hall in Hin.
  - exists x, tl. split_and!; [done| |by left].
    intros Hin. rewrite Forall_forall in Hpos. by apply Hpos in Hin.
Qed.

Lemma file_prefix_ascii_witness :
  exists x l, file_prefix (lit "/a/.b.c") = Ret (Some (x :: l)) /\ (DOT ∉ l) /\
    (lit ".b.c" = x :: l \/ exists r, lit ".b.c" = x :: (l ++ DOT :: r)).
Proof.
  apply (file_prefix_ascii (lit "/a/.b.c") (lit ".b.c")); [reflexivity|].
  repeat constructor.
Defined.

Lemma utf8_head_wide b s :
  utf8 (b :: s) = true -> is_ascii b = false ->
  exists c s', s = c :: s' /\ is_cont c = true.
Proof.
  unfold is_ascii. simpl. intros H Hb. rewrite Hb in H.
  destruct s as [|c s]; [done|]. exists c, s. split; [done|].
  assert (forall lo hi, (128 <= lo)%Z -> (hi <= 191)%Z -> in_range lo hi c = true ->
    is_cont c = true) as Hr.
  { intros lo hi Hlo Hhi Hc. unfold in_range, is_cont in *. bool_prop.
    apply andb_true_iff. split; [apply Z.leb_le|apply Z.ltb_lt]; lia. }
  destruct (in_range 194 223 b); [by bool_prop|].
  destruct s as [|d s]; [done|].
  destruct (in_range 224 239 b).
  - bool_prop. destruct (b =? 224)%Z; [|destruct (b =? 237)%Z; [|done]]; by eapply Hr; [..|eassumption].
  - destruct s as [|e s]; [done|]. bool_prop.
    destruct (b =? 240)%Z; [|destruct (b =? 244)%Z; [|done]]; by eapply Hr; [..|eassumption].
Qed.

(** [file_prefix] panics on every file name that starts with a character
    outside ASCII: it slices the name at byte 1, inside that character. *)
Theorem file_prefix_panics_wide (p : str) (b : u8) (s : str) :
  file_name p = Ret (Some (b :: s)) -> utf8 (b :: s) = true -> is_ascii b = false ->
  file_prefix p = Panic.
Proof.
  intros Hn Hu Hb. destruct (utf8_head_wide b s Hu Hb) as (c & s' & -> & Hc).
  unfold file_prefix. rewrite Hn. simpl. unfold split_file_at_dot.
  destruct (is_name_not_special _ (file_name_is_name _ _ Hn)) as [-> _].
  unfold str_from, is_char_boundary. simpl. by rewrite Hc.
Qed.

Lemma file_prefix_panics_wide_witness :
  file_prefix [47; 195; 169; 46; 99]%Z = Panic.
Proof.
  apply (file_prefix_panics_wide _ 195%Z [169; 46; 99]%Z); reflexivity.
Defined.
