(* ===== verification/PathBuf.v ===== *)
(** * fs/path/pathbuf.rs, and the [Path] methods that build a [PathBuf] *)

From Stdlib Require Import ZArith Lia.
From stdpp Require Import base list numbers strings sets.
From S2P Require Import Prelude PathComponents Path.

(** A [PathBuf] is its [String]; its capacity has no effect on its value. *)
Abbreviation PathBuf := (list Z) (only parsing).

(** ** Operations *)

Definition pathbuf_new : PathBuf := [].
Definition with_capacity (capacity : Z) : PathBuf := [].
Definition clear (s : PathBuf) : PathBuf := [].

(** [From<&Path>]. *)
Definition to_path_buf (p : str) : PathBuf := p.

Definition push (s : PathBuf) (p : str) : PathBuf :=
  let need_sep :=
    match last (chars s) with
    | Some c => bytes_eqb c SEPERATOR_STR
    | None => false
    end in
  let s :=
    if is_absolute p then clear s
    else if path_has_root p then s
    else if need_sep then s ++ SEPERATOR_STR
    else s in
  s ++ p.

Definition pop (s : PathBuf) : outcome (bool * PathBuf) :=
  o ← parent s;
  match o with
  | Some q => s ← truncate s (length q); Ret (true, s)
  | None => Ret (false, s)
  end.

Definition set_file_name (s : PathBuf) (name : str) : outcome PathBuf :=
  n ← file_name s;
  s ← match n with
      | Some _ => '(popped, s) ← pop s; _ ← rust_assert popped; Ret s
      | None => Ret s
      end;
  Ret (push s name).

(** The offset in [s] of the slice [file_name] returns: behind what is left of
    the path once the component is off, and behind the separator between. *)
Definition file_name_ptr (s : str) : outcome nat :=
  '(_, c) ← next_back (components s);
  let n := length (path c) in
  Ret (match s !! n with
       | Some b => if is_sep b then S n else n
       | None => n
       end).

(** The stem starts where the file name starts, so the address one past it is
    that offset plus its length. *)
Definition set_extension (s : PathBuf) (ext : str) : outcome (bool * PathBuf) :=
  stem ← file_stem s;
  match stem with
  | None => Ret (false, s)
  | Some stem =>
      ptr ← file_name_ptr s;
      s ← truncate s (ptr + length stem);
      let s := if bytes_eqb ext [] then s else s ++ [DOT] ++ ext in
      Ret (true, s)
  end.

(** [Extend<P>]. *)
Definition extend (s : PathBuf) (ps : list str) : PathBuf := fold_left push ps s.

Definition join (p q : str) : PathBuf := push (to_path_buf p) q.

Definition with_file_name (p name : str) : outcome PathBuf :=
  set_file_name (to_path_buf p) name.

Definition with_extension (p ext : str) : outcome PathBuf :=
  let self_len := length p in
  prev ← extension p;
  slice ← match prev with
          | None => Ret p
          | Some prev => str_to p (self_len - length prev)
          end;
  let new_path := push (with_capacity 0) slice in
  '(_, new_path) ← set_extension new_path ext;
  Ret new_path.

Example pop_ex : pop (lit "/a/b//") = Ret (true, lit "/a").
Proof. reflexivity. Qed.
Example set_ext_ex : set_extension (lit "/a/b.tar.gz/") (lit "xz") = Ret (true, lit "/a/b.tar.xz").
Proof. reflexivity. Qed.
Example with_ext_ex : with_extension (lit "a/foo.txt/") (lit "rs") = Ret (lit "a/foo.rs").
Proof. reflexivity. Qed.
Example join_bad : join (lit "usr") (lit "lib") = lit "usrlib".
Proof. reflexivity. Qed.
Example with_ext_panic : with_extension [120; 46; 195; 169; 47]%Z (lit "a") = Panic.
Proof. reflexivity. Qed.

(** ** Boundaries *)

Lemma utf8_app_ascii a b s :
  is_ascii b = true -> utf8 (a ++ b :: s) = true -> utf8 s = true.
Proof.
  intros Hb. assert (in_range 0 127 b = true) as Hr by done.
  assert (is_cont b = false) as Hc by (by apply ascii_not_cont).
  assert (forall lo hi, (128 <= lo)%Z -> in_range lo hi b = false) as Hlo.
  { intros lo hi Hle. unfold in_range in *. bool_prop. apply andb_false_iff. left.
    apply Z.leb_gt. lia. }
  induction a as [a IH] using (induction_ltof1 _ length). unfold ltof in IH.
  destruct a as [|x0 a]; [simpl; by rewrite Hr|].
  destruct (in_range 0 127 x0) eqn:E0.
  { simpl. rewrite E0. apply IH. simpl. lia. }
  destruct a as [|x1 a]; cbn [app utf8]; rewrite E0.
  { destruct (in_range 194 223 x0); rewrite ?Hc; [done|].
    destruct s as [|? s]; [done|]. rewrite !Hlo by lia.
    destruct (in_range 224 239 x0); [repeat case_match; done|].
    destruct s; [done|]. repeat case_match; rewrite ?andb_false_r; done. }
  destruct (in_range 194 223 x0).
  { intros [_ H]%andb_prop. revert H. apply IH. simpl. lia. }
  destruct a as [|x2 a]; cbn [app].
  { destruct (in_range 224 239 x0); rewrite ?Hc; rewrite ?andb_false_r; [done|].
    destruct s; rewrite ?andb_false_r; done. }
  destruct (in_range 224 239 x0).
  { intros [_ H]%andb_prop. revert H. apply IH. simpl. lia. }
  destruct a as [|x3 a]; cbn [app].
  { rewrite Hc, andb_false_r. done. }
  intros [_ H]%andb_prop. revert H. apply IH. simpl. lia.
Qed.

Lemma utf8_head s b : utf8 (b :: s) = true -> is_cont b = false.
Proof.
  simpl. unfold is_cont, in_range. intros H.
  apply not_true_iff_false. intros Hb. bool_prop.
  replace ((0 <=? b) && (b <=? 127))%Z with false in H by (symmetry; apply andb_false_iff; right; apply Z.leb_gt; lia).
  replace ((194 <=? b) && (b <=? 223))%Z with false in H by (symmetry; apply andb_false_iff; left; apply Z.leb_gt; lia).
  replace ((224 <=? b) && (b <=? 239))%Z with false in H by (symmetry; apply andb_false_iff; left; apply Z.leb_gt; lia).
  replace ((240 <=? b) && (b <=? 244))%Z with false in H by (symmetry; apply andb_false_iff; left; apply Z.leb_gt; lia).
  by repeat case_match.
Qed.

Lemma boundary_app a s :
  utf8 s = true -> is_char_boundary (a ++ s) (length a) = true.
Proof.
  intros Hs. unfold is_char_boundary. destruct (length a) as [|n] eqn:Hl; [done|].
  rewrite <- Hl. destruct s as [|b s].
  - rewrite app_nil_r, lookup_ge_None_2 by lia. by apply Nat.eqb_eq.
  - rewrite list_lookup_middle by done. by rewrite (utf8_head s b).
Qed.

Lemma boundary_ascii a b s :
  is_ascii b = true -> is_char_boundary (a ++ b :: s) (length a) = true.
Proof.
  intros Hb. unfold is_char_boundary. destruct (length a) as [|n] eqn:Hl; [done|].
  rewrite <- Hl, list_lookup_middle by done. by rewrite ascii_not_cont.
Qed.

Lemma boundary_end s : is_char_boundary s (length s) = true.
Proof.
  unfold is_char_boundary. destruct (length s) as [|n] eqn:Hl; [done|].
  rewrite lookup_ge_None_2 by lia. by apply Nat.eqb_eq.
Qed.

(** A cut between components is a character boundary. *)
Lemma cut_boundary p t :
  utf8 (p ++ t) = true -> cut p t -> is_char_boundary (p ++ t) (length p) = true.
Proof.
  intros Hu [->|[Ht|[->|[->| ->]]]].
  - rewrite app_nil_r. apply boundary_end.
  - destruct t as [|b t]; [done|]. injection Ht as ->. by apply boundary_ascii.
  - done.
  - apply boundary_app. by apply (utf8_app_ascii [] SEPERATOR_BYTE).
  - apply boundary_app. by apply (utf8_app_ascii [] DOT).
Qed.

Lemma truncate_app p t :
  is_char_boundary (p ++ t) (length p) = true -> truncate (p ++ t) (length p) = Ret p.
Proof.
  intros H. unfold truncate. rewrite H, length_app, take_app_length.
  destruct (length p <=? length p + length t) eqn:E; [done|]. bool_prop. lia.
Qed.

(** ** [push] and [join] *)

Definition ends_in_sep (s : str) : bool :=
  match last (chars s) with Some c => bytes_eqb c SEPERATOR_STR | None => false end.

Lemma push_eq s p :
  push s p = if is_absolute p then p
             else if ends_in_sep s then s ++ SEPERATOR_BYTE :: p else s ++ p.
Proof.
  unfold push, ends_in_sep, is_absolute. destruct (path_has_root p); [done|].
  destruct (last (chars s)) as [c|]; [|done].
  destruct (bytes_eqb c SEPERATOR_STR); [|done]. by rewrite <- (assoc_L (++)).
Qed.

Lemma chars_snoc s b : is_cont b = false -> chars (s ++ [b]) = chars s ++ [[b]].
Proof.
  intros Hb. induction s as [|x s IH]; [done|]. simpl. rewrite IH.
  destruct (chars s) as [|[|c r] cs] eqn:E; simpl; [by rewrite Hb|done|].
  by destruct (is_cont c).
Qed.

Lemma ends_in_sep_snoc s b :
  is_cont b = false -> ends_in_sep (s ++ [b]) = is_sep b.
Proof.
  intros Hb. unfold ends_in_sep. rewrite chars_snoc, last_snoc by done.
  apply bytes_eqb_single.
Qed.

Lemma start_components_app s t :
  s <> [] -> (head t = Some SEPERATOR_BYTE \/ t = []) ->
  start_components (s ++ t) = start_components s.
Proof.
  intros Hs Ht. symmetry. apply start_components_prefix; [|tauto].
  unfold start_components. destruct s; [done|]. repeat case_match; simpl; lia.
Qed.

(** Pushing a relative path onto one that already ends in a separator
    appends its components (a leading [.] of it is absorbed); pushing an
    absolute path replaces the whole buffer. *)
Theorem push_components (s p : str) :
  (is_absolute p = true -> push s p = p) /\
  (is_absolute p = false ->
     spec_components (push (s ++ SEPERATOR_STR) p) =
     spec_components (s ++ SEPERATOR_STR) ++ body_components p).
Proof.
  split; intros Hp; rewrite push_eq, Hp; [done|].
  unfold SEPERATOR_STR. rewrite ends_in_sep_snoc by done. simpl. unfold spec_components.
  rewrite body_app, (assoc_L (++)). f_equal. f_equal.
  by apply start_components_app; [destruct s|left].
Qed.

Lemma push_components_witness :
  (is_absolute (lit "lib") = false ->
   spec_components (push (lit "/usr" ++ SEPERATOR_STR) (lit "lib")) =
   spec_components (lit "/usr" ++ SEPERATOR_STR) ++ body_components (lit "lib")) /\
  is_absolute (lit "lib") = false.
Proof. split; [exact (proj2 (push_components (lit "/usr") (lit "lib")))|reflexivity]. Defined.

Lemma is_name_app a b : is_name a = true -> is_name b = true -> is_name (a ++ b) = true.
Proof.
  unfold is_name, bytes_eqb. intros Ha Hb. bool_prop.
  rewrite forallb_app.
  repeat match goal with H : forallb _ _ = true |- _ => rewrite H; clear H end. simpl.
  repeat match goal with H : bool_decide _ = false |- _ => apply bool_decide_eq_false in H end.
  rewrite !bool_decide_eq_false_2; [done|..].
  - destruct a as [|x [|y [|z a]]], b as [|x' [|y' b]]; simpl; naive_solver.
  - destruct a as [|x [|y a]], b as [|x' b]; simpl; naive_solver.
  - destruct a; naive_solver.
Qed.

Lemma name_relative a : is_name a = true -> is_absolute a = false.
Proof.
  intros H%is_name_no_sep. destruct a as [|x a]; [done|]. by inversion H.
Qed.

Lemma spec_name n : is_name n = true -> spec_components n = [Normal n].
Proof.
  intros H. unfold spec_components. rewrite body_name by done.
  pose proof (name_relative n H) as Hr. unfold start_components.
  assert (has_physical_root_fn n = false) as -> by done.
  destruct (starts_cur_dir n) eqn:E; [|done]. exfalso.
  pose proof (is_name_no_sep n H) as Hs. unfold starts_cur_dir in E.
  destruct n as [|x [|y n]]; [done|by bool_prop; subst|]. bool_prop.
  inversion Hs as [|?? _ Hs']; inversion Hs'; congruence.
Qed.

Lemma ends_in_sep_name n : is_name n = true -> ends_in_sep n = false.
Proof.
  intros Hs%is_name_no_sep. unfold ends_in_sep.
  destruct (last (chars n)) as [c|] eqn:E; [|done].
  unfold bytes_eqb. apply bool_decide_eq_false. intros ->.
  assert (SEPERATOR_BYTE ∈ n) as Hin.
  { clear Hs. induction n as [|x n IH]; [done|]. simpl in E.
    destruct (chars n) as [|[|c r] cs] eqn:Ec.
    - destruct n; [|simpl in Ec; repeat case_match; done].
      simpl in E. injection E as ->. left.
    - right. apply IH. done.
    - destruct (is_cont c).
      + destruct cs; [simpl in E; done|]. right. apply IH. done.
      + right. apply IH. done. }
  rewrite Forall_forall in Hs. by apply Hs in Hin.
Qed.

(** Joining two file names glues them into one component: [push] adds a
    separator only where the buffer already ends in one. *)
Theorem join_glues_names (a b : str) :
  is_name a = true -> is_name b = true ->
  join a b = a ++ b /\ spec_components (join a b) = [Normal (a ++ b)].
Proof.
  intros Ha Hb. unfold join, to_path_buf.
  rewrite push_eq, name_relative, ends_in_sep_name by done.
  split; [done|]. apply spec_name. by apply is_name_app.
Qed.

Lemma join_glues_names_witness :
  join (lit "usr") (lit "lib") = lit "usr" ++ lit "lib" /\
  spec_components (join (lit "usr") (lit "lib")) = [Normal (lit "usr" ++ lit "lib")].
Proof. apply join_glues_names; reflexivity. Defined.

(** ** [pop] *)

Lemma pop_spec s :
  utf8 s = true ->
  exists o, parent s = Ret o /\
    pop s = Ret (match o with Some q => (true, q) | None => (false, s) end).
Proof.
  intros Hu. unfold pop. destruct (parent_spec s) as (o & -> & _ & Hcut).
  exists o. split; [done|]. simpl. destruct o as [q|]; [|done].
  destruct (Hcut q eq_refl) as (t & -> & Ht).
  rewrite truncate_app by (by apply cut_boundary). done.
Qed.

(** On a valid string [pop] never panics (its [truncate] cuts at a
    character boundary); it drops the last component and returns [true],
    except on the root and the empty path, which it leaves alone. *)
Theorem pop_drops_last (s : str) :
  utf8 s = true ->
  exists b s', pop s = Ret (b, s') /\
    match parent_components (spec_components s) with
    | Some l => b = true /\ spec_components s' = l
    | None => b = false /\ s' = s
    end.
Proof.
  intros Hu. destruct (pop_spec s Hu) as (o & Hp & ->).
  destruct (parent_spec s) as (o' & Hp' & Hs & _). rewrite Hp in Hp'. injection Hp' as <-.
  rewrite <- Hs. destruct o as [q|]; simpl; eauto.
Qed.

Lemma pop_drops_last_witness :
  exists b s', pop [47; 97; 47; 195; 169; 47]%Z = Ret (b, s') /\
    match parent_components (spec_components [47; 97; 47; 195; 169; 47]%Z) with
    | Some l => b = true /\ spec_components s' = l
    | None => b = false /\ s' = [47; 97; 47; 195; 169; 47]%Z
    end.
Proof. apply pop_drops_last. reflexivity. Defined.

(** ** [set_extension] *)

Lemma wf_remaining_start c :
  wf c -> front c = StartDir -> remaining c = spec_components (path c).
Proof. intros Hwf Hf. rewrite remaining_wf by done. unfold start_part. by rewrite Hf. Qed.

Lemma body_no_curdir s : (CurDir ∉ body_components s) /\ (RootDir ∉ body_components s).
Proof.
  unfold body_components. split; intros (seg & _ & H)%list_elem_of_omap;
    unfold parse_single_component in H; repeat case_match; done.
Qed.

(** The file name in the string: what stands before it gives, with any other
    name behind, the path with that last component; a separator or nothing
    follows. *)
Lemma file_name_split s n :
  file_name s = Ret (Some n) ->
  exists pre t, s = pre ++ n ++ t /\ file_name_ptr s = Ret (length pre) /\
    (t = [] \/ head t = Some SEPERATOR_BYTE) /\
    (pre = [] \/ exists q, pre = q ++ [SEPERATOR_BYTE]) /\
    forall m, is_name m = true ->
      spec_components (pre ++ m) = removelast (spec_components s) ++ [Normal m].
Proof.
  intros Hn. pose proof (file_name_is_name _ _ Hn) as Hname.
  rewrite file_name_spec in Hn.
  unfold file_name_ptr. unfold components.
  destruct (next_back_located (new s) (wf_new s)) as (c & -> & Hwf & Hrem & Hloc).
  rewrite remaining_new in *. destruct Hloc as (Hf & _ & t & Hs & Hcut & Hpos).
  simpl in Hs, Hf. rewrite wf_remaining_start in Hrem by done. simpl.
  assert (last (spec_components s) = Some (Normal n)) as Hlast.
  { by destruct (last (spec_components s)) as [[]|]; simplify_eq. }
  destruct (is_name_not_special n Hname) as [_ Hne].
  pose proof (is_name_no_sep n Hname) as Hsep.
  assert (spec_components s = spec_components (path c) ++ [Normal n]) as Hsplit.
  { rewrite Hrem. destruct (spec_components s) as [|x l _] using rev_ind; [done|].
    rewrite last_snoc in Hlast. injection Hlast as ->. by rewrite removelast_last. }
  rewrite <- Hrem. clear Hn Hlast Hrem Hwf Hf.
  destruct (Hpos n) as (t' & [->| ->] & Ht');
    [by rewrite Hsplit, last_snoc|done|clear Hpos..].
  - destruct n as [|x n]; [done|]. apply Forall_cons in Hsep as [Hx _].
    exists (path c), t'. split; [done|].
    rewrite Hs. change ((x :: n) ++ t') with (x :: (n ++ t')).
    rewrite list_lookup_middle, Hx by done. split; [done|].
    assert (path c = [] \/ path c = [SEPERATOR_BYTE]) as Hp.
    { destruct Hcut as [?|[Hh|[?|[?|Hd]]]]; [done| |by left|by right|].
      - simpl in Hh. injection Hh as ->. done.
      - exfalso. rewrite Hs, Hd in Hsplit. unfold spec_components in Hsplit at 2. simpl in Hsplit.
        unfold spec_components, start_components, starts_cur_dir in Hsplit. simpl in Hsplit.
        rewrite Hx in Hsplit. simpl in Hsplit.
        destruct (body_no_curdir (DOT :: x :: (n ++ t'))) as [Hnc _]. apply Hnc.
        rewrite Hsplit. left. }
    split; [done|]. split; [by destruct Hp as [->| ->]; [left|right; exists []]|].
    intros m Hm. destruct Hp as [->| ->]; simpl; [by rewrite spec_name|].
    unfold spec_components. simpl. change (SEPERATOR_BYTE :: m) with ([] ++ SEPERATOR_BYTE :: m).
    by rewrite body_app, (body_name m).
  - exists (path c ++ [SEPERATOR_BYTE]), t'.
    rewrite Hs, <- (assoc_L (++)). split; [done|].
    rewrite list_lookup_middle by done. simpl. rewrite length_app, Nat.add_1_r.
    split; [done|]. split; [done|]. split; [right; by exists (path c)|].
    assert (path c <> []) as Hpne.
    { intros Hp. rewrite Hs, Hp in Hsplit. unfold spec_components in Hsplit at 2.
      simpl in Hsplit. unfold spec_components in Hsplit. simpl in Hsplit. done. }
    intros m Hm. rewrite <- (assoc_L (++)). simpl. unfold spec_components.
    rewrite body_app, (body_name m) by done.
    rewrite start_components_app by (done || by left). by rewrite (assoc_L (++)).
Qed.

Lemma set_extension_spec s n stem ext :
  utf8 s = true -> file_name s = Ret (Some n) -> file_stem s = Ret (Some stem) ->
  (forall x, n = stem ++ x -> (x = [] \/ head x = Some DOT)) -> stem `prefix_of` n ->
  exists pre,
    (forall m, is_name m = true ->
      spec_components (pre ++ m) = removelast (spec_components s) ++ [Normal m]) /\
    set_extension s ext =
      Ret (true, pre ++ stem ++ (if bytes_eqb ext [] then [] else DOT :: ext)).
Proof.
  intros Hu Hn Hstem Hx [x ->].
  destruct (file_name_split s _ Hn) as (pre & t & Hs & Hptr & Ht & _ & Hspec).
  exists pre. split; [done|]. unfold set_extension. rewrite Hstem. simpl. rewrite Hptr. simpl.
  rewrite <- length_app.
  assert (s = (pre ++ stem) ++ (x ++ t)) as Hs' by (by rewrite Hs, !(assoc_L (++))).
  assert (x ++ t = [] \/ exists b r, x ++ t = b :: r /\ is_ascii b = true) as Hb.
  { destruct (Hx x eq_refl) as [->|Hd]; [|destruct x as [|b x]; [done|]; injection Hd as ->; right; by eexists _, _].
    simpl. destruct t as [|b t]; [by left|]. right. exists b, t. split; [done|].
    destruct Ht as [?|[= ->]]; done. }
  rewrite Hs'. rewrite truncate_app.
  - simpl. destruct (bytes_eqb ext []); [by rewrite app_nil_r|]. by rewrite (assoc_L (++)).
  - destruct Hb as [->|(b & r & -> & Ha)]; [rewrite app_nil_r; apply boundary_end|].
    by apply boundary_ascii.
Qed.

Lemma app_last_unique (d : u8) a b a' b' :
  d ∉ b -> d ∉ b' -> a ++ d :: b = a' ++ d :: b' -> a = a' /\ b = b'.
Proof.
  intros Hb Hb' Heq. destruct (app_eq_inv _ _ _ _ Heq) as [(k & -> & Hk)|(k & -> & Hk)].
  - destruct k as [|x k]; simplify_eq/=; [by rewrite app_nil_r|]. set_solver.
  - destruct k as [|x k]; simplify_eq/=; [by rewrite app_nil_r|]. set_solver.
Qed.

(** The stem of a file name is a prefix of it that ends before a dot. *)
Lemma file_stem_spec s n :
  file_name s = Ret (Some n) ->
  exists stem, file_stem s = Ret (Some stem) /\ stem <> [] /\ stem `prefix_of` n /\
    (forall x, n = stem ++ x -> (x = [] \/ head x = Some DOT)).
Proof.
  intros Hn. destruct (is_name_not_special n) as [Hdd Hne]; [by eauto with kernel|].
  destruct (rsplit_spec n Hdd Hne) as (stem & ext & Hs & _ & Hspec).
  exists stem. unfold file_stem. rewrite Hn. simpl.
  destruct (rsplit_file_at_dot n). rewrite Hs. split; [done|].
  destruct ext as [e|].
  - destruct Hspec as (? & -> & ?). split_and!; [done|by eexists|].
    intros x Hx%app_inv_head. subst x. by right.
  - destruct Hspec as (-> & _). split_and!; [done..|].
    intros x Hx. rewrite <- (app_nil_r n) in Hx at 1. apply app_inv_head in Hx. subst x. by left.
Qed.

Lemma with_ext_is_name n stem ext :
  is_name n = true -> stem `prefix_of` n -> stem <> [] ->
  no_sep ext -> ext <> [] -> is_name (stem ++ DOT :: ext) = true.
Proof.
  intros Hn [x ->] Hs He Hne. apply is_name_no_sep in Hn. apply Forall_app in Hn as [Hn _].
  unfold is_name, bytes_eqb. rewrite !bool_decide_eq_false_2.
  - simpl. rewrite !andb_true_r. apply forallb_forall. intros b Hb%list_elem_of_In.
    apply negb_true_iff. rewrite Forall_forall in Hn, He.
    apply elem_of_app in Hb as [Hb|Hb]; [by apply Hn|].
    apply elem_of_cons in Hb as [->|Hb]; [done|by apply He].
  - intros H%(f_equal length). rewrite length_app in H.
    destruct stem, ext; simpl in H; (done || lia).
  - intros H%(f_equal length). rewrite length_app in H.
    destruct stem; simpl in H; (done || lia).
  - by destruct stem.
Qed.

(** Reading back what [set_extension] has written. *)
Lemma set_extension_reads (s n ext : str) :
  utf8 s = true -> file_name s = Ret (Some n) ->
  ext <> [] -> no_sep ext -> (DOT ∉ ext) ->
  exists stem s', file_stem s = Ret (Some stem) /\ set_extension s ext = Ret (true, s') /\
    spec_components s' = removelast (spec_components s) ++ [Normal (stem ++ DOT :: ext)] /\
    extension s' = Ret (Some ext) /\ file_stem s' = Ret (Some stem).
Proof.
  intros Hu Hn Hne Hsep Hdot.
  destruct (file_stem_spec s n Hn) as (stem & Hstem & Hse & Hpre & Hx).
  destruct (set_extension_spec s n stem ext Hu Hn Hstem Hx Hpre) as (pre & Hspec & Hset).
  assert (is_name (stem ++ DOT :: ext) = true) as Hm
    by (eapply with_ext_is_name; eauto with kernel).
  assert (bytes_eqb ext [] = false) as He by (by apply bool_decide_eq_false).
  rewrite He in Hset. exists stem, (pre ++ stem ++ DOT :: ext).
  specialize (Hspec _ Hm).
  assert (file_name (pre ++ stem ++ DOT :: ext) = Ret (Some (stem ++ DOT :: ext))) as Hn'.
  { by rewrite file_name_spec, Hspec, last_snoc. }
  split_and!; [done..| |];
  (destruct (is_name_not_special _ Hm) as [Hdd Hne'];
   destruct (rsplit_spec _ Hdd Hne') as (stem2 & ext2 & Hs2 & He2 & Hspec2);
   unfold extension, file_stem; rewrite Hn'; simpl;
   destruct (rsplit_file_at_dot _); rewrite ?Hs2, ?He2;
   destruct ext2 as [e|]; [|exfalso; destruct Hspec2 as [_ Hspec2]; apply Hspec2; by exists stem, ext];
   destruct Hspec2 as (_ & Heq & Hnd); by destruct (app_last_unique _ _ _ _ _ Hdot Hnd Heq) as [-> ->]).
Qed.

(** C36: [set_extension] with a non-empty extension without dots and
    separators: it returns [true] without a panic, the last component becomes
    the old stem, a dot and the extension, [extension] reads the new extension
    back, and [file_stem] is unchanged. *)
Theorem set_extension_roundtrip (s n ext : str) :
  utf8 s = true -> file_name s = Ret (Some n) ->
  ext <> [] -> no_sep ext -> (DOT ∉ ext) ->
  exists stem s', file_stem s = Ret (Some stem) /\ set_extension s ext = Ret (true, s') /\
    spec_components s' = removelast (spec_components s) ++ [Normal (stem ++ DOT :: ext)] /\
    extension s' = Ret (Some ext) /\ file_stem s' = Ret (Some stem).
Proof. apply set_extension_reads. Qed.

Lemma set_extension_roundtrip_witness :
  exists stem s', file_stem (lit "/a/b.c/") = Ret (Some stem) /\
    set_extension (lit "/a/b.c/") (lit "rs") = Ret (true, s') /\
    spec_components s' =
      removelast (spec_components (lit "/a/b.c/")) ++ [Normal (stem ++ DOT :: lit "rs")] /\
    extension s' = Ret (Some (lit "rs")) /\ file_stem s' = Ret (Some stem).
Proof.
  apply (set_extension_roundtrip (lit "/a/b.c/") (lit "b.c") (lit "rs")).
  - reflexivity.
  - reflexivity.
  - discriminate.
  - repeat constructor.
  - apply (bool_decide_unpack _). vm_compute. exact I.
Defined.

(** ** [set_file_name] *)

(** [set_file_name] glues the new name to the parent's last component
    whenever the parent does not end in a separator: the name is pushed with
    no separator between. *)
Theorem set_file_name_glues (s n q name : str) :
  utf8 s = true -> file_name s = Ret (Some n) -> parent s = Ret (Some q) ->
  ends_in_sep q = false -> is_absolute name = false ->
  set_file_name s name = Ret (q ++ name).
Proof.
  intros Hu Hn Hp Hq Hname. unfold set_file_name. rewrite Hn. simpl.
  destruct (pop_spec s Hu) as (o & Ho & ->). rewrite Hp in Ho. injection Ho as <-. simpl.
  by rewrite push_eq, Hname, Hq.
Qed.

Lemma set_file_name_glues_witness :
  set_file_name (lit "/a/b") (lit "c") = Ret (lit "/a" ++ lit "c").
Proof. apply (set_file_name_glues _ (lit "b")); reflexivity. Defined.

(** ** [with_extension] *)

(** [with_extension] panics on a path that ends in a separator when the old
    extension starts with a character outside ASCII: it takes the bytes of the
    extension off the end of the string, which then ends inside a character. *)
Theorem with_extension_panics_wide (stem : str) (b : u8) (e ext : str) :
  let p := stem ++ DOT :: b :: (e ++ SEPERATOR_STR) in
  extension p = Ret (Some (b :: e)) -> utf8 (b :: e) = true -> is_ascii b = false ->
  with_extension p ext = Panic.
Proof.
  intros p He Hu Hb. destruct (utf8_head_wide b e Hu Hb) as (c & e' & -> & Hc).
  assert (length p - length (b :: c :: e') = length (stem ++ [DOT; b])) as Hl.
  { subst p. rewrite !length_app. simpl. rewrite length_app. simpl. lia. }
  assert (p = (stem ++ [DOT; b]) ++ c :: (e' ++ SEPERATOR_STR)) as Hp.
  { subst p. by rewrite <- (assoc_L (++)). }
  assert (is_char_boundary p (length p - length (b :: c :: e')) = false) as Hbd.
  { rewrite Hl, Hp. unfold is_char_boundary. rewrite list_lookup_middle, Hc by done.
    by rewrite length_app, Nat.add_comm. }
  unfold with_extension. rewrite He. cbn [mbind outcome_bind].
  unfold str_to. by rewrite Hbd.
Qed.

Lemma with_extension_panics_wide_witness :
  with_extension ([120] ++ DOT :: 195 :: ([169] ++ SEPERATOR_STR))%Z (lit "a") = Panic.
Proof. apply (with_extension_panics_wide [120%Z] 195%Z [169%Z]); reflexivity. Defined.
