(* ===== verification/PathUtf8.v ===== *)
(** * fs/path: strings stay valid

    The iterator works on bytes and makes strings of what it cuts out without
    looking ([from_utf8_unchecked] in [parse_single_component] and [as_path]):
    that is sound because it cuts at separators only.  The string operations of
    [PathBuf] keep their buffer valid as well. *)

From Stdlib Require Import ZArith Lia ZifyBool Wf_nat.
From stdpp Require Import base list numbers strings.
From S2P Require Import Prelude PathComponents Path PathBuf.

(** What a [str] is. *)
Abbreviation valid s := (utf8 s = true) (only parsing).

(** A position between two characters. *)
Definition boundary (s : str) : Prop :=
  match s with [] => True | b :: _ => is_cont b = false end.

(** ** Cutting valid strings *)

(** The ranges of second bytes are continuation bytes. *)
Lemma second_byte (x b : Z) :
  (if (x =? 224)%Z then in_range 160 191 b
   else if (x =? 237)%Z then in_range 128 159 b else is_cont b) = true -> is_cont b = true.
Proof. unfold in_range, is_cont. repeat case_match; lia. Qed.
Lemma second_byte_4 (x b : Z) :
  (if (x =? 240)%Z then in_range 144 191 b
   else if (x =? 244)%Z then in_range 128 143 b else is_cont b) = true -> is_cont b = true.
Proof. unfold in_range, is_cont. repeat case_match; lia. Qed.

(** A valid string starts with a character: a first byte with continuation
    bytes behind it, after which anything valid may stand. *)
Lemma utf8_char s :
  valid s -> s = [] \/ exists x t r, s = (x :: t) ++ r /\
    Forall (fun b => is_cont b = true) t /\ valid r /\ forall r', utf8 ((x :: t) ++ r') = utf8 r'.
Proof.
  intros Hu. destruct s as [|x0 s]; [by left|]. right. cbn [utf8] in Hu.
  destruct (in_range 0 127 x0) eqn:E0.
  { exists x0, [], s. split_and!; [done|constructor|done|]. intros r'. cbn [app utf8]. by rewrite E0. }
  destruct s as [|x1 s]; [done|]. destruct (in_range 194 223 x0) eqn:E1.
  { apply andb_prop in Hu as [Hc Hu]. exists x0, [x1], s.
    split_and!; [done|by repeat constructor|done|]. intros r'. cbn [app utf8]. by rewrite E0, E1, Hc. }
  destruct s as [|x2 s]; [done|]. destruct (in_range 224 239 x0) eqn:E2.
  { apply andb_prop in Hu as [[Hc1 Hc2]%andb_prop Hu]. exists x0, [x1; x2], s.
    split_and!; [done| |done|intros r'; cbn [app utf8]; by rewrite E0, E1, E2, Hc1, Hc2].
    apply second_byte in Hc1. by repeat constructor. }
  destruct s as [|x3 s]; [done|].
  apply andb_prop in Hu as [[[[Hc0 Hc1]%andb_prop Hc2]%andb_prop Hc3]%andb_prop Hu].
  exists x0, [x1; x2; x3], s.
  split_and!; [done| |done|intros r'; cbn [app utf8]; by rewrite E0, E1, E2, Hc0, Hc1, Hc2, Hc3].
  apply second_byte_4 in Hc1. by repeat constructor.
Qed.

Lemma utf8_app a s : valid a -> valid s -> valid (a ++ s).
Proof.
  induction a as [a IH] using (induction_ltof1 _ length). unfold ltof in IH. intros Ha Hs.
  destruct (utf8_char a Ha) as [->|(x & t & r & -> & _ & Hr & Hc)]; [done|].
  rewrite <- app_assoc, Hc. apply IH; [rewrite length_app; cbn; lia|done..].
Qed.

Lemma utf8_split a s : valid (a ++ s) -> boundary s -> valid a /\ valid s.
Proof.
  intros Hu Hs. revert Hu. induction a as [a IH] using (induction_ltof1 _ length). unfold ltof in IH.
  intros Hu. destruct a as [|x0 a]; [done|].
  destruct (utf8_char _ Hu) as [?|(x & t & r & He & Ht & Hr & Hc)]; [done|].
  injection He as -> He. destruct (decide (length t <= length a)) as [Hle|Hgt].
  - assert (a = t ++ drop (length t) a) as Ha.
    { apply (f_equal (take (length t))) in He.
      rewrite take_app_le, take_app_length in He by done. by rewrite <- He, take_drop at 1. }
    rewrite Ha, <- app_assoc in He. apply app_inv_head in He. rewrite <- He in Hr.
    destruct (IH (drop (length t) a)) as [H1 H2]; [rewrite length_drop; cbn; lia|done|].
    split; [|done]. rewrite Ha. change (x :: t ++ ?l) with ((x :: t) ++ l). by rewrite Hc.
  - exfalso. destruct s as [|b s]; cbn in Hs.
    { rewrite app_nil_r in He. apply (f_equal length) in He. rewrite length_app in He. lia. }
    assert (t !! length a = Some b) as Hb.
    { rewrite <- (lookup_app_l t r), <- He by lia. by rewrite list_lookup_middle. }
    rewrite list.Forall_forall in Ht. specialize (Ht b ltac:(by eapply list_elem_of_lookup_2)).
    congruence.
Qed.

Lemma ascii_first b s : is_ascii b = true -> utf8 (b :: s) = utf8 s.
Proof. intros Hb. cbn [utf8]. by replace (in_range 0 127 b) with true. Qed.

(** Cuts between components are such positions. *)
Lemma cut_valid p t : valid (p ++ t) -> cut p t -> valid p /\ valid t.
Proof.
  intros Hu [->|[Ht|[->|[->| ->]]]].
  - by rewrite app_nil_r in Hu.
  - apply utf8_split; [done|]. destruct t as [|b t]; [done|]. by injection Ht as ->.
  - done.
  - by cbn [app] in Hu; rewrite ascii_first in Hu by done.
  - by cbn [app] in Hu; rewrite ascii_first in Hu by done.
Qed.

(** ** The iterator *)

Definition component_valid (c : Component) : Prop := valid (component_as_path c).

Lemma split_sep_valid s : valid s -> Forall (fun seg => valid seg) (split_sep s).
Proof.
  induction s as [s IH] using (induction_ltof1 _ length). unfold ltof in IH. intros Hu.
  pose proof (position_spec is_sep s) as Hp. destruct (position is_sep s) as [i|] eqn:E.
  - destruct Hp as (a & x & b & -> & _ & Hx & Ha). apply is_sep_eq in Hx as ->.
    destruct (utf8_split a (SEPERATOR_BYTE :: b) Hu) as [Hva Hvb]; [done|].
    rewrite ascii_first in Hvb by done. rewrite split_sep_app, split_sep_no_sep by done.
    constructor; [done|]. apply IH; [rewrite length_app; cbn; lia|done].
  - rewrite split_sep_no_sep by done. by repeat constructor.
Qed.

Lemma spec_components_valid p : valid p -> Forall component_valid (spec_components p).
Proof.
  intros Hu. unfold spec_components, start_components. apply Forall_app. split.
  { repeat case_match; repeat constructor. }
  unfold body_components. pose proof (split_sep_valid p Hu) as Hs.
  induction Hs as [|seg segs Hseg _ IH]; [constructor|]. cbn [omap list_omap].
  destruct (parse_single_component seg) as [c|] eqn:E; [|done]. constructor; [|done].
  unfold parse_single_component in E. repeat case_match; simplify_eq; done.
Qed.

(** Dropping what a component takes from the front. *)
Lemma parse_next_valid c size comp :
  parse_next_component c = Ret (size, comp) -> valid (path c) -> valid (drop size (path c)).
Proof.
  unfold parse_next_component. intros Hp Hu. destruct (bool_decide (front c = Body)); [|done].
  cbn [rust_assert mbind outcome_bind] in Hp.
  pose proof (position_spec is_sep (path c)) as Hs. destruct (position is_sep (path c)) as [i|] eqn:E.
  - destruct Hs as (a & x & b & Hpath & <- & Hx & _). apply is_sep_eq in Hx as ->.
    rewrite Hpath, slice_to_ok, take_app_length in Hp by (rewrite length_app; lia).
    cbn in Hp. injection Hp as <- _. rewrite Hpath in *.
    replace (length a + 1) with (length (a ++ [SEPERATOR_BYTE])) by (by rewrite length_app).
    change (SEPERATOR_BYTE :: b) with ([SEPERATOR_BYTE] ++ b) in *. rewrite app_assoc, drop_app_length.
    destruct (utf8_split a ([SEPERATOR_BYTE] ++ b) Hu) as [_ Hb]; [done|].
    by rewrite <- (ascii_first SEPERATOR_BYTE).
  - cbn in Hp. injection Hp as <- _. by rewrite Nat.add_0_r, drop_all.
Qed.

Lemma drop_front_valid c n c' :
  drop_front c n = Ret c' -> valid (drop n (path c)) -> valid (path c').
Proof.
  unfold drop_front, slice_from. intros Hd Hu. case_match; [|done]. by injection Hd as <-.
Qed.

Lemma drop_front_front c n c' : drop_front c n = Ret c' -> front c' = front c.
Proof. unfold drop_front, slice_from. intros Hd. case_match; [|done]. by injection Hd as <-. Qed.

(** The start of a path is one ASCII byte. *)
Lemma start_drop_valid s :
  has_physical_root_fn s = true \/ starts_cur_dir s = true -> valid s -> valid (drop 1 s).
Proof.
  destruct s as [|b s]; [by intros [?|?]|]. intros Hs Hu. cbn [drop].
  rewrite <- (ascii_first b); [done|]. unfold is_ascii, in_range. destruct Hs as [Hb|Hb].
  - apply is_sep_eq in Hb as ->. done.
  - assert (b = DOT) as ->; [|done]. destruct s as [|b' s]; cbn in Hb;
      [|apply andb_prop in Hb as [Hb _]]; by apply Z.eqb_eq in Hb.
Qed.

Lemma next_loop_valid fuel c o c' :
  root_ok c -> next_loop fuel c = Ret (o, c') -> valid (path c) -> valid (path c').
Proof.
  revert c. induction fuel as [|fuel IH]; intros c Hr Hn Hu; [done|]. cbn [next_loop] in Hn.
  destruct (finished c); [by injection Hn as <- <-|]. destruct (front c) eqn:Hf; [..|done].
  - specialize (Hr Hf). cbn [has_physical_root set_front] in Hn.
    destruct (has_physical_root c) eqn:Hroot; [|
      match type of Hn with context [include_cur_dir ?c0] =>
        destruct (include_cur_dir c0) eqn:Hcur end].
    1,2: match type of Hn with context [rust_assert ?b] => destruct b end; [|done]; cbn [rust_assert mbind outcome_bind] in Hn;
      match type of Hn with context [drop_front ?c0 1] =>
        destruct (drop_front c0 1) as [c1| | |] eqn:Hd end; try done; injection Hn as <- <-;
      apply drop_front_valid in Hd; [done|]; apply start_drop_valid; [|done].
    + by left.
    + right. rewrite include_cur_dir_eq in Hcur by (cbn; congruence). by apply andb_prop in Hcur as [_ Hcur].
    + eapply IH; [|done..]. by intros ?.
  - destruct (path c) as [|b s] eqn:Hp.
    { eapply IH; [|done|by rewrite <- Hp in Hu]. by intros ?. }
    rewrite <- Hp in *. destruct (parse_next_component c) as [[size comp]| | |] eqn:Hparse; try done.
    cbn [mbind outcome_bind] in Hn. destruct (drop_front c size) as [c1| | |] eqn:Hd; try done.
    cbn [mbind outcome_bind] in Hn. pose proof (parse_next_valid _ _ _ Hparse Hu) as Hv.
    pose proof (drop_front_front _ _ _ Hd) as Hf1.
    apply drop_front_valid in Hd; [|done]. destruct comp; [by injection Hn as <- <-|].
    eapply IH; [|done..]. intros ?. congruence.
Qed.

Lemma next_valid c o c' :
  wf c -> next c = Ret (o, c') -> valid (path c) -> valid (path c').
Proof.
  intros Hwf Hn Hu. destruct (finished c) eqn:Hf.
  - unfold next in Hn. rewrite Nat.add_comm in Hn. cbn [Nat.add next_loop] in Hn. rewrite Hf in Hn.
    by injection Hn as <- <-.
  - eapply next_loop_valid; [by apply wf_root_ok|done..].
Qed.

Lemma next_back_valid c o c' :
  wf c -> next_back c = Ret (o, c') -> valid (path c) -> valid (path c').
Proof.
  intros Hwf Hn Hu. destruct (next_back_located c Hwf) as (c1 & Hn1 & _ & _ & Hloc).
  rewrite Hn in Hn1. injection Hn1 as _ <-. destruct Hloc as (_ & _ & t & Hp & Hc & _).
  rewrite Hp in Hu. by destruct (cut_valid _ _ Hu Hc).
Qed.

Lemma trim_left_valid fuel c c' :
  trim_left_loop fuel c = Ret c' -> valid (path c) -> valid (path c').
Proof.
  revert c. induction fuel as [|fuel IH]; intros c Ht Hu; [done|]. cbn [trim_left_loop] in Ht.
  destruct (path c) as [|b s] eqn:Hp; [injection Ht as <-; by rewrite Hp|]. rewrite <- Hp in *.
  destruct (parse_next_component c) as [[size comp]| | |] eqn:Hparse; try done.
  cbn [mbind outcome_bind] in Ht. destruct comp; [by injection Ht as <-|].
  destruct (drop_front c size) as [c1| | |] eqn:Hd; try done. cbn [mbind outcome_bind] in Ht.
  apply IH in Ht; [done|]. eapply drop_front_valid; [done|]. by eapply parse_next_valid.
Qed.

Lemma trim_right_valid c c' :
  back c = Body -> root_ok c -> trim_right c = Ret c' -> valid (path c) -> valid (path c').
Proof.
  intros Hb Hr Ht Hu. destruct (trim_right_spec c Hb Hr) as (p & t & Ht' & Htrim & _).
  rewrite Ht in Ht'. injection Ht' as ->. pose proof (trimmed_cut _ _ _ Htrim) as Hc.
  destruct Htrim as (Hp & _). rewrite Hp in Hu. by destruct (cut_valid _ _ Hu Hc).
Qed.

Lemma as_path_valid c q : wf c -> as_path c = Ret q -> valid (path c) -> valid q.
Proof.
  intros Hwf Ha Hu. unfold as_path in Ha. destruct (finished c) eqn:Hnf.
  { destruct (as_path_spec c Hwf) as (q' & Ha' & Hs & _). unfold as_path in Ha'.
    rewrite Ha in Ha'. injection Ha' as <-. destruct Hwf as [Hfin _]. specialize (Hfin Hnf).
    unfold trim_left, trim_right in Ha. rewrite Hfin in Ha. cbn [length trim_left_loop] in Ha.
    rewrite Hfin in Ha. destruct (bool_decide (front c = Body)); cbn [mbind outcome_bind] in Ha;
      rewrite Hfin in Ha; cbn [length trim_right_loop] in Ha; rewrite Hfin in Ha;
      rewrite (proj2 (Nat.ltb_ge (len_before_body c) (length []))) in Ha by (cbn; lia);
      (destruct (bool_decide (back c = Body)); injection Ha as <-; by rewrite Hfin). }
  pose proof (wf_root_ok c Hwf Hnf) as Hroot.
  destruct (not_finished c Hnf) as [[Hf Hb]|[[Hf Hb]|[Hf Hb]]]; rewrite Hf in Ha; simpl in Ha.
  - rewrite Hb in Ha. simpl in Ha. by injection Ha as <-.
  - rewrite Hb in Ha. simpl in Ha. destruct (trim_right c) as [c1| | |] eqn:Ht; try done.
    injection Ha as <-. by eapply trim_right_valid.
  - destruct (trim_left_spec c Hf) as (p & Hl & _). rewrite Hl in Ha. simpl in Ha. rewrite Hb in Ha.
    simpl in Ha. destruct (trim_right (set_path c p)) as [c1| | |] eqn:Ht; try done.
    injection Ha as <-. eapply trim_right_valid; [|..|exact Ht|]; [done|intros ?; simpl in *; congruence|].
    by apply (trim_left_valid _ c _ Hl).
Qed.

(** Any steps from the two ends. *)
Lemma run_valid ops c os c' :
  wf c -> run ops c = Ret (os, c') -> valid (path c) -> wf c' /\ valid (path c').
Proof.
  revert c os. induction ops as [|op ops IH]; intros c os Hwf Hr Hu; simpl in Hr.
  { by injection Hr as <- <-. }
  destruct op.
  - destruct (next_spec c Hwf) as (c1 & Hn & Hwf1 & _). rewrite Hn in Hr. simpl in Hr.
    destruct (run ops c1) as [[os1 c2]| | |] eqn:Hr1; try done. injection Hr as <- <-.
    apply (IH c1 os1); [done..|]. exact (next_valid c _ c1 Hwf Hn Hu).
  - destruct (next_back_spec c Hwf) as (c1 & Hn & Hwf1 & _). rewrite Hn in Hr. simpl in Hr.
    destruct (run ops c1) as [[os1 c2]| | |] eqn:Hr1; try done. injection Hr as <- <-.
    apply (IH c1 os1); [done..|]. exact (next_back_valid c _ c1 Hwf Hn Hu).
Qed.

Lemma deque_subset ops l : Forall (fun o => match o with Some x => x ∈ l | None => True end) (fst (deque ops l)).
Proof.
  revert l. induction ops as [|op ops IH]; intros l; [constructor|]. cbn [deque]. destruct op.
  - specialize (IH (tail l)). destruct (deque ops (tail l)) as [os l']. cbn [fst] in *.
    constructor; [destruct l; cbn; [done|by left]|]. eapply Forall_impl; [exact IH|].
    intros [x|] Hx; [|done]. destruct l; [done|by right].
  - specialize (IH (removelast l)). destruct (deque ops (removelast l)) as [os l']. cbn [fst] in *.
    constructor; [destruct (list.last l) eqn:E; [by apply last_Some_elem_of|done]|].
    eapply Forall_impl; [exact IH|]. intros [x|] Hx; [|done].
    destruct (removelast_prefix l) as [t ->]. apply elem_of_app. by left.
Qed.

(** ** Properties *)

(** C17: the strings the iterator makes of bytes without a check are valid: on a
    valid path, after any steps from the two ends, every component yielded is
    valid UTF-8, and so is what [as_path] returns. *)
Theorem iteration_valid (p : str) (ops : list step_end) :
  valid p ->
  exists os c q, run ops (new p) = Ret (os, c) /\ as_path c = Ret q /\ valid q /\
    forall x, Some x ∈ os -> valid (component_as_path x).
Proof.
  intros Hu. destruct (run_deque ops (new p) (wf_new p)) as (c & Hr & Hwf & _).
  destruct (run_valid ops (new p) _ _ (wf_new p) Hr Hu) as [_ Hv].
  destruct (as_path_spec c Hwf) as (q & Hq & _). do 3 eexists. split_and!; [done..| |].
  - by apply (as_path_valid c).
  - intros x Hx. rewrite remaining_new in Hx.
    pose proof (deque_subset ops (spec_components p)) as Hs. rewrite list.Forall_forall in Hs.
    specialize (Hs _ Hx). pose proof (spec_components_valid p Hu) as Hc.
    rewrite list.Forall_forall in Hc. by apply Hc.
Qed.

Lemma truncate_valid s n s' : valid s -> truncate s n = Ret s' -> valid s'.
Proof.
  unfold truncate. intros Hu Ht. destruct (n <=? length s); [|by injection Ht as <-].
  destruct (is_char_boundary s n) eqn:Hb; [|done]. injection Ht as <-.
  destruct n as [|n]; [done|]. unfold is_char_boundary in Hb.
  apply (utf8_split (take (S n) s) (drop (S n) s)); [by rewrite take_drop|].
  destruct (s !! S n) as [b|] eqn:E.
  - rewrite (drop_S _ b) by done. by apply negb_true_iff in Hb.
  - apply lookup_ge_None in E. by rewrite drop_ge.
Qed.

Lemma push_valid s x : valid s -> valid x -> valid (push s x).
Proof.
  intros Hs Hx. unfold push. apply utf8_app; [|done].
  repeat case_match; try done. by apply utf8_app.
Qed.

Lemma pop_valid s b s' : valid s -> pop s = Ret (b, s') -> valid s'.
Proof.
  unfold pop. intros Hs Hp. destruct (parent s) as [[q|]| | |]; try done; cbn in Hp;
    [|by injection Hp as <- <-].
  destruct (truncate s (length q)) as [t| | |] eqn:Ht; try done. injection Hp as <- <-.
  exact (truncate_valid s _ t Hs Ht).
Qed.

Lemma set_file_name_valid s x :
  valid s -> valid x -> exists s', set_file_name s x = Ret s' /\ valid s'.
Proof.
  intros Hs Hx. unfold set_file_name. rewrite file_name_spec. cbn [mbind outcome_bind].
  destruct (pop_spec s Hs) as (o & Ho & Hp). destruct (parent_spec s) as (o' & Ho' & Hpc & _).
  rewrite Ho in Ho'. injection Ho' as <-. unfold parent_components in Hpc.
  destruct (last (spec_components s)) as [[]|] eqn:El; try (by eexists; split; [|apply push_valid]).
  destruct o as [q|]; [|done]. rewrite Hp. eexists. split; [done|].
  apply push_valid; [exact (pop_valid s true q Hs Hp)|done].
Qed.

Lemma set_extension_valid s x :
  valid s -> valid x -> exists b s', set_extension s x = Ret (b, s') /\ valid s'.
Proof.
  intros Hs Hx. assert (exists b s', set_extension s x = Ret (b, s')) as (b & s' & Hr).
  { destruct (file_name s) as [[n|]| | |] eqn:Hn; try (by rewrite file_name_spec in Hn).
    - destruct (file_stem_spec s n Hn) as (stem & Hst & _ & Hpre & Hdot).
      destruct (set_extension_spec s n stem x Hs Hn Hst Hdot Hpre) as (pre & _ & ->). eauto.
    - unfold set_extension, file_stem. rewrite Hn. cbn [mbind outcome_bind option_bind]. eauto. }
  exists b, s'. split; [done|]. unfold set_extension in Hr.
  destruct (file_stem s) as [[stem|]| | |]; try done;
    cbn [mbind outcome_bind] in Hr; [|by injection Hr as <- <-].
  destruct (file_name_ptr s) as [n| | |]; try done. cbn [mbind outcome_bind] in Hr.
  destruct (truncate s (n + length stem)) as [t| | |] eqn:Ht; try done.
  cbn [mbind outcome_bind] in Hr. apply truncate_valid in Ht; [|done]. injection Hr as <- <-.
  destruct (bytes_eqb x []); [done|]. apply utf8_app; [done|]. by rewrite <- Hx.
Qed.

(** C18: with a valid string as argument, all operations that change a [PathBuf]
    with a valid string return, and leave a valid string. *)
Theorem pathbuf_stays_valid (s x : str) :
  valid s -> valid x ->
  valid (push s x) /\
  (exists b s', pop s = Ret (b, s') /\ valid s') /\
  (exists s', set_file_name s x = Ret s' /\ valid s') /\
  (exists b s', set_extension s x = Ret (b, s') /\ valid s') /\
  forall xs, Forall (fun y => valid y) xs -> valid (extend s xs).
Proof.
  intros Hs Hx. split_and!; [by apply push_valid| |by apply set_file_name_valid|by apply set_extension_valid|].
  - destruct (pop_spec s Hs) as (o & _ & Hp). destruct o as [q|]; do 2 eexists;
      (split; [exact Hp|exact (pop_valid _ _ _ Hs Hp)]).
  - intros xs Hxs. unfold extend. revert s Hs. induction Hxs as [|y xs Hy _ IH]; [done|].
    intros s Hs. by apply IH, push_valid.
Qed.

Lemma iteration_valid_witness :
  exists os c q, run [Back; Front] (new [47; 97; 47; 195; 169; 47]%Z) = Ret (os, c) /\
    as_path c = Ret q /\ valid q /\ forall x, Some x ∈ os -> valid (component_as_path x).
Proof. apply (iteration_valid [47; 97; 47; 195; 169; 47]%Z [Back; Front]). reflexivity. Defined.

Lemma pathbuf_stays_valid_witness :
  valid (push (lit "/a/b") [195; 169]%Z) /\
  (exists b s', pop (lit "/a/b") = Ret (b, s') /\ valid s') /\
  (exists s', set_file_name (lit "/a/b") [195; 169]%Z = Ret s' /\ valid s') /\
  (exists b s', set_extension (lit "/a/b") [195; 169]%Z = Ret (b, s') /\ valid s') /\
  forall xs, Forall (fun y => valid y) xs -> valid (extend (lit "/a/b") xs).
Proof. apply (pathbuf_stays_valid (lit "/a/b") [195; 169]%Z); reflexivity. Defined.
