(* ===== verification/PathOrd.v ===== *)
(** * fs/path: conversions, equality and order

    [Path] and [PathBuf] compare as their strings do, byte by byte (the impls
    are derived), not as their components do.  The queries of [Path] look at the
    components only: they cannot tell two spellings of a path apart. *)

From Stdlib Require Import ZArith Lia Morphisms.
From stdpp Require Import base list numbers strings.
From S2P Require Import Prelude PathComponents Path PathBuf.

(** ** Conversions *)

(** A [Path] is its string, and a [PathBuf] its [String]. *)
Definition path_new (s : str) : str := s.
Definition as_str (p : str) : str := p.
(** [AsRef<str> for Path], [AsRef<Path> for Path], [AsRef<Path> for str] and
    [ToOwned for Path]. *)
Definition path_as_ref_str (p : str) : str := as_str p.
Definition path_as_ref_path (p : str) : str := p.
Definition str_as_ref_path (s : str) : str := path_new s.
Definition cow_as_ref_path (s : str) : str := path_new s.
Definition to_owned (p : str) : PathBuf := to_path_buf p.
(** [AsRef<Path> for Components]. *)
Definition components_as_ref_path (c : Components) : outcome str := as_path c.

(** [Deref for PathBuf], and what is defined by it. *)
Definition deref (s : PathBuf) : str := path_new s.
Definition pathbuf_as_path (s : PathBuf) : str := deref s.
Definition pathbuf_as_ref_str (s : PathBuf) : str := as_str (deref s).
Definition pathbuf_as_ref_path (s : PathBuf) : str := deref s.
Definition borrow (s : PathBuf) : str := deref s.
Definition into_string (s : PathBuf) : str := s.
(** [From<&str>], [From<String>] and [From<&Path>] for [PathBuf]. *)
Definition from_str (s : str) : PathBuf := s.
Definition from_string (s : str) : PathBuf := s.
Definition from_path (p : str) : PathBuf := as_str p.

(** A reference for writing: its user [f] gets the string and leaves another, and
    the path it was borrowed from is then that string. *)
Definition from_mut {A} (f : str -> A * str) (s : str) : A * str := f s.
Definition as_mut_str {A} (f : str -> A * str) (p : str) : A * str := f p.
Definition deref_mut {A} (f : str -> A * str) (s : PathBuf) : A * PathBuf := from_mut f s.
Definition as_mut_string {A} (f : str -> A * str) (s : PathBuf) : A * PathBuf := f s.

(** [Display] writes the string. *)
Definition path_display (p : str) : str := as_str p.
Definition pathbuf_display (s : PathBuf) : str := as_str (deref s).

(** ** Equality *)

(** Derived for [Path] and for [PathBuf]: the strings are equal. *)
Definition path_eq (p q : str) : bool := bytes_eqb (as_str p) (as_str q).
Definition pathbuf_eq (s t : PathBuf) : bool := bytes_eqb s t.
(** The impls between the types. *)
Definition path_eq_str (p other : str) : bool := bytes_eqb (as_str p) other.
Definition str_eq_path (s other : str) : bool := bytes_eqb s (as_str other).
Definition path_eq_pathbuf (p : str) (other : PathBuf) : bool :=
  bytes_eqb (as_str p) (as_str (deref other)).
Definition pathbuf_eq_path (s : PathBuf) (other : str) : bool :=
  bytes_eqb (as_str (deref s)) (as_str other).

(** Derived [Hash]: what is fed to the hasher, the bytes of the string and a byte
    that is in no string. *)
Definition str_hash (s : str) : list u8 := s ++ [0xFF%Z].
Definition path_hash (p : str) : list u8 := str_hash (as_str p).
Definition pathbuf_hash (s : PathBuf) : list u8 := str_hash s.

(** ** Order *)

(** [Ord]. *)
Class RustOrd (A : Type) := rcmp : A -> A -> comparison.

(** What [Ord] asks of its implementations. *)
Class RustOrdLaws (A : Type) `{RustOrd A} := {
  rcmp_eq : forall x y, rcmp x y = Eq <-> x = y;
  rcmp_opp : forall x y, rcmp y x = CompOpp (rcmp x y);
  rcmp_trans : forall x y z, rcmp x y = Lt -> rcmp y z = Lt -> rcmp x z = Lt
}.

(** Bytes, and slices in the order of their elements. *)
#[export] Instance u8_ord : RustOrd Z := Z.compare.
#[export] Instance slice_ord {A} `{RustOrd A} : RustOrd (list A) :=
  fix go a b :=
    match a, b with
    | [], [] => Eq
    | [], _ :: _ => Lt
    | _ :: _, [] => Gt
    | x :: a, y :: b => match rcmp x y with Eq => go a b | c => c end
    end.

(** [Ord] derived for [Path] and [PathBuf]. *)
Definition path_cmp (p q : str) : comparison := rcmp (as_str p) (as_str q).
Definition pathbuf_cmp (s t : PathBuf) : comparison := rcmp s t.

(** [Ord] derived for [Component]: the constructors in the order they are
    declared in, then the name. *)
Definition component_rank (c : Component) : Z :=
  match c with RootDir => 0 | CurDir => 1 | ParentDir => 2 | Normal _ => 3 end.
#[export] Instance component_ord : RustOrd Component := fun c d =>
  match c, d with
  | Normal s, Normal t => rcmp s t
  | _, _ => Z.compare (component_rank c) (component_rank d)
  end.

#[export] Instance u8_ord_laws : RustOrdLaws Z.
Proof.
  split.
  - apply Z.compare_eq_iff.
  - intros x y. apply Z.compare_antisym.
  - intros x y z. unfold rcmp, u8_ord. rewrite !Z.compare_lt_iff. lia.
Qed.

#[export] Instance slice_ord_laws {A} `{RustOrdLaws A} : RustOrdLaws (list A).
Proof.
  split.
  - intros a. induction a as [|x a IH]; intros [|y b]; cbn; try done.
    destruct (rcmp x y) eqn:E.
    + apply rcmp_eq in E as ->. fold (rcmp a b). rewrite IH. split; congruence.
    + split; [done|]. intros [= -> ->]. assert (rcmp y y = Eq) by (by apply rcmp_eq). congruence.
    + split; [done|]. intros [= -> ->]. assert (rcmp y y = Eq) by (by apply rcmp_eq). congruence.
  - intros a. induction a as [|x a IH]; intros [|y b]; cbn; try done.
    rewrite (rcmp_opp x y). destruct (rcmp x y); cbn; [apply IH|done..].
  - intros a. induction a as [|x a IH]; intros [|y b] [|z c]; cbn; try done.
    destruct (rcmp x y) eqn:Exy; [apply rcmp_eq in Exy as ->| |done].
    + destruct (rcmp y z); [apply IH|done..].
    + intros _. destruct (rcmp y z) eqn:Eyz; [apply rcmp_eq in Eyz as ->; by rewrite Exy| |done].
      by rewrite (rcmp_trans _ _ _ Exy Eyz).
Qed.

#[export] Instance component_ord_laws : RustOrdLaws Component.
Proof.
  split.
  - intros [] []; cbn; try done. rewrite rcmp_eq. split; congruence.
  - intros [] []; cbn; try done. apply rcmp_opp.
  - intros [] [] []; cbn; try done. apply rcmp_trans.
Qed.

(** ** Two spellings of a path *)

Definition same_components (p q : str) : Prop := spec_components p = spec_components q.
#[export] Instance same_components_equiv : Equivalence same_components.
Proof. unfold same_components. split; red; [done|by symmetry|by etrans]. Qed.

(** Results that are the same, or paths with the same components. *)
Definition same_option (o o' : option str) : Prop := option_Forall2 same_components o o'.
Definition same_result (r r' : result str StripPrefixError) : Prop :=
  match r, r' with
  | Ok p, Ok q => same_components p q
  | Err _, Err _ => True
  | _, _ => False
  end.
Definition same_outcome {A} (R : A -> A -> Prop) (m m' : outcome A) : Prop :=
  match m, m' with Ret x, Ret y => R x y | _, _ => False end.

Lemma start_components_root s :
  has_physical_root_fn s = bool_decide (head (spec_components s) = Some RootDir).
Proof.
  unfold spec_components, start_components. destruct (has_physical_root_fn s); [done|].
  symmetry. apply bool_decide_eq_false. destruct (starts_cur_dir s); [done|]. cbn.
  intros Hh. destruct (body_components s) as [|c l] eqn:E; [done|]. injection Hh as ->.
  destruct (body_no_curdir s) as [_ []]. rewrite E. left.
Qed.

#[export] Instance is_absolute_proper : Proper (same_components ==> eq) is_absolute.
Proof.
  intros p q Hpq. unfold is_absolute, path_has_root, has_root, components. cbn.
  rewrite !start_components_root. by rewrite Hpq.
Qed.

#[export] Instance file_name_proper : Proper (same_components ==> eq) file_name.
Proof. intros p q Hpq. rewrite !file_name_spec. by rewrite Hpq. Qed.

#[export] Instance file_stem_proper : Proper (same_components ==> eq) file_stem.
Proof. intros p q Hpq. unfold file_stem. by rewrite Hpq. Qed.

#[export] Instance extension_proper : Proper (same_components ==> eq) extension.
Proof. intros p q Hpq. unfold extension. by rewrite Hpq. Qed.

#[export] Instance file_prefix_proper : Proper (same_components ==> eq) file_prefix.
Proof. intros p q Hpq. unfold file_prefix. by rewrite Hpq. Qed.

#[export] Instance parent_proper :
  Proper (same_components ==> same_outcome same_option) parent.
Proof.
  intros p q Hpq. destruct (parent_spec p) as (o & -> & Ho & _), (parent_spec q) as (o' & -> & Ho' & _).
  rewrite <- Hpq, <- Ho in Ho'. cbn. unfold same_option.
  destruct o, o'; cbn in Ho'; simplify_eq; by constructor.
Qed.

#[export] Instance strip_prefix_proper :
  Proper (same_components ==> same_components ==> same_outcome same_result) strip_prefix.
Proof.
  intros p q Hpq b c Hbc. unfold same_components in *.
  destruct (strip_prefix_spec p b) as [(x & -> & Hx)|[-> Hx]],
    (strip_prefix_spec q c) as [(y & -> & Hy)|[-> Hy]]; cbn; [|..|done].
  - rewrite Hpq, Hbc, Hy in Hx. by apply app_inv_head in Hx.
  - apply Hy. rewrite <- Hpq, <- Hbc, Hx. by apply prefix_app_r.
  - apply Hx. rewrite Hpq, Hbc, Hy. by apply prefix_app_r.
Qed.

#[export] Instance starts_with_proper :
  Proper (same_components ==> same_components ==> eq) starts_with.
Proof.
  intros p q Hpq b c Hbc. unfold same_components in *.
  rewrite !(proj1 (starts_ends_with_spec _ _)). by rewrite Hpq, Hbc.
Qed.

#[export] Instance ends_with_proper :
  Proper (same_components ==> same_components ==> eq) ends_with.
Proof.
  intros p q Hpq b c Hbc. unfold same_components in *.
  rewrite !(proj2 (starts_ends_with_spec _ _)). by rewrite Hpq, Hbc.
Qed.

(** ** Properties *)

(** C34: the queries on paths cannot tell two spellings of a path apart: on paths
    with the same components they give the same answers, and where the answer is
    a path, paths with the same components. *)
Theorem queries_see_components (p q b c : str) :
  same_components p q -> same_components b c ->
  is_absolute p = is_absolute q /\ file_name p = file_name q /\
  file_stem p = file_stem q /\ extension p = extension q /\ file_prefix p = file_prefix q /\
  starts_with p b = starts_with q c /\ ends_with p b = ends_with q c /\
  same_outcome same_option (parent p) (parent q) /\
  same_outcome same_result (strip_prefix p b) (strip_prefix q c).
Proof.
  intros Hpq Hbc. split_and!; [by rewrite Hpq..|by rewrite Hpq, Hbc|by rewrite Hpq, Hbc| |].
  - by apply parent_proper.
  - by apply strip_prefix_proper.
Qed.

Lemma queries_see_components_witness :
  same_components (lit "/a//b/./c.d/") (lit "/a/b/c.d") /\
  same_outcome same_result (strip_prefix (lit "/a//b/./c.d/") (lit "/a/"))
                           (strip_prefix (lit "/a/b/c.d") (lit "/a")).
Proof.
  split; [reflexivity|].
  apply (queries_see_components (lit "/a//b/./c.d/") (lit "/a/b/c.d") (lit "/a/") (lit "/a"));
    reflexivity.
Defined.

(** Comparing paths: the order is total and agrees with equality, for all
    types that can be compared; a [PathBuf] compares as the [Path] it is borrowed
    as and has its hash, which maps with [PathBuf]s as keys rely on; and equal
    paths have the same components. *)
Theorem path_comparison (p q r : str) :
  (path_cmp p q = Eq <-> path_eq p q = true) /\
  path_cmp q p = CompOpp (path_cmp p q) /\
  (path_cmp p q = Lt -> path_cmp q r = Lt -> path_cmp p r = Lt) /\
  (path_eq_str p q = path_eq p q /\ str_eq_path p q = path_eq p q /\
   path_eq_pathbuf p (from_path q) = path_eq p q /\ pathbuf_eq_path (from_path p) q = path_eq p q) /\
  (pathbuf_cmp p q = path_cmp (borrow p) (borrow q) /\
   pathbuf_eq p q = path_eq (borrow p) (borrow q) /\
   pathbuf_hash p = path_hash (borrow p) /\ (path_hash p = path_hash q <-> path_eq p q = true)) /\
  (path_eq p q = true -> same_components p q).
Proof.
  unfold path_cmp, path_eq, as_str. split_and!; try done.
  - rewrite rcmp_eq. unfold bytes_eqb. by rewrite bool_decide_eq_true.
  - apply rcmp_opp.
  - apply rcmp_trans.
  - unfold path_hash, str_hash, as_str, bytes_eqb. rewrite bool_decide_eq_true.
    split; [apply app_inv_tail|by intros ->].
  - intros He%bool_decide_eq_true. by rewrite He.
Qed.

(** Equality is finer: a separator at the end makes another path, and the order
    is not that of the components, in which a directory comes before its
    entries and their siblings. *)
Example spellings_differ :
  same_components (lit "/a/") (lit "/a") /\ path_eq (lit "/a/") (lit "/a") = false.
Proof. done. Qed.
Example order_differs :
  path_cmp (lit "a!") (lit "a/b") = Lt /\
  rcmp (spec_components (lit "a!")) (spec_components (lit "a/b")) = Gt.
Proof. done. Qed.
