(* ===== verification/PathExt.v ===== *)
(** * fs/path: [with_extension], and the memory of a [PathBuf]

    [Path::with_extension] is meant to be [PathBuf::set_extension] on a copy, made
    with one allocation of the right size.  Both are shown here, the second on a
    model of [String] that has a capacity. *)

From Stdlib Require Import ZArith Lia.
From stdpp Require Import base list numbers strings.
From S2P Require Import Prelude PathComponents Path PathBuf.

(** ** Where the file name stands *)

(** What may stand before and behind the file name of a path. *)
Definition dir_part (pre : str) : Prop := pre = [] \/ exists q, pre = q ++ [SEPERATOR_BYTE].
Definition tail_part (t : str) : Prop :=
  t = [] \/ exists t', t = SEPERATOR_BYTE :: t' /\ body_components t' = [].

Lemma body_dir_part pre s :
  dir_part pre -> exists l, body_components (pre ++ s) = l ++ body_components s.
Proof.
  intros [->|(q & ->)]; [by exists []|]. rewrite <- (assoc_L (++)). cbn [app].
  rewrite body_app. by eexists.
Qed.

Lemma body_tail_part n t :
  is_name n = true -> tail_part t -> body_components (n ++ t) = [Normal n].
Proof.
  intros Hn [->|(t' & -> & Ht)]; [rewrite app_nil_r; by apply body_name|].
  by rewrite body_app, Ht, app_nil_r, body_name.
Qed.

Lemma file_name_located pre n t :
  dir_part pre -> is_name n = true -> tail_part t -> file_name (pre ++ n ++ t) = Ret (Some n).
Proof.
  intros Hp Hn Ht. rewrite file_name_spec. unfold spec_components.
  destruct (body_dir_part pre (n ++ t) Hp) as (l & ->). rewrite body_tail_part by done.
  by rewrite (assoc_L (++)), last_snoc.
Qed.

(** There is one such place. *)
Lemma located_unique pre pre' n t t' :
  dir_part pre' -> is_name n = true -> tail_part t -> tail_part t' ->
  pre ++ n ++ t = pre' ++ n ++ t' -> length pre' <= length pre.
Proof.
  intros Hp' Hn Ht Ht' He. destruct (decide (length pre' <= length pre)) as [|Hlt]; [done|exfalso].
  destruct Hp' as [->|(q & ->)]; [cbn in Hlt; lia|].
  pose proof (is_name_no_sep n Hn) as Hsep. rewrite length_app in Hlt. cbn in Hlt.
  rewrite <- (assoc_L (++)) in He. cbn [app] in He.
  (* the separator lies behind the name *)
  assert (exists d, q = pre ++ n ++ d /\ t = d ++ SEPERATOR_BYTE :: n ++ t') as (d & -> & Ht2).
  { assert (pre = take (length pre) (q ++ SEPERATOR_BYTE :: n ++ t')) as Hpre
      by (by rewrite <- He, take_app_length).
    rewrite take_app_le in Hpre by lia.
    assert (q = pre ++ drop (length pre) q) as Hq by (rewrite Hpre at 1; by rewrite take_drop).
    rewrite Hq, <- (assoc_L (++)) in He. apply app_inv_head in He.
    set (q' := drop (length pre) q) in *.
    destruct (decide (length n <= length q')) as [Hle|Hgt].
    - exists (drop (length n) q').
      assert (n = take (length n) (q' ++ SEPERATOR_BYTE :: n ++ t')) as Hn'
        by (by rewrite <- He, take_app_length).
      rewrite take_app_le in Hn' by done. split; [rewrite Hn' at 1; by rewrite take_drop|].
      rewrite <- (take_drop (length n) q') in He at 1. rewrite <- Hn', <- (assoc_L (++)) in He.
      by apply app_inv_head in He.
    - assert ((n ++ t) !! length q' = Some SEPERATOR_BYTE) as Hl
        by (by rewrite He, list_lookup_middle).
      rewrite lookup_app_l in Hl by lia. rewrite Forall_lookup in Hsep. by specialize (Hsep _ _ Hl). }
  destruct Ht as [->|(t0 & -> & Hb)]; [by destruct d|]. destruct d as [|x d].
  - injection Ht2 as ->. by rewrite body_tail_part in Hb.
  - injection Ht2 as <- ->. rewrite body_app, body_tail_part in Hb by done.
    by destruct (body_components d).
Qed.

(** The file name of a path has such a place. *)
Lemma file_name_parts s n :
  file_name s = Ret (Some n) ->
  exists pre t, s = pre ++ n ++ t /\ file_name_ptr s = Ret (length pre) /\ dir_part pre /\ tail_part t.
Proof.
  intros Hf. pose proof (file_name_is_name _ _ Hf) as Hn.
  destruct (file_name_split _ _ Hf) as (pre & t & Hs & Hptr & Ht & Hp & Hspec).
  exists pre, t. split_and!; [done..|].
  destruct t as [|b t]; [by left|]. destruct Ht as [?|[= ->]]; [done|]. right. exists t.
  split; [done|]. specialize (Hspec n Hn).
  assert (removelast (spec_components s) ++ [Normal n] = spec_components s) as Hr.
  { rewrite file_name_spec in Hf. destruct (spec_components s) as [|x l _] using rev_ind; [done|].
    rewrite last_snoc in Hf. rewrite removelast_last. by destruct x; simplify_eq. }
  rewrite Hr, Hs in Hspec. rewrite (assoc_L (++)) in Hspec. unfold spec_components in Hspec.
  rewrite body_app, (start_components_app (pre ++ n)) in Hspec;
    [|by intros [_ ->]%app_eq_nil|by left].
  rewrite <- (app_nil_r (start_components _ ++ _)) in Hspec at 1.
  rewrite (assoc_L (++)) in Hspec. by apply app_inv_head in Hspec.
Qed.

Lemma file_name_ptr_located pre n t :
  dir_part pre -> is_name n = true -> tail_part t ->
  file_name_ptr (pre ++ n ++ t) = Ret (length pre).
Proof.
  intros Hp Hn Ht. pose proof (file_name_located pre n t Hp Hn Ht) as Hf.
  destruct (file_name_parts _ _ Hf) as (pre' & t' & Hs & -> & Hp' & Ht').
  pose proof (located_unique pre pre' n t t' Hp' Hn Ht Ht' Hs).
  pose proof (located_unique pre' pre n t' t Hp Hn Ht' Ht (eq_sym Hs)). f_equal. lia.
Qed.

(** ** Cutting a path behind its file name *)

Definition dot_segment (seg : str) : Prop := seg = [] \/ seg = [DOT].

Lemma dot_segment_parse seg : parse_single_component seg = None <-> dot_segment seg.
Proof.
  unfold dot_segment, parse_single_component, bytes_eqb.
  repeat case_bool_decide; cbn; intuition congruence.
Qed.

Lemma body_dot_segments s : body_components s = [] <-> Forall dot_segment (split_sep s).
Proof.
  unfold body_components. induction (split_sep s) as [|seg segs IH]; [done|].
  rewrite Forall_cons_iff, <- IH, <- dot_segment_parse. cbn.
  destruct (parse_single_component seg); intuition congruence.
Qed.

(** The first segment of a string that is cut is cut, or stays. *)
Lemma split_sep_head a b :
  exists seg segs x segs', split_sep a = seg :: segs /\ split_sep (a ++ b) = (seg ++ x) :: segs'.
Proof.
  induction a as [|c a (seg & segs & x & segs' & H1 & H2)]; cbn.
  - exists [], []. destruct b as [|c b]; [by exists [], []|]. cbn.
    destruct (is_sep c); [by eexists [], _|]. destruct (split_sep b); by eexists _, _.
  - destruct (is_sep c); [by eexists [], _, [], _|]. rewrite H1, H2.
    by eexists _, _, x, _.
Qed.

Lemma dot_segments_cut a b :
  Forall dot_segment (split_sep (a ++ b)) -> Forall dot_segment (split_sep a).
Proof.
  induction a as [|c a IH]; intros Hd; [by constructor; [left|]|]. cbn in *.
  destruct (is_sep c).
  { apply Forall_cons_iff in Hd as [_ Hd]. constructor; [by left|by apply IH]. }
  destruct (split_sep_head a b) as (seg & segs & x & segs' & H1 & H2). rewrite H1, H2 in *.
  apply Forall_cons_iff in Hd as [[?|[= -> Hx]] Hd]; [done|].
  apply app_eq_nil in Hx as [-> ->]. cbn in *.
  assert (Forall dot_segment ([] :: segs)) as [_ Hs]%Forall_cons_iff.
  { apply IH. constructor; [by left|done]. }
  constructor; [by right|done].
Qed.

Lemma tail_part_take k t : tail_part t -> tail_part (take k t).
Proof.
  intros [->|(t' & -> & Hb)]; [left; by rewrite take_nil|]. destruct k as [|k]; [by left|].
  right. exists (take k t'). split; [done|]. rewrite body_dot_segments in *.
  apply (dot_segments_cut _ (drop k t')). by rewrite take_drop.
Qed.

(** ** [set_extension] and [with_extension] *)

(** The stem and the extension of a file name. *)
Definition name_stem (n : str) : option str :=
  let '(before, after) := rsplit_file_at_dot n in option_or before after.
Definition name_extension (n : str) : option str :=
  let '(before, after) := rsplit_file_at_dot n in option_and before after.

Lemma name_stem_spec n :
  is_name n = true ->
  exists stem, name_stem n = Some stem /\ stem <> [] /\
    match name_extension n with
    | Some e => n = stem ++ DOT :: e /\ (DOT ∉ e)
    | None => n = stem
    end.
Proof.
  intros Hn. destruct (is_name_not_special n Hn) as [Hdd Hne].
  destruct (rsplit_spec n Hdd Hne) as (stem & ext & Hs & He & Hspec).
  exists stem. unfold name_stem, name_extension. rewrite He. split; [done|].
  destruct ext as [e|]; [by destruct Hspec as (? & ? & ?)|]. destruct Hspec as [-> _]. done.
Qed.

Lemma name_stem_dot stem e :
  is_name (stem ++ DOT :: e) = true -> stem <> [] -> (DOT ∉ e) ->
  name_stem (stem ++ DOT :: e) = Some stem.
Proof.
  intros Hn Hs He. destruct (is_name_not_special _ Hn) as [Hdd Hne].
  destruct (rsplit_spec _ Hdd Hne) as (stem2 & ext2 & Hs2 & He2 & Hspec).
  unfold name_stem. rewrite Hs2. destruct ext2 as [e2|].
  - destruct Hspec as (_ & Heq & Hnd). by destruct (app_last_unique _ _ _ _ _ He Hnd Heq) as [-> _].
  - destruct Hspec as [_ []]. by exists stem, e.
Qed.

Definition new_suffix (ext : str) : str := if bytes_eqb ext [] then [] else DOT :: ext.

Lemma set_extension_located pre n t stem ext :
  dir_part pre -> is_name n = true -> tail_part t -> name_stem n = Some stem ->
  set_extension (pre ++ n ++ t) ext = Ret (true, pre ++ stem ++ new_suffix ext).
Proof.
  intros Hp Hn Ht Hs. destruct (name_stem_spec n Hn) as (stem' & Hs' & _ & He).
  rewrite Hs in Hs'. injection Hs' as <-.
  unfold set_extension, file_stem. rewrite file_name_located by done.
  cbn [mbind outcome_bind option_bind]. fold (name_stem n). rewrite Hs.
  cbn [mbind outcome_bind]. rewrite file_name_ptr_located by done. cbn [mbind outcome_bind].
  rewrite <- length_app.
  assert (exists x, pre ++ n ++ t = (pre ++ stem) ++ x /\
    (x = [] \/ exists b r, x = b :: r /\ is_ascii b = true)) as (x & -> & Hx).
  { destruct (name_extension n) as [e|].
    - destruct He as [-> _]. exists (DOT :: e ++ t). split; [by rewrite <- !(assoc_L (++))|].
      right. by eexists _, _.
    - subst n. exists t. split; [by rewrite (assoc_L (++))|].
      destruct Ht as [->|(t' & -> & _)]; [by left|right; by eexists _, _]. }
  rewrite truncate_app.
  - unfold new_suffix. cbn [mbind outcome_bind].
    destruct (bytes_eqb ext []); [by rewrite app_nil_r|]. by rewrite <- (assoc_L (++)).
  - destruct Hx as [->|(b & r & -> & Hb)]; [rewrite app_nil_r; apply boundary_end|].
    by apply boundary_ascii.
Qed.

Lemma elem_of_cut {A} (x : A) k l : x ∈ take k l -> x ∈ l.
Proof. intros Hx. rewrite <- (take_drop k l). apply elem_of_app. by left. Qed.

(** A dot behind a stem, and more without separators, make a file name. *)
Lemma dotted_is_name stem e :
  no_sep stem -> no_sep e -> stem <> [] -> stem <> [DOT] -> is_name (stem ++ DOT :: e) = true.
Proof.
  intros Hs He Hne Hnd. unfold is_name, bytes_eqb. rewrite !bool_decide_eq_false_2.
  - cbn. rewrite !andb_true_r. apply forallb_forall. intros b Hb%list_elem_of_In.
    apply negb_true_iff. rewrite Forall_forall in Hs, He.
    apply elem_of_app in Hb as [Hb|Hb]; [by apply Hs|].
    apply elem_of_cons in Hb as [->|Hb]; [done|by apply He].
  - destruct stem as [|x [|y stem]]; [done| |by destruct stem]. intros [= -> _]. done.
  - destruct stem as [|x [|y stem]]; done.
  - by destruct stem.
Qed.

(** The part of the path that [with_extension] copies. *)
Lemma with_extension_slice pre stem e t :
  dir_part pre -> is_name (stem ++ DOT :: e) = true -> stem <> [] -> stem <> [DOT] -> (DOT ∉ e) ->
  tail_part t ->
  let p := pre ++ (stem ++ DOT :: e) ++ t in
  exists n' t', take (length p - length e) p = pre ++ n' ++ t' /\ is_name n' = true /\ tail_part t' /\
    name_stem n' = Some stem /\ S (length stem) <= length n'.
Proof.
  intros Hp Hn Hs Hsd He Ht p.
  assert (length p - length e = length pre + (S (length stem) + length t)) as ->.
  { unfold p. rewrite !length_app. cbn [length]. lia. }
  unfold p. rewrite take_app_add. destruct (decide (length e <= length t)) as [Hle|Hgt].
  - exists (stem ++ DOT :: e), (take (length t - length e) t).
    replace (S (length stem) + length t) with
      (length (stem ++ DOT :: e) + (length t - length e)) by (rewrite length_app; cbn; lia).
    rewrite take_app_add. split_and!; [done..|by apply tail_part_take|by apply name_stem_dot|].
    rewrite length_app. cbn. lia.
  - exists (stem ++ DOT :: take (length t) e), [].
    assert (is_name (stem ++ DOT :: take (length t) e) = true) as Hn'.
    { apply is_name_no_sep in Hn. apply Forall_app in Hn as [Hns Hne].
      apply Forall_cons_iff in Hne as [_ Hne]. apply dotted_is_name; try done.
      by apply Forall_take. }
    split_and!; [|done|by left| |].
    + rewrite app_nil_r. f_equal. rewrite <- (assoc_L (++)). cbn [app].
      replace (S (length stem) + length t) with (length stem + S (length t)) by lia.
      rewrite take_app_add. cbn [take]. by rewrite take_app_le by lia.
    + apply name_stem_dot; [done..|]. intros Hin. apply He. by eapply elem_of_cut.
    + rewrite length_app. cbn. lia.
Qed.

(** ** The memory of a [PathBuf] *)

(** A [String] with the bytes it has room for. *)
Record RString := mkRString { r_str : str; r_cap : nat }.

(** How much room the standard library makes is not specified beyond the laws:
    [alloc_cap n] for a new string, [grow_cap cap n] when a string with room for
    [cap] needs room for [n], [shrink_cap cap n] when it may do with [n]. *)
Class Capacity := {
  alloc_cap : nat -> nat;
  grow_cap : nat -> nat -> nat;
  grow_exact_cap : nat -> nat -> nat;
  shrink_cap : nat -> nat -> nat
}.
Class CapacityLaws `{Capacity} := {
  alloc_cap_law : forall n, n <= alloc_cap n;
  grow_cap_law : forall cap n, n <= grow_cap cap n;
  grow_exact_cap_law : forall cap n, n <= grow_exact_cap cap n;
  shrink_cap_law : forall cap n, n <= cap -> n <= shrink_cap cap n <= cap
}.

Section capacity.
Context `{Capacity}.

(** [PathBuf::with_capacity], [capacity], [clear], [reserve], [reserve_exact],
    [shrink_to_fit] and [shrink_to]. *)
Definition c_with_capacity (capacity : nat) : RString := mkRString [] (alloc_cap capacity).
Definition c_capacity (s : RString) : nat := r_cap s.
Definition c_clear (s : RString) : RString := mkRString [] (r_cap s).
Definition c_reserve (s : RString) (additional : nat) : RString :=
  if (r_cap s - length (r_str s) <? additional)%nat
  then mkRString (r_str s) (grow_cap (r_cap s) (length (r_str s) + additional)) else s.
Definition c_reserve_exact (s : RString) (additional : nat) : RString :=
  if (r_cap s - length (r_str s) <? additional)%nat
  then mkRString (r_str s) (grow_exact_cap (r_cap s) (length (r_str s) + additional)) else s.
Definition c_shrink_to (s : RString) (min_capacity : nat) : RString :=
  if (min_capacity <? r_cap s)%nat
  then mkRString (r_str s) (shrink_cap (r_cap s) (Nat.max (length (r_str s)) min_capacity)) else s.
Definition c_shrink_to_fit (s : RString) : RString := c_shrink_to s 0.

(** [try_reserve] and [try_reserve_exact]: [oom] says which requests fail. *)
Inductive TryReserveError := try_reserve_error.
Definition c_try_reserve (oom : nat -> bool) (s : RString) (additional : nat)
    : result unit TryReserveError * RString :=
  if (r_cap s - length (r_str s) <? additional)%nat && oom (length (r_str s) + additional)
  then (Err try_reserve_error, s) else (Ok tt, c_reserve s additional).
Definition c_try_reserve_exact (oom : nat -> bool) (s : RString) (additional : nat)
    : result unit TryReserveError * RString :=
  if (r_cap s - length (r_str s) <? additional)%nat && oom (length (r_str s) + additional)
  then (Err try_reserve_error, s) else (Ok tt, c_reserve_exact s additional).

(** [String::push_str]. *)
Definition c_push_str (s : RString) (t : str) : RString :=
  let s := c_reserve s (length t) in mkRString (r_str s ++ t) (r_cap s).

(** [PathBuf::push], [set_extension] and [Path::with_extension] again, on such
    strings. *)
Definition c_push (s : RString) (p : str) : RString :=
  let need_sep :=
    match last (chars (r_str s)) with
    | Some c => bytes_eqb c SEPERATOR_STR
    | None => false
    end in
  let s :=
    if is_absolute p then c_clear s
    else if path_has_root p then s
    else if need_sep then c_push_str s SEPERATOR_STR
    else s in
  c_push_str s p.

Definition c_set_extension (s : RString) (ext : str) : outcome (bool * RString) :=
  stem ← file_stem (r_str s);
  match stem with
  | None => Ret (false, s)
  | Some stem =>
      ptr ← file_name_ptr (r_str s);
      t ← truncate (r_str s) (ptr + length stem);
      let s := mkRString t (r_cap s) in
      let s := if bytes_eqb ext [] then s
               else
                 let s := c_reserve_exact s (length ext + 1) in
                 let s := c_push_str s [DOT] in
                 c_push_str s ext in
      Ret (true, s)
  end.

(** The capacity [with_extension] asks for. *)
Definition new_cap (p ext : str) (prev : option str) : nat :=
  match prev with
  | None => length p + length ext + 1
  | Some prev => length p + length ext - length prev
  end.

Definition c_with_extension (p ext : str) : outcome RString :=
  prev ← extension p;
  slice ← match prev with
          | None => Ret p
          | Some prev => str_to p (length p - length prev)
          end;
  let new_path := c_push (c_with_capacity (new_cap p ext prev)) slice in
  '(_, new_path) ← c_set_extension new_path ext;
  Ret new_path.
End capacity.

Section capacity_facts.
Context `{CapacityLaws}.

Definition cap_ok (s : RString) : Prop := length (r_str s) <= r_cap s.

(** Strings have the room they use, and operations on room leave them as they
    are. *)
Lemma c_reserve_spec s n :
  cap_ok s -> cap_ok (c_reserve s n) /\ r_str (c_reserve s n) = r_str s /\
  length (r_str s) + n <= r_cap (c_reserve s n) /\
  (length (r_str s) + n <= r_cap s -> c_reserve s n = s).
Proof.
  unfold cap_ok, c_reserve. intros Hs. destruct (Nat.ltb_spec (r_cap s - length (r_str s)) n); cbn.
  - pose proof (grow_cap_law (r_cap s) (length (r_str s) + n)). split_and!; [lia|done|lia|lia].
  - split_and!; (done || lia).
Qed.

Lemma c_push_str_spec s t :
  cap_ok s -> cap_ok (c_push_str s t) /\ r_str (c_push_str s t) = r_str s ++ t /\
  (length (r_str s) + length t <= r_cap s -> r_cap (c_push_str s t) = r_cap s).
Proof.
  intros Hs. destruct (c_reserve_spec s (length t) Hs) as (_ & He & Hl & Hn).
  unfold c_push_str, cap_ok. cbn. rewrite He, length_app.
  split_and!; [lia|done|]. intros Hle. by rewrite Hn.
Qed.

Lemma c_reserve_exact_spec s n :
  cap_ok s -> cap_ok (c_reserve_exact s n) /\ r_str (c_reserve_exact s n) = r_str s /\
  (length (r_str s) + n <= r_cap s -> c_reserve_exact s n = s).
Proof.
  unfold cap_ok, c_reserve_exact. intros Hs.
  destruct (Nat.ltb_spec (r_cap s - length (r_str s)) n); cbn.
  - pose proof (grow_exact_cap_law (r_cap s) (length (r_str s) + n)). split_and!; [lia|done|lia].
  - done.
Qed.

(** Appending without a capacity in the way, in one piece or in several. *)
Lemma c_append_suffix s ext :
  cap_ok s ->
  let s' := if bytes_eqb ext [] then s
            else c_push_str (c_push_str (c_reserve_exact s (length ext + 1)) [DOT]) ext in
  cap_ok s' /\ r_str s' = r_str s ++ new_suffix ext /\
  (length (r_str s') <= r_cap s -> r_cap s' = r_cap s).
Proof.
  intros Hs s'. subst s'. unfold new_suffix.
  destruct (bytes_eqb ext []); [by rewrite app_nil_r|].
  destruct (c_reserve_exact_spec s (length ext + 1) Hs) as (H1 & E1 & N1).
  destruct (c_push_str_spec _ [DOT] H1) as (H2 & E2 & N2).
  destruct (c_push_str_spec _ ext H2) as (H3 & E3 & N3).
  rewrite E3, E2, E1 in *. split_and!; [done|by rewrite <- (assoc_L (++))|].
  rewrite !length_app in *. cbn [length] in *. intros Hle. rewrite N1 in * by lia.
  rewrite N3, N2; [done|lia|]. rewrite N2; lia.
Qed.

(** [set_extension] with a capacity is [set_extension]; what fits makes no new
    room. *)
Lemma c_set_extension_spec s ext b t :
  cap_ok s -> set_extension (r_str s) ext = Ret (b, t) ->
  exists s', c_set_extension s ext = Ret (b, s') /\ r_str s' = t /\ cap_ok s' /\
    (length t <= r_cap s -> r_cap s' = r_cap s).
Proof.
  intros Hs. unfold set_extension, c_set_extension.
  destruct (file_stem (r_str s)) as [[stem|]| | |]; cbn [mbind outcome_bind]; try done.
  2:{ intros [= <- <-]. by exists s. }
  destruct (file_name_ptr (r_str s)) as [ptr| | |]; cbn [mbind outcome_bind]; try done.
  destruct (truncate (r_str s) (ptr + length stem)) as [u| | |] eqn:Ht; cbn [mbind outcome_bind]; try done.
  intros [= <- Hu].
  assert (cap_ok (mkRString u (r_cap s))) as Hu'.
  { unfold cap_ok in *. cbn. unfold truncate in Ht.
    destruct (_ <=? _)%nat; [|by simplify_eq].
    destruct (is_char_boundary _ _); simplify_eq. rewrite length_take. lia. }
  destruct (c_append_suffix (mkRString u (r_cap s)) ext Hu') as (H1 & E1 & N1).
  eexists. split; [done|]. cbn [r_str r_cap] in E1, N1. split_and!; [|done|].
  - rewrite E1, <- Hu. unfold new_suffix. by destruct (bytes_eqb ext []); rewrite ?app_nil_r.
  - intros Hle. apply N1. rewrite E1. rewrite <- Hu in Hle. unfold new_suffix.
    by destruct (bytes_eqb ext []); rewrite ?app_nil_r.
Qed.

Lemma c_push_empty n p :
  length p <= n ->
  r_str (c_push (c_with_capacity n) p) = p /\
  r_cap (c_push (c_with_capacity n) p) = alloc_cap n.
Proof.
  intros Hp. pose proof (alloc_cap_law n). unfold c_push.
  assert ((if is_absolute p then c_clear (c_with_capacity n)
           else if path_has_root p then c_with_capacity n
           else if match last (chars (r_str (c_with_capacity n))) with
                   | Some c => bytes_eqb c SEPERATOR_STR | None => false end
                then c_push_str (c_with_capacity n) SEPERATOR_STR else c_with_capacity n)
    = c_with_capacity n) as ->.
  { by destruct (is_absolute p), (path_has_root p). }
  destruct (c_push_str_spec (c_with_capacity n) p) as (_ & -> & Hn); [unfold cap_ok; cbn; lia|].
  split; [done|]. apply Hn. cbn. lia.
Qed.

(** What [with_extension] does, given the part it copies. *)
Lemma with_extension_from p ext prev slice b t :
  extension p = Ret prev ->
  match prev with
  | None => slice = p
  | Some e => str_to p (length p - length e) = Ret slice
  end ->
  set_extension slice ext = Ret (b, t) ->
  length slice <= new_cap p ext prev -> length t <= new_cap p ext prev ->
  with_extension p ext = Ret t /\
  exists c, c_with_extension p ext = Ret c /\ r_str c = t /\ r_cap c = alloc_cap (new_cap p ext prev).
Proof.
  intros He Hsl Hset Hl1 Hl2.
  assert (match prev with None => Ret p | Some prev => str_to p (length p - length prev) end = Ret slice)
    as Hslice by (by destruct prev; subst).
  split.
  - unfold with_extension. rewrite He. cbn [mbind outcome_bind]. rewrite Hslice. cbn [mbind outcome_bind].
    assert (push (with_capacity 0) slice = slice) as ->
      by (rewrite push_eq; by destruct (is_absolute slice)).
    by rewrite Hset.
  - unfold c_with_extension. rewrite He. cbn [mbind outcome_bind]. rewrite Hslice. cbn [mbind outcome_bind].
    destruct (c_push_empty (new_cap p ext prev) slice Hl1) as [Es Ec].
    pose proof (alloc_cap_law (new_cap p ext prev)).
    destruct (c_set_extension_spec (c_push (c_with_capacity (new_cap p ext prev)) slice) ext b t)
      as (c & -> & Hc & _ & Hn); [unfold cap_ok; rewrite Es, Ec; lia|by rewrite Es|].
    exists c. split_and!; [done..|]. rewrite Ec in Hn. apply Hn. lia.
Qed.
End capacity_facts.

(** ** Properties *)

Section properties.
Context `{CapacityLaws}.

(** C35: [with_extension] is [set_extension] on a copy of the path, and the room
    it asks for in advance is all the room the copy ever needs.  This holds where
    the extension can be cut off the end of the string (between characters), for
    every stem but a single dot. *)
Theorem with_extension_is_set_extension (p ext : str) :
  (forall e, extension p = Ret (Some e) -> is_char_boundary p (length p - length e) = true) ->
  file_stem p <> Ret (Some [DOT]) ->
  exists b t prev c, set_extension p ext = Ret (b, t) /\ with_extension p ext = Ret t /\
    extension p = Ret prev /\ c_with_extension p ext = Ret c /\ r_str c = t /\
    r_cap c = alloc_cap (new_cap p ext prev).
Proof.
  intros Hcut Hstem. destruct (file_name p) as [[n|]| | |] eqn:Hf;
    try (by rewrite file_name_spec in Hf).
  - pose proof (file_name_is_name _ _ Hf) as Hn.
    destruct (file_name_parts p n Hf) as (pre & t & -> & _ & Hp & Ht).
    destruct (name_stem_spec n Hn) as (stem & Hs & Hne & He).
    pose proof (set_extension_located pre n t stem ext Hp Hn Ht Hs) as Hset.
    assert (extension (pre ++ n ++ t) = Ret (name_extension n)) as Hext
      by (unfold extension; by rewrite Hf).
    assert (stem <> [DOT]) as Hnd.
    { intros ->. apply Hstem. unfold file_stem. rewrite Hf. cbn. fold (name_stem n). by rewrite Hs. }
    assert (length (new_suffix ext) <= length ext + 1) as Hsuf
      by (unfold new_suffix; destruct (bytes_eqb ext []); cbn; lia).
    exists true, (pre ++ stem ++ new_suffix ext), (name_extension n).
    destruct (name_extension n) as [e|] eqn:Ee.
    + destruct He as [-> He].
      destruct (with_extension_slice pre stem e t Hp Hn Hne Hnd He Ht) as (n' & t' & Hsl & Hn' & Ht' & Hs' & Hl).
      destruct (with_extension_from (pre ++ (stem ++ DOT :: e) ++ t) ext (Some e) (pre ++ n' ++ t') true
        (pre ++ stem ++ new_suffix ext)) as (Hw & c & Hc & Hcs & Hcc); [done| | |..].
      * unfold str_to. by rewrite Hcut, Hsl.
      * by apply set_extension_located.
      * rewrite <- Hsl, length_take. cbn [new_cap]. lia.
      * pose proof (f_equal length Hsl) as Hlen. rewrite length_take in Hlen.
        cbn [new_cap]. rewrite !length_app in *. cbn [length] in *. lia.
      * by exists c.
    + destruct (with_extension_from (pre ++ n ++ t) ext None (pre ++ n ++ t) true
        (pre ++ stem ++ new_suffix ext)) as (Hw & c & Hc & Hcs & Hcc);
        [done..|cbn [new_cap]; lia| |by exists c].
      subst n. cbn [new_cap]. rewrite !length_app. lia.
  - assert (extension p = Ret None) as Hext by (unfold extension; by rewrite Hf).
    assert (set_extension p ext = Ret (false, p)) as Hset
      by (unfold set_extension, file_stem; by rewrite Hf).
    destruct (with_extension_from p ext None p false p) as (Hw & c & Hc & Hcs & Hcc);
      [done..|cbn [new_cap]; lia|cbn [new_cap]; lia|]. by exists false, p, None, c.
Qed.
End properties.

(** A stem of one dot is the other case: the part that is copied is the parent
    directory, which has no extension to set. *)
Example with_extension_dots :
  set_extension (lit "..a") (lit "b") = Ret (true, lit "..b") /\
  with_extension (lit "..a") (lit "b") = Ret (lit "..").
Proof. done. Qed.

(** Room for exactly what is asked for. *)
Definition exact_capacity : Capacity := {|
  alloc_cap n := n; grow_cap _ n := n; grow_exact_cap _ n := n; shrink_cap _ n := n
|}.
#[export] Instance exact_capacity_laws : @CapacityLaws exact_capacity.
Proof. split; cbn; lia. Qed.

Lemma with_extension_is_set_extension_witness :
  exists b t prev c, set_extension (lit "/a/b.tar.gz/") (lit "x") = Ret (b, t) /\
    with_extension (lit "/a/b.tar.gz/") (lit "x") = Ret t /\
    extension (lit "/a/b.tar.gz/") = Ret prev /\
    @c_with_extension exact_capacity (lit "/a/b.tar.gz/") (lit "x") = Ret c /\ r_str c = t /\
    r_cap c = new_cap (lit "/a/b.tar.gz/") (lit "x") prev.
Proof.
  apply (@with_extension_is_set_extension exact_capacity exact_capacity_laws
    (lit "/a/b.tar.gz/") (lit "x")).
  - intros e He. assert (e = lit "gz") as -> by (vm_compute in He; by injection He as <-).
    reflexivity.
  - discriminate.
Defined.
