(* ===== verification/Layout.v ===== *)
(** * memory/layout.rs, and the interface of the [x86_64] crate's addresses *)

From Stdlib Require Import ZArith Lia.
From stdpp Require Import base list numbers.
From S2P Require Import Prelude.

Local Open Scope Z_scope.

(** ** Addresses of the [x86_64] crate *)

(** The crate is not part of the repository: its operations are parameters.
    A [VirtAddr], [PhysAddr], [Page] or [PhysFrame] is represented by its
    numeric value ([as_u64], or the start address of the page or frame). *)
Class X86Addr := {
  va_new_truncate : Z -> Z;
  va_add : Z -> Z -> outcome Z;
  va_sub : Z -> Z -> outcome Z;
  va_align_up : Z -> Z -> outcome Z;
  va_align_down : Z -> Z -> Z;
  page_containing : Z -> Z;
  pa_new : Z -> outcome Z;
  pa_add : Z -> Z -> outcome Z;
  frame_containing : Z -> Z;
  frame_from_start : Z -> option Z
}.

(** A 48-bit address, sign-extended to 64 bits. *)
Definition canonical (a : Z) : Prop :=
  0 <= a < 2 ^ 47 \/ 2 ^ 64 - 2 ^ 47 <= a < 2 ^ 64.

(** The documented behaviour the kernel relies on. *)
Class X86AddrLaws `{X86Addr} : Prop := {
  (* new_truncate makes an address canonical by sign extension *)
  va_new_truncate_law : forall a, canonical a -> va_new_truncate a = a;
  (* adding an offset gives the address behind, when that is an address *)
  va_add_law : forall a n, canonical a -> 0 <= n -> canonical (a + n) ->
    va_add a n = Ret (a + n);
  (* the difference of two addresses *)
  va_sub_law : forall a b, canonical a -> canonical b -> b <= a ->
    va_sub a b = Ret (a - b);
  (* alignment to a power of two: here to 4 KiB pages *)
  va_align_up_law : forall a, canonical a -> canonical (a + 4095) ->
    va_align_up a 4096 = Ret (div_ceil a 4096 * 4096);
  va_align_down_law : forall a, canonical a -> va_align_down a 4096 = a / 4096 * 4096;
  (* the page or frame an address lies in *)
  page_containing_law : forall a, canonical a -> page_containing a = a / 4096 * 4096;
  frame_containing_law : forall a, 0 <= a < 2 ^ 52 -> frame_containing a = a / 4096 * 4096;
  (* a physical address has at most 52 bits *)
  pa_new_law : forall a, 0 <= a < 2 ^ 52 -> pa_new a = Ret a;
  pa_add_law : forall a n, 0 <= a -> 0 <= n -> a + n < 2 ^ 52 -> pa_add a n = Ret (a + n);
  (* from_start_address is Ok exactly on frame boundaries *)
  frame_from_start_law : forall a, 0 <= a < 2 ^ 52 ->
    frame_from_start a = if a mod 4096 =? 0 then Some a else None
}.

(** ** The memory map *)

(** [s_lit!]. *)
Definition TiB (i : Z) : Z := i * 1024 * 1024 * 1024 * 1024.
Definition GiB (i : Z) : Z := i * 1024 * 1024 * 1024.

Section layout.
Context `{X86Addr}.

(** [memory_layout!]: [NAME_START] and [NAME_END] of [start => size]. *)
Definition region_START (start : Z) : Z := va_new_truncate start.
Definition region_END (start size : Z) : Z := va_new_truncate (start + size - 1).

Definition USERSPACE_START : Z := region_START 0.
Definition USERSPACE_END : Z := region_END 0 (TiB 128).
Definition GUARD_HOLE_START : Z := region_START 0xffff800000000000.
Definition GUARD_HOLE_END : Z := region_END 0xffff800000000000 (GiB 7680).
Definition PHYSICAL_MEM_START : Z := region_START (GUARD_HOLE_END + 1).
Definition PHYSICAL_MEM_END : Z := region_END (GUARD_HOLE_END + 1) (TiB 64).
Definition UNUSED_HOLE1_START : Z := region_START (PHYSICAL_MEM_END + 1).
Definition UNUSED_HOLE1_END : Z := region_END (PHYSICAL_MEM_END + 1) (GiB 512).
Definition BITMAP_FRAME_ALLOCATOR_START : Z := region_START (UNUSED_HOLE1_END + 1).
Definition BITMAP_FRAME_ALLOCATOR_END : Z := region_END (UNUSED_HOLE1_END + 1) (TiB 1).
Definition ALLOCATOR_START : Z := region_START (BITMAP_FRAME_ALLOCATOR_END + 1).
Definition ALLOCATOR_END : Z := region_END (BITMAP_FRAME_ALLOCATOR_END + 1) (TiB 31).

(** The kernel half of the map, bottom to top. *)
Definition kernel_layout : list (Z * Z) :=
  [(GUARD_HOLE_START, GUARD_HOLE_END);
   (PHYSICAL_MEM_START, PHYSICAL_MEM_END);
   (UNUSED_HOLE1_START, UNUSED_HOLE1_END);
   (BITMAP_FRAME_ALLOCATOR_START, BITMAP_FRAME_ALLOCATOR_END);
   (ALLOCATOR_START, ALLOCATOR_END)].
End layout.

(** Consecutive ranges (inclusive ends) without gap or overlap. *)
Fixpoint contiguous (l : list (Z * Z)) : Prop :=
  match l with
  | (s, e) :: (((s', _) :: _) as l') => s <= e /\ s' = e + 1 /\ contiguous l'
  | [(s, e)] => s <= e
  | [] => True
  end.

(** ** A concrete instance, for examples *)

Definition sign_extend (a : Z) : Z :=
  let lo := a mod 2 ^ 48 in
  if lo <? 2 ^ 47 then lo else lo + (2 ^ 64 - 2 ^ 48).
Definition canonicalb (a : Z) : bool :=
  ((0 <=? a) && (a <? 2 ^ 47)) || ((2 ^ 64 - 2 ^ 47 <=? a) && (a <? 2 ^ 64)).
Definition checked_va (a : Z) : outcome Z := if canonicalb a then Ret a else Panic.
Definition x86_model : X86Addr := {|
  va_new_truncate := sign_extend;
  va_add a n := checked_va (a + n);
  va_sub a b := if b <=? a then Ret (a - b) else Panic;
  va_align_up a n := checked_va (div_ceil a n * n);
  va_align_down a n := a / n * n;
  page_containing a := a / 4096 * 4096;
  pa_new a := if in_width 52 a then Ret a else Panic;
  pa_add a n := if in_width 52 (a + n) then Ret (a + n) else Panic;
  frame_containing a := a / 4096 * 4096;
  frame_from_start a := if a mod 4096 =? 0 then Some a else None
|}.

(** ** Lemmas *)

Lemma canonicalb_spec a : canonical a <-> canonicalb a = true.
Proof. unfold canonical, canonicalb. lia. Qed.

Lemma div_ceil_bounds a : a <= div_ceil a 4096 * 4096 <= a + 4095.
Proof.
  unfold div_ceil. pose proof (Z.div_mod a 4096) as Hd.
  pose proof (Z.mod_pos_bound a 4096). destruct (a mod 4096 =? 0) eqn:E; lia.
Qed.

#[export] Instance x86_model_laws : @X86AddrLaws x86_model.
Proof.
  constructor; simpl; intros.
  - unfold sign_extend. pose proof (Z.div_mod a (2 ^ 48)) as Hd.
    pose proof (Z.mod_pos_bound a (2 ^ 48)) as Hm. unfold canonical in *.
    destruct (a mod 2 ^ 48 <? 2 ^ 47) eqn:E; lia.
  - unfold checked_va. by rewrite (proj1 (canonicalb_spec _)).
  - by replace (b <=? a) with true by lia.
  - unfold checked_va. rewrite (proj1 (canonicalb_spec _)); [done|].
    pose proof (div_ceil_bounds a). unfold canonical in *.
    unfold div_ceil in *. pose proof (Z.div_mod a 4096). pose proof (Z.mod_pos_bound a 4096).
    destruct (a mod 4096 =? 0) eqn:E; lia.
  - done.
  - done.
  - done.
  - by unfold in_width; replace ((0 <=? a) && (a <? 2 ^ 52)) with true by lia.
  - by unfold in_width; replace ((0 <=? a + n) && (a + n <? 2 ^ 52)) with true by lia.
  - done.
Qed.

Section layout_facts.
Context `{X86AddrLaws}.

(** The constants, computed. *)
Lemma layout_values :
  GUARD_HOLE_START = 0xffff800000000000 /\ GUARD_HOLE_END = 0xffff877fffffffff /\
  PHYSICAL_MEM_START = 0xffff878000000000 /\ PHYSICAL_MEM_END = 0xffffc77fffffffff /\
  UNUSED_HOLE1_START = 0xffffc78000000000 /\ UNUSED_HOLE1_END = 0xffffc7ffffffffff /\
  BITMAP_FRAME_ALLOCATOR_START = 0xffffc80000000000 /\
  BITMAP_FRAME_ALLOCATOR_END = 0xffffc8ffffffffff /\
  ALLOCATOR_START = 0xffffc90000000000 /\ ALLOCATOR_END = 0xffffe7ffffffffff.
Proof.
  assert (forall a, canonicalb a = true -> va_new_truncate a = a) as Ht.
  { intros a Ha. apply va_new_truncate_law. by apply canonicalb_spec. }
  unfold GUARD_HOLE_START, ALLOCATOR_START, ALLOCATOR_END, BITMAP_FRAME_ALLOCATOR_START,
    BITMAP_FRAME_ALLOCATOR_END, UNUSED_HOLE1_START, UNUSED_HOLE1_END, PHYSICAL_MEM_START,
    PHYSICAL_MEM_END, GUARD_HOLE_END, region_START, region_END.
  rewrite !Ht by reflexivity. done.
Qed.

Lemma allocator_start_value : ALLOCATOR_START = 0xffffc90000000000.
Proof. apply layout_values. Qed.
Lemma allocator_end_value : ALLOCATOR_END = 0xffffe7ffffffffff.
Proof. apply layout_values. Qed.
Lemma userspace_values : USERSPACE_START = 0 /\ USERSPACE_END = 2 ^ 47 - 1.
Proof.
  unfold USERSPACE_START, USERSPACE_END, region_START, region_END, TiB.
  rewrite !va_new_truncate_law; [lia|unfold canonical; lia..].
Qed.

(** The kernel half of the memory map is contiguous: each region starts
    where the one below ends, all of it lies in the upper canonical half and
    apart from user space, and every region starts on a page. *)
Theorem layout_contiguous :
  contiguous kernel_layout /\
  Forall (fun '(s, e) => 2 ^ 64 - 2 ^ 47 <= s /\ e < 2 ^ 64 /\ s mod 4096 = 0 /\
            USERSPACE_END < s) kernel_layout.
Proof.
  unfold kernel_layout. destruct layout_values as (-> & -> & -> & -> & -> & -> & -> & -> & -> & ->).
  destruct userspace_values as [_ ->].
  split; [simpl; lia|].
  repeat (apply Forall_cons_2; [split_and!; (reflexivity || lia)|]). apply Forall_nil_2.
Qed.
End layout_facts.

Lemma layout_contiguous_witness :
  contiguous (@kernel_layout x86_model) /\
  Forall (fun '(s, e) => 2 ^ 64 - 2 ^ 47 <= s /\ e < 2 ^ 64 /\ s mod 4096 = 0 /\
            @USERSPACE_END x86_model < s) (@kernel_layout x86_model).
Proof. exact (@layout_contiguous x86_model x86_model_laws). Defined.
