(* ===== verification/Frame.v ===== *)
(** * memory/frame: the boot-time and the bitmap frame allocators *)

From Stdlib Require Import ZArith Lia ZifyBool.
From stdpp Require Import base list numbers.
From S2P Require Import Prelude Layout.

Local Open Scope Z_scope.

(** ** Interfaces *)

(** The [x86_64] crate's allocator traits, for 4 KiB frames. *)
Class FrameAllocator (A : Type) := {
  allocate_frame : A -> outcome (option Z * A)
}.
Class FrameDeallocator (A : Type) := {
  deallocate_frame : A -> Z -> outcome A
}.

(** The crate's page tables ([OffsetPageTable]), a parameter of the model:
    [map_to] is [map_to_with_table_flags] with the flags [PRESENT | WRITABLE]
    for the page and its tables, [clean_up] is [clean_up_addr_range] on one
    page.  Both take frames from, or give frames back to, the allocator they
    are passed. *)
Class PageTable (PT : Type) := {
  map_to : forall {A} `{FrameAllocator A},
    PT -> Z -> Z -> A -> outcome (result unit unit * (PT * A));
  unmap : PT -> Z -> outcome (result Z unit * PT);
  clean_up : forall {A} `{FrameDeallocator A}, PT -> Z -> A -> outcome (PT * A)
}.

(** A region of the boot loader's memory map; [r_usable] is
    [kind == MemoryRegionKind::Usable]. *)
Record MemoryRegion := mkRegion {
  r_start : Z;
  r_end : Z;
  r_usable : bool
}.

Definition usable_regions (regions : list MemoryRegion) : list MemoryRegion :=
  List.filter r_usable regions.

(** ** frame/boot.rs *)

Record BootFrameAllocator := mkBoot {
  boot_regions : list MemoryRegion;
  boot_next : nat
}.

Definition boot_new (regions : list MemoryRegion) : BootFrameAllocator := mkBoot regions 0.
Definition used (b : BootFrameAllocator) : nat := boot_next b.

(** [(start..end).step_by(4096)]. *)
Definition step_by_4096 (s e : Z) : list Z :=
  map (fun i => s + 4096 * Z.of_nat i) (seq 0 (Z.to_nat (div_ceil (e - s) 4096))).

Definition usable_addrs (regions : list MemoryRegion) : list Z :=
  concat (map (fun r => step_by_4096 (r_start r) (r_end r)) (usable_regions regions)).

Section boot.
Context `{X86Addr}.

(** [usable_frames().nth(n)]: the frames are computed up to the one asked for. *)
Fixpoint frames_nth (n : nat) (addrs : list Z) {struct addrs} : outcome (option Z) :=
  match addrs with
  | [] => Ret None
  | a :: addrs' =>
      pa ← pa_new a;
      match n with
      | O => Ret (Some (frame_containing pa))
      | S n' => frames_nth n' addrs'
      end
  end.

Definition boot_allocate_frame (b : BootFrameAllocator)
    : outcome (option Z * BootFrameAllocator) :=
  o ← frames_nth (boot_next b) (usable_addrs (boot_regions b));
  match o with
  | None => Ret (None, b)
  | Some f => Ret (Some f, mkBoot (boot_regions b) (S (boot_next b)))
  end.
End boot.

#[export] Instance boot_frame_allocator `{X86Addr} : FrameAllocator BootFrameAllocator :=
  {| allocate_frame := boot_allocate_frame |}.

(** ** frame/mod.rs: the bitmap *)

Record BitmapFrameAllocator := mkBitmap {
  regions : list MemoryRegion;
  bitmap : list Z
}.

Definition not_u64 (x : Z) : Z := Z.lxor x u64_max.

Definition mark_frame_used (bm : list Z) (frame : Z) : outcome (list Z) :=
  let word := Z.to_nat (frame / 64) in
  let bit := 63 - frame mod 64 in
  w ← index bm word;
  index_set bm word (Z.lor w (Z.shiftl 1 bit)).

Definition mark_frame_free (bm : list Z) (frame : Z) : outcome (list Z) :=
  let word := Z.to_nat (frame / 64) in
  let bit := 63 - frame mod 64 in
  w ← index bm word;
  index_set bm word (Z.land w (not_u64 (Z.shiftl 1 bit))).

Fixpoint first_free_from (i : Z) (bm : list Z) : option Z :=
  match bm with
  | [] => None
  | word :: bm' =>
      if negb (word =? 0) then Some (i * 64 + leading_ones 64 word)
      else first_free_from (i + 1) bm'
  end.
Definition first_free_frame (a : BitmapFrameAllocator) : option Z :=
  first_free_from 0 (bitmap a).

Section bitmap.
Context `{X86Addr} (prof : profile).

Definition required_bitmap_size (regions : list MemoryRegion) : outcome Z :=
  total_bytes ←
    fold_left (fun acc region =>
        acc ← acc;
        s ← arith prof 64 (acc + r_end region);
        arith prof 64 (s - r_start region))
      (usable_regions regions) (Ret 0);
  Ret (div_ceil (div_ceil total_bytes 4096) 8).

Definition is_contiguous (start last pages : Z) : outcome bool :=
  e ← arith prof 64 (last + 0x1000);
  pages ← arith prof 64 (pages * 0x1000);
  d ← arith prof 64 (e - start);
  Ret (d =? pages).

(** [for _ in 1..bitmap_frames]. *)
Fixpoint take_frames (n : nat) (last : Z) (alloc : BootFrameAllocator)
    : outcome (Z * BootFrameAllocator) :=
  match n with
  | O => Ret (last, alloc)
  | S n' =>
      '(o, alloc) ← allocate_frame alloc;
      last ← unwrap o;
      take_frames n' last alloc
  end.

(** [for frame in 0..bitmap_frames]: map the bitmap's frames at
    [BITMAP_FRAME_ALLOCATOR_START]. *)
Fixpoint map_bitmap {PT} `{PageTable PT} (frames : list nat) (first : Z)
    (pt : PT) (alloc : BootFrameAllocator) : outcome (PT * BootFrameAllocator) :=
  match frames with
  | [] => Ret (pt, alloc)
  | frame :: frames' =>
      phys_addr ← pa_add first (Z.of_nat frame * 4096);
      virt_addr ← va_add BITMAP_FRAME_ALLOCATOR_START (Z.of_nat frame * 4096);
      '(r, (pt, alloc)) ←
        map_to pt (page_containing virt_addr) (frame_containing phys_addr) alloc;
      match r with
      | Ok _ => map_bitmap frames' first pt alloc
      | Err _ => Panic
      end
  end.

(** [for i in 0..alloc.used()]. *)
Fixpoint mark_all_used (frames : list nat) (bm : list Z) : outcome (list Z) :=
  match frames with
  | [] => Ret bm
  | i :: frames' => bm ← mark_frame_used bm (Z.of_nat i); mark_all_used frames' bm
  end.

Definition allocate_bitmap {PT} `{PageTable PT} (regions : list MemoryRegion)
    (pt : PT) (alloc : BootFrameAllocator) : outcome (list Z * PT) :=
  bitmap_size ← required_bitmap_size regions;
  let bitmap_frames := div_ceil bitmap_size 4096 in
  '(o, alloc) ← allocate_frame alloc;
  first_frame ← unwrap o;
  '(last_frame, alloc) ← take_frames (Z.to_nat bitmap_frames - 1) first_frame alloc;
  c ← is_contiguous first_frame last_frame bitmap_frames;
  _ ← rust_assert c;
  '(pt, alloc) ← map_bitmap (seq 0 (Z.to_nat bitmap_frames)) first_frame pt alloc;
  let slice := replicate (Z.to_nat bitmap_frames * 512) 0 in
  slice ← mark_all_used (seq 0 (used alloc)) slice;
  Ret (slice, pt).

Definition bitmap_new {PT} `{PageTable PT} (regions : list MemoryRegion) (pt : PT)
    : outcome (BitmapFrameAllocator * PT) :=
  '(bm, pt) ← allocate_bitmap regions pt (boot_new regions);
  Ret (mkBitmap regions bm, pt).

Fixpoint frame_to_address_in (usable : list MemoryRegion) (frame : Z) : outcome (option Z) :=
  match usable with
  | [] => Ret None
  | region :: usable' =>
      len ← arith prof 64 (r_end region - r_start region);
      let frames := len / 4096 in
      if frame <? frames then
        off ← arith prof 64 (frame * 4096);
        a ← arith prof 64 (r_start region + off);
        pa ← pa_new a;
        Ret (Some pa)
      else
        frame ← arith prof 64 (frame - frames);
        frame_to_address_in usable' frame
  end.
Definition frame_to_address (a : BitmapFrameAllocator) (frame : Z) : outcome (option Z) :=
  frame_to_address_in (usable_regions (regions a)) frame.

Fixpoint address_to_frame_in (usable : list MemoryRegion) (frame addr : Z)
    : outcome (option Z) :=
  match usable with
  | [] => Ret None
  | region :: usable' =>
      if (r_start region <=? addr) && (addr <? r_end region) then
        f ← arith prof 64 (frame + (addr - r_start region) / 4096);
        Ret (Some f)
      else
        d ← arith prof 64 (r_start region - r_end region);
        frame ← arith prof 64 (frame + d / 4096);
        address_to_frame_in usable' frame addr
  end.
Definition address_to_frame (a : BitmapFrameAllocator) (addr : Z) : outcome (option Z) :=
  address_to_frame_in (usable_regions (regions a)) 0 addr.

Definition bitmap_allocate_frame (a : BitmapFrameAllocator)
    : outcome (option Z * BitmapFrameAllocator) :=
  match first_free_frame a with
  | None => Ret (None, a)
  | Some frame =>
      bm ← mark_frame_used (bitmap a) frame;
      let a := mkBitmap (regions a) bm in
      o ← frame_to_address a frame;
      match o with
      | None => Ret (None, a)
      | Some addr => f ← unwrap (frame_from_start addr); Ret (Some f, a)
      end
  end.

Definition bitmap_deallocate_frame (a : BitmapFrameAllocator) (frame : Z)
    : outcome BitmapFrameAllocator :=
  o ← address_to_frame a frame;
  f ← unwrap o;
  bm ← mark_frame_free (bitmap a) f;
  Ret (mkBitmap (regions a) bm).
End bitmap.

#[export] Instance bitmap_frame_allocator `{X86Addr} (prof : profile)
  : FrameAllocator BitmapFrameAllocator := {| allocate_frame := bitmap_allocate_frame prof |}.
#[export] Instance bitmap_frame_deallocator (prof : profile)
  : FrameDeallocator BitmapFrameAllocator := {| deallocate_frame := bitmap_deallocate_frame prof |}.

(** ** The bitmap as a set of frames *)

Definition word_ok (w : Z) : Prop := 0 <= w < 2 ^ 64.

Definition used_bit (bm : list Z) (f : Z) : bool :=
  match bm !! Z.to_nat (f / 64) with
  | Some w => Z.testbit w (63 - f mod 64)
  | None => false
  end.

Lemma frame_split f : 0 <= f -> 0 <= f mod 64 < 64 /\ 0 <= f / 64 /\ f = 64 * (f / 64) + f mod 64.
Proof. intros Hf. pose proof (Z.div_mod f 64). pose proof (Z.mod_pos_bound f 64). lia. Qed.

(** The effect of rewriting the word of a frame. *)
Lemma used_bit_insert bm f g w w' b :
  0 <= f -> 0 <= g -> bm !! Z.to_nat (f / 64) = Some w ->
  (forall j, 0 <= j < 64 -> Z.testbit w' j = if j =? 63 - f mod 64 then b else Z.testbit w j) ->
  used_bit (<[Z.to_nat (f / 64) := w']> bm) g = if g =? f then b else used_bit bm g.
Proof.
  intros Hf Hg Hw Hb. unfold used_bit.
  destruct (frame_split f Hf) as (Hf1 & Hf2 & Hf3), (frame_split g Hg) as (Hg1 & Hg2 & Hg3).
  destruct (decide (g / 64 = f / 64)) as [E|E].
  - rewrite E, list_lookup_insert_eq by (by eapply lookup_lt_Some). rewrite Hw, Hb by lia.
    destruct (g =? f) eqn:Egf, (63 - g mod 64 =? 63 - f mod 64) eqn:E'; try done; lia.
  - rewrite list_lookup_insert_ne by lia. by replace (g =? f) with false by lia.
Qed.

Lemma mark_frame_used_spec bm f :
  0 <= f -> (Z.to_nat (f / 64) < length bm)%nat -> Forall word_ok bm ->
  exists bm', mark_frame_used bm f = Ret bm' /\ length bm' = length bm /\
    Forall word_ok bm' /\
    forall g, 0 <= g -> used_bit bm' g = if g =? f then true else used_bit bm g.
Proof.
  intros Hf Hlt Hok. destruct (lookup_lt_is_Some_2 bm _ Hlt) as [w Hw].
  destruct (frame_split f Hf) as (Hf1 & _ & _).
  unfold mark_frame_used. rewrite (index_ok _ _ _ Hw). simpl. rewrite index_set_ok by done.
  eexists. split; [done|]. rewrite length_insert. split; [done|]. split.
  - apply Forall_insert; [done|]. apply (set_bit_range 64); [|lia].
    by apply (Forall_lookup_1 _ _ _ _ Hok Hw).
  - intros g Hg. apply (used_bit_insert _ _ _ w); [done..|].
    intros j Hj. rewrite testbit_set by lia.
    destruct (j =? 63 - f mod 64); by rewrite ?orb_true_r, ?orb_false_r.
Qed.

Lemma mark_frame_free_spec bm f :
  0 <= f -> (Z.to_nat (f / 64) < length bm)%nat -> Forall word_ok bm ->
  exists bm', mark_frame_free bm f = Ret bm' /\ length bm' = length bm /\
    Forall word_ok bm' /\
    forall g, 0 <= g -> used_bit bm' g = if g =? f then false else used_bit bm g.
Proof.
  intros Hf Hlt Hok. destruct (lookup_lt_is_Some_2 bm _ Hlt) as [w Hw].
  destruct (frame_split f Hf) as (Hf1 & _ & _).
  unfold mark_frame_free. rewrite (index_ok _ _ _ Hw). simpl. rewrite index_set_ok by done.
  eexists. split; [done|]. rewrite length_insert. split; [done|]. split.
  - apply Forall_insert; [done|]. apply (clear_bit_range 64); [lia|].
    by apply (Forall_lookup_1 _ _ _ _ Hok Hw).
  - intros g Hg. apply (used_bit_insert _ _ _ w); [done..|].
    intros j Hj. unfold not_u64, u64_max. rewrite testbit_clear by lia.
    destruct (j =? 63 - f mod 64); by rewrite ?andb_false_r, ?andb_true_r.
Qed.

(** Two bitmaps of words with the same bits are the same. *)
Lemma used_bit_ext bm bm' :
  Forall word_ok bm -> Forall word_ok bm' -> length bm = length bm' ->
  (forall g, 0 <= g -> used_bit bm g = used_bit bm' g) -> bm = bm'.
Proof.
  intros Hok Hok' Hlen Hbits. apply list_eq_same_length with (length bm); [done..|].
  intros i x y Hi Hx Hy. apply Z.bits_inj'. intros j Hj.
  pose proof (Forall_lookup_1 _ _ _ _ Hok Hx) as Hxw.
  pose proof (Forall_lookup_1 _ _ _ _ Hok' Hy) as Hyw.
  destruct (decide (j < 64)).
  - specialize (Hbits (64 * Z.of_nat i + (63 - j))). unfold used_bit in Hbits.
    replace ((64 * Z.of_nat i + (63 - j)) / 64) with (Z.of_nat i) in Hbits
      by (rewrite Z.mul_comm, Z.div_add_l, (Z.div_small (63 - j)); lia).
    replace ((64 * Z.of_nat i + (63 - j)) mod 64) with (63 - j) in Hbits
      by (rewrite Z.add_comm, Z.mul_comm, Z.mod_add, Z.mod_small; lia).
    rewrite Nat2Z.id, Hx, Hy in Hbits. replace (63 - (63 - j)) with j in Hbits by lia.
    apply Hbits. lia.
  - by rewrite !(bits_above 64) by (unfold word_ok in *; lia).
Qed.

(** Marking a frame used changes that frame's bit and no other, and
    freeing it again restores the whole bitmap, when the frame was free. *)
Theorem mark_used_free_roundtrip (bm : list Z) (f : Z) :
  0 <= f -> (Z.to_nat (f / 64) < length bm)%nat -> Forall word_ok bm ->
  used_bit bm f = false ->
  exists bm', mark_frame_used bm f = Ret bm' /\
    (forall g, 0 <= g -> used_bit bm' g = (g =? f) || used_bit bm g) /\
    mark_frame_free bm' f = Ret bm.
Proof.
  intros Hf Hlt Hok Hfree.
  destruct (mark_frame_used_spec bm f) as (bm1 & Hm1 & Hl1 & Hok1 & Hb1); [done..|].
  destruct (mark_frame_free_spec bm1 f) as (bm2 & Hm2 & Hl2 & Hok2 & Hb2);
    [done|by rewrite Hl1|done|].
  exists bm1. split_and!; [done| |].
  - intros g Hg. rewrite Hb1 by done. by destruct (g =? f).
  - rewrite Hm2. f_equal. apply used_bit_ext; [done..|congruence|].
    intros g Hg. rewrite Hb2, Hb1 by done. destruct (g =? f) eqn:E; [|done].
    apply Z.eqb_eq in E as ->. done.
Qed.

Lemma mark_used_free_roundtrip_witness :
  exists bm', mark_frame_used [0; 2 ^ 63] 65 = Ret bm' /\
    (forall g, 0 <= g -> used_bit bm' g = (g =? 65) || used_bit [0; 2 ^ 63] g) /\
    mark_frame_free bm' 65 = Ret [0; 2 ^ 63].
Proof.
  apply mark_used_free_roundtrip; [lia| |repeat constructor; lia|reflexivity].
  vm_compute. lia.
Defined.

(** ** The search for a free frame *)

Lemma first_free_from_spec i bm :
  (first_free_from i bm = None /\ bm = replicate (length bm) 0) \/
  exists k w rest, bm = replicate k 0 ++ w :: rest /\ w <> 0 /\
    first_free_from i bm = Some ((i + Z.of_nat k) * 64 + leading_ones 64 w).
Proof.
  revert i. induction bm as [|w bm IH]; intros i; simpl; [by left|].
  destruct (w =? 0) eqn:E; simpl.
  - apply Z.eqb_eq in E as ->. destruct (IH (i + 1)) as [[-> Hb]|(k & w & rest & -> & Hw & ->)].
    + left. split; [done|]. by rewrite <- Hb at 1.
    + right. exists (S k), w, rest. split_and!; [done..|]. do 2 f_equal. lia.
  - right. exists 0%nat, w, bm. apply Z.eqb_neq in E. split_and!; [done..|].
    do 2 f_equal. lia.
Qed.

Lemma used_bit_at k w rest j :
  0 <= j < 64 ->
  used_bit (replicate k 0 ++ w :: rest) (Z.of_nat k * 64 + j) = Z.testbit w (63 - j).
Proof.
  intros Hj. unfold used_bit.
  replace ((Z.of_nat k * 64 + j) / 64) with (Z.of_nat k)
    by (rewrite Z.div_add_l, (Z.div_small j); lia).
  replace ((Z.of_nat k * 64 + j) mod 64) with j
    by (rewrite Z.add_comm, Z.mod_add, Z.mod_small; lia).
  rewrite Nat2Z.id, list_lookup_middle by (by rewrite length_replicate). done.
Qed.

(** What [first_free_frame] finds.  With no used frame at all it finds
    nothing.  Otherwise it looks only at the first word that has a used frame:
    its first free frame, with every frame before it in that word used, or,
    when the word is full, the first frame of the next word, used or not. *)
Theorem first_free_frame_found (a : BitmapFrameAllocator) :
  Forall word_ok (bitmap a) ->
  match first_free_frame a with
  | None => forall g, used_bit (bitmap a) g = false
  | Some f => exists k w rest, bitmap a = replicate k 0 ++ w :: rest /\ w <> 0 /\
      (w <> u64_max -> Z.of_nat k * 64 <= f < (Z.of_nat k + 1) * 64 /\
         used_bit (bitmap a) f = false /\
         forall g, Z.of_nat k * 64 <= g < f -> used_bit (bitmap a) g = true) /\
      (w = u64_max -> f = (Z.of_nat k + 1) * 64)
  end.
Proof.
  intros Hok. unfold first_free_frame.
  destruct (first_free_from_spec 0 (bitmap a)) as [[-> Hb]|(k & w & rest & Hb & Hw & ->)].
  { intros g. rewrite Hb. unfold used_bit. destruct (_ !! _) as [w|] eqn:E; [|done].
    apply lookup_replicate in E as [-> _]. apply Z.testbit_0_l. }
  exists k, w, rest. split_and!; [done..| |].
  - intros Hfull. rewrite Hb in Hok. apply Forall_app in Hok as [_ Hok].
    apply Forall_cons_1 in Hok as [Hwok _].
    destruct (leading_ones_spec 64 w) as (Hr & Hset & Hclr).
    pose proof (leading_ones_full 64 w Hwok) as Hf. change (Z.of_nat 64) with 64 in *.
    assert (leading_ones 64 w < 64) as Hlt by (unfold u64_max in Hfull; lia).
    rewrite Hb, Z.add_0_l. split; [lia|]. split.
    + rewrite used_bit_at by lia. by apply Hclr in Hlt.
    + intros g Hg. replace g with (Z.of_nat k * 64 + (g - Z.of_nat k * 64)) by lia.
      rewrite used_bit_at by lia. rewrite <- (Hset (g - Z.of_nat k * 64)) by lia. done.
  - intros ->. assert (leading_ones 64 u64_max = 64) as -> by reflexivity. lia.
Qed.

Lemma first_free_frame_found_witness :
  Forall word_ok [0; 2 ^ 63] /\
  match first_free_frame (mkBitmap [] [0; 2 ^ 63]) with
  | None => forall g, used_bit [0; 2 ^ 63] g = false
  | Some f => exists k w rest, [0; 2 ^ 63] = replicate k 0 ++ w :: rest /\ w <> 0 /\
      (w <> u64_max -> Z.of_nat k * 64 <= f < (Z.of_nat k + 1) * 64 /\
         used_bit [0; 2 ^ 63] f = false /\
         forall g, Z.of_nat k * 64 <= g < f -> used_bit [0; 2 ^ 63] g = true) /\
      (w = u64_max -> f = (Z.of_nat k + 1) * 64)
  end.
Proof.
  assert (Forall word_ok [0; 2 ^ 63]) as H by (repeat constructor; lia).
  split; [exact H|]. exact (first_free_frame_found (mkBitmap [] [0; 2 ^ 63]) H).
Defined.

(** ** Frame numbers and addresses *)

(** A usable region as the boot loader reports it: whole frames below the
    52-bit limit. *)
Definition region_ok (r : MemoryRegion) : Prop :=
  0 <= r_start r <= r_end r /\ r_end r <= 2 ^ 52 /\
  r_start r mod 4096 = 0 /\ r_end r mod 4096 = 0.

Definition region_frames (r : MemoryRegion) : Z := (r_end r - r_start r) / 4096.

Lemma region_frames_spec r :
  region_ok r -> r_end r = r_start r + 4096 * region_frames r /\ 0 <= region_frames r <= 2 ^ 40.
Proof.
  intros (Hs & He & Hsm & Hem). unfold region_frames.
  pose proof (Z.div_mod (r_end r) 4096). pose proof (Z.div_mod (r_start r) 4096).
  replace ((r_end r - r_start r) / 4096) with (r_end r / 4096 - r_start r / 4096)
    by (apply Z.div_unique with 0; lia).
  lia.
Qed.

Section frames.
Context `{X86AddrLaws} (prof : profile).

Lemma frame_to_address_here r rs f :
  region_ok r -> 0 <= f < region_frames r ->
  frame_to_address_in prof (r :: rs) f = Ret (Some (r_start r + 4096 * f)).
Proof.
  intros Hr Hf. destruct (region_frames_spec r Hr) as [He Hn].
  destruct Hr as (Hs & Hl & _ & _). cbn [frame_to_address_in].
  rewrite (arith_ok prof 64 (r_end r - r_start r)) by lia. run_ret. cbv zeta.
  change ((r_end r - r_start r) / 4096) with (region_frames r).
  replace (f <? region_frames r) with true by lia.
  rewrite arith_ok by lia. run_ret. rewrite arith_ok by lia. run_ret.
  rewrite pa_new_law by lia. run_ret. do 2 f_equal. lia.
Qed.

Lemma frame_to_address_next r rs f :
  region_ok r -> region_frames r <= f < 2 ^ 64 ->
  frame_to_address_in prof (r :: rs) f = frame_to_address_in prof rs (f - region_frames r).
Proof.
  intros Hr Hf. destruct (region_frames_spec r Hr) as [He Hn].
  destruct Hr as (Hs & Hl & _ & _). cbn [frame_to_address_in].
  rewrite (arith_ok prof 64 (r_end r - r_start r)) by lia. run_ret. cbv zeta.
  change ((r_end r - r_start r) / 4096) with (region_frames r).
  replace (f <? region_frames r) with false by lia. by rewrite arith_ok by lia.
Qed.

(** The address of a frame number lies in a usable region, on a frame boundary. *)
Lemma frame_to_address_in_spec rs f :
  Forall region_ok rs -> 0 <= f < 2 ^ 64 ->
  exists o, frame_to_address_in prof rs f = Ret o /\
    forall x, o = Some x -> x mod 4096 = 0 /\ 0 <= x < 2 ^ 52 /\
      exists r, r ∈ rs /\ r_start r <= x < r_end r.
Proof.
  intros Hrs. revert f. induction Hrs as [|r rs Hr Hrs IH]; intros f Hf; [by exists None|].
  destruct (region_frames_spec r Hr) as [He Hn].
  destruct (decide (f < region_frames r)).
  - rewrite frame_to_address_here by (done || lia). eexists. split; [done|].
    intros x [= <-]. destruct Hr as (Hs & Hl & Hm & _). split_and!; [|lia..|].
    + rewrite Z.mul_comm, Z.mod_add by lia. done.
    + exists r. split; [left|lia].
  - rewrite frame_to_address_next by (done || lia).
    destruct (IH (f - region_frames r)) as (o & -> & Ho); [lia|].
    exists o. split; [done|]. intros x Hx. destruct (Ho x Hx) as (? & ? & r' & ? & ?).
    split_and!; [done|lia..|]. exists r'. split; [by right|done].
Qed.

(** Regions in ascending order without overlap. *)
Definition regions_sorted (rs : list MemoryRegion) : Prop :=
  forall i j r r', (i < j)%nat -> rs !! i = Some r -> rs !! j = Some r' -> r_end r <= r_start r'.

Lemma regions_sorted_tail r rs : regions_sorted (r :: rs) -> regions_sorted rs.
Proof. intros Hs i j a b Hij Ha Hb. apply (Hs (S i) (S j)); [lia|done..]. Qed.

Lemma frame_to_address_in_inj rs f g x :
  Forall region_ok rs -> regions_sorted rs -> 0 <= f < 2 ^ 64 -> 0 <= g < 2 ^ 64 ->
  frame_to_address_in prof rs f = Ret (Some x) ->
  frame_to_address_in prof rs g = Ret (Some x) -> f = g.
Proof.
  intros Hrs. revert f g. induction Hrs as [|r rs Hr Hrs IH]; intros f g Hsort Hf Hg; [done|].
  assert (forall h, 0 <= h < 2 ^ 64 -> region_frames r <= h ->
    frame_to_address_in prof (r :: rs) h = Ret (Some x) -> r_end r <= x) as Habove.
  { intros h Hh Hge Hx. rewrite frame_to_address_next in Hx by (done || lia).
    destruct (region_frames_spec r Hr) as [_ Hn].
    destruct (frame_to_address_in_spec rs (h - region_frames r) Hrs) as (o & Ho & Hspec); [lia|].
    rewrite Hx in Ho. injection Ho as <-. destruct (Hspec x eq_refl) as (_ & _ & r' & Hin & Hb).
    apply list_elem_of_lookup in Hin as [i Hi].
    pose proof (Hsort 0%nat (S i) r r' ltac:(lia) eq_refl Hi). lia. }
  destruct (region_frames_spec r Hr) as [He Hn].
  destruct (decide (f < region_frames r)), (decide (g < region_frames r)); intros Hxf Hxg.
  - rewrite frame_to_address_here in Hxf, Hxg by (done || lia). simplify_eq. lia.
  - rewrite frame_to_address_here in Hxf by (done || lia). simplify_eq.
    apply Habove in Hxg; lia.
  - rewrite frame_to_address_here in Hxg by (done || lia). simplify_eq.
    apply Habove in Hxf; lia.
  - rewrite frame_to_address_next in Hxf, Hxg by (done || lia).
    assert (f - region_frames r = g - region_frames r); [|lia].
    apply (IH (f - region_frames r) (g - region_frames r));
      [by eapply regions_sorted_tail|lia|lia|done|done].
Qed.

(** On a sorted, frame-aligned memory map, [frame_to_address] never panics;
    the address it gives is a frame boundary inside a usable region, and two
    frame numbers never share an address. *)
Theorem frame_to_address_injective (a : BitmapFrameAllocator) (f g : Z) :
  Forall region_ok (usable_regions (regions a)) ->
  regions_sorted (usable_regions (regions a)) ->
  0 <= f < 2 ^ 64 -> 0 <= g < 2 ^ 64 ->
  exists o o', frame_to_address prof a f = Ret o /\ frame_to_address prof a g = Ret o' /\
    (forall x, o = Some x -> x mod 4096 = 0 /\
       exists r, r ∈ usable_regions (regions a) /\ r_start r <= x < r_end r) /\
    (is_Some o -> o = o' -> f = g).
Proof.
  intros Hok Hsort Hf Hg. unfold frame_to_address.
  destruct (frame_to_address_in_spec _ f Hok Hf) as (o & Ho & Hspec).
  destruct (frame_to_address_in_spec _ g Hok Hg) as (o' & Ho' & _).
  exists o, o'. split_and!; [done..| |].
  - intros x Hx. by destruct (Hspec x Hx) as (? & _ & ?).
  - intros [x ->] <-. by eapply frame_to_address_in_inj.
Qed.

(** ** The boot allocator numbers frames the same way *)

Lemma step_by_lookup r i :
  region_ok r -> 0 <= Z.of_nat i < region_frames r ->
  step_by_4096 (r_start r) (r_end r) !! i = Some (r_start r + 4096 * Z.of_nat i).
Proof.
  intros Hr Hi. destruct (region_frames_spec r Hr) as [He Hn].
  unfold step_by_4096. rewrite list_lookup_fmap.
  rewrite lookup_seq_lt; [done|].
  replace (r_end r - r_start r) with (region_frames r * 4096) by lia.
  unfold div_ceil. rewrite Z.mod_mul, Z.div_mul by lia. simpl. lia.
Qed.

Lemma step_by_length r :
  region_ok r -> Z.of_nat (length (step_by_4096 (r_start r) (r_end r))) = region_frames r.
Proof.
  intros Hr. destruct (region_frames_spec r Hr) as [He Hn].
  unfold step_by_4096. rewrite length_map, length_seq.
  replace (r_end r - r_start r) with (region_frames r * 4096) by lia.
  unfold div_ceil. rewrite Z.mod_mul, Z.div_mul by lia. simpl. lia.
Qed.

Lemma frames_nth_app n l l' :
  Forall (fun x => 0 <= x < 2 ^ 52 /\ x mod 4096 = 0) l ->
  frames_nth n (l ++ l') = match l !! n with
                           | Some x => Ret (Some x)
                           | None => frames_nth (n - length l) l'
                           end.
Proof.
  intros Hl. revert n. induction Hl as [|x l [Hx Hm] Hl IH]; intros n; simpl.
  { by rewrite Nat.sub_0_r. }
  destruct n as [|n]; simpl; rewrite pa_new_law by lia; simpl; [|apply IH].
  rewrite frame_containing_law by lia. do 2 f_equal.
  pose proof (Z.div_mod x 4096). lia.
Qed.

Lemma frames_nth_spec rs n :
  Forall region_ok rs ->  Z.of_nat n < 2 ^ 64 ->
  frames_nth n (concat (map (fun r => step_by_4096 (r_start r) (r_end r)) rs)) =
  frame_to_address_in prof rs (Z.of_nat n).
Proof.
  intros Hrs. revert n. induction Hrs as [|r rs Hr Hrs IH]; intros n Hlt; [done|].
  cbn [map concat]. pose proof (step_by_length r Hr) as Hlen.
  destruct (region_frames_spec r Hr) as [He Hn]. rewrite frames_nth_app.
  - destruct (decide (Z.of_nat n < region_frames r)) as [Hh|Hh].
    + rewrite step_by_lookup, frame_to_address_here by (done || lia). done.
    + rewrite lookup_ge_None_2 by lia. rewrite frame_to_address_next by (done || lia).
      rewrite IH by lia. f_equal. lia.
  - apply Forall_lookup_2. intros i x Hx.
    pose proof (lookup_lt_Some _ _ _ Hx) as Hi.
    rewrite step_by_lookup in Hx by (done || lia). injection Hx as <-.
    destruct Hr as (Hs & Hl & Hm & _). split; [lia|].
    rewrite Z.mul_comm, Z.mod_add by lia. done.
Qed.

(** The [n]th frame the boot allocator hands out is the frame the bitmap
    allocator calls number [n] (so the frames in use at boot are the first
    bits of the bitmap), on a memory map of whole frames. *)
Theorem boot_frames_are_bitmap_frames (rs : list MemoryRegion) (n : nat) (bm : list Z) :
  Forall region_ok (usable_regions rs) -> Z.of_nat n < 2 ^ 64 ->
  fst <$> boot_allocate_frame (mkBoot rs n) =
  frame_to_address prof (mkBitmap rs bm) (Z.of_nat n).
Proof.
  intros Hok Hn. unfold boot_allocate_frame, frame_to_address, usable_addrs. simpl.
  rewrite frames_nth_spec by done.
  by destruct (frame_to_address_in _ _ _) as [[]| | |].
Qed.
End frames.

Definition two_regions : list MemoryRegion :=
  [mkRegion 0 0x1000 false; mkRegion 0x100000 0x180000 true; mkRegion 0x200000 0x300000 true].

Lemma two_regions_ok :
  Forall region_ok (usable_regions two_regions) /\ regions_sorted (usable_regions two_regions).
Proof.
  split.
  - repeat apply Forall_cons_2; [split_and!; (reflexivity || (vm_compute; discriminate))..|constructor].
  - intros [|[|[|i]]] [|[|[|j]]] r r' Hij Hr Hr'; simplify_eq/=; try lia; done.
Qed.

Lemma frame_to_address_injective_witness :
  exists o o', @frame_to_address x86_model Debug (mkBitmap two_regions []) 1 = Ret o /\
    @frame_to_address x86_model Debug (mkBitmap two_regions []) 200 = Ret o' /\
    (forall x, o = Some x -> x mod 4096 = 0 /\
       exists r, r ∈ usable_regions two_regions /\ r_start r <= x < r_end r) /\
    (is_Some o -> o = o' -> 1 = 200).
Proof.
  apply (@frame_to_address_injective x86_model x86_model_laws Debug (mkBitmap two_regions []));
    [apply two_regions_ok..|lia|lia].
Defined.

Lemma boot_frames_are_bitmap_frames_witness :
  fst <$> @boot_allocate_frame x86_model (mkBoot two_regions 129) =
  @frame_to_address x86_model Release (mkBitmap two_regions []) 129.
Proof.
  apply (@boot_frames_are_bitmap_frames x86_model x86_model_laws Release two_regions 129 []);
    [apply two_regions_ok|lia].
Defined.

(** ** Allocating and deallocating *)

(** Exactly the frames below [m] are in use. *)
Definition prefix_used (m : Z) (bm : list Z) : Prop :=
  forall g, 0 <= g -> used_bit bm g = (g <? m).

(** [k] allocations in a row. *)
Fixpoint allocate_frames {A} `{FrameAllocator A} (k : nat) (a : A)
    : outcome (list (option Z) * A) :=
  match k with
  | O => Ret ([], a)
  | S k' =>
      '(o, a) ← allocate_frame a;
      '(os, a) ← allocate_frames k' a;
      Ret (o :: os, a)
  end.

Lemma prefix_used_first m bm :
  Forall word_ok bm -> (0 < length bm)%nat -> 1 <= m -> prefix_used m bm ->
  first_free_from 0 bm = Some (Z.min m 64).
Proof.
  intros Hok Hlen Hm Hp. destruct bm as [|w bm]; [simpl in Hlen; lia|].
  apply Forall_cons_1 in Hok as [Hw _].
  assert (forall j, 0 <= j < 64 -> Z.testbit w (63 - j) = (j <? m)) as Hbits.
  { intros j Hj. rewrite <- Hp by lia. symmetry. apply (used_bit_at 0 w bm j Hj). }
  destruct (leading_ones_spec 64 w) as (Hr & Hset & Hclr). change (Z.of_nat 64) with 64 in *.
  cbn [first_free_from].
  assert (w <> 0) as Hw0.
  { intros ->. specialize (Hbits 0 ltac:(lia)). rewrite Z.testbit_0_l in Hbits. lia. }
  apply Z.eqb_neq in Hw0 as ->. cbn [negb]. f_equal.
  destruct (decide (leading_ones 64 w < Z.min m 64)) as [Hlt|Hge].
  - specialize (Hclr ltac:(lia)).
    replace (64 - 1 - leading_ones 64 w) with (63 - leading_ones 64 w) in Hclr by lia.
    rewrite Hbits in Hclr by lia. lia.
  - destruct (decide (Z.min m 64 < leading_ones 64 w)) as [Hgt|]; [|lia].
    specialize (Hset (Z.min m 64) ltac:(lia)).
    replace (64 - 1 - Z.min m 64) with (63 - Z.min m 64) in Hset by lia.
    rewrite Hbits in Hset by lia. lia.
Qed.

Section allocation.
Context `{X86AddrLaws} (prof : profile).

(** One allocation: the found frame is marked and its address returned. *)
Lemma bitmap_allocate_step a f r rs :
  Forall word_ok (bitmap a) -> usable_regions (regions a) = r :: rs -> region_ok r ->
  first_free_frame a = Some f -> 0 <= f < region_frames r ->
  (Z.to_nat (f / 64) < length (bitmap a))%nat ->
  exists bm', mark_frame_used (bitmap a) f = Ret bm' /\
    bitmap_allocate_frame prof a =
      Ret (Some (r_start r + 4096 * f), mkBitmap (regions a) bm').
Proof.
  intros Hok Hrs Hr Hf Hlt Hlen.
  destruct (mark_frame_used_spec (bitmap a) f) as (bm' & Hm & _); [lia|done..|].
  exists bm'. split; [done|]. unfold bitmap_allocate_frame. rewrite Hf, Hm. run_ret.
  unfold frame_to_address. simpl regions. rewrite Hrs.
  rewrite frame_to_address_here by done. run_ret.
  destruct (region_frames_spec r Hr) as [He Hn]. destruct Hr as (Hs & Hl & Hmod & _).
  rewrite frame_from_start_law by lia.
  rewrite Z.mul_comm, Z.mod_add, Hmod by lia. done.
Qed.

(** An allocator that has handed out the first [m] frames and nothing else. *)
Definition frames_ready (r : MemoryRegion) (rs : list MemoryRegion) (m : Z)
    (a : BitmapFrameAllocator) : Prop :=
  Forall word_ok (bitmap a) /\ (1 < length (bitmap a))%nat /\
  usable_regions (regions a) = r :: rs /\ region_ok r /\ 64 < region_frames r /\
  1 <= m /\ prefix_used m (bitmap a).

Lemma allocate_frame_ready m a r rs :
  frames_ready r rs m a ->
  exists a', bitmap_allocate_frame prof a = Ret (Some (r_start r + 4096 * Z.min m 64), a') /\
    frames_ready r rs (Z.max m (Z.min m 64 + 1)) a'.
Proof.
  intros (Hok & Hlen & Hrs & Hr & Hn & Hm & Hp).
  assert (first_free_frame a = Some (Z.min m 64)) as Hff by (apply prefix_used_first; [done|lia|done..]).
  assert (Z.min m 64 / 64 <= 1) as Hdiv.
  { apply Z.lt_succ_r, Z.div_lt_upper_bound; lia. }
  assert (0 <= Z.min m 64 / 64) as Hdiv' by (apply Z.div_pos; lia).
  destruct (bitmap_allocate_step a (Z.min m 64) r rs) as (bm' & Hmark & ->); [done..|lia|lia|].
  destruct (mark_frame_used_spec (bitmap a) (Z.min m 64)) as (bm2 & Hm2 & Hl2 & Hok2 & Hb2);
    [lia|lia|done|]. rewrite Hmark in Hm2. injection Hm2 as <-.
  eexists. split; [done|]. split_and!; cbn [regions bitmap]; [done|lia|done..|lia|].
  intros g Hg. rewrite Hb2, Hp by done. destruct (g =? Z.min m 64) eqn:E; lia.
Qed.

(** The state of the allocator when only allocations have happened. *)
Lemma allocate_frames_ready k m a r rs :
  frames_ready r rs m a ->
  exists a', @allocate_frames _ (bitmap_frame_allocator prof) k a =
    Ret (map (fun i => Some (r_start r + 4096 * Z.min (m + Z.of_nat i) 64)) (seq 0 k), a') /\
    frames_ready r rs (Z.max m (Z.min (m + Z.of_nat k) 65)) a'.
Proof.
  revert m a. induction k as [|k IH]; intros m a Ha.
  { exists a. split; [done|]. by replace (Z.max m (Z.min (m + Z.of_nat 0) 65)) with m by lia. }
  cbn [allocate_frames allocate_frame bitmap_frame_allocator].
  destruct (allocate_frame_ready m a r rs Ha) as (a1 & -> & Ha1). run_ret.
  destruct (IH _ _ Ha1) as (a' & -> & Ha'). run_ret. exists a'. split.
  - do 2 f_equal. cbn [seq map]. f_equal; [by rewrite Z.add_0_r|].
    rewrite <- (fmap_S_seq 0 k), map_map. apply map_ext. intros i. do 3 f_equal. lia.
  - replace (Z.max m (Z.min (m + Z.of_nat (S k)) 65)) with
      (Z.max (Z.max m (Z.min m 64 + 1)) (Z.min (Z.max m (Z.min m 64 + 1) + Z.of_nat k) 65)) by lia.
    done.
Qed.

(** C21: the whole allocation history of a freshly booted system.  With the
    first [m] frames in use, the [i]th allocation returns frame [m + i] as long
    as that is below 64, and frame 64 every time after that: from then on each
    call hands out the same frame again. *)
Theorem allocation_sequence (a : BitmapFrameAllocator) (m : Z) (k : nat)
    (r : MemoryRegion) (rs : list MemoryRegion) :
  Forall word_ok (bitmap a) -> (1 < length (bitmap a))%nat ->
  usable_regions (regions a) = r :: rs -> region_ok r -> 64 < region_frames r ->
  1 <= m -> prefix_used m (bitmap a) ->
  exists a', @allocate_frames _ (bitmap_frame_allocator prof) k a =
    Ret (map (fun i => Some (r_start r + 4096 * Z.min (m + Z.of_nat i) 64)) (seq 0 k), a').
Proof.
  intros. destruct (allocate_frames_ready k m a r rs) as (a' & ? & _); [by split_and!|]. by exists a'.
Qed.

(** Deallocating a frame right after its allocation restores the
    allocator, when the frame lies in the first usable region and the word
    searched was not full. *)
Theorem allocate_deallocate_roundtrip (a : BitmapFrameAllocator) (f : Z)
    (r : MemoryRegion) (rs : list MemoryRegion) :
  Forall word_ok (bitmap a) -> usable_regions (regions a) = r :: rs -> region_ok r ->
  first_free_frame a = Some f -> used_bit (bitmap a) f = false ->
  0 <= f < region_frames r -> (Z.to_nat (f / 64) < length (bitmap a))%nat ->
  exists x a', bitmap_allocate_frame prof a = Ret (Some x, a') /\
    r_start r <= x < r_end r /\ bitmap_deallocate_frame prof a' x = Ret a.
Proof.
  intros Hok Hrs Hr Hff Hfree Hf Hlen.
  destruct (bitmap_allocate_step a f r rs) as (bm' & Hmark & Halloc); [done..|].
  destruct (region_frames_spec r Hr) as [He Hn].
  exists (r_start r + 4096 * f), (mkBitmap (regions a) bm'). split_and!; [done|lia|lia|].
  unfold bitmap_deallocate_frame, address_to_frame. cbn [regions bitmap]. rewrite Hrs.
  cbn [address_to_frame_in].
  replace ((r_start r <=? r_start r + 4096 * f) && (r_start r + 4096 * f <? r_end r))
    with true by lia.
  replace ((r_start r + 4096 * f - r_start r) / 4096) with f
    by (replace (r_start r + 4096 * f - r_start r) with (f * 4096) by lia;
        by rewrite Z.div_mul).
  rewrite arith_ok by lia. run_ret. cbn [unwrap]. run_ret.
  destruct (mark_frame_used_spec (bitmap a) f) as (bm2 & Hm2 & Hl2 & Hok2 & Hb2); [lia|done..|].
  rewrite Hmark in Hm2. injection Hm2 as <-.
  destruct (mark_frame_free_spec bm' f) as (bm3 & Hm3 & Hl3 & Hok3 & Hb3); [lia|by rewrite Hl2|done|].
  rewrite Z.add_0_l, Hm3. run_ret. destruct a as [rg bm]. simpl in *. do 2 f_equal.
  apply used_bit_ext; [done..|congruence|]. intros g Hg. rewrite Hb3, Hb2 by done.
  destruct (g =? f) eqn:E; [|done]. by apply Z.eqb_eq in E as ->.
Qed.

(** Deallocating a frame of the second usable region panics in both
    profiles: the frame count of the region before it is computed as start
    minus end, which overflows (debug) or gives a frame number far beyond the
    bitmap (release). *)
Theorem deallocate_later_region_panics (a : BitmapFrameAllocator) (x : Z)
    (r r' : MemoryRegion) (rs : list MemoryRegion) :
  usable_regions (regions a) = r :: r' :: rs -> region_ok r -> region_ok r' ->
  r_start r < r_end r -> r_end r <= r_start r' -> r_start r' <= x < r_end r' ->
  64 * Z.of_nat (length (bitmap a)) <= 2 ^ 52 - region_frames r ->
  bitmap_deallocate_frame prof a x = Panic.
Proof.
  intros Hrs Hr Hr' Hne Hle Hx Hlen.
  destruct (region_frames_spec r Hr) as [He Hn], (region_frames_spec r' Hr') as [He' Hn'].
  destruct Hr as (Hs & Hl & _ & _), Hr' as (Hs' & Hl' & _ & _).
  unfold bitmap_deallocate_frame, address_to_frame. rewrite Hrs. cbn [address_to_frame_in].
  replace ((r_start r <=? x) && (x <? r_end r)) with false by lia.
  rewrite (arith_overflow prof 64 (r_start r - r_end r)) by lia.
  destruct prof; [done|]. run_ret.
  assert ((r_start r - r_end r) mod 2 ^ 64 = 4096 * (2 ^ 52 - region_frames r)) as ->.
  { symmetry. apply Z.mod_unique_pos with (-1); lia. }
  rewrite (Z.mul_comm 4096), Z.div_mul by lia.
  rewrite (arith_ok Release 64 (0 + (2 ^ 52 - region_frames r))) by lia. run_ret.
  replace ((r_start r' <=? x) && (x <? r_end r')) with true by lia.
  assert (0 <= (x - r_start r') / 4096 < 2 ^ 40) as Hoff.
  { split; [apply Z.div_pos; lia|apply Z.div_lt_upper_bound; lia]. }
  rewrite arith_ok by lia. run_ret. cbn [unwrap]. run_ret.
  unfold mark_frame_free, index.
  rewrite lookup_ge_None_2; [done|].
  assert (Z.of_nat (length (bitmap a)) <= (0 + (2 ^ 52 - region_frames r) + (x - r_start r') / 4096) / 64)
    by (apply Z.div_le_lower_bound; lia). lia.
Qed.
End allocation.

(** A machine with one usable region of 256 frames behind low memory. *)
Definition one_region : list MemoryRegion :=
  [mkRegion 0 0x1000 false; mkRegion 0x100000 0x200000 true].

Lemma one_region_ok : region_ok (mkRegion 0x100000 0x200000 true).
Proof. split_and!; (reflexivity || (vm_compute; discriminate)). Qed.

(** 12 frames in use, as after boot. *)
Definition booted : BitmapFrameAllocator := mkBitmap one_region [2 ^ 64 - 2 ^ 52; 0].

Lemma booted_words : Forall word_ok (bitmap booted).
Proof. repeat constructor; vm_compute; (discriminate || reflexivity). Qed.

Lemma booted_prefix : prefix_used 12 (bitmap booted).
Proof.
  intros g Hg. unfold used_bit. destruct (frame_split g Hg) as (H1 & H2 & H3).
  destruct (decide (g / 64 = 0)) as [E|E].
  - rewrite E. simpl lookup. replace (2 ^ 64 - 2 ^ 52) with (Z.shiftl (Z.ones 12) 52) by reflexivity.
    rewrite Z.shiftl_spec by lia. destruct (g <? 12) eqn:Eg.
    + rewrite Z.ones_spec_low; [done|lia].
    + destruct (decide (g mod 64 <= 11)); [lia|]. rewrite Z.testbit_neg_r; [done|lia].
  - replace (g <? 12) with false by lia.
    destruct (decide (g / 64 = 1)) as [->|]; [apply Z.testbit_0_l|].
    by rewrite lookup_ge_None_2 by (simpl; lia).
Qed.

Lemma allocation_sequence_witness :
  exists a', @allocate_frames _ (@bitmap_frame_allocator x86_model Debug) 60 booted =
    Ret (map (fun i => Some (0x100000 + 4096 * Z.min (12 + Z.of_nat i) 64)) (seq 0 60), a').
Proof.
  apply (@allocation_sequence x86_model x86_model_laws Debug booted 12 60
    (mkRegion 0x100000 0x200000 true) []).
  - apply booted_words.
  - simpl. lia.
  - reflexivity.
  - apply one_region_ok.
  - vm_compute. reflexivity.
  - lia.
  - apply booted_prefix.
Defined.

Lemma allocate_deallocate_roundtrip_witness :
  exists x a', @bitmap_allocate_frame x86_model Release booted = Ret (Some x, a') /\
    0x100000 <= x < 0x200000 /\ bitmap_deallocate_frame Release a' x = Ret booted.
Proof.
  apply (@allocate_deallocate_roundtrip x86_model x86_model_laws Release booted 12
    (mkRegion 0x100000 0x200000 true) []).
  - apply booted_words.
  - reflexivity.
  - apply one_region_ok.
  - reflexivity.
  - reflexivity.
  - vm_compute. split; [discriminate|reflexivity].
  - vm_compute. lia.
Defined.

Lemma deallocate_later_region_panics_witness :
  bitmap_deallocate_frame Release (mkBitmap two_regions [0; 0; 0; 0; 0; 0]) 0x200000 = Panic.
Proof.
  apply (deallocate_later_region_panics Release
    (mkBitmap two_regions [0; 0; 0; 0; 0; 0]) 0x200000
    (mkRegion 0x100000 0x180000 true) (mkRegion 0x200000 0x300000 true) []).
  all: try (split_and!; (reflexivity || (vm_compute; discriminate))).
  all: vm_compute; (reflexivity || discriminate).
Defined.

(** ** Building the bitmap at boot *)

(** Giving back a list of frames. *)
Fixpoint deallocate_frames {A} `{FrameDeallocator A} (frames : list Z) (a : A) : outcome A :=
  match frames with
  | [] => Ret a
  | f :: frames' => a ← deallocate_frame a f; deallocate_frames frames' a
  end.

(** Frames that can be used: none is in use, and none comes twice. *)
Definition fresh (used : Z -> Prop) (os : list (option Z)) : Prop :=
  (forall f, Some f ∈ os -> ~ used f) /\
  forall i j f, os !! i = Some (Some f) -> os !! j = Some (Some f) -> i = j.

(** What the kernel relies on of the page tables, as the [x86_64] crate documents
    it.  [mapped] is the frame of a 4 KiB page, [huge] a page that lies in a larger
    one, [in_use] the frames that hold tables or that were mapped by [map_to].
    The crate asks of a frame allocator that it returns unused frames, each once:
    only then is anything said of [map_to], which takes up to three of them for
    tables, maps the page if it was free, and changes no other page.  Unmapping a
    page returns its frame; cleaning up gives back the frames of empty tables and
    changes no mapping. *)
Class PageTableLaws (PT : Type) `{PageTable PT} := {
  pt_wf : PT -> Prop;
  mapped : PT -> Z -> option Z;
  huge : PT -> Z -> bool;
  in_use : PT -> Z -> Prop;
  map_to_law : forall A (FA : FrameAllocator A) (pt : PT) (page frame : Z) (a : A) os a3,
    pt_wf pt -> allocate_frames 3 a = Ret (os, a3) -> fresh (in_use pt) (Some frame :: os) ->
    exists r pt' k a', (k <= 3)%nat /\ map_to pt page frame a = Ret (r, (pt', a')) /\
      allocate_frames k a = Ret (take k os, a') /\ pt_wf pt' /\
      (forall page', page' <> page -> mapped pt' page' = mapped pt page') /\
      (forall page', huge pt' page' = huge pt page') /\
      match r with
      | Ok _ => mapped pt page = None /\ mapped pt' page = Some frame /\
          forall f, in_use pt' f <-> in_use pt f \/ f = frame \/ Some f ∈ take k os
      | Err _ => mapped pt' page = mapped pt page /\
          (forall f, in_use pt' f <-> in_use pt f \/ Some f ∈ take k os) /\
          (mapped pt page <> None \/ huge pt page = true \/ None ∈ os)
      end;
  unmap_law : forall (pt : PT) (page : Z), pt_wf pt ->
    exists r pt', unmap pt page = Ret (r, pt') /\ pt_wf pt' /\
      (forall page', page' <> page -> mapped pt' page' = mapped pt page') /\
      (forall page', huge pt' page' = huge pt page') /\
      (forall f, in_use pt' f -> in_use pt f) /\ mapped pt' page = None /\
      mapped pt page = match r with Ok frame => Some frame | Err _ => None end;
  clean_up_law : forall (pt : PT) (page : Z), pt_wf pt ->
    exists tables pt', pt_wf pt' /\
      (forall page', mapped pt' page' = mapped pt page') /\
      (forall page', huge pt' page' = huge pt page') /\
      (forall f, in_use pt' f -> in_use pt f) /\ (forall f, f ∈ tables -> in_use pt f) /\
      forall A (FD : FrameDeallocator A) (a : A),
        clean_up pt page a = (a' ← deallocate_frames tables a; Ret (pt', a'))
}.

(** Where the page is free and there are frames for its tables, it is mapped. *)
Lemma map_to_free {PT} `{PageTableLaws PT} A (FA : FrameAllocator A) (pt : PT) (page frame : Z)
    (a : A) (fs : list Z) a3 :
  pt_wf pt -> mapped pt page = None -> huge pt page = false ->
  allocate_frames 3 a = Ret (map Some fs, a3) -> fresh (in_use pt) (map Some (frame :: fs)) ->
  exists pt' k a', (k <= 3)%nat /\ map_to pt page frame a = Ret (Ok tt, (pt', a')) /\
    allocate_frames k a = Ret (map Some (take k fs), a') /\ pt_wf pt' /\
    mapped pt' page = Some frame /\
    (forall page', page' <> page -> mapped pt' page' = mapped pt page') /\
    (forall page', huge pt' page' = huge pt page') /\
    forall f, in_use pt' f <-> in_use pt f \/ f ∈ frame :: take k fs.
Proof.
  intros Hwf Hm Hh Ha Hf.
  assert (forall k f, Some f ∈ take k (map Some fs) <-> f ∈ take k fs) as Htake.
  { intros k f. rewrite firstn_map, !list_elem_of_In, in_map_iff.
    split; [by intros (x & [= ->] & ?)|by exists f]. }
  destruct (map_to_law _ _ pt page frame a _ a3 Hwf Ha Hf)
    as ([[]|] & pt' & k & a' & Hk & Hmap & Hk' & Hwf' & Hother & Hh' & Hr).
  - destruct Hr as (_ & Hp & Hu). exists pt', k, a'. rewrite firstn_map in Hk'.
    split_and!; try done. intros f. rewrite Hu, Htake, elem_of_cons. tauto.
  - destruct Hr as (_ & _ & [?|[?|Hn]]); [congruence..|].
    apply list_elem_of_In, in_map_iff in Hn as (? & ? & _). done.
Qed.

Definition total_bytes (usable : list MemoryRegion) : Z :=
  fold_right (fun r acc => r_end r - r_start r + acc) 0 usable.

Lemma ltb_of_nat_S g i :
  (g <? Z.of_nat (S i)) = if g =? Z.of_nat i then true else g <? Z.of_nat i.
Proof. destruct (g =? Z.of_nat i) eqn:E; lia. Qed.

Lemma mark_all_used_spec i k bm :
  Forall word_ok bm -> Z.of_nat (i + k) <= 64 * Z.of_nat (length bm) ->
  prefix_used (Z.of_nat i) bm ->
  exists bm', mark_all_used (seq i k) bm = Ret bm' /\ length bm' = length bm /\
    Forall word_ok bm' /\ prefix_used (Z.of_nat (i + k)) bm'.
Proof.
  revert i bm. induction k as [|k IH]; intros i bm Hok Hlen Hp.
  { exists bm. by rewrite Nat.add_0_r. }
  cbn [seq mark_all_used].
  destruct (mark_frame_used_spec bm (Z.of_nat i)) as (bm1 & -> & Hl1 & Hok1 & Hb1); [lia| |done|].
  { assert (Z.of_nat i / 64 < Z.of_nat (length bm)) by (apply Z.div_lt_upper_bound; lia).
    pose proof (Z.div_pos (Z.of_nat i) 64). lia. }
  run_ret. destruct (IH (S i) bm1) as (bm' & -> & Hl & Hok' & Hp'); [done|rewrite Hl1; lia| |].
  - intros g Hg. by rewrite Hb1, Hp, ltb_of_nat_S by done.
  - exists bm'. rewrite <- Nat.add_succ_comm. by rewrite Hl, Hl1.
Qed.

Lemma div_ceil_pos a b : 0 < a -> 0 < b -> 0 < div_ceil a b.
Proof.
  intros Ha Hb. unfold div_ceil. pose proof (Z.div_mod a b) as Hd.
  pose proof (Z.mod_pos_bound a b Hb). pose proof (Z.div_pos a b).
  destruct (a mod b =? 0) eqn:E; nia.
Qed.

Lemma div_ceil_le a b c : 0 < b -> a <= b * c -> div_ceil a b <= c.
Proof.
  intros Hb Hle. unfold div_ceil. pose proof (Z.div_mod a b) as Hd.
  pose proof (Z.mod_pos_bound a b Hb).
  destruct (a mod b =? 0) eqn:E; nia.
Qed.

Section boot_bitmap.
Context `{X86AddrLaws} {PT : Type} `{PageTableLaws PT} (prof : profile).
Context (rs : list MemoryRegion) (r : MemoryRegion) (more : list MemoryRegion).
Hypothesis Husable : usable_regions rs = r :: more.
Hypothesis Hok : Forall region_ok (r :: more).
Hypothesis Htotal : total_bytes (r :: more) <= 2 ^ 52.

Definition bitmap_frames : Z := div_ceil (div_ceil (div_ceil (total_bytes (r :: more)) 4096) 8) 4096.

Hypothesis Hroom : 0 < total_bytes (r :: more).
Hypothesis Hfirst : 4 * bitmap_frames <= region_frames r.

Lemma bitmap_frames_bounds : 0 < bitmap_frames <= 2 ^ 25.
Proof.
  unfold bitmap_frames. split; [by repeat (apply div_ceil_pos; [|lia])|].
  by repeat (apply div_ceil_le; [lia|]).
Qed.

Lemma boot_allocate_ok n :
  Z.of_nat n < region_frames r ->
  boot_allocate_frame (mkBoot rs n) =
    Ret (Some (r_start r + 4096 * Z.of_nat n), mkBoot rs (S n)).
Proof.
  intros Hn. apply Forall_cons_1 in Hok as [Hr Hmore].
  destruct (region_frames_spec r Hr) as [_ Hb].
  unfold boot_allocate_frame, usable_addrs. simpl boot_regions. simpl boot_next.
  rewrite Husable, (frames_nth_spec Debug) by (by constructor || lia).
  by rewrite frame_to_address_here by (done || lia).
Qed.

(** The frames of the first region, and the next ones of the boot allocator. *)
Definition region_frame (g : Z) : Z := r_start r + 4096 * g.
Definition next_frames (n k : nat) : list Z := map region_frame (map Z.of_nat (seq n k)).

Lemma next_frames_elem n k f :
  f ∈ next_frames n k <-> exists g, Z.of_nat n <= g < Z.of_nat (n + k) /\ f = region_frame g.
Proof.
  unfold next_frames. rewrite map_map, list_elem_of_In, in_map_iff. split.
  - intros (i & <- & Hi%in_seq). exists (Z.of_nat i). split; [lia|done].
  - intros (g & Hg & ->). exists (Z.to_nat g). split; [f_equal; lia|apply in_seq; lia].
Qed.

Lemma next_frames_take n k j : (j <= k)%nat -> take j (next_frames n k) = next_frames n j.
Proof.
  intros Hj. unfold next_frames. rewrite !firstn_map. do 2 f_equal.
  replace k with (j + (k - j))%nat by lia. rewrite seq_app.
  by rewrite take_app_length' by by rewrite length_seq.
Qed.

Lemma boot_allocate_frames k n :
  Z.of_nat (n + k) <= region_frames r ->
  allocate_frames k (mkBoot rs n) = Ret (map Some (next_frames n k), mkBoot rs (n + k)).
Proof.
  revert n. induction k as [|k IH]; intros n Hn; [by rewrite Nat.add_0_r|].
  cbn [allocate_frames allocate_frame boot_frame_allocator].
  rewrite boot_allocate_ok by lia. run_ret.
  rewrite IH by lia. run_ret. by rewrite Nat.add_succ_comm.
Qed.

Lemma take_frames_ok k n last :
  Z.of_nat (n + k) <= region_frames r ->
  take_frames k last (mkBoot rs n) =
    Ret (if decide (k = 0%nat) then last else r_start r + 4096 * (Z.of_nat (n + k) - 1),
         mkBoot rs (n + k)).
Proof.
  revert n last. induction k as [|k IH]; intros n last Hn.
  { by rewrite Nat.add_0_r. }
  cbn [take_frames allocate_frame boot_frame_allocator].
  rewrite boot_allocate_ok by lia. run_ret. cbn [unwrap]. run_ret.
  rewrite IH by lia. rewrite Nat.add_succ_comm. f_equal. f_equal.
  destruct (decide (k = 0%nat)) as [->|]; [|done]. simpl. lia.
Qed.

(** Different frames of the region that are not in use. *)
Lemma region_fresh (used : Z -> Prop) gs :
  NoDup gs -> (forall g, g ∈ gs -> ~ used (region_frame g)) ->
  fresh used (map Some (map region_frame gs)).
Proof.
  intros Hnd Hu. rewrite map_map. split.
  - intros f Hf. apply list_elem_of_In, in_map_iff in Hf as (g & [= <-] & Hg). by apply Hu, list_elem_of_In.
  - intros i j f Hi Hj. change (map ?h gs) with (h <$> gs) in Hi, Hj.
    rewrite list_lookup_fmap, fmap_Some in Hi, Hj.
    destruct Hi as (g & Hi & [= ->]), Hj as (g' & Hj & [= Heq]).
    unfold region_frame in Heq. assert (g' = g) as -> by lia. by apply (NoDup_lookup gs i j g).
Qed.

(** Among the frames of the region those of the bitmap mapped so far and the table
    frames are in use. *)
Definition bitmap_in_use (pt : PT) (i n : nat) : Prop :=
  forall g, 0 <= g < region_frames r ->
    in_use pt (region_frame g) <-> g < Z.of_nat i \/ bitmap_frames <= g < Z.of_nat n.

Lemma bitmap_page i :
  0 <= i < bitmap_frames ->
  va_add BITMAP_FRAME_ALLOCATOR_START (i * 4096) = Ret (BITMAP_FRAME_ALLOCATOR_START + i * 4096) /\
  page_containing (BITMAP_FRAME_ALLOCATOR_START + i * 4096) = BITMAP_FRAME_ALLOCATOR_START + i * 4096.
Proof.
  intros Hi. pose proof bitmap_frames_bounds as Hbf.
  assert (BITMAP_FRAME_ALLOCATOR_START = 0xffffc80000000000) as Hstart by apply layout_values.
  rewrite Hstart in *. split.
  - apply va_add_law; unfold canonical; lia.
  - rewrite page_containing_law by (unfold canonical; lia).
    replace (0xffffc80000000000 + i * 4096) with ((0xffffc80000000 + i) * 4096) by lia.
    by rewrite Z.div_mul.
Qed.

Lemma map_bitmap_step (i n : nat) (pt : PT) :
  Z.of_nat i < bitmap_frames <= Z.of_nat n -> Z.of_nat (n + 3) <= region_frames r ->
  pt_wf pt -> bitmap_in_use pt i n ->
  mapped pt (BITMAP_FRAME_ALLOCATOR_START + Z.of_nat i * 4096) = None ->
  huge pt (BITMAP_FRAME_ALLOCATOR_START + Z.of_nat i * 4096) = false ->
  exists pt' k, (k <= 3)%nat /\ pt_wf pt' /\ bitmap_in_use pt' (S i) (n + k) /\
    map_to pt (BITMAP_FRAME_ALLOCATOR_START + Z.of_nat i * 4096) (region_frame (Z.of_nat i)) (mkBoot rs n)
      = Ret (Ok tt, (pt', mkBoot rs (n + k))) /\
    mapped pt' (BITMAP_FRAME_ALLOCATOR_START + Z.of_nat i * 4096) = Some (region_frame (Z.of_nat i)) /\
    (forall page, page <> BITMAP_FRAME_ALLOCATOR_START + Z.of_nat i * 4096 ->
       mapped pt' page = mapped pt page) /\
    forall page, huge pt' page = huge pt page.
Proof.
  intros Hi Hn Hwf Hu Hm Hh. unfold bitmap_in_use in *.
  destruct (map_to_free _ boot_frame_allocator pt _ (region_frame (Z.of_nat i)) (mkBoot rs n) (next_frames n 3)
    (mkBoot rs (n + 3)) Hwf Hm Hh) as (pt' & k & a' & Hk & Hmap & Ha' & Hwf' & Hp & Ho & Hh' & Hu').
  { by apply boot_allocate_frames. }
  { change (region_frame (Z.of_nat i) :: next_frames n 3) with
      (map region_frame (Z.of_nat i :: map Z.of_nat (seq n 3))).
    apply region_fresh.
    - cbn. rewrite !list.NoDup_cons, !elem_of_cons, !elem_of_nil. split_and!; [lia..|constructor].
    - intros g Hg. assert (g = Z.of_nat i \/ Z.of_nat n <= g < Z.of_nat (n + 3)) as Hg'.
      { cbn in Hg. rewrite !elem_of_cons, elem_of_nil in Hg. lia. }
      rewrite (Hu g) by lia. lia. }
  rewrite boot_allocate_frames in Ha' by lia. injection Ha' as _ <-.
  exists pt', k. split_and!; try done. intros g Hg.
  rewrite Hu', (Hu g) by done. rewrite elem_of_cons, next_frames_take, next_frames_elem by done.
  unfold region_frame. split.
  - intros [?|[?|(g' & ? & ?)]]; lia.
  - intros Hc. destruct (decide (g = Z.of_nat i)) as [->|]; [auto|].
    destruct (decide (Z.of_nat n <= g < Z.of_nat (n + k))); [right; right; by exists g|left; lia].
Qed.

Lemma map_bitmap_ok k : forall (i : nat) (pt : PT) (n : nat),
  Z.of_nat (i + k) = bitmap_frames -> bitmap_frames <= Z.of_nat n ->
  Z.of_nat (n + 3 * k) <= region_frames r -> pt_wf pt -> bitmap_in_use pt i n ->
  (forall j, Z.of_nat i <= j < bitmap_frames ->
     mapped pt (BITMAP_FRAME_ALLOCATOR_START + j * 4096) = None /\
     huge pt (BITMAP_FRAME_ALLOCATOR_START + j * 4096) = false) ->
  exists pt' n', map_bitmap (seq i k) (r_start r) pt (mkBoot rs n) = Ret (pt', mkBoot rs n') /\
    (n <= n' <= n + 3 * k)%nat /\ pt_wf pt' /\ bitmap_in_use pt' (i + k) n' /\
    (forall j, Z.of_nat i <= j < bitmap_frames ->
       mapped pt' (BITMAP_FRAME_ALLOCATOR_START + j * 4096) = Some (region_frame j)) /\
    forall page, (forall j, Z.of_nat i <= j < bitmap_frames ->
       page <> BITMAP_FRAME_ALLOCATOR_START + j * 4096) -> mapped pt' page = mapped pt page.
Proof.
  induction k as [|k IH]; intros i pt n Hi Hbn Hn Hwf Hu Hfree.
  { exists pt, n. rewrite !Nat.add_0_r in *. split_and!; (done || lia). }
  pose proof Hok as [Hr _]%Forall_cons_1. destruct (region_frames_spec r Hr) as [He Hb].
  destruct Hr as (Hs & Hl & Hm & _). pose proof bitmap_frames_bounds as Hbf.
  destruct (Hfree (Z.of_nat i) ltac:(lia)) as [Hnone Hhuge].
  destruct (map_bitmap_step i n pt) as (pt1 & k1 & Hk1 & Hwf1 & Hu1 & Hmap & Hm1 & Ho1 & Hh1);
    [lia|lia|done..|].
  destruct (bitmap_page (Z.of_nat i) ltac:(lia)) as [Hva Hpage].
  cbn [seq map_bitmap]. rewrite pa_add_law by lia. run_ret. rewrite Hva. run_ret. rewrite Hpage.
  assert (frame_containing (r_start r + Z.of_nat i * 4096) = region_frame (Z.of_nat i)) as ->.
  { rewrite frame_containing_law by lia. unfold region_frame.
    rewrite Z.div_add by lia. pose proof (Z.div_mod (r_start r) 4096). lia. }
  rewrite Hmap. run_ret.
  destruct (IH (S i) pt1 (n + k1)%nat) as (pt' & n' & -> & Hn' & Hwf' & Hu' & Hm' & Ho');
    [lia|lia|lia|done..| |].
  - intros j Hj. rewrite Ho1, Hh1 by lia. apply Hfree. lia.
  - exists pt', n'. replace (i + S k)%nat with (S i + k)%nat by lia. split_and!; try (done || lia).
    + intros j Hj. destruct (decide (j = Z.of_nat i)) as [->|]; [|apply Hm'; lia].
      rewrite Ho'; [done|]. intros j' Hj'. lia.
    + intros page Hp. rewrite Ho', Ho1; [done|apply Hp; lia|]. intros j Hj. apply Hp. lia.
Qed.

Lemma required_bitmap_size_ok :
  required_bitmap_size prof rs = Ret (div_ceil (div_ceil (total_bytes (r :: more)) 4096) 8).
Proof.
  unfold required_bitmap_size. rewrite Husable.
  assert (forall l acc, Forall region_ok l -> 0 <= acc -> acc + total_bytes l <= 2 ^ 52 ->
    fold_left (fun acc region =>
        acc ← acc; s ← arith prof 64 (acc + r_end region);
        arith prof 64 (s - r_start region)) l (Ret acc) = Ret (acc + total_bytes l)) as Hfold.
  { induction l as [|x l IH]; intros acc Hl Hacc Hle; [simpl; by rewrite Z.add_0_r|].
    apply Forall_cons_1 in Hl as [Hx Hl]. destruct Hx as (? & ? & _).
    assert (0 <= total_bytes l) as Hnn.
    { clear -Hl. induction Hl as [|y l (? & ? & _) _ IHl]; simpl; lia. }
    cbn [fold_left]. run_ret. simpl in Hle. rewrite arith_ok by lia. run_ret.
    rewrite arith_ok by lia. rewrite IH by (done || lia). f_equal. simpl. lia. }
  rewrite Hfold by (done || lia). by rewrite Z.add_0_l.
Qed.

(** The first frames are taken for the bitmap, and are contiguous. *)
Lemma bitmap_frames_taken :
  exists last, take_frames (Z.to_nat bitmap_frames - 1) (r_start r) (mkBoot rs 1) =
      Ret (last, mkBoot rs (Z.to_nat bitmap_frames)) /\
    is_contiguous prof (r_start r) last bitmap_frames = Ret true.
Proof.
  pose proof bitmap_frames_bounds as Hpos. pose proof Hok as [Hr _]%Forall_cons_1.
  destruct (region_frames_spec r Hr) as [He Hb]. destruct Hr as (Hs & Hl & _ & _).
  rewrite take_frames_ok by lia. eexists. split.
  { do 2 f_equal. f_equal. lia. }
  unfold is_contiguous. destruct (decide (_ = 0%nat));
    repeat (rewrite arith_ok by lia; run_ret); f_equal; lia.
Qed.

(** What building the bitmap gives, with the boot allocator at its end. *)
Lemma allocate_bitmap_spec (pt : PT) :
  pt_wf pt -> (forall g, 0 <= g < region_frames r -> ~ in_use pt (region_frame g)) ->
  (forall j, 0 <= j < bitmap_frames ->
     mapped pt (BITMAP_FRAME_ALLOCATOR_START + j * 4096) = None /\
     huge pt (BITMAP_FRAME_ALLOCATOR_START + j * 4096) = false) ->
  exists bm pt' alloc', allocate_bitmap prof rs pt (boot_new rs) = Ret (bm, pt') /\
    map_bitmap (seq 0 (Z.to_nat bitmap_frames)) (r_start r) pt
      (mkBoot rs (Z.to_nat bitmap_frames)) = Ret (pt', alloc') /\
    bitmap_frames <= Z.of_nat (used alloc') <= 4 * bitmap_frames /\
    Z.of_nat (length bm) = 512 * bitmap_frames /\ Forall word_ok bm /\
    prefix_used (Z.of_nat (used alloc')) bm /\ pt_wf pt' /\
    bitmap_in_use pt' (Z.to_nat bitmap_frames) (used alloc') /\
    (forall j, 0 <= j < bitmap_frames ->
       mapped pt' (BITMAP_FRAME_ALLOCATOR_START + j * 4096) = Some (region_frame j)).
Proof.
  intros Hwf Hunused Hfree. pose proof bitmap_frames_bounds as Hpos.
  unfold allocate_bitmap, boot_new. rewrite required_bitmap_size_ok. run_ret. cbv zeta.
  fold bitmap_frames. cbn [allocate_frame boot_frame_allocator].
  rewrite boot_allocate_ok by lia. run_ret. cbn [unwrap]. run_ret.
  rewrite Z.mul_0_r, Z.add_0_r. destruct bitmap_frames_taken as (last & -> & Hc).
  run_ret. rewrite Hc. run_ret. cbn [rust_assert]. run_ret.
  set (K := Z.to_nat bitmap_frames). assert (Z.of_nat K = bitmap_frames) as HK by lia.
  destruct (map_bitmap_ok K 0 pt K) as (pt' & n & Hmap & Hn & Hwf' & Hu' & Hm' & _);
    [lia|lia|lia|done| |done|].
  { intros g Hg. split; [intros ?; by destruct (Hunused g Hg)|lia]. }
  rewrite Hmap. run_ret. cbn [used boot_next].
  destruct (mark_all_used_spec 0 n (replicate (K * 512) 0)) as (bm & Hbm & Hlen & Hwok & Hp).
  - apply Forall_replicate. unfold word_ok. lia.
  - rewrite length_replicate. lia.
  - intros g Hg. unfold used_bit. replace (g <? Z.of_nat 0) with false by lia.
    destruct (_ !! _) as [w|] eqn:E; [|done].
    apply lookup_replicate in E as [-> _]. apply Z.testbit_0_l.
  - rewrite Hbm. run_ret. exists bm, pt', (mkBoot rs n). rewrite length_replicate in Hlen.
    cbn [used boot_next]. split_and!; try (done || lia).
Qed.

(** C22: at boot, on a memory map of whole frames whose first usable region has
    room for the bitmap and its page tables and is not in use, [allocate_bitmap]
    returns.  The bitmap's pages are mapped to the first frames of the region, and
    the bitmap marks exactly as many frames as the boot allocator has handed out
    when they are mapped: of the frames of the region those, and only those, that
    the page tables then use, the bitmap's own and the table frames alike. *)
Theorem allocate_bitmap_exact (pt : PT) :
  pt_wf pt -> (forall g, 0 <= g < region_frames r -> ~ in_use pt (region_frame g)) ->
  (forall j, 0 <= j < bitmap_frames ->
     mapped pt (BITMAP_FRAME_ALLOCATOR_START + j * 4096) = None /\
     huge pt (BITMAP_FRAME_ALLOCATOR_START + j * 4096) = false) ->
  exists bm pt' alloc', allocate_bitmap prof rs pt (boot_new rs) = Ret (bm, pt') /\
    map_bitmap (seq 0 (Z.to_nat bitmap_frames)) (r_start r) pt
      (mkBoot rs (Z.to_nat bitmap_frames)) = Ret (pt', alloc') /\
    Z.of_nat (length bm) = 512 * bitmap_frames /\ Forall word_ok bm /\
    prefix_used (Z.of_nat (used alloc')) bm /\
    (forall g, 0 <= g < region_frames r ->
       used_bit bm g = true <-> in_use pt' (region_frame g)) /\
    (forall j, 0 <= j < bitmap_frames ->
       mapped pt' (BITMAP_FRAME_ALLOCATOR_START + j * 4096) = Some (region_frame j)).
Proof.
  intros Hwf Hunused Hfree.
  destruct (allocate_bitmap_spec pt Hwf Hunused Hfree)
    as (bm & pt' & alloc' & ? & ? & Hn & ? & ? & Hp & _ & Hu & ?).
  exists bm, pt', alloc'. split_and!; try done. intros g Hg. pose proof bitmap_frames_bounds.
  rewrite (Hp g), (Hu g) by lia. rewrite Z.ltb_lt. lia.
Qed.
End boot_bitmap.

(** A page table that needs no table frames, for examples: the mapped pages. *)
Definition flat_lookup (pt : list (Z * Z)) (page : Z) : option Z :=
  snd <$> List.find (fun '(p, _) => p =? page) pt.
#[export] Instance flat_page_table : PageTable (list (Z * Z)) := {|
  map_to A _ pt page frame a :=
    match flat_lookup pt page with
    | Some _ => Ret (Err tt, (pt, a))
    | None => Ret (Ok tt, ((page, frame) :: pt, a))
    end;
  unmap pt page :=
    match flat_lookup pt page with
    | Some f => Ret (Ok f, List.filter (fun '(p, _) => negb (p =? page)) pt)
    | None => Ret (Err tt, pt)
    end;
  clean_up A _ pt page a := Ret (pt, a)
|}.
Lemma flat_lookup_cons page frame pt page' :
  flat_lookup ((page, frame) :: pt) page' =
  if page =? page' then Some frame else flat_lookup pt page'.
Proof. unfold flat_lookup. simpl. by destruct (page =? page'). Qed.

Lemma flat_lookup_filter pt page page' :
  flat_lookup (List.filter (fun '(p, _) => negb (p =? page)) pt) page' =
  if page =? page' then None else flat_lookup pt page'.
Proof.
  induction pt as [|[p f] pt IH]; [by destruct (page =? page')|].
  cbn [List.filter]. rewrite flat_lookup_cons.
  destruct (p =? page) eqn:E1, (page =? page') eqn:E2; cbn [negb];
    rewrite ?flat_lookup_cons, ?IH; repeat case_match; try done; lia.
Qed.

(** A page table of two levels, for examples: the mapped pages, and the frame of
    the table of each 2 MiB that has one. *)
Record small_table := mkSmall { st_pages : list (Z * Z); st_tables : list (Z * Z) }.
Definition table_index (page : Z) : Z := page / 0x200000.
Definition without (key : Z) (l : list (Z * Z)) : list (Z * Z) :=
  List.filter (fun '(p, _) => negb (p =? key)) l.
#[export] Instance small_page_table : PageTable small_table := {|
  map_to A _ pt page frame a :=
    match flat_lookup (st_pages pt) page with
    | Some _ => Ret (Err tt, (pt, a))
    | None =>
        let pages := (page, frame) :: st_pages pt in
        match flat_lookup (st_tables pt) (table_index page) with
        | Some _ => Ret (Ok tt, (mkSmall pages (st_tables pt), a))
        | None =>
            '(o, a) ← allocate_frame a;
            match o with
            | None => Ret (Err tt, (pt, a))
            | Some t => Ret (Ok tt, (mkSmall pages ((table_index page, t) :: st_tables pt), a))
            end
        end
    end;
  unmap pt page :=
    match flat_lookup (st_pages pt) page with
    | Some f => Ret (Ok f, mkSmall (without page (st_pages pt)) (st_tables pt))
    | None => Ret (Err tt, pt)
    end;
  clean_up A _ pt page a :=
    if existsb (fun '(p, _) => table_index p =? table_index page) (st_pages pt) then Ret (pt, a)
    else match flat_lookup (st_tables pt) (table_index page) with
         | None => Ret (pt, a)
         | Some t => a ← deallocate_frame a t;
                     Ret (mkSmall (st_pages pt) (without (table_index page) (st_tables pt)), a)
         end
|}.
Definition small_in_use (pt : small_table) (f : Z) : Prop :=
  (exists page, flat_lookup (st_pages pt) page = Some f) \/
  (exists i, flat_lookup (st_tables pt) i = Some f).

(** The values of a list with one more, or one less, entry. *)
Lemma flat_values_cons key v l f :
  flat_lookup l key = None ->
  (exists k, flat_lookup ((key, v) :: l) k = Some f) <-> (exists k, flat_lookup l k = Some f) \/ f = v.
Proof.
  intros Hn. split.
  - intros [k Hk]. rewrite flat_lookup_cons in Hk. destruct (key =? k) eqn:E.
    + right. congruence.
    + left. eauto.
  - intros [[k Hk]| ->]; [exists k|exists key]; rewrite flat_lookup_cons; [|by rewrite Z.eqb_refl].
    destruct (Z.eqb_spec key k) as [->|]; congruence.
Qed.

Lemma flat_values_without key l f :
  (exists k, flat_lookup (without key l) k = Some f) -> exists k, flat_lookup l k = Some f.
Proof.
  intros [k Hk]. unfold without in Hk. rewrite flat_lookup_filter in Hk.
  destruct (key =? k); [done|]. by exists k.
Qed.

Lemma small_map_to_law A (FA : FrameAllocator A) pt page frame (a : A) os a3 :
  allocate_frames 3 a = Ret (os, a3) ->
  exists r pt' k a', (k <= 3)%nat /\ map_to pt page frame a = Ret (r, (pt', a')) /\
    allocate_frames k a = Ret (take k os, a') /\
    (forall page', page' <> page -> flat_lookup (st_pages pt') page' = flat_lookup (st_pages pt) page') /\
    match r with
    | Ok _ => flat_lookup (st_pages pt) page = None /\ flat_lookup (st_pages pt') page = Some frame /\
        forall f, small_in_use pt' f <-> small_in_use pt f \/ f = frame \/ Some f ∈ take k os
    | Err _ => flat_lookup (st_pages pt') page = flat_lookup (st_pages pt) page /\
        (forall f, small_in_use pt' f <-> small_in_use pt f \/ Some f ∈ take k os) /\
        (flat_lookup (st_pages pt) page <> None \/ None ∈ os)
    end.
Proof.
  intros Ha. cbn [allocate_frames] in Ha. cbn [map_to small_page_table].
  destruct (allocate_frame a) as [[o a1]| | |] eqn:E1; try discriminate. cbn [mbind outcome_bind] in Ha.
  assert (exists os1, os = o :: os1) as [os1 ->].
  { destruct (allocate_frame a1) as [[? a2]| | |]; try discriminate. cbn [mbind outcome_bind] in Ha.
    destruct (allocate_frame a2) as [[? ?]| | |]; try discriminate. injection Ha as <- _. eauto. }
  assert (allocate_frames 1 a = Ret ([o], a1)) as H1 by (cbn [allocate_frames]; by rewrite E1).
  destruct (flat_lookup (st_pages pt) page) as [f0|] eqn:Ep.
  { exists (Err tt), pt, 0%nat, a. split_and!; try (done || lia); [|by left].
    intros f. rewrite elem_of_nil. tauto. }
  assert (forall l page', page' <> page ->
    flat_lookup ((page, frame) :: l) page' = flat_lookup l page') as Hne.
  { intros l page' Hd. rewrite flat_lookup_cons. by replace (page =? page') with false by lia. }
  destruct (flat_lookup (st_tables pt) (table_index page)) as [t|] eqn:Et; [|destruct o as [t|]].
  - exists (Ok tt), (mkSmall ((page, frame) :: st_pages pt) (st_tables pt)), 0%nat, a.
    cbn [st_pages]. rewrite flat_lookup_cons, Z.eqb_refl. split_and!; try (done || lia); [auto|].
    intros f. unfold small_in_use. cbn [st_pages st_tables]. rewrite flat_values_cons, elem_of_nil by done. tauto.
  - exists (Ok tt), (mkSmall ((page, frame) :: st_pages pt) ((table_index page, t) :: st_tables pt)), 1%nat, a1.
    cbn [st_pages mbind outcome_bind take]. rewrite flat_lookup_cons, Z.eqb_refl.
    split_and!; try (done || lia); [auto|].
    intros f. unfold small_in_use. cbn [st_pages st_tables].
    rewrite !flat_values_cons, elem_of_cons, elem_of_nil by done.
    split; [intros [[?|?]|[?|?]]|intros [[?|?]|[?|[[= ?]|?]]]]; subst; tauto.
  - exists (Err tt), pt, 1%nat, a1. cbn [mbind outcome_bind take].
    split_and!; try (done || lia); [|right; by left].
    intros f. rewrite elem_of_cons, elem_of_nil. split; [auto|intros [?|[?|?]]; done].
Qed.

#[export, refine] Instance small_page_table_laws : PageTableLaws small_table := {|
  pt_wf _ := True;
  mapped pt := flat_lookup (st_pages pt);
  huge _ _ := false;
  in_use := small_in_use
|}.
Proof.
- intros A FA pt page frame a os a3 _ Ha _.
  destruct (small_map_to_law A FA pt page frame a os a3 Ha)
    as (r & pt' & k & a' & Hk & Hmap & Hk' & Ho & Hr).
  exists r, pt', k, a'. split_and!; try done. destruct r; [done|]. destruct Hr as (? & ? & ?). tauto.
- intros pt page _. cbn [unmap small_page_table]. destruct (flat_lookup (st_pages pt) page) as [f|] eqn:E.
  + exists (Ok f), (mkSmall (without page (st_pages pt)) (st_tables pt)). unfold without. cbn [st_pages]. rewrite flat_lookup_filter, Z.eqb_refl.
    split_and!; try done.
    * intros page' Hne. rewrite flat_lookup_filter. by replace (page =? page') with false by lia.
    * intros f' [Hf|?]; [left; by apply flat_values_without in Hf|by right].
  + by exists (Err tt), pt.
- intros pt page _. cbn [clean_up small_page_table]. destruct (existsb _ _).
  { exists [], pt. split_and!; try done. by intros f ?%elem_of_nil. }
  destruct (flat_lookup (st_tables pt) (table_index page)) as [t|] eqn:E.
  + exists [t], (mkSmall (st_pages pt) (without (table_index page) (st_tables pt))).
    split_and!; try done.
    * intros f [?|Hf]; [by left|right; by apply flat_values_without in Hf].
    * intros f ->%list_elem_of_singleton. right. eauto.
    * intros A FD a. cbn [deallocate_frames]. by destruct (deallocate_frame a t).
  + exists [], pt. split_and!; try done. by intros f ?%elem_of_nil.
Defined.

(** The 256 frames of the region are counted by one page of bits, whose tables take
    one more frame: two bits are set. *)
Lemma allocate_bitmap_exact_witness :
  let r := mkRegion 0x100000 0x200000 true in
  exists bm pt' alloc',
    @allocate_bitmap x86_model Debug small_table small_page_table one_region (mkSmall [] [])
      (boot_new one_region) = Ret (bm, pt') /\
    @map_bitmap x86_model small_table small_page_table (seq 0 1) 0x100000 (mkSmall [] [])
      (mkBoot one_region 1) = Ret (pt', alloc') /\
    Z.of_nat (length bm) = 512 /\ Forall word_ok bm /\
    prefix_used (Z.of_nat (used alloc')) bm /\
    (forall g, 0 <= g < 256 -> used_bit bm g = true <-> small_in_use pt' (region_frame r g)) /\
    (forall j, 0 <= j < 1 ->
       flat_lookup (st_pages pt') (@BITMAP_FRAME_ALLOCATOR_START x86_model + j * 4096) =
       Some (region_frame r j)).
Proof.
  refine (@allocate_bitmap_exact x86_model x86_model_laws small_table small_page_table
    small_page_table_laws Debug one_region (mkRegion 0x100000 0x200000 true) [] _ _ _ _ _
    (mkSmall [] []) I _ _).
  - reflexivity.
  - constructor; [apply one_region_ok|constructor].
  - vm_compute. discriminate.
  - reflexivity.
  - vm_compute. discriminate.
  - intros g _ [[? [=]]|[? [=]]].
  - intros j _. split; reflexivity.
Defined.

Example allocate_bitmap_tables :
  match @allocate_bitmap x86_model Debug small_table small_page_table one_region (mkSmall [] [])
          (boot_new one_region) with
  | Ret (bm, pt) => bm !! 0%nat = Some (2 ^ 63 + 2 ^ 62) /\ map snd (st_tables pt) = [0x101000]
  | _ => False
  end.
Proof. vm_compute. split; reflexivity. Qed.
