(* ===== verification/Kpage.v ===== *)
(** * memory/mod.rs: the statics, and mapping single kernel pages *)

From Stdlib Require Import ZArith Lia.
From stdpp Require Import base list numbers.
From S2P Require Import Prelude Layout Frame.

Local Open Scope Z_scope.

Inductive AllocError := alloc_error.

(** The statics [PAGE_TABLE] and [FRAME_ALLOCATOR]. *)
Record Memory (PT : Type) := mkMemory {
  PAGE_TABLE : option PT;
  FRAME_ALLOCATOR : option BitmapFrameAllocator
}.
Arguments mkMemory {PT}.
Arguments PAGE_TABLE {PT}.
Arguments FRAME_ALLOCATOR {PT}.

Section kpage.
Context `{X86Addr} {PT : Type} `{PageTable PT}.

(** [alloc_kpage]: take a frame and map it at the page of [virt_addr].  The
    frame stays taken when there is no page table. *)
Definition alloc_kpage {A} `{FrameAllocator A} (page_table : option PT) (alloc : A)
    (virt_addr : Z) : outcome (result unit AllocError * (option PT * A)) :=
  '(o, alloc) ← allocate_frame alloc;
  match o with
  | None => Ret (Err alloc_error, (page_table, alloc))
  | Some frame =>
      let page := page_containing virt_addr in
      match page_table with
      | None => Ret (Err alloc_error, (page_table, alloc))
      | Some pt =>
          '(r, (pt, alloc)) ← map_to pt page frame alloc;
          match r with
          | Ok _ => Ret (Ok tt, (Some pt, alloc))
          | Err _ => Panic
          end
      end
  end.

(** [free_kpage]: unmap the page, give its frame back, clean up the tables.
    (The debug build also zeroes the page first; page contents are not part of
    the state.) *)
Definition free_kpage {A} `{FrameDeallocator A} (page_table : option PT) (alloc : A)
    (virt_addr : Z) : outcome (option PT * A) :=
  let page := page_containing virt_addr in
  pt ← unwrap page_table;
  '(r, pt) ← unmap pt page;
  match r with
  | Err _ => Panic
  | Ok frame =>
      alloc ← deallocate_frame alloc frame;
      '(pt, alloc) ← clean_up pt page alloc;
      Ret (Some pt, alloc)
  end.

(** [active_level_4_table] reads the table's physical address from [Cr3];
    [OffsetPageTable::new] takes the table and the offset of physical memory. *)
Definition active_level_4_table (cr3 : Z) : outcome Z := va_add PHYSICAL_MEM_START cr3.

Definition init (cr3 : Z) (offset_page_table : Z -> Z -> PT) (m : Memory PT)
    : outcome (Memory PT) :=
  level_4_table ← active_level_4_table cr3;
  Ret (mkMemory (Some (offset_page_table level_4_table PHYSICAL_MEM_START))
                (FRAME_ALLOCATOR m)).

Definition init_frame_allocator (prof : profile) (cr3 : Z) (offset_page_table : Z -> Z -> PT)
    (memory_regions : list MemoryRegion) (m : Memory PT) : outcome (Memory PT) :=
  m ← init cr3 offset_page_table m;
  pt ← unwrap (PAGE_TABLE m);
  '(frame_alloc, pt) ← bitmap_new prof memory_regions pt;
  Ret (mkMemory (Some pt) (Some frame_alloc)).
End kpage.

(** ** What the page allocator needs of the kernel's memory *)

(** [FRAME_ALLOCATOR.lock().as_mut().unwrap()], alone and with [alloc_kpage] or
    [free_kpage] on it. *)
Class KPages (M : Type) := {
  kp_ready : M -> outcome unit;
  kp_alloc : M -> Z -> outcome (result unit AllocError * M);
  kp_free : M -> Z -> outcome M
}.

#[export] Instance memory_kpages `{X86Addr} {PT} `{PageTable PT} (prof : profile)
    : KPages (Memory PT) := {|
  kp_ready m := _ ← unwrap (FRAME_ALLOCATOR m); Ret tt;
  kp_alloc m va :=
    alloc ← unwrap (FRAME_ALLOCATOR m);
    '(r, (pt, alloc)) ←
      @alloc_kpage _ _ _ _ (bitmap_frame_allocator prof) (PAGE_TABLE m) alloc va;
    Ret (r, mkMemory pt (Some alloc));
  kp_free m va :=
    alloc ← unwrap (FRAME_ALLOCATOR m);
    '(pt, alloc) ←
      @free_kpage _ _ _ _ (bitmap_frame_deallocator prof) (PAGE_TABLE m) alloc va;
    Ret (mkMemory pt (Some alloc))
|}.

(** Its promise: the set of mapped pages changes by exactly the page asked for,
    and only when the operation succeeds; a page is never mapped twice.  It holds
    as long as pages are mapped with frames that are not in use: [kp_room n m] says
    that [m] is in order and has them for the next [n] pages. *)
Class KPagesLaws `{X86Addr} (M : Type) `{KPages M} := {
  kp_mapped : M -> Z -> bool;
  kp_room : nat -> M -> Prop;
  kp_room_less : forall n m, kp_room (S n) m -> kp_room n m;
  kp_alloc_law : forall n m va r m', kp_room (S n) m -> kp_alloc m va = Ret (r, m') ->
    kp_room n m' /\
    (forall page, page <> page_containing va -> kp_mapped m' page = kp_mapped m page) /\
    match r with
    | Ok _ => kp_mapped m (page_containing va) = false /\
              kp_mapped m' (page_containing va) = true
    | Err _ => kp_mapped m' (page_containing va) = kp_mapped m (page_containing va)
    end;
  kp_free_law : forall m va m', kp_room 0 m -> kp_free m va = Ret m' ->
    kp_room 0 m' /\
    kp_mapped m (page_containing va) = true /\ kp_mapped m' (page_containing va) = false /\
    forall page, page <> page_containing va -> kp_mapped m' page = kp_mapped m page
}.

(** ** Lemmas *)

Section promise.
Context `{X86Addr} {PT : Type} `{PageTableLaws PT}.

Definition pt_mapped (pto : option PT) (page : Z) : bool :=
  match pto with
  | Some pt => bool_decide (is_Some (mapped pt page))
  | None => false
  end.
Definition pt_ok (pto : option PT) : Prop := match pto with Some pt => pt_wf pt | None => True end.

(** The frames that mapping one page would take are not in use and come once, as
    the page tables ask of an allocator. *)
Definition unused_next {A} `{FrameAllocator A} (pto : option PT) (alloc : A) : Prop :=
  forall pt frame alloc1, pto = Some pt -> allocate_frame alloc = Ret (Some frame, alloc1) ->
    exists os alloc4, allocate_frames 3 alloc1 = Ret (os, alloc4) /\
      fresh (in_use pt) (Some frame :: os).

Lemma pt_mapped_eq pt pt' page page' :
  mapped pt' page' = mapped pt page ->
  pt_mapped (Some pt') page' = pt_mapped (Some pt) page.
Proof. unfold pt_mapped. by intros ->. Qed.

Lemma alloc_kpage_sound {A} `{FrameAllocator A} (pto pto' : option PT) (al al' : A) va r :
  pt_ok pto -> unused_next pto al ->
  alloc_kpage pto al va = Ret (r, (pto', al')) ->
  pt_ok pto' /\
  (forall page, page <> page_containing va -> pt_mapped pto' page = pt_mapped pto page) /\
  match r with
  | Ok _ => pt_mapped pto (page_containing va) = false /\
            pt_mapped pto' (page_containing va) = true
  | Err _ => pt_mapped pto' (page_containing va) = pt_mapped pto (page_containing va)
  end.
Proof.
  intros Hwf Hun. unfold alloc_kpage. intros Hr.
  destruct (allocate_frame al) as [[o al1]| | |] eqn:Ea; try discriminate.
  destruct o as [fr|], pto as [pt|]; run_ret; try (injection Hr as <- <- <-; done).
  cbn [mbind outcome_bind] in Hr. cbv zeta in Hr.
  destruct (Hun pt fr al1 eq_refl Ea) as (os & al4 & Hos & Hfresh).
  destruct (map_to_law _ _ pt (page_containing va) fr al1 os al4 Hwf Hos Hfresh)
    as (r1 & pt1 & k & al2 & _ & Em & _ & Hwf1 & Hother & _ & Hr1).
  rewrite Em in Hr. cbn [mbind outcome_bind] in Hr.
  destruct r1; [|discriminate]. injection Hr as <- <- <-. destruct Hr1 as (Hn & Hs & _).
  split_and!; [done| |unfold pt_mapped; by rewrite Hn|unfold pt_mapped; by rewrite Hs].
  intros page Hne. by apply pt_mapped_eq, Hother.
Qed.

(** Freeing a mapped page is giving back its frame and then those of the tables
    that have become empty. *)
Lemma free_kpage_mapped {A} `{FrameDeallocator A} (pt : PT) (al : A) va frame :
  pt_wf pt -> mapped pt (page_containing va) = Some frame ->
  exists tables pt', pt_wf pt' /\ (forall f, f ∈ tables -> in_use pt f) /\
    (forall f, in_use pt' f -> in_use pt f) /\
    free_kpage (Some pt) al va =
      (al ← deallocate_frame al frame; al ← deallocate_frames tables al; Ret (Some pt', al)) /\
    mapped pt' (page_containing va) = None /\
    forall page, page <> page_containing va -> mapped pt' page = mapped pt page.
Proof.
  intros Hwf Hm.
  destruct (unmap_law pt (page_containing va) Hwf) as (r & pt1 & Eu & Hwf1 & Ho & _ & Hu1 & Hn & Hr).
  rewrite Hm in Hr. destruct r as [fr|]; [injection Hr as <-|done].
  destruct (clean_up_law pt1 (page_containing va) Hwf1)
    as (tables & pt' & Hwf' & Hm' & _ & Hu' & Ht & Hc).
  exists tables, pt'. split_and!; [done|auto|auto| |by rewrite Hm'|intros page Hne; by rewrite Hm', Ho].
  unfold free_kpage. cbv zeta. cbn [unwrap mbind outcome_bind]. rewrite Eu. cbn [mbind outcome_bind].
  destruct (deallocate_frame al frame) as [al1| | |]; [|done..]. cbn [mbind outcome_bind].
  rewrite Hc. by destruct (deallocate_frames tables al1).
Qed.

Lemma free_kpage_sound {A} `{FrameDeallocator A} (pto pto' : option PT) (al al' : A) va :
  pt_ok pto -> free_kpage pto al va = Ret (pto', al') ->
  pt_ok pto' /\
  pt_mapped pto (page_containing va) = true /\ pt_mapped pto' (page_containing va) = false /\
  forall page, page <> page_containing va -> pt_mapped pto' page = pt_mapped pto page.
Proof.
  intros Hwf Hr. destruct pto as [pt|]; [|discriminate].
  destruct (mapped pt (page_containing va)) as [fr|] eqn:Em.
  - destruct (free_kpage_mapped pt al va fr Hwf Em) as (tables & pt' & Hwf' & _ & _ & Hf & Hn & Ho).
    rewrite Hf in Hr. destruct (deallocate_frame al fr) as [al1| | |]; try discriminate.
    cbn [mbind outcome_bind] in Hr. destruct (deallocate_frames tables al1); try discriminate.
    injection Hr as <- <-. unfold pt_mapped. rewrite Em, Hn. split_and!; try done.
    intros page Hne. by rewrite Ho.
  - destruct (unmap_law pt (page_containing va) Hwf) as (r & pt1 & Eu & _ & _ & _ & _ & _ & Hr1).
    unfold free_kpage in Hr. cbv zeta in Hr. cbn [unwrap mbind outcome_bind] in Hr.
    rewrite Em in Hr1. rewrite Eu in Hr. cbn [mbind outcome_bind] in Hr. by destruct r.
Qed.

(** The next [n] pages are mapped with frames that are not in use. *)
Fixpoint memory_room (prof : profile) (n : nat) (m : Memory PT) : Prop :=
  pt_ok (PAGE_TABLE m) /\
  match n with
  | O => True
  | S n =>
      (forall al, FRAME_ALLOCATOR m = Some al ->
         @unused_next _ (bitmap_frame_allocator prof) (PAGE_TABLE m) al) /\
      memory_room prof n m /\
      forall va r m', @kp_alloc _ (memory_kpages prof) m va = Ret (r, m') -> memory_room prof n m'
  end.

End promise.

(** The kernel's memory keeps the promise. *)
#[export, refine] Instance memory_kpages_laws `{X86Addr} {PT} `{PageTableLaws PT}
    (prof : profile) : @KPagesLaws _ (Memory PT) (memory_kpages prof) := {|
  kp_mapped m := pt_mapped (PAGE_TABLE m);
  kp_room := memory_room prof
|}.
Proof.
- by intros n m (_ & _ & ? & _).
- intros n [pto [al|]] va r m' Hroom Hr; [|discriminate].
  pose proof Hroom as (Hwf & Hun & _ & Hnext). split; [by eapply Hnext|].
  unfold kp_alloc, memory_kpages in Hr. cbn [unwrap FRAME_ALLOCATOR PAGE_TABLE mbind outcome_bind] in *.
  destruct (@alloc_kpage _ _ _ _ (bitmap_frame_allocator prof) pto al va) as [[r1 [pto' al']]| | |] eqn:E; try discriminate.
  injection Hr as <- <-.
  exact (proj2 (@alloc_kpage_sound _ _ _ _ _ (bitmap_frame_allocator prof) _ _ _ _ _ _ Hwf (Hun al eq_refl) E)).
- intros [pto [al|]] va m' [Hwf _] Hr; [|discriminate].
  unfold kp_free, memory_kpages in Hr. cbn [unwrap FRAME_ALLOCATOR PAGE_TABLE mbind outcome_bind] in *.
  destruct (@free_kpage _ _ _ _ (bitmap_frame_deallocator prof) pto al va) as [[pto' al']| | |] eqn:E; try discriminate.
  injection Hr as <-.
  destruct (@free_kpage_sound _ _ _ _ _ (bitmap_frame_deallocator prof) _ _ _ _ _ Hwf E) as (? & ? & ? & ?).
  done.
Defined.

Section kpage_facts.
Context `{X86AddrLaws} {PT : Type} `{PageTableLaws PT}.
Context {A : Type} `{FrameAllocator A, FrameDeallocator A}.


(** [alloc_kpage] without a frame fails and changes nothing; without a page
    table it also fails, but the frame it has taken is not given back. *)
Theorem alloc_kpage_errors (pto : option PT) (alloc alloc1 : A) (o : option Z) (va : Z) :
  allocate_frame alloc = Ret (o, alloc1) -> o = None \/ pto = None ->
  alloc_kpage pto alloc va = Ret (Err alloc_error, (pto, alloc1)).
Proof.
  intros Ha Ho. unfold alloc_kpage. rewrite Ha. run_ret.
  destruct o; [|done]. by destruct Ho as [?| ->].
Qed.
End kpage_facts.


Lemma alloc_kpage_errors_witness :
  @alloc_kpage x86_model (list (Z * Z)) flat_page_table _
    (@bitmap_frame_allocator x86_model Debug) None booted 0x5000 =
  Ret (Err alloc_error, (None, mkBitmap one_region [2 ^ 64 - 2 ^ 51; 0])).
Proof.
  apply (@alloc_kpage_errors x86_model (list (Z * Z)) flat_page_table
    BitmapFrameAllocator (@bitmap_frame_allocator x86_model Debug)
    None booted _ (Some 0x10c000) 0x5000); [reflexivity|right; reflexivity].
Defined.
