(* ===== verification/PageAlloc.v ===== *)
(** * memory/allocator/page.rs: the full page allocator

    The allocator keeps a linked list of pages of 170 entries; an entry is a
    range of free virtual pages.  The list is represented by the Rocq list of
    its pages from [self] on ([next] is the tail, a null pointer is []); the
    mapped pages and the frames behind them are the memory [M] of [Kpage]. *)

From Stdlib Require Import ZArith Lia ZifyBool.
From stdpp Require Import base list numbers.
From S2P Require Import Prelude Layout Frame Kpage.

Local Open Scope Z_scope.

Definition ENTRIES_LEN : nat := 170.

Inductive Entry := Empty | Usable (start pages : Z).

#[export] Instance Entry_eq_dec : EqDecision Entry.
Proof. solve_decision. Defined.

(** A page of entries, with the address it lies at. *)
Record FPAInner := mkFPAInner {
  fpa_addr : Z;
  entries : list Entry;
  prev : option Z
}.

Definition set_entries (p : FPAInner) (es : list Entry) : FPAInner :=
  mkFPAInner (fpa_addr p) es (prev p).

(** The sizes the source asserts: an entry is a tag and two numbers, a page of
    entries has two pointers behind them. *)
Definition size_of_Entry : Z := 8 + 8 + 8.
Definition size_of_FPAInner : Z := Z.of_nat ENTRIES_LEN * size_of_Entry + 8 + 8.
Example entry_sizes : size_of_Entry = 24 /\ size_of_FPAInner = 0x1000.
Proof. split; reflexivity. Qed.

(** [FullPageAllocator::inner]; [new] is the null pointer. *)
Definition FullPageAllocator : Type := list FPAInner.
Definition page_allocator_new : FullPageAllocator := [].

(** [slice::copy_within] with the range [a..b]. *)
Definition copy_within {A} (l : list A) (a b dest : nat) : outcome (list A) :=
  if ((a <=? b) && (b <=? length l) && (dest <=? length l - (b - a)))%nat then
    Ret (take dest l ++ take (b - a) (drop a l) ++ drop (dest + (b - a)) l)
  else Panic.

(** The loops over [entries] that stop at the first [Empty] entry: the first
    usable entry with property [f], with its index. *)
Variant scan_result :=
| ScanHit (i : nat) (start pages : Z)
| ScanEmpty
| ScanEnd.

Fixpoint scan_from (f : Z -> Z -> bool) (i : nat) (es : list Entry) : scan_result :=
  match es with
  | [] => ScanEnd
  | Empty :: _ => ScanEmpty
  | Usable s p :: es' => if f s p then ScanHit i s p else scan_from f (S i) es'
  end.
Definition scan (f : Z -> Z -> bool) (es : list Entry) : scan_result := scan_from f 0 es.

Section page_alloc.
Context `{X86Addr} {M : Type} `{KPages M} (prof : profile).

Fixpoint find_free_pages (self : list FPAInner) (req_pages : Z) : option Z :=
  match self with
  | [] => None
  | p :: next =>
      match scan (fun _ pages => req_pages <=? pages) (entries p) with
      | ScanHit _ start _ => Some start
      | ScanEmpty => None
      | ScanEnd => find_free_pages next req_pages
      end
  end.

(** [remove_entry_page]: free the last page and unlink it. *)
Definition remove_entry_page (fpa_inner : list FPAInner) (m : M)
    : outcome (list FPAInner * M) :=
  match list.last fpa_inner with
  | None => Panic
  | Some lst =>
      m ← kp_free m (fpa_addr lst);
      match prev lst with
      | Some _ => Ret (removelast fpa_inner, m)
      | None => Ret ([], m)
      end
  end.

(** [FPAInner::remove_entry]; a method is only called on a page, so [] is out
    of its domain (here and below). *)
Fixpoint remove_entry (self : list FPAInner) (idx : nat) (m : M)
    : outcome (Entry * (list FPAInner * M)) :=
  match self with
  | [] => Panic
  | p :: next =>
      '(end_, (next, m)) ←
        match next with
        | [] => Ret (None, (next, m))
        | _ :: _ => '(e, s) ← remove_entry next 0 m; Ret (Some e, s)
        end;
      entry ← index (entries p) idx;
      es ← index_set (entries p) idx Empty;
      es ← copy_within es (idx + 1) ENTRIES_LEN idx;
      match end_ with
      | None => Ret (entry, (set_entries p es :: next, m))
      | Some Empty =>
          s ← remove_entry_page (set_entries p es :: next) m;
          Ret (entry, s)
      | Some end_ =>
          es ← index_set es (ENTRIES_LEN - 1) end_;
          Ret (entry, (set_entries p es :: next, m))
      end
  end.

(** [FPAInner::alloc_pages]. *)
Fixpoint alloc_pages (self : list FPAInner) (start pages : Z) (m : M)
    : outcome (list FPAInner * M) :=
  match self with
  | [] => Panic
  | p :: next =>
      match scan (fun s _ => s =? start) (entries p) with
      | ScanEmpty => Ret (self, m)
      | ScanHit i _ n =>
          if n =? pages then '(_, s) ← remove_entry self i m; Ret s
          else
            off ← arith prof 64 (pages * 0x1000);
            start' ← va_add start off;
            n' ← arith prof 64 (n - pages);
            es ← index_set (entries p) i (Usable start' n');
            Ret (set_entries p es :: next, m)
      | ScanEnd =>
          match next with
          | [] => Panic
          | _ :: _ => '(next, m) ← alloc_pages next start pages m; Ret (p :: next, m)
          end
      end
  end.

(** [add_entry_page]: the first page at [ALLOCATOR_START], or a page taken
    from the free ranges of [inner] and linked behind it. *)
Definition add_entry_page (inner : list FPAInner) (m : M)
    : outcome (result unit AllocError * (list FPAInner * M)) :=
  match inner with
  | [] =>
      '(r, m) ← kp_alloc m ALLOCATOR_START;
      match r with
      | Err e => Ret (Err e, (inner, m))
      | Ok _ =>
          start ← va_add ALLOCATOR_START 0x1000;
          aligned ← va_align_up ALLOCATOR_END 0x1000;
          len ← va_sub aligned ALLOCATOR_START;
          len ← arith prof 64 (len + 0x1000);
          Ret (Ok tt, ([mkFPAInner ALLOCATOR_START
                 (Usable start (len / 0x1000) :: replicate (ENTRIES_LEN - 1) Empty) None], m))
      end
  | _ :: _ =>
      match find_free_pages inner 1 with
      | None => Ret (Err alloc_error, (inner, m))
      | Some free_page =>
          '(inner, m) ← alloc_pages inner free_page 1 m;
          '(r, m) ← kp_alloc m free_page;
          match r, inner with
          | Ok _, p :: _ =>
              Ret (Ok tt, ([p; mkFPAInner free_page (replicate ENTRIES_LEN Empty)
                                 (Some (fpa_addr p))], m))
          | Err e, _ => Ret (Err e, (inner, m))
          | Ok _, [] => Panic
          end
      end
  end.

(** The list behind the first page, and back. *)
Definition with_next (f : list FPAInner -> outcome (result unit AllocError * (list FPAInner * M)))
    (self : list FPAInner) : outcome (result unit AllocError * (list FPAInner * M)) :=
  match self with
  | [] => Panic
  | p :: next => '(r, (next, m)) ← f next; Ret (r, (p :: next, m))
  end.

(** [FPAInner::insert_entry]. *)
Fixpoint insert_entry (fuel : nat) (self : list FPAInner) (idx : nat) (entry : Entry) (m : M)
    : outcome (result unit AllocError * (list FPAInner * M)) :=
  match fuel, self with
  | O, _ => NoFuel
  | _, [] => Panic
  | S fuel, p :: next =>
      lst ← index (entries p) (ENTRIES_LEN - 1);
      '(r, (self, m)) ←
        match lst with
        | Empty => Ret (Ok tt, (self, m))
        | Usable _ _ =>
            match next with
            | _ :: _ => with_next (fun next => insert_entry fuel next 0 lst m) self
            | [] =>
                '(r, (self, m)) ← add_entry_page self m;
                match r with
                | Err e => Ret (Err e, (self, m))
                | Ok _ => with_next (fun next => insert_entry fuel next 0 lst m) self
                end
            end
        end;
      match r, self with
      | Err e, _ => Ret (Err e, (self, m))
      | Ok _, [] => Panic
      | Ok _, p :: next =>
          es ← copy_within (entries p) idx (ENTRIES_LEN - 1) (idx + 1);
          es ← index_set es idx entry;
          Ret (Ok tt, (set_entries p es :: next, m))
      end
  end.

(** [FPAInner::append_entry]. *)
Fixpoint append_entry (fuel : nat) (self : list FPAInner) (entry : Entry) (m : M)
    : outcome (result unit AllocError * (list FPAInner * M)) :=
  match fuel, self with
  | O, _ => NoFuel
  | _, [] => Panic
  | S fuel, p :: next =>
      match position (fun e => bool_decide (e = Empty)) (entries p) with
      | Some idx =>
          es ← index_set (entries p) idx entry;
          Ret (Ok tt, (set_entries p es :: next, m))
      | None =>
          match next with
          | _ :: _ => with_next (fun next => append_entry fuel next entry m) self
          | [] =>
              '(r, (self, m)) ← add_entry_page self m;
              match r with
              | Err e => Ret (Err e, (self, m))
              | Ok _ => with_next (fun next => append_entry fuel next entry m) self
              end
          end
      end
  end.

(** [FPAInner::squash_entries]: the loop from index [i] on, then the same on
    the next page. *)
Fixpoint squash_entries (fuel : nat) (self : list FPAInner) (i : nat) (m : M)
    : outcome (list FPAInner * M) :=
  match fuel, self with
  | O, _ => NoFuel
  | _, [] => Panic
  | S fuel, p :: next =>
      if (i <? ENTRIES_LEN - 1)%nat then
        e ← index (entries p) i;
        match e with
        | Empty => Ret (self, m)
        | Usable start pages =>
            e' ← index (entries p) (i + 1);
            match e' with
            | Empty => Ret (self, m)
            | Usable next_start next_pages =>
                off ← arith prof 64 (pages * 0x1000);
                end_ ← va_add start off;
                if end_ =? next_start then
                  sum ← arith prof 64 (pages + next_pages);
                  es ← index_set (entries p) i (Usable start sum);
                  '(_, (self, m)) ← remove_entry (set_entries p es :: next) (i + 1) m;
                  squash_entries fuel self i m
                else squash_entries fuel self (i + 1) m
            end
        end
      else
        match next with
        | [] => Ret (self, m)
        | _ :: _ => '(next, m) ← squash_entries fuel next 0 m; Ret (p :: next, m)
        end
  end.

(** Enough for every step of the loops above. *)
Definition list_fuel (self : list FPAInner) : nat := (2 * ENTRIES_LEN * S (length self))%nat.

(** [FPAInner::dealloc_pages]. *)
Fixpoint dealloc_pages (self : list FPAInner) (start pages : Z) (m : M)
    : outcome (result unit AllocError * (list FPAInner * M)) :=
  match self with
  | [] => Panic
  | p :: next =>
      match scan (fun s _ => negb (s <? start)) (entries p) with
      | ScanEmpty => Ret (Ok tt, (self, m))
      | ScanHit i s n =>
          off ← arith prof 64 (pages * 0x1000);
          end_ ← va_add start off;
          if s =? end_ then
            sum ← arith prof 64 (n + pages);
            es ← index_set (entries p) i (Usable start sum);
            Ret (Ok tt, (set_entries p es :: next, m))
          else
            '(r, (self, m)) ← insert_entry (list_fuel self) self i (Usable start pages) m;
            match r with
            | Err e => Ret (Err e, (self, m))
            | Ok _ => '(self, m) ← squash_entries (list_fuel self) self 0 m;
                      Ret (Ok tt, (self, m))
            end
      | ScanEnd =>
          match next with
          | _ :: _ => '(r, (next, m)) ← dealloc_pages next start pages m;
                      Ret (r, (p :: next, m))
          | [] =>
              '(r, (self, m)) ← append_entry (list_fuel self) self (Usable start pages) m;
              match r with
              | Err e => Ret (Err e, (self, m))
              | Ok _ => '(self, m) ← squash_entries (list_fuel self) self 0 m;
                        Ret (Ok tt, (self, m))
              end
          end
      end
  end.

(** [FullPageAllocator::init_or_get]. *)
Definition init_or_get (self : FullPageAllocator) (m : M)
    : outcome (result unit AllocError * (FullPageAllocator * M)) :=
  match self with
  | [] => add_entry_page self m
  | _ :: _ => Ret (Ok tt, (self, m))
  end.

(** The loop of [allocate] that maps the pages [i..num_pages] of [addr]. *)
Fixpoint map_pages (addr i : Z) (n : nat) (m : M) : outcome (result unit AllocError * M) :=
  match n with
  | O => Ret (Ok tt, m)
  | S n =>
      off ← arith prof 64 (i * 0x1000);
      page ← va_add addr off;
      '(r, m) ← kp_alloc m page;
      match r with
      | Err e => Ret (Err e, m)
      | Ok _ => map_pages addr (i + 1) n m
      end
  end.

(** [Allocator::allocate]: the address of the new slice of [size] bytes. *)
Definition allocate (self : FullPageAllocator) (size : Z) (m : M)
    : outcome (result Z AllocError * (FullPageAllocator * M)) :=
  let num_pages := div_ceil size 4096 in
  '(r, (self, m)) ← init_or_get self m;
  match r with
  | Err e => Ret (Err e, (self, m))
  | Ok _ =>
      match find_free_pages self num_pages with
      | None => Ret (Err alloc_error, (self, m))
      | Some addr =>
          '(self, m) ← alloc_pages self addr num_pages m;
          _ ← kp_ready m;
          '(r, m) ← map_pages addr 0 (Z.to_nat num_pages) m;
          match r with
          | Err e => Ret (Err e, (self, m))
          | Ok _ =>
              if addr =? 0 then Ret (Err alloc_error, (self, m))
              else Ret (Ok addr, (self, m))
          end
      end
  end.

(** [PageRange::next] until the range is empty: the pages from [page] up to,
    not including, [end_]. *)
Fixpoint free_pages (page : Z) (n : nat) (m : M) : outcome M :=
  match n with
  | O => Ret m
  | S n => m ← kp_free m page; free_pages (page + 0x1000) n m
  end.

(** [Allocator::deallocate]. *)
Definition deallocate (ptr size : Z) (m : M) : outcome M :=
  let num_pages := div_ceil size 4096 in
  off ← arith prof 64 (0x1000 * num_pages);
  past ← va_add ptr off;
  let first := page_containing ptr in
  let end_ := page_containing past in
  _ ← kp_ready m;
  free_pages first (Z.to_nat ((end_ - first) / 0x1000)) m.

(** [GlobalAlloc::alloc] and [dealloc]; null is 0. *)
Definition alloc (self : FullPageAllocator) (size : Z) (m : M)
    : outcome (Z * (FullPageAllocator * M)) :=
  '(r, s) ← allocate self size m;
  match r with
  | Ok addr => Ret (addr, s)
  | Err _ => Ret (0, s)
  end.
Definition dealloc (ptr size : Z) (m : M) : outcome M := deallocate ptr size m.
End page_alloc.

(** ** Specification: one free range, cut from below *)

(** The start of the free range and its number of pages. *)
Definition bump : Type := Z * Z.

Section bump.
Context `{X86Addr}.

(** The first range: all behind the allocator's own page, as the code sizes it. *)
Definition bump_pages : Z := 31 * 2 ^ 28 + 1.
Definition bump_init : bump := (ALLOCATOR_START + 0x1000, bump_pages).
Definition bump_limit : Z := ALLOCATOR_START + 0x1000 + bump_pages * 0x1000.

Definition bump_wf (b : bump) : Prop :=
  0 <= b.2 /\ ALLOCATOR_START + 0x1000 <= b.1 /\ b.1 mod 0x1000 = 0 /\
  b.1 + b.2 * 0x1000 = bump_limit.

(** Take [k] pages; an exhausted range refuses even none. *)
Definition bump_take (b : bump) (k : Z) : option (Z * bump) :=
  if (b.2 =? 0) || (b.2 <? k) then None else Some (b.1, (b.1 + k * 0x1000, b.2 - k)).

(** The allocator's state for a range: one page of entries. *)
Definition bump_entry (b : bump) : Entry :=
  if b.2 =? 0 then Empty else Usable b.1 b.2.
Definition bump_repr (b : bump) : FullPageAllocator :=
  [mkFPAInner ALLOCATOR_START (bump_entry b :: replicate (ENTRIES_LEN - 1) Empty) None].

Definition page_addrs (addr k : Z) : list Z :=
  map (fun i => addr + 0x1000 * Z.of_nat i) (seq 0 (Z.to_nat k)).

Context {M : Type} `{KPages M}.

(** Map pages one by one up to the first failure; free pages one by one. *)
Fixpoint kp_alloc_all (l : list Z) (m : M) : outcome (result unit AllocError * M) :=
  match l with
  | [] => Ret (Ok tt, m)
  | a :: l' =>
      '(r, m) ← kp_alloc m a;
      match r with Err e => Ret (Err e, m) | Ok _ => kp_alloc_all l' m end
  end.
Fixpoint kp_free_all (l : list Z) (m : M) : outcome M :=
  match l with
  | [] => Ret m
  | a :: l' => m ← kp_free m a; kp_free_all l' m
  end.

Definition bump_allocate (b : bump) (k : Z) (m : M) : outcome (result Z AllocError * (bump * M)) :=
  match bump_take b k with
  | None => Ret (Err alloc_error, (b, m))
  | Some (addr, b) =>
      _ ← kp_ready m;
      '(r, m) ← kp_alloc_all (page_addrs addr k) m;
      Ret (match r with Ok _ => Ok addr | Err e => Err e end, (b, m))
  end.
End bump.

(** ** Lemmas on the running allocator *)

Section bump_facts.
Context `{X86AddrLaws} {M : Type} `{KPages M} (prof : profile).

Lemma bump_limit_value : bump_limit = ALLOCATOR_END + 1 + 0x2000.
Proof. unfold bump_limit, bump_pages. rewrite allocator_start_value, allocator_end_value. lia. Qed.

Lemma bump_init_wf : bump_wf bump_init.
Proof.
  unfold bump_wf, bump_init. cbn [fst snd]. split_and!; [by unfold bump_pages|lia| |done].
  by rewrite allocator_start_value.
Qed.

Lemma bump_take_wf b k addr b' :
  0 <= k -> bump_wf b -> bump_take b k = Some (addr, b') -> bump_wf b' /\ addr = b.1.
Proof.
  destruct b as [s n]. unfold bump_wf, bump_take. cbn [fst snd]. intros Hk (Hn & Hs & Hm & Hl).
  destruct ((n =? 0) || (n <? k)) eqn:E; [done|]. intros [= <- <-]. cbn [fst snd].
  split_and!; try lia. rewrite Z.add_mod, Z.mul_mod, Hm by done. by rewrite Z.mul_0_r.
Qed.

(** Everything up to the limit is an address. *)
Lemma bump_canonical a : ALLOCATOR_START <= a <= bump_limit -> canonical a.
Proof.
  rewrite bump_limit_value, allocator_start_value, allocator_end_value. unfold canonical. lia.
Qed.

Lemma add_entry_page_first m :
  add_entry_page prof [] m =
  '(r, m) ← kp_alloc m ALLOCATOR_START;
  Ret (r, (match r with Ok _ => bump_repr bump_init | Err _ => [] end, m)).
Proof.
  unfold add_entry_page. destruct (kp_alloc m ALLOCATOR_START) as [[[[]|e] m']| | |]; run_ret; try done.
  assert (ALLOCATOR_START = 0xffffc90000000000) as Hs by apply allocator_start_value.
  assert (ALLOCATOR_END = 0xffffe7ffffffffff) as He by apply allocator_end_value.
  rewrite va_add_law by (unfold canonical; lia). run_ret.
  rewrite va_align_up_law by (unfold canonical; lia). run_ret.
  assert (div_ceil ALLOCATOR_END 4096 * 4096 = ALLOCATOR_END + 1) as -> by by rewrite He.
  rewrite va_sub_law by (unfold canonical; lia). run_ret.
  rewrite arith_ok by lia. run_ret. rewrite Hs, He. unfold bump_repr, bump_init. 
  by rewrite Hs.
Qed.

Lemma find_free_bump b k : 
  find_free_pages (bump_repr b) k = if (b.2 =? 0) || (b.2 <? k) then None else Some b.1.
Proof.
  unfold bump_repr, bump_entry, scan. cbn. destruct (b.2 =? 0); [done|]. cbn.
  destruct (Z.leb_spec k b.2), (Z.ltb_spec b.2 k); try lia; done.
Qed.

Lemma alloc_pages_bump b k addr b' (m : M) :
  0 <= k -> bump_wf b -> bump_take b k = Some (addr, b') ->
  alloc_pages prof (bump_repr b) addr k m = Ret (bump_repr b', m).
Proof.
  intros Hk Hwf Ht. destruct (bump_take_wf _ _ _ _ Hk Hwf Ht) as [Hwf' ->].
  destruct b as [s n]. unfold bump_take in Ht. cbn [fst snd] in *.
  destruct ((n =? 0) || (n <? k)) eqn:E; [done|]. injection Ht as <-.
  destruct Hwf as (Hn & Hs & _ & Hl), Hwf' as (_ & Hs' & _ & Hl'). cbn [fst snd] in *.
  assert (0 < n < 2 ^ 52).
  { revert Hl Hs. rewrite bump_limit_value, allocator_start_value, allocator_end_value. lia. }
  unfold bump_repr at 1, bump_entry. cbn [fst snd]. replace (n =? 0) with false by lia.
  cbn [alloc_pages entries]. unfold scan. cbn [scan_from]. rewrite Z.eqb_refl.
  destruct (n =? k) eqn:Ek.
  - cbn. unfold bump_repr, bump_entry. cbn [fst snd]. by replace (n - k =? 0) with true by lia.
  - rewrite !arith_ok by lia. run_ret.
    rewrite va_add_law by (try apply bump_canonical; lia). run_ret. cbn. unfold bump_repr, bump_entry. cbn [fst snd].
    by replace (n - k =? 0) with false by lia.
Qed.

Lemma page_addrs_S addr k : 
  page_addrs addr (Z.of_nat (S k)) = addr :: page_addrs (addr + 0x1000) (Z.of_nat k).
Proof.
  unfold page_addrs. rewrite !Nat2Z.id. cbn [seq map]. rewrite <- seq_shift, map_map.
  f_equal; [lia|]. apply map_ext. lia.
Qed.

Lemma map_pages_spec addr i k (m : M) :
  ALLOCATOR_START <= addr -> 0 <= i -> addr + (i + Z.of_nat k) * 0x1000 <= bump_limit ->
  map_pages prof addr i k m = kp_alloc_all (page_addrs (addr + i * 0x1000) (Z.of_nat k)) m.
Proof.
  intros Ha. revert i m. induction k as [|k IH]; intros i m Hi Hl; [done|].
  rewrite page_addrs_S. cbn [map_pages kp_alloc_all].
  pose proof bump_limit_value as Hv. rewrite allocator_end_value in Hv.
  rewrite arith_ok by (rewrite allocator_start_value in *; lia). run_ret.
  rewrite va_add_law by (try apply bump_canonical; lia). run_ret.
  destruct (kp_alloc m (addr + i * 0x1000)) as [[[[]|e] m']| | |]; run_ret; try done.
  rewrite IH by lia. do 2 f_equal. lia.
Qed.

Lemma allocate_bump b size (m : M) :
  bump_wf b -> 0 <= size ->
  allocate prof (bump_repr b) size m =
  '(r, (b, m)) ← bump_allocate b (div_ceil size 4096) m; Ret (r, (bump_repr b, m)).
Proof.
  intros Hwf Hsize. unfold allocate, bump_allocate, init_or_get. cbv zeta.
  assert (0 <= div_ceil size 4096) as Hk.
  { unfold div_ceil. pose proof (Z.div_pos size 4096). destruct (_ =? 0); lia. }
  set (k := div_ceil size 4096) in *. unfold bump_repr at 1. run_ret.
  fold (bump_repr b). rewrite find_free_bump.
  destruct (bump_take b k) as [[addr b']|] eqn:Et.
  2:{ unfold bump_take in Et. by destruct ((b.2 =? 0) || (b.2 <? k)). }
  destruct (bump_take_wf _ _ _ _ Hk Hwf Et) as [Hwf' ->].
  assert ((b.2 =? 0) || (b.2 <? k) = false) as ->.
  { unfold bump_take in Et. by destruct ((b.2 =? 0) || (b.2 <? k)). }
  rewrite (alloc_pages_bump _ _ _ _ _ Hk Hwf Et). run_ret.
  assert (b'.1 = b.1 + k * 0x1000) as Hb'.
  { unfold bump_take in Et. destruct ((b.2 =? 0) || (b.2 <? k)); [done|]. by injection Et as <-. }
  destruct Hwf as (_ & Hs & _), Hwf' as (? & _ & _ & Hl').
  destruct (kp_ready m); run_ret; [|done..].
  rewrite map_pages_spec by lia. rewrite Z2Nat.id, Z.add_0_r by done.
  destruct (kp_alloc_all (page_addrs b.1 k) m) as [[[[]|e] m']| | |]; run_ret; try done.
  replace (b.1 =? 0) with false by (rewrite allocator_start_value in Hs; lia). done.
Qed.

Lemma free_pages_spec addr k (m : M) :
  free_pages addr k m = kp_free_all (page_addrs addr (Z.of_nat k)) m.
Proof.
  revert addr m. induction k as [|k IH]; intros addr m; [done|].
  rewrite page_addrs_S. cbn [free_pages kp_free_all].
  destruct (kp_free m addr); run_ret; [apply IH|done..].
Qed.

Lemma deallocate_spec addr size (m : M) :
  ALLOCATOR_START <= addr -> addr mod 4096 = 0 -> 0 <= size ->
  addr + div_ceil size 4096 * 0x1000 <= bump_limit ->
  deallocate prof addr size m = (_ ← kp_ready m; kp_free_all (page_addrs addr (div_ceil size 4096)) m).
Proof.
  intros Ha Hal Hsize Hl. unfold deallocate. cbv zeta.
  assert (0 <= div_ceil size 4096) as Hk.
  { unfold div_ceil. pose proof (Z.div_pos size 4096). destruct (_ =? 0); lia. }
  set (k := div_ceil size 4096) in *.
  pose proof bump_limit_value as Hv. rewrite allocator_end_value in Hv.
  rewrite arith_ok by (rewrite allocator_start_value in *; lia). run_ret.
  rewrite va_add_law by (try apply bump_canonical; lia). run_ret.
  rewrite !page_containing_law by (apply bump_canonical; lia).
  destruct (kp_ready m); run_ret; [|done..]. rewrite free_pages_spec. do 3 f_equal.
  - pose proof (Z.div_mod addr 4096). lia.
  - replace (addr + 4096 * k) with (addr + k * 4096) by lia. rewrite Z.div_add by done.
    replace (((addr / 4096 + k) * 4096 - addr / 4096 * 4096)) with (k * 4096) by lia.
    rewrite Z.div_mul by done. lia.
Qed.
End bump_facts.

(** ** The allocator in use: sequences of allocations and deallocations *)

Inductive page_op := PAlloc (size : Z) | PFree (ptr size : Z).
Definition page_op_ok (o : page_op) : Prop :=
  match o with PAlloc size => 0 <= size | PFree _ _ => True end.

Section page_ops.
Context `{X86Addr} {M : Type} `{KPages M} (prof : profile).

(** The results of the allocations, with their numbers of pages, and the final
    state. *)
Fixpoint page_run (ops : list page_op) (self : FullPageAllocator) (m : M)
    : outcome (list (result Z AllocError * Z) * (FullPageAllocator * M)) :=
  match ops with
  | [] => Ret ([], (self, m))
  | PAlloc size :: ops =>
      '(r, (self, m)) ← allocate prof self size m;
      '(rs, s) ← page_run ops self m;
      Ret ((r, div_ceil size 4096) :: rs, s)
  | PFree ptr size :: ops =>
      m ← deallocate prof ptr size m;
      page_run ops self m
  end.

(** The same on the specification; the first allocation sets the range up. *)
Fixpoint bump_run (ops : list page_op) (ob : option bump) (m : M)
    : outcome (list (result Z AllocError * Z) * (option bump * M)) :=
  match ops with
  | [] => Ret ([], (ob, m))
  | PAlloc size :: ops =>
      let k := div_ceil size 4096 in
      '(r, (ob, m)) ←
        match ob with
        | Some b => Ret (Ok b, (ob, m))
        | None =>
            '(r, m) ← kp_alloc m ALLOCATOR_START;
            match r with
            | Ok _ => Ret (Ok bump_init, (Some bump_init, m))
            | Err e => Ret (Err e, (None, m))
            end
        end;
      '(r, (ob, m)) ←
        match r with
        | Ok b => '(r, (b, m)) ← bump_allocate b k m; Ret (r, (Some b, m))
        | Err e => Ret (Err e, (ob, m))
        end;
      '(rs, s) ← bump_run ops ob m;
      Ret ((r, k) :: rs, s)
  | PFree ptr size :: ops =>
      m ← deallocate prof ptr size m;
      bump_run ops ob m
  end.

Definition obump_repr (ob : option bump) : FullPageAllocator :=
  match ob with Some b => bump_repr b | None => page_allocator_new end.
Definition obump_wf (ob : option bump) : Prop :=
  match ob with Some b => bump_wf b | None => True end.
(** Nothing below this address will be handed out any more. *)
Definition obump_low (ob : option bump) : Z :=
  match ob with Some b => b.1 | None => ALLOCATOR_START + 0x1000 end.
End page_ops.

Section page_ops_facts.
Context `{X86AddrLaws} {M : Type} `{KPages M} (prof : profile).

Lemma allocate_first size (m : M) :
  allocate prof page_allocator_new size m =
  '(r, m) ← kp_alloc m ALLOCATOR_START;
  match r with
  | Ok _ => allocate prof (bump_repr bump_init) size m
  | Err e => Ret (Err e, (page_allocator_new, m))
  end.
Proof.
  unfold allocate at 1. cbv zeta. cbn [init_or_get page_allocator_new].
  rewrite add_entry_page_first.
  by destruct (kp_alloc m ALLOCATOR_START) as [[[[]|e] m']| | |].
Qed.

Lemma div_ceil_size size : 0 <= size -> 0 <= div_ceil size 4096.
Proof.
  intros Hs. unfold div_ceil. pose proof (Z.div_pos size 4096). destruct (_ =? 0); lia.
Qed.

(** The result of an allocation lies between the old and the new low end. *)
Lemma bump_allocate_spec b k (m m' : M) r b' :
  0 <= k -> bump_wf b -> bump_allocate b k m = Ret (r, (b', m')) ->
  bump_wf b' /\ b.1 <= b'.1 /\
  match r with Ok addr => addr = b.1 /\ b'.1 = addr + k * 0x1000 | Err _ => True end.
Proof.
  intros Hk Hwf. unfold bump_allocate.
  destruct (bump_take b k) as [[addr b1]|] eqn:Et.
  2:{ intros [= <- <- <-]. split_and!; [done|lia|done]. }
  destruct (bump_take_wf _ _ _ _ Hk Hwf Et) as [Hwf' ->].
  assert (b1.1 = b.1 + k * 0x1000).
  { unfold bump_take in Et. destruct ((b.2 =? 0) || (b.2 <? k)); [done|]. by injection Et as <-. }
  destruct (kp_ready m); [|discriminate..]. cbn [mbind outcome_bind]. intros Hr.
  destruct (kp_alloc_all _ m) as [[[] ?]| | |]; try discriminate; injection Hr as <- <- <-; split_and!; (done || lia).
Qed.

Lemma page_run_bump ops ob (m : M) :
  Forall page_op_ok ops -> obump_wf ob ->
  page_run prof ops (obump_repr ob) m =
  '(rs, (ob, m)) ← bump_run prof ops ob m; Ret (rs, (obump_repr ob, m)).
Proof.
  revert ob m. induction ops as [|[size|ptr size] ops IH]; intros ob m Hops Hwf; [done| |].
  all: apply Forall_cons_1 in Hops as [Hop Hops]; cbn [page_run bump_run].
  2:{ destruct (deallocate prof ptr size m); run_ret; [by apply IH|done..]. }
  simpl in Hop.
  assert (forall b (m : M), bump_wf b ->
    ('(r, (self, m)) ← allocate prof (bump_repr b) size m;
     '(rs, s) ← page_run prof ops self m; Ret ((r, div_ceil size 4096) :: rs, s)) =
    '(rs, (ob, m)) ←
      ('(r, (ob, m)) ← ('(r, (b, m)) ← bump_allocate b (div_ceil size 4096) m; Ret (r, (Some b, m)));
       '(rs, s) ← bump_run prof ops ob m; Ret ((r, div_ceil size 4096) :: rs, s));
    Ret (rs, (obump_repr ob, m))) as Hstep.
  { intros b m1 Hb. rewrite allocate_bump by done.
    destruct (bump_allocate b (div_ceil size 4096) m1) as [[r [b' m']]| | |] eqn:Eb; run_ret; try done.
    destruct (bump_allocate_spec _ _ _ _ _ _ (div_ceil_size _ Hop) Hb Eb) as [Hwf' _].
    change (bump_repr b') with (obump_repr (Some b')). rewrite IH by done.
    by destruct (bump_run prof ops (Some b') m') as [[rs [ob' m'']]| | |]. }
  destruct ob as [b|]; cbn [obump_repr]; cbv zeta; run_ret; [by apply Hstep|].
  rewrite allocate_first.
  destruct (kp_alloc m ALLOCATOR_START) as [[[[]|e] m']| | |]; run_ret; try done.
  - apply Hstep, bump_init_wf.
  - change page_allocator_new with (obump_repr None). rewrite IH by done.
    by destruct (bump_run prof ops None m') as [[rs [ob' m'']]| | |].
Qed.

(** The ranges of a run are ordered: each begins where or behind where all
    earlier ones end. *)
Fixpoint ranges_from (low : Z) (rs : list (result Z AllocError * Z)) : Prop :=
  match rs with
  | [] => True
  | (Ok addr, k) :: rs => low <= addr /\ 0 <= k /\ addr mod 0x1000 = 0 /\
                          addr + k * 0x1000 <= bump_limit /\
                          ranges_from (addr + k * 0x1000) rs
  | (Err _, _) :: rs => ranges_from low rs
  end.

Lemma ranges_from_le low low' rs : low' <= low -> ranges_from low rs -> ranges_from low' rs.
Proof.
  revert low low'. induction rs as [|[[addr|e] k] rs IH]; intros low low' Hle; simpl; [done| |eauto].
  intros (? & ? & ? & ? & ?). split_and!; (done || lia).
Qed.

Lemma ranges_from_lookup low rs j b l :
  ranges_from low rs -> rs !! j = Some (Ok b, l) ->
  low <= b /\ b mod 0x1000 = 0 /\ b + l * 0x1000 <= bump_limit.
Proof.
  revert low j. induction rs as [|[[addr|e] k] rs IH]; intros low [|j] Hrs Hj; try done.
  - injection Hj as -> ->. by destruct Hrs as (? & ? & ? & ? & _).
  - destruct Hrs as (? & ? & ? & ? & Hrs).
    destruct (IH _ j Hrs Hj) as (? & ? & ?). split_and!; (done || lia).
  - by apply (IH low j).
Qed.

Lemma ranges_from_ordered low rs i j a k b l :
  ranges_from low rs -> (i < j)%nat -> rs !! i = Some (Ok a, k) -> rs !! j = Some (Ok b, l) ->
  a + k * 0x1000 <= b.
Proof.
  revert low i j. induction rs as [|[[addr|e] n] rs IH]; intros low [|i] [|j] Hrs Hij Hi Hj;
    try done; try lia; cbn in Hi, Hj.
  - injection Hi as -> ->. destruct Hrs as (? & ? & ? & ? & Hrs).
    by destruct (ranges_from_lookup _ _ _ _ _ Hrs Hj).
  - destruct Hrs as (? & ? & ? & ? & Hrs). eapply (IH _ i j); eauto; lia.
  - eapply (IH _ i j); eauto; lia.
Qed.

Lemma bump_run_ranges ops ob (m : M) rs s :
  Forall page_op_ok ops -> obump_wf ob -> bump_run prof ops ob m = Ret (rs, s) ->
  ranges_from (obump_low ob) rs.
Proof.
  revert ob m rs s. induction ops as [|[size|ptr size] ops IH]; intros ob m rs s Hops Hwf Hr.
  { by injection Hr as <- <-. }
  all: apply Forall_cons_1 in Hops as [Hop Hops]; cbn [bump_run] in Hr.
  2:{ inv_outcome. eauto. }
  simpl in Hop. cbv zeta in Hr.
  assert (forall b (m : M), bump_wf b ->
    ('(r, (ob, m)) ← ('(r, (b, m)) ← bump_allocate b (div_ceil size 4096) m; Ret (r, (Some b, m)));
     '(rs, s) ← bump_run prof ops ob m; Ret ((r, div_ceil size 4096) :: rs, s)) = Ret (rs, s) ->
    ranges_from b.1 rs) as Hstep.
  { intros b m1 Hb Hr1. clear Hr.
    destruct (bump_allocate b (div_ceil size 4096) m1) as [[r [b' m']]| | |] eqn:Eb; try discriminate.
    destruct (bump_allocate_spec _ _ _ _ _ _ (div_ceil_size _ Hop) Hb Eb) as (Hwf' & Hle & Hres).
    cbn [mbind outcome_bind] in Hr1.
    destruct (bump_run prof ops (Some b') m') as [[rs1 s1]| | |] eqn:Er; try discriminate.
    injection Hr1 as <- <-. apply IH in Er; [|done..]. cbn [obump_low] in Er. cbn [ranges_from].
    destruct Hb as (_ & _ & Hal & _), Hwf' as (? & _ & _ & ?).
    destruct r as [addr|e]; [destruct Hres as [-> Hend]|by eapply ranges_from_le].
    rewrite <- Hend. split_and!; (done || lia || by apply div_ceil_size). }
  destruct ob as [b|]; cbn [obump_low]; [by apply (Hstep b m)|].
  destruct (kp_alloc m ALLOCATOR_START) as [[[[]|e] m']| | |]; try discriminate.
  - apply (Hstep bump_init m'); [apply bump_init_wf|exact Hr].
  - cbn [mbind outcome_bind] in Hr.
    destruct (bump_run prof ops None m') as [[rs1 s1]| | |] eqn:Er; try discriminate.
    injection Hr as <- <-. apply IH in Er; done.
Qed.
End page_ops_facts.

Section page_theorems.
Context `{X86AddrLaws} {M : Type} `{KPages M} (prof : profile).

(** C6: the page allocator in use is a bump allocator: on every sequence of
    allocations and deallocations, whatever the memory below answers (failures
    and panics included), it behaves as the specification that cuts pages off
    the low end of one free range; deallocation unmaps pages but never gives
    their addresses back. *)
Theorem page_allocator_refines_bump (ops : list page_op) (m : M) :
  Forall page_op_ok ops ->
  page_run prof ops page_allocator_new m =
  '(rs, (ob, m)) ← bump_run prof ops None m; Ret (rs, (obump_repr ob, m)).
Proof. intros Hops. by apply (page_run_bump prof ops None m). Qed.

(** The ranges handed out by any sequence of operations on a new page
    allocator are page aligned, behind the allocator's own page and pairwise
    disjoint, later ones above earlier ones. *)
Theorem page_allocations_disjoint (ops : list page_op) (m : M) rs s :
  Forall page_op_ok ops -> page_run prof ops page_allocator_new m = Ret (rs, s) ->
  forall i j a b k l, (i < j)%nat -> rs !! i = Some (Ok a, k) -> rs !! j = Some (Ok b, l) ->
    ALLOCATOR_START + 0x1000 <= a /\ a mod 0x1000 = 0 /\ a + k * 0x1000 <= b /\
    b mod 0x1000 = 0 /\ b + l * 0x1000 <= bump_limit.
Proof.
  intros Hops Hr i j a b k l Hij Hi Hj.
  rewrite (page_run_bump prof ops None m Hops I) in Hr. inv_outcome.
  destruct a0 as [rs0 [ob m0]]. injection Hr as -> <-.
  apply bump_run_ranges in E; [|done..]. cbn [obump_low] in E.
  destruct (ranges_from_lookup _ _ _ _ _ E Hi) as (? & ? & _).
  destruct (ranges_from_lookup _ _ _ _ _ E Hj) as (_ & ? & ?).
  pose proof (ranges_from_ordered _ _ _ _ _ _ _ _ E Hij Hi Hj). done.
Qed.

(** The first free range is sized two pages too large: a request for all of
    it is granted and ends 0x2000 bytes behind [ALLOCATOR_END]. *)
Theorem first_range_overshoots (m m1 m2 : M) :
  kp_alloc m ALLOCATOR_START = Ret (Ok tt, m1) -> kp_ready m1 = Ret tt ->
  kp_alloc_all (page_addrs (ALLOCATOR_START + 0x1000) bump_pages) m1 = Ret (Ok tt, m2) ->
  exists addr s, allocate prof page_allocator_new (bump_pages * 0x1000) m = Ret (Ok addr, s) /\
    addr + bump_pages * 0x1000 = ALLOCATOR_END + 1 + 0x2000.
Proof.
  intros H1' Hr' H2'. rewrite allocate_first, H1'. run_ret.
  rewrite allocate_bump by (apply bump_init_wf || done).
  assert (div_ceil (bump_pages * 0x1000) 4096 = bump_pages) as -> by done.
  unfold bump_allocate. change (bump_take bump_init bump_pages) with
    (Some (ALLOCATOR_START + 0x1000, (ALLOCATOR_START + 0x1000 + bump_pages * 0x1000, bump_pages - bump_pages))).
  cbv beta iota. rewrite Hr'. run_ret. rewrite H2'. run_ret. do 2 eexists. split; [reflexivity|]. apply bump_limit_value.
Qed.
End page_theorems.

Section page_mapping.
Context `{X86AddrLaws} {M : Type} `{KPages M, !KPagesLaws M} (prof : profile).

(** The addresses of pages are their own pages. *)
Lemma page_addrs_own addr k :
  addr mod 4096 = 0 -> ALLOCATOR_START <= addr -> addr + k * 4096 <= bump_limit -> 0 <= k ->
  Forall (fun a => page_containing a = a) (page_addrs addr k).
Proof.
  intros Hal Hs Hl Hk. apply list.Forall_forall. intros a (i & -> & Hi)%list_elem_of_fmap.
  apply elem_of_seq in Hi. rewrite page_containing_law by (apply bump_canonical; lia).
  pose proof (Z.div_mod addr 4096).
  replace (addr + 4096 * Z.of_nat i) with (addr + Z.of_nat i * 4096) by lia.
  rewrite Z.div_add by done. lia.
Qed.

Lemma kp_alloc_all_mapped l (m m' : M) :
  Forall (fun a => page_containing a = a) l -> kp_room (length l) m ->
  kp_alloc_all l m = Ret (Ok tt, m') -> kp_room 0 m' /\
  (forall a, a ∈ l -> kp_mapped m a = false) /\
  forall page, kp_mapped m' page = bool_decide (page ∈ l) || kp_mapped m page.
Proof.
  revert m. induction l as [|a l IH]; intros m Hl Hroom Hr.
  { injection Hr as <-. split_and!; [done|by intros a ?%elem_of_nil|done]. }
  apply Forall_cons_1 in Hl as [Ha Hl]. cbn [kp_alloc_all] in Hr.
  destruct (kp_alloc m a) as [[[[]|e] m1]| | |] eqn:E; try discriminate.
  destruct (kp_alloc_law _ _ _ _ _ Hroom E) as (Hroom1 & Ho & Hn & Hs). rewrite Ha in *.
  destruct (IH _ Hl Hroom1 Hr) as (Hroom' & Hfree & Hm). split_and!; [done|..].
  - intros x [->|Hx]%elem_of_cons; [done|].
    destruct (decide (x = a)) as [->|Hne]; [done|]. rewrite <- Ho by done. by apply Hfree.
  - intros page. rewrite Hm. destruct (decide (page = a)) as [->|Hne].
    + rewrite Hs, orb_true_r. by rewrite bool_decide_true by (by left).
    + rewrite Ho by done. f_equal. apply bool_decide_ext. rewrite elem_of_cons. tauto.
Qed.

Lemma kp_free_all_mapped l (m m' : M) :
  Forall (fun a => page_containing a = a) l ->
  kp_room 0 m -> kp_free_all l m = Ret m' ->
  forall page, kp_mapped m' page = bool_decide (page ∉ l) && kp_mapped m page.
Proof.
  revert m. induction l as [|a l IH]; intros m Hl Hroom Hr page.
  { by injection Hr as <-. }
  apply Forall_cons_1 in Hl as [Ha Hl]. cbn [kp_free_all] in Hr. inv_outcome.
  destruct (kp_free_law _ _ _ Hroom E) as (Hroom1 & _ & Hs & Ho). rewrite Ha in *.
  rewrite (IH _ Hl Hroom1 Hr). destruct (decide (page = a)) as [->|Hne].
  - rewrite Hs, andb_false_r. by rewrite bool_decide_false by (intros []; by left).
  - rewrite Ho by done. f_equal. apply bool_decide_ext. rewrite elem_of_cons. tauto.
Qed.

(** C24: a successful allocation from the free range maps exactly its pages, none
    of which was mapped; giving the slice back restores the mapping.  This is on a
    memory that has unused frames for the pages. *)
Theorem allocate_maps_range (b : bump) (size addr : Z) (m m' : M) s :
  bump_wf b -> 0 <= size -> kp_room (Z.to_nat (div_ceil size 4096)) m ->
  allocate prof (bump_repr b) size m = Ret (Ok addr, (s, m')) ->
  (forall a, a ∈ page_addrs addr (div_ceil size 4096) -> kp_mapped m a = false) /\
  (forall page, kp_mapped m' page =
     bool_decide (page ∈ page_addrs addr (div_ceil size 4096)) || kp_mapped m page) /\
  forall m'', deallocate prof addr size m' = Ret m'' ->
    forall page, kp_mapped m'' page = kp_mapped m page.
Proof.
  intros Hwf Hsize Hroom Hr. pose proof (div_ceil_size _ Hsize) as Hk. rewrite allocate_bump in Hr by done.
  destruct (bump_allocate b (div_ceil size 4096) m) as [[r [b' m1]]| | |] eqn:Eb; try discriminate.
  injection Hr as -> <- ->. pose proof (bump_allocate_spec _ _ _ _ _ _ Hk Hwf Eb) as (Hwf' & _ & Ha & Hb').
  destruct Hwf as (_ & Hs & Hal & _), Hwf' as (? & _ & _ & Hl').
  assert (kp_alloc_all (page_addrs addr (div_ceil size 4096)) m = Ret (Ok tt, m')) as Hall.
  { unfold bump_allocate, bump_take in Eb. destruct ((b.2 =? 0) || _); [done|].
    destruct (kp_ready m); [|discriminate..]. cbn [mbind outcome_bind] in Eb.
    rewrite Ha. destruct (kp_alloc_all _ m) as [[[[]|] ?]| | |]; try discriminate.
    by injection Eb as _ _ ->. }
  assert (Forall (fun a => page_containing a = a) (page_addrs addr (div_ceil size 4096))) as Hown.
  { apply page_addrs_own; (done || lia || congruence). }
  destruct (kp_alloc_all_mapped _ m m' Hown) as (Hroom' & Hfree & Hm); [|done|].
  { unfold page_addrs. by rewrite length_map, length_seq. }
  split_and!; [done..|].
  intros m'' Hd page. rewrite deallocate_spec in Hd by (lia || congruence).
  destruct (kp_ready m'); [|discriminate..]. cbn [mbind outcome_bind] in Hd.
  rewrite (kp_free_all_mapped _ _ _ Hown Hroom' Hd), Hm, bool_decide_not.
  destruct (bool_decide (page ∈ page_addrs addr (div_ceil size 4096))) eqn:Ein; [|done].
  apply bool_decide_eq_true in Ein. by rewrite Hfree.
Qed.
End page_mapping.

(** ** The entries of one page *)

(** A page of entries for the free ranges [us], the rest [Empty]. *)
Definition to_entries (us : list (Z * Z)) : list Entry := map (fun u => Usable u.1 u.2) us.
Definition pad (us : list (Z * Z)) : list Entry :=
  to_entries us ++ replicate (ENTRIES_LEN - length us) Empty.

Lemma pad_length us : (length us <= ENTRIES_LEN)%nat -> length (pad us) = ENTRIES_LEN.
Proof. intros Hl. unfold pad, to_entries. rewrite length_app, length_map, length_replicate. lia. Qed.

Lemma pad_lookup us i : 
  pad us !! i = match us !! i with
                | Some u => Some (Usable u.1 u.2)
                | None => if (length us <=? i)%nat && (i <? ENTRIES_LEN)%nat then Some Empty else None
                end.
Proof.
  unfold pad, to_entries. destruct (us !! i) as [u|] eqn:E.
  - pose proof (lookup_lt_Some _ _ _ E).
    rewrite lookup_app_l by (rewrite length_map; lia). change (map ?f us) with (f <$> us).
    by rewrite list_lookup_fmap, E.
  - apply lookup_ge_None in E. rewrite lookup_app_r by (rewrite length_map; lia).
    rewrite length_map. destruct ((length us <=? i)%nat && (i <? ENTRIES_LEN)%nat) eqn:El.
    + apply lookup_replicate_2. lia.
    + apply lookup_replicate_None. lia.
Qed.

Lemma scan_from_app f i us es :
  Forall (fun u => f u.1 u.2 = false) us ->
  scan_from f i (to_entries us ++ es) = scan_from f (i + length us) es.
Proof.
  revert i. induction us as [|u us IH]; intros i Hf; [by rewrite Nat.add_0_r|].
  apply Forall_cons_1 in Hf as [Hu Hf]. cbn. rewrite Hu, IH by done. f_equal. lia.
Qed.

Lemma scan_pad_none f us :
  (length us < ENTRIES_LEN)%nat -> Forall (fun u => f u.1 u.2 = false) us -> scan f (pad us) = ScanEmpty.
Proof.
  intros Hl Hf. unfold scan, pad. rewrite scan_from_app by done.
  by replace (ENTRIES_LEN - length us)%nat with (S (ENTRIES_LEN - length us - 1)) by lia.
Qed.

Lemma scan_pad_hit f us1 s p us2 :
  Forall (fun u => f u.1 u.2 = false) us1 -> f s p = true ->
  scan f (pad (us1 ++ (s, p) :: us2)) = ScanHit (length us1) s p.
Proof.
  intros Hf Hs. unfold scan, pad, to_entries. rewrite map_app, <- app_assoc.
  fold (to_entries us1). rewrite scan_from_app by done. cbn. by rewrite Hs.
Qed.

(** Replacing one range. *)
Lemma pad_insert us1 u us2 s p :
  <[length us1 := Usable s p]> (pad (us1 ++ u :: us2)) = pad (us1 ++ (s, p) :: us2).
Proof.
  unfold pad, to_entries. rewrite !map_app, <- !app_assoc, !length_app. cbn.
  rewrite insert_app_r_alt by (rewrite length_map; lia).
  by rewrite length_map, Nat.sub_diag.
Qed.

(** Deleting an entry: shifting down leaves the last slot as it was. *)
Lemma copy_down_lookup {A} (l : list A) idx n :
  length l = n -> (idx < n)%nat ->
  copy_within l (idx + 1) n idx = Ret (delete idx l ++ drop (n - 1) l).
Proof.
  intros Hl Hi. unfold copy_within. rewrite Hl.
  replace ((idx + 1 <=? n) && (n <=? n) && (idx <=? n - (n - (idx + 1))))%nat with true by lia.
  f_equal. rewrite (delete_take_drop l idx), <- app_assoc. f_equal.
  replace (S idx) with (idx + 1)%nat by lia. 
  rewrite (take_ge (drop (idx + 1) l)) by (rewrite length_drop; lia).
  do 2 f_equal. lia.
Qed.

Section one_page.
Context `{X86AddrLaws} {M : Type} `{KPages M} (prof : profile).

(** Free ranges in ascending order, without overlap. *)
Fixpoint ranges_sorted (us : list (Z * Z)) : Prop :=
  match us with
  | [] => True
  | u :: us' => 0 <= u.1 /\ 0 < u.2 /\ Forall (fun v => u.1 + u.2 * 0x1000 <= v.1) us' /\
                ranges_sorted us'
  end.

Lemma ranges_sorted_below us1 u us2 :
  ranges_sorted (us1 ++ u :: us2) -> Forall (fun v => v.1 < u.1) us1.
Proof.
  induction us1 as [|v us1 IH]; cbn [app ranges_sorted]; [done|].
  intros (H2 & H3 & Hv & Hs). apply Forall_app in Hv as [_ Hv].
  apply Forall_cons_1 in Hv as [Hv _]. apply Forall_cons_2; [lia|by apply IH].
Qed.

(** Taking the first pages of a free range that is larger and giving them
    back restores the entries: [dealloc_pages] undoes [alloc_pages]. *)
Theorem alloc_dealloc_pages (self : FPAInner) us1 us2 (start n k : Z) next (m : M) :
  entries self = pad (us1 ++ (start, n) :: us2) ->
  (length (us1 ++ (start, n) :: us2) <= ENTRIES_LEN)%nat ->
  ranges_sorted (us1 ++ (start, n) :: us2) -> 0 < k < n -> n < 2 ^ 52 ->
  canonical start -> canonical (start + k * 0x1000) ->
  exists self', alloc_pages prof (self :: next) start k m = Ret (self' :: next, m) /\
    entries self' = pad (us1 ++ (start + k * 0x1000, n - k) :: us2) /\
    dealloc_pages prof (self' :: next) start k m = Ret (Ok tt, (self :: next, m)).
Proof.
  intros He Hlen Hs Hk Hn Hc1 Hc2. apply ranges_sorted_below in Hs as Hl. cbn [fst] in Hl.
  assert (forall u, length us1 < length (pad (us1 ++ u :: us2)))%nat as Hi.
  { intros u. rewrite pad_length; rewrite length_app in *; cbn in *; lia. }
  exists (set_entries self (pad (us1 ++ (start + k * 0x1000, n - k) :: us2))).
  split_and!; [|done|].
  - cbn [alloc_pages]. rewrite He, scan_pad_hit;
      [|eapply Forall_impl; [|exact Hl]; cbn; lia|lia].
    replace (n =? k) with false by lia. rewrite !arith_ok by lia. run_ret.
    rewrite va_add_law by (done || lia). run_ret. rewrite index_set_ok by done. run_ret.
    by rewrite pad_insert.
  - cbn [dealloc_pages entries set_entries]. rewrite scan_pad_hit;
      [|eapply Forall_impl; [|exact Hl]; cbn; lia|lia].
    rewrite !arith_ok by lia. run_ret. rewrite va_add_law by (done || lia). run_ret.
    rewrite Z.eqb_refl. rewrite index_set_ok by done. run_ret.
    replace (n - k + k) with n by lia.
    rewrite pad_insert, <- He.
    by destruct self.
Qed.

(** Pages above every free range of a page of entries that is not full are
    lost: [dealloc_pages] stops at the first [Empty] entry, reports success and
    changes nothing, so a whole range that was allocated cannot be given back. *)
Theorem dealloc_pages_loses (self : FPAInner) us (start pages : Z) next (m : M) :
  entries self = pad us -> (length us < ENTRIES_LEN)%nat -> Forall (fun u => u.1 < start) us ->
  dealloc_pages prof (self :: next) start pages m = Ret (Ok tt, (self :: next, m)).
Proof.
  intros He Hlen Hu. cbn [dealloc_pages]. rewrite He, scan_pad_none; [done..|].
  eapply Forall_impl; [|exact Hu]. cbn. lia.
Qed.

(** The page behind the entry that is deleted: all later entries shift down and
    the last slot stays. *)
Lemma pad_remove us1 u us2 :
  (length (us1 ++ u :: us2) <= ENTRIES_LEN)%nat ->
  copy_within (<[length us1 := Empty]> (pad (us1 ++ u :: us2))) (length us1 + 1) ENTRIES_LEN
    (length us1) =
  Ret (to_entries (us1 ++ us2) ++ replicate (ENTRIES_LEN - length (us1 ++ u :: us2)) Empty ++
       drop (ENTRIES_LEN - 1) (<[length us1 := Empty]> (pad (us1 ++ u :: us2)))).
Proof.
  intros Hl. rewrite copy_down_lookup; [|by rewrite length_insert, pad_length|
    rewrite length_app in Hl; cbn in Hl; lia].
  f_equal. rewrite app_assoc. f_equal.
  unfold pad, to_entries. rewrite !map_app, <- !app_assoc. cbn [map app].
  rewrite insert_app_r_alt, length_map, Nat.sub_diag by (rewrite length_map; lia). cbn [insert list_insert].
  rewrite <- (length_map (fun u => Usable u.1 u.2) us1) at 1. by rewrite delete_middle.
Qed.

(** On a page of entries without successor, [remove_entry] deletes exactly
    the entry asked for when the page is not full.  On a full page it deletes the
    entry but leaves the last range in the list twice, so its pages can be handed
    out twice. *)
Theorem remove_entry_single (self : FPAInner) us1 u us2 (m : M) :
  entries self = pad (us1 ++ u :: us2) -> (length (us1 ++ u :: us2) <= ENTRIES_LEN)%nat ->
  exists es', 
    remove_entry [self] (length us1) m = Ret (Usable u.1 u.2, ([set_entries self es'], m)) /\
    ((length (us1 ++ u :: us2) < ENTRIES_LEN)%nat -> es' = pad (us1 ++ us2)) /\
    (length (us1 ++ u :: us2) = ENTRIES_LEN -> forall us3 lst,
       us2 = us3 ++ [lst] -> es' = to_entries (us1 ++ us3 ++ [lst; lst])).
Proof.
  intros He Hl. set (us := us1 ++ u :: us2) in *.
  assert (us !! length us1 = Some u) as Hu by (unfold us; by rewrite list_lookup_middle).
  eexists. split_and!.
  - cbn [remove_entry]. run_ret. unfold index. rewrite He, pad_lookup, Hu. cbn [unwrap]. run_ret.
    pose proof (lookup_lt_Some _ _ _ Hu).
    rewrite index_set_ok by (rewrite pad_length; lia). run_ret.
    unfold us. rewrite pad_remove by done. run_ret. done.
  - intros Hlt. fold us. pose proof (lookup_lt_Some _ _ _ Hu). rewrite drop_insert_lt by lia.
    unfold pad at 1, to_entries. rewrite drop_app_ge by (rewrite length_map; lia).
    rewrite length_map, drop_replicate, <- replicate_add. unfold pad, to_entries. do 2 f_equal.
    unfold us in *. rewrite !length_app in *. cbn [length] in *. lia.
  - intros Hfull us3 lst ->. fold us. unfold pad, to_entries.
    rewrite Hfull, Nat.sub_diag. cbn [replicate app]. rewrite app_nil_r.
    assert (length us1 + S (S (length us3)) = ENTRIES_LEN)%nat as Hn.
    { unfold us in Hfull. rewrite !length_app in Hfull. cbn [length] in Hfull.
      rewrite length_app in Hfull. cbn [length] in Hfull. lia. }
    rewrite drop_insert_lt by lia.
    assert (map (fun u => Usable u.1 u.2) us =
      (map (fun u => Usable u.1 u.2) (us1 ++ u :: us3)) ++ [Usable lst.1 lst.2]) as ->.
    { unfold us. rewrite !map_app. cbn [map]. rewrite map_app, <- app_assoc. done. }
    rewrite drop_app_length' by (rewrite length_map, length_app; cbn [length]; lia).
    rewrite !map_app, <- !app_assoc. done.
Qed.
End one_page.

(** ** Examples *)

(** A memory that maps every page asked for, without bound; and one that keeps
    the list of mapped pages. *)
Definition unit_kpages : KPages unit := {|
  kp_ready m := Ret tt;
  kp_alloc m va := Ret (Ok tt, m);
  kp_free m va := Ret m
|}.
Definition list_kpages : KPages (list Z) := {|
  kp_ready m := Ret tt;
  kp_alloc m va :=
    let page := va / 4096 * 4096 in
    if bool_decide (page ∈ m) then Panic else Ret (Ok tt, page :: m);
  kp_free m va :=
    let page := va / 4096 * 4096 in
    if bool_decide (page ∈ m) then Ret (List.filter (fun p => negb (p =? page)) m) else Panic
|}.
#[refine] Definition list_kpages_laws : @KPagesLaws x86_model (list Z) list_kpages := {|
  kp_mapped m page := bool_decide (page ∈ m);
  kp_room _ _ := True
|}.
Proof.
- done.
- intros n m va r m' _ Hr. split; [done|]. cbn in *. destruct (bool_decide (va / 4096 * 4096 ∈ m)) eqn:E; [done|].
  injection Hr as <- <-. split_and!; [|done|by rewrite bool_decide_true by (by left)].
  intros page Hne. apply bool_decide_ext. rewrite elem_of_cons. tauto.
- intros m va m' _ Hr. split; [done|]. cbn in *. destruct (bool_decide (va / 4096 * 4096 ∈ m)) eqn:E; [|done].
  injection Hr as <-.
  assert (forall page, page ∈ List.filter (fun p => negb (p =? va / 4096 * 4096)) m <->
    page ∈ m /\ page <> va / 4096 * 4096) as Hf.
  { intros page. rewrite !list_elem_of_In, filter_In. by rewrite negb_true_iff, Z.eqb_neq. }
  split_and!; [done|apply bool_decide_eq_false; rewrite Hf; tauto|].
  intros page Hne. apply bool_decide_ext. rewrite Hf. tauto.
Defined.

Definition example_ops : list page_op :=
  [PAlloc 5000; PAlloc 100; PFree 0xffffc90000001000 5000; PAlloc 0x2000].

Lemma page_allocator_refines_bump_witness :
  exists s, @page_run x86_model _ list_kpages Debug example_ops page_allocator_new [] =
    Ret ([(Ok 0xffffc90000001000, 2); (Ok 0xffffc90000003000, 1);
          (Ok 0xffffc90000004000, 2)], s).
Proof.
  rewrite (@page_allocator_refines_bump x86_model x86_model_laws _ list_kpages Debug example_ops []).
  - eexists. vm_compute. reflexivity.
  - repeat (apply Forall_cons_2; [simpl; lia || exact I|]). apply Forall_nil_2.
Defined.

Lemma page_allocations_disjoint_witness :
  0xffffc90000001000 + 2 * 0x1000 <= 0xffffc90000004000.
Proof.
  assert (exists s, @page_run x86_model _ list_kpages Debug example_ops page_allocator_new [] =
    Ret ([(Ok 0xffffc90000001000, 2); (Ok 0xffffc90000003000, 1);
          (Ok 0xffffc90000004000, 2)], s)) as [s Hr] by (eexists; vm_compute; reflexivity).
  apply (@page_allocations_disjoint x86_model x86_model_laws _ list_kpages Debug example_ops [] _ s
    ltac:(repeat (apply Forall_cons_2; [simpl; lia || exact I|]); apply Forall_nil_2) Hr
    0%nat 2%nat _ _ 2 2); [lia|reflexivity..].
Defined.

Lemma unit_kpages_all l : @kp_alloc_all _ unit_kpages l tt = Ret (Ok tt, tt).
Proof. induction l as [|a l IH]; [done|exact IH]. Qed.

Lemma first_range_overshoots_witness :
  exists addr s, @allocate x86_model _ unit_kpages Debug page_allocator_new
      (bump_pages * 0x1000) tt = Ret (Ok addr, s) /\
    addr + bump_pages * 0x1000 = @ALLOCATOR_END x86_model + 1 + 0x2000.
Proof.
  apply (@first_range_overshoots x86_model x86_model_laws unit unit_kpages Debug tt tt tt).
  - reflexivity.
  - reflexivity.
  - apply unit_kpages_all.
Defined.

Lemma allocate_maps_range_witness :
  (forall a, a ∈ page_addrs 0xffffc90000001000 (div_ceil 5000 4096) -> bool_decide (a ∈ []) = false) /\
  (forall page, bool_decide (page ∈ [0xffffc90000002000; 0xffffc90000001000]) =
     bool_decide (page ∈ page_addrs 0xffffc90000001000 (div_ceil 5000 4096)) ||
     bool_decide (page ∈ [])) /\
  forall m'', @deallocate x86_model _ list_kpages Debug 0xffffc90000001000 5000
      [0xffffc90000002000; 0xffffc90000001000] = Ret m'' ->
    forall page, bool_decide (page ∈ m'') = bool_decide (page ∈ []).
Proof.
  eapply (@allocate_maps_range x86_model x86_model_laws (list Z) list_kpages list_kpages_laws
    Debug (0xffffc90000001000, bump_pages) 5000).
  - vm_compute. repeat split; discriminate.
  - lia.
  - exact I.
  - vm_compute. reflexivity.
Defined.

Definition two_ranges : FPAInner :=
  mkFPAInner 0x1000 (pad [(0x5000, 2); (0x9000, 4)]) None.

Lemma alloc_dealloc_pages_witness :
  exists self', @alloc_pages x86_model _ list_kpages Debug [two_ranges] 0x9000 3 [] =
      Ret ([self'], []) /\
    entries self' = pad ([(0x5000, 2)] ++ [(0x9000 + 3 * 0x1000, 4 - 3)]) /\
    @dealloc_pages x86_model _ list_kpages Debug [self'] 0x9000 3 [] =
      Ret (Ok tt, ([two_ranges], [])).
Proof.
  apply (@alloc_dealloc_pages x86_model x86_model_laws (list Z) list_kpages Debug two_ranges
    [(0x5000, 2)] [] 0x9000 4 3 [] []).
  - reflexivity.
  - simpl. unfold ENTRIES_LEN. lia.
  - simpl. repeat (split; [lia|]).
    split; [apply Forall_cons_2; [simpl; lia|apply Forall_nil_2]|].
    repeat (split; [lia || apply Forall_nil_2|]). exact I.
  - lia.
  - lia.
  - unfold canonical. lia.
  - unfold canonical. lia.
Defined.

Lemma dealloc_pages_loses_witness :
  @dealloc_pages x86_model _ list_kpages Debug [two_ranges] 0xd000 3 [] =
    Ret (Ok tt, ([two_ranges], [])).
Proof.
  apply (@dealloc_pages_loses x86_model (list Z) list_kpages Debug two_ranges
    [(0x5000, 2); (0x9000, 4)] 0xd000 3 [] []).
  - reflexivity.
  - simpl. unfold ENTRIES_LEN. lia.
  - repeat (apply Forall_cons_2; [simpl; lia|]). apply Forall_nil_2.
Defined.

(** A full page: 170 ranges. *)
Definition full_ranges : list (Z * Z) :=
  map (fun i => (0x2000 * Z.of_nat i, 1)) (seq 0 ENTRIES_LEN).

Lemma remove_entry_single_witness :
  exists es', @remove_entry (list Z) list_kpages [mkFPAInner 0x1000 (pad full_ranges) None] 0 [] =
      Ret (Usable 0 1, ([mkFPAInner 0x1000 es' None], [])) /\
    es' !! 168%nat = Some (Usable (0x2000 * 169) 1) /\
    es' !! 169%nat = Some (Usable (0x2000 * 169) 1).
Proof.
  destruct (@remove_entry_single (list Z) list_kpages
    (mkFPAInner 0x1000 (pad full_ranges) None) [] (0, 1) (List.tl full_ranges) [])
    as (es' & Hr & _ & Hfull).
  - reflexivity.
  - vm_compute. lia.
  - exists es'. split; [exact Hr|].
    rewrite (Hfull ltac:(reflexivity) (removelast (List.tl full_ranges)) (0x2000 * 169, 1)
      ltac:(reflexivity)).
    split; reflexivity.
Defined.
