(* ===== verification/PageRanges.v ===== *)
(** * memory/allocator/page.rs: the free ranges as a set of addresses

    The entries of one page of the list stand for the set of the addresses in
    their ranges.  Taking pages from a range removes them from that set, giving
    pages back adds them, and [squash_entries] is a normal form of the list that
    keeps the set. *)

From Stdlib Require Import ZArith Lia ZifyBool.
From stdpp Require Import base list numbers.
From S2P Require Import Prelude Layout Frame Kpage PageAlloc.

Local Open Scope Z_scope.

Abbreviation range := (Z * Z)%type (only parsing).

Definition range_end (u : range) : Z := u.1 + u.2 * 0x1000.

(** The addresses of a list of ranges. *)
Definition covers (us : list range) (a : Z) : Prop :=
  exists u, u ∈ us /\ u.1 <= a < range_end u.

(** A range of the address space. *)
Definition range_ok (u : range) : Prop :=
  0 < u.2 /\ canonical u.1 /\ canonical (range_end u).

(** The ranges a page of entries may hold: ascending and apart. *)
Definition ranges_ok (us : list range) : Prop := ranges_sorted us /\ Forall range_ok us.

(** Joining ranges that touch, from the front: the reference for
    [squash_entries]. *)
Fixpoint coalesce_from (u : range) (us : list range) : list range :=
  match us with
  | [] => [u]
  | v :: us => if range_end u =? v.1 then coalesce_from (u.1, u.2 + v.2) us
               else u :: coalesce_from v us
  end.
Definition coalesce (us : list range) : list range :=
  match us with [] => [] | u :: us => coalesce_from u us end.

(** No two neighbours touch. *)
Fixpoint separated (us : list range) : Prop :=
  match us with
  | u :: (v :: _) as us' => range_end u <> v.1 /\ separated us'
  | _ => True
  end.

(** ** Lemmas on lists of ranges *)

Lemma covers_nil a : ~ covers [] a.
Proof. intros (u & Hu & _). by apply elem_of_nil in Hu. Qed.

Lemma covers_cons u us a : covers (u :: us) a <-> u.1 <= a < range_end u \/ covers us a.
Proof.
  unfold covers. split.
  - intros (v & [->|Hv]%elem_of_cons & Ha); [by left|right; eauto].
  - intros [Ha|(v & Hv & Ha)]; [exists u|exists v]; rewrite elem_of_cons; auto.
Qed.

Lemma covers_app us vs a : covers (us ++ vs) a <-> covers us a \/ covers vs a.
Proof.
  induction us as [|u us IH]; cbn [app].
  - pose proof (covers_nil a). tauto.
  - rewrite !covers_cons, IH. tauto.
Qed.

Lemma ranges_ok_cons u us :
  ranges_ok (u :: us) <->
  range_ok u /\ Forall (fun v => range_end u <= v.1) us /\ ranges_ok us.
Proof.
  unfold ranges_ok, range_ok. cbn [ranges_sorted]. rewrite Forall_cons_iff. unfold range_end.
  split.
  - intros [(? & ? & ? & ?) [(? & ? & ?) ?]]. auto.
  - intros [(? & ? & ?) (? & ? & ?)]. split_and!; try done. destruct H0 as [[? _]|[? _]]; lia.
Qed.

Lemma range_ok_bound u : range_ok u -> 0 <= u.1 /\ 0 < u.2 < 2 ^ 52 /\ range_end u < 2 ^ 64.
Proof. unfold range_ok, canonical, range_end. lia. Qed.

Lemma range_join u v :
  range_ok u -> range_ok v -> range_end u = v.1 ->
  range_ok (u.1, u.2 + v.2) /\ range_end (u.1, u.2 + v.2) = range_end v.
Proof.
  intros Hu Hv He.
  assert (range_end (u.1, u.2 + v.2) = range_end v) as Hj by (unfold range_end in *; cbn; lia).
  split; [|done]. unfold range_ok. rewrite Hj. cbn. destruct Hu as (? & ? & ?), Hv as (? & ? & ?).
  split_and!; [lia|done..].
Qed.

Lemma coalesce_from_covers u us a :
  range_ok u -> ranges_ok us -> covers (coalesce_from u us) a <-> covers (u :: us) a.
Proof.
  revert u. induction us as [|v us IH]; intros u Hu Hus; [done|]. cbn [coalesce_from].
  apply ranges_ok_cons in Hus as (Hv & Hb & Hus). destruct (Z.eqb_spec (range_end u) v.1) as [He|He].
  - destruct (range_join u v Hu Hv He) as [Hj Hend]. rewrite IH by done.
    rewrite !covers_cons, Hend. cbn [fst]. destruct Hu, Hv. unfold range_end in *. intuition lia.
  - rewrite covers_cons, IH by done. by rewrite (covers_cons u).
Qed.

Lemma coalesce_from_ok u us :
  ranges_ok (u :: us) ->
  ranges_ok (coalesce_from u us) /\ separated (coalesce_from u us) /\
  (length (coalesce_from u us) <= S (length us))%nat /\
  exists w ws, coalesce_from u us = w :: ws /\ w.1 = u.1.
Proof.
  revert u. induction us as [|v us IH]; intros u Hus; cbn [coalesce_from].
  { split_and!; [done..|cbn; lia|eauto]. }
  apply ranges_ok_cons in Hus as (Hu & Hb & Hus). pose proof Hus as (Hv & Hbv & Hus')%ranges_ok_cons.
  destruct (Z.eqb_spec (range_end u) v.1) as [He|He].
  - destruct (range_join u v Hu Hv He) as [Hj Hend].
    destruct (IH (u.1, u.2 + v.2)) as (H1 & H2 & H3 & w & ws & Hw & Hw1).
    { apply ranges_ok_cons. by rewrite Hend. }
    split_and!; [done..|cbn; lia|]. exists w, ws. by rewrite Hw1.
  - destruct (IH v Hus) as (H1 & H2 & H3 & w & ws & Hw & Hw1). split_and!.
    + apply ranges_ok_cons. split_and!; [done| |done].
      rewrite Hw in H1 |- *. apply ranges_ok_cons in H1 as (Hwok & Hws & _).
      apply Forall_cons_iff in Hb as [Hb _]. apply Forall_cons_iff. split; [by rewrite Hw1|].
      eapply Forall_impl; [|exact Hws]. intros x Hx. cbn in *.
      destruct Hwok as (? & _). unfold range_end in *. lia.
    + rewrite Hw in *. cbn [separated]. rewrite Hw1. done.
    + cbn. lia.
    + by exists u, (coalesce_from v us).
Qed.

Lemma coalesce_ok us :
  ranges_ok us ->
  ranges_ok (coalesce us) /\ separated (coalesce us) /\
  (length (coalesce us) <= length us)%nat /\ forall a, covers (coalesce us) a <-> covers us a.
Proof.
  intros Hus. destruct us as [|u us]; [by split_and!|]. cbn [coalesce].
  destruct (coalesce_from_ok u us Hus) as (? & ? & ? & _). split_and!; try done.
  intros a. apply ranges_ok_cons in Hus as (? & _ & ?). by apply coalesce_from_covers.
Qed.

(** All of [us] lie below all of [vs]. *)
Definition below (us vs : list range) : Prop :=
  Forall (fun u => Forall (fun v => range_end u <= v.1) vs) us.

Lemma ranges_ok_app us vs :
  ranges_ok (us ++ vs) <-> ranges_ok us /\ ranges_ok vs /\ below us vs.
Proof.
  unfold below. induction us as [|u us IH]; cbn [app].
  - split; [intros Hv; split_and!; [|done|]|by intros (_ & ? & _)]; [split|]; constructor.
  - rewrite !ranges_ok_cons, IH, Forall_app, Forall_cons_iff. tauto.
Qed.

(** A range below others has none of their addresses. *)
Lemma below_disjoint us vs a : below us vs -> Forall range_ok us -> covers us a -> ~ covers vs a.
Proof.
  unfold below. rewrite !list.Forall_forall. intros Hb Hok (u & Hu & Ha) (v & Hv & Ha').
  specialize (Hb u Hu). rewrite list.Forall_forall in Hb. specialize (Hb v Hv). lia.
Qed.

(** ** [squash_entries] computes the normal form *)

Section one_page.
Context `{X86AddrLaws} {M : Type} `{KPages M} (prof : profile).

(** Adding up a range is done without overflow. *)
Lemma range_end_computed u {B} (k : Z -> outcome B) :
  range_ok u -> (off ← arith prof 64 (u.2 * 0x1000); e ← va_add u.1 off; k e) = k (range_end u).
Proof.
  intros Hu. pose proof (range_ok_bound u Hu). destruct Hu as (? & ? & ?).
  rewrite arith_ok by (unfold range_end in *; lia). run_ret.
  by rewrite va_add_law by (done || lia).
Qed.

Lemma set_entries_twice p es es' : set_entries (set_entries p es) es' = set_entries p es'.
Proof. done. Qed.

(** Looking at two neighbours. *)
Lemma pad_lookup_two us1 u us2 :
  pad (us1 ++ u :: us2) !! length us1 = Some (Usable u.1 u.2) /\
  ((length us1 + S (length us2) < ENTRIES_LEN)%nat ->
   pad (us1 ++ u :: us2) !! (length us1 + 1)%nat =
     match us2 with [] => Some Empty | v :: _ => Some (Usable v.1 v.2) end).
Proof.
  rewrite !pad_lookup, list_lookup_middle by done. split; [done|]. intros Hl.
  rewrite lookup_app_r by lia. replace (length us1 + 1 - length us1)%nat with 1%nat by lia.
  destruct us2 as [|v us2]; cbn [lookup list_lookup]; [|done]. rewrite length_app. cbn [length] in *.
  by replace ((_ <=? _)%nat && (_ <? _)%nat) with true by lia.
Qed.

Lemma squash_from_spec (self : FPAInner) fuel us1 u us2 (m : M) :
  (length us2 < fuel)%nat -> (length us1 + S (length us2) < ENTRIES_LEN)%nat ->
  ranges_ok (u :: us2) ->
  squash_entries prof fuel [set_entries self (pad (us1 ++ u :: us2))] (length us1) m =
  Ret ([set_entries self (pad (us1 ++ coalesce_from u us2))], m).
Proof.
  revert fuel us1 u. induction us2 as [|v us2 IH]; intros fuel us1 u Hf Hl Hok;
    (destruct fuel as [|fuel]; [cbn in Hf; lia|]); cbn [squash_entries];
    match goal with |- context [pad (us1 ++ u :: ?us)] =>
      destruct (pad_lookup_two us1 u us) as [Hi Hj] end; specialize (Hj Hl);
    replace (length us1 <? ENTRIES_LEN - 1)%nat with true by (cbn in Hl; lia);
    change (entries (set_entries self ?es)) with es; rewrite (index_ok _ _ _ Hi); run_ret;
    rewrite (index_ok _ _ _ Hj); run_ret; [done|].
  apply ranges_ok_cons in Hok as (Hu & Hb & Hok). pose proof Hok as (Hv & Hbv & Hok')%ranges_ok_cons.
  rewrite range_end_computed by done. cbn [coalesce_from].
  destruct (Z.eqb_spec (range_end u) v.1) as [He|He].
  - destruct (range_join u v Hu Hv He) as [Hj2 Hend].
    pose proof (range_ok_bound u Hu). pose proof (range_ok_bound v Hv).
    rewrite arith_ok by lia. run_ret.
    rewrite index_set_ok by (rewrite pad_length; rewrite ?length_app; cbn in *; lia). run_ret.
    rewrite pad_insert.
    destruct (remove_entry_single (set_entries self (pad (us1 ++ (u.1, u.2 + v.2) :: v :: us2)))
      (us1 ++ [(u.1, u.2 + v.2)]) v us2 m) as (es & Hr & Hes & _).
    { cbn. by rewrite <- app_assoc. }
    { rewrite <- app_assoc, length_app. cbn in *. lia. }
    rewrite length_app in Hr, Hes. cbn [length] in Hr, Hes. rewrite set_entries_twice in Hr |- *.
    rewrite Hr. run_ret. rewrite Hes by (rewrite length_app; cbn in *; lia).
    rewrite <- app_assoc. cbn [app]. apply IH; [cbn in *; lia..|].
    apply ranges_ok_cons. by rewrite Hend.
  - specialize (IH fuel (us1 ++ [u]) v).
    rewrite <- !app_assoc, length_app in IH. cbn [length app] in IH.
    apply IH; [cbn in *; lia..|done].
Qed.

Lemma squash_entries_spec (self : FPAInner) fuel us (m : M) :
  (length us < fuel)%nat -> (length us < ENTRIES_LEN)%nat -> ranges_ok us ->
  squash_entries prof fuel [set_entries self (pad us)] 0 m =
  Ret ([set_entries self (pad (coalesce us))], m).
Proof.
  intros Hf Hl Hok. destruct us as [|u us].
  - destruct fuel as [|fuel]; [cbn in Hf; lia|]. done.
  - apply (squash_from_spec self fuel [] u us m); cbn in *; [lia..|done].
Qed.

(** ** Giving pages back *)

(** Shifting up and storing puts a range in. *)
Lemma pad_put us1 u us2 :
  (length (us1 ++ us2) < ENTRIES_LEN)%nat ->
  (es ← copy_within (pad (us1 ++ us2)) (length us1) (ENTRIES_LEN - 1) (length us1 + 1);
   index_set es (length us1) (Usable u.1 u.2)) = Ret (pad (us1 ++ u :: us2)).
Proof.
  intros Hl. rewrite length_app in Hl. set (k := (ENTRIES_LEN - length us1 - length us2)%nat).
  set (R := to_entries us2 ++ replicate k Empty).
  assert (pad (us1 ++ us2) = to_entries us1 ++ R) as Hp.
  { unfold pad, R, k, to_entries. rewrite map_app, <- app_assoc, length_app.
    by rewrite Nat.sub_add_distr. }
  assert (length (to_entries us1) = length us1) as Hl1 by apply length_map.
  assert (length (to_entries us2) = length us2) as Hl2 by apply length_map.
  assert (length R = ENTRIES_LEN - length us1)%nat as HR
    by (unfold R, k; rewrite length_app, length_replicate, Hl2; lia).
  unfold copy_within. rewrite pad_length by (rewrite length_app; lia).
  replace (_ && _ && _)%nat with true by lia. run_ret. rewrite Hp.
  replace (length us1 + 1 + (ENTRIES_LEN - 1 - length us1))%nat with ENTRIES_LEN by lia.
  rewrite (drop_ge _ ENTRIES_LEN), app_nil_r by (rewrite length_app; lia).
  rewrite (drop_app_length' (to_entries us1)) by done.
  replace (take (ENTRIES_LEN - 1 - length us1) R) with (to_entries us2 ++ replicate (k - 1) Empty).
  2:{ unfold R, k. rewrite take_app_ge, take_replicate by lia. rewrite Hl2. do 2 f_equal. lia. }
  rewrite index_set_ok.
  2:{ rewrite !length_app, length_take, length_app. lia. }
  rewrite take_app_ge by lia. rewrite Hl1, <- !app_assoc, insert_app_r_alt by lia.
  rewrite Hl1, Nat.sub_diag. replace (length us1 + 1 - length us1)%nat with 1%nat by lia.
  f_equal. unfold pad, to_entries. rewrite map_app, length_app, <- app_assoc. f_equal.
  cbn [map app length].
  destruct R as [|e R'] eqn:ER; [cbn [length] in HR; lia|]. cbn [take app insert list_insert].
  by replace (ENTRIES_LEN - (length us1 + S (length us2)))%nat with (k - 1)%nat by (unfold k; lia).
Qed.

Lemma insert_entry_spec (self : FPAInner) fuel us1 u us2 (m : M) :
  (0 < fuel)%nat -> (length (us1 ++ us2) < ENTRIES_LEN)%nat ->
  insert_entry prof fuel [set_entries self (pad (us1 ++ us2))] (length us1) (Usable u.1 u.2) m =
  Ret (Ok tt, ([set_entries self (pad (us1 ++ u :: us2))], m)).
Proof.
  intros Hf Hl. destruct fuel as [|fuel]; [lia|]. cbn [insert_entry].
  change (entries (set_entries self ?es)) with es.
  rewrite (index_ok _ _ Empty).
  2:{ rewrite pad_lookup, (lookup_ge_None_2 (us1 ++ us2)) by lia.
      by replace ((_ <=? _)%nat && (_ <? _)%nat) with true by (unfold ENTRIES_LEN in *; lia). }
  run_ret. pose proof (pad_put us1 u us2 Hl) as Hp. run_ret.
  change (entries (set_entries self ?es)) with es.
  destruct (copy_within _ _ _ _) as [es| | |]; try discriminate. run_ret.
  cbn [mbind outcome_bind] in Hp. rewrite Hp. run_ret. by rewrite set_entries_twice.
Qed.

(** The free ranges with one more, at its place. *)
Lemma ranges_ok_put us1 u us2 :
  ranges_ok (us1 ++ us2) -> range_ok u -> below us1 [u] -> below [u] us2 ->
  ranges_ok (us1 ++ u :: us2).
Proof.
  rewrite !ranges_ok_app, ranges_ok_cons. unfold below.
  intros (H2 & H3 & H4) Hu H5 H6. apply Forall_cons_iff in H6 as [H6 _]. split_and!; try done.
  rewrite list.Forall_forall in *. intros v Hv. specialize (H4 v Hv). specialize (H5 v Hv).
  apply Forall_cons_iff in H5 as [H5 _]. by apply Forall_cons_iff.
Qed.

Lemma covers_put us1 u us2 a :
  covers (us1 ++ u :: us2) a <-> covers (us1 ++ us2) a \/ u.1 <= a < range_end u.
Proof. rewrite !covers_app, covers_cons. tauto. Qed.

(** A range among the others: these are in order without it, and have none of
    its addresses. *)
Lemma ranges_ok_mid us1 u us2 :
  ranges_ok (us1 ++ u :: us2) ->
  ranges_ok (us1 ++ us2) /\ below us1 [u] /\ below [u] us2 /\
  forall a, u.1 <= a < range_end u -> ~ covers (us1 ++ us2) a.
Proof.
  intros (Hok1 & (Hu & Habove & Hok3)%ranges_ok_cons & Hbel)%ranges_ok_app.
  assert (below us1 us2 /\ below us1 [u]) as [Hb Hb1].
  { split; (eapply Forall_impl; [|exact Hbel]); cbn beta; intros v Hv;
      apply Forall_cons_iff in Hv as [Hv Hv']; [done|apply Forall_cons_iff; split; [done|constructor]]. }
  assert (below [u] us2) as Hb2 by (apply Forall_cons_iff; split; [done|constructor]).
  split_and!; [by apply ranges_ok_app|done..|]. intros a Ha.
  assert (covers [u] a) as Hca by (apply covers_cons; by left).
  rewrite covers_app. intros [Hx|Hx].
  - exact (below_disjoint us1 [u] a Hb1 (proj2 Hok1) Hx Hca).
  - refine (below_disjoint [u] us2 a Hb2 _ Hca Hx). apply Forall_cons_iff. split; [done|constructor].
Qed.

(** Extending a range downwards to the pages in front of it. *)
Lemma ranges_extend us1 u v us2 :
  ranges_ok (us1 ++ v :: us2) -> range_ok u -> below us1 [u] -> range_end u = v.1 ->
  ranges_ok (us1 ++ (u.1, u.2 + v.2) :: us2) /\
  forall a, covers (us1 ++ (u.1, u.2 + v.2) :: us2) a <->
    covers (us1 ++ v :: us2) a \/ u.1 <= a < range_end u.
Proof.
  intros Hok Hu Hb He. destruct (ranges_ok_mid _ _ _ Hok) as (Hrest & _ & Habove & _).
  apply ranges_ok_app in Hok as (_ & (Hv & _ & _)%ranges_ok_cons & _).
  destruct (range_join u v Hu Hv He) as [Hj Hend]. split.
  - apply ranges_ok_put; [|done| |].
    + done.
    + eapply Forall_impl; [|exact Hb]. cbn beta. intros w Hw.
      apply Forall_cons_iff in Hw as [Hw _]. apply Forall_cons_iff. split; [done|constructor].
    + unfold below in *. rewrite Forall_cons_iff in *. by rewrite Hend.
  - intros a. rewrite !covers_put, Hend. destruct Hu, Hv. unfold range_end in *. cbn. intuition lia.
Qed.

(** The loop of [dealloc_pages] stops at the first range above. *)
Lemma scan_above us1 s n us2 start pages :
  ranges_ok us1 -> below us1 [(start, pages)] -> start <= s ->
  scan (fun s _ => negb (s <? start)) (pad (us1 ++ (s, n) :: us2)) = ScanHit (length us1) s n.
Proof.
  intros [_ Hok] Hb Hs. apply scan_pad_hit; [|lia].
  unfold below in Hb. rewrite list.Forall_forall in *. intros v Hv.
  specialize (Hb v Hv). apply Forall_cons_iff in Hb as [Hb _].
  destruct (Hok v Hv) as [Hv2 _]. unfold range_end in Hb. cbn in Hb. lia.
Qed.

(** Putting a range in and squashing. *)
Lemma insert_squash_spec (self : FPAInner) us1 u us2 (m : M) :
  (S (length (us1 ++ us2)) < ENTRIES_LEN)%nat -> ranges_ok (us1 ++ u :: us2) ->
  ('(r, (l, m)) ← insert_entry prof (list_fuel [self]) [set_entries self (pad (us1 ++ us2))]
     (length us1) (Usable u.1 u.2) m;
   match r with
   | Err e => Ret (Err e, (l, m))
   | Ok _ => '(l, m) ← squash_entries prof (list_fuel l) l 0 m; Ret (Ok tt, (l, m))
   end) = Ret (Ok tt, ([set_entries self (pad (coalesce (us1 ++ u :: us2)))], m)).
Proof.
  intros Hl Hok.
  assert (forall p, ENTRIES_LEN < list_fuel [p])%nat as Hf
    by (intros p; unfold list_fuel, ENTRIES_LEN; cbn [length]; lia).
  rewrite insert_entry_spec by (lia || (specialize (Hf self); lia)). run_ret.
  assert (length (us1 ++ u :: us2) = S (length (us1 ++ us2))) as Hlen
    by (rewrite !length_app; cbn [length]; lia).
  rewrite squash_entries_spec by (done || lia ||
    (specialize (Hf (set_entries self (pad (us1 ++ u :: us2)))); lia)).
  done.
Qed.

(** C25: giving pages back to a page of free ranges that has room and a range
    above them: the call returns, the ranges are again in order and apart, and
    they cover exactly what they covered before and the pages given back. *)
Theorem dealloc_pages_gives (self : FPAInner) us1 us2 s n start pages (m : M) :
  entries self = pad (us1 ++ (s, n) :: us2) -> ranges_ok (us1 ++ (s, n) :: us2) ->
  (S (length (us1 ++ (s, n) :: us2)) < ENTRIES_LEN)%nat ->
  range_ok (start, pages) -> below us1 [(start, pages)] -> range_end (start, pages) <= s ->
  exists us', dealloc_pages prof [self] start pages m =
      Ret (Ok tt, ([set_entries self (pad us')], m)) /\
    ranges_ok us' /\ (length us' <= S (length (us1 ++ (s, n) :: us2)))%nat /\
    forall a, covers us' a <->
      covers (us1 ++ (s, n) :: us2) a \/ start <= a < start + pages * 0x1000.
Proof.
  intros He Hok Hl Hu Hb Hs. pose proof (range_ok_bound _ Hu) as (_ & Hpages & _).
  pose proof Hok as (Hok1 & (Hsn & Habove & _)%ranges_ok_cons & _)%ranges_ok_app.
  pose proof (range_ok_bound _ Hsn) as (_ & Hn & _). cbn [fst snd] in *.
  cbn [dealloc_pages].
  rewrite He, (scan_above _ _ _ _ _ pages) by (done || (unfold range_end in Hs; cbn in Hs; lia)).
  pose proof (fun B => @range_end_computed (start, pages) B) as Hend. cbn [fst snd] in Hend.
  rewrite Hend by done. clear Hend.
  destruct (Z.eqb_spec s (range_end (start, pages))) as [Heq|Hne].
  - rewrite arith_ok by lia. run_ret.
    rewrite index_set_ok by (rewrite pad_length; rewrite length_app in *; cbn [length] in *; lia).
    run_ret. rewrite pad_insert, (Z.add_comm n). exists (us1 ++ (start, pages + n) :: us2).
    destruct (ranges_extend us1 (start, pages) (s, n) us2) as [Hr Hc]; try done.
    split_and!; [done..|rewrite !length_app; cbn [length]; lia|done].
  - assert (self = set_entries self (pad (us1 ++ (s, n) :: us2))) as Hself
      by (rewrite <- He; by destruct self).
    rewrite Hself. change (list_fuel [set_entries ?p _]) with (list_fuel [p]).
    assert (ranges_ok (us1 ++ (start, pages) :: (s, n) :: us2)) as Hnew.
    { apply ranges_ok_put; try done. apply Forall_cons_iff. split; [|constructor].
      apply Forall_cons_iff. split; [cbn; lia|]. eapply Forall_impl; [|exact Habove].
      cbn beta. intros v Hv. unfold range_end in *. cbn [fst snd] in *. lia. }
    pose proof (insert_squash_spec self us1 (start, pages) ((s, n) :: us2) m Hl Hnew) as Hi.
    cbn [fst snd] in Hi. rewrite Hi. destruct (coalesce_ok _ Hnew) as (Hc1 & _ & Hc3 & Hc4).
    eexists. split_and!; [by rewrite set_entries_twice|done| |].
    + rewrite !length_app in *. cbn [length] in *. lia.
    + intros a. by rewrite Hc4, covers_put.
Qed.

(** ** Taking pages *)

(** What is left of a range when [k] of its pages are taken. *)
Definition rest (u : range) (k : Z) : list range :=
  if u.2 =? k then [] else [(u.1 + k * 0x1000, u.2 - k)].

(** Taking the first pages of a range out of what the ranges cover. *)
Lemma ranges_take us1 start n us2 k :
  ranges_ok (us1 ++ (start, n) :: us2) -> 0 <= k <= n -> canonical (start + k * 0x1000) ->
  ranges_ok (us1 ++ rest (start, n) k ++ us2) /\
  (length (us1 ++ rest (start, n) k ++ us2) <= length (us1 ++ (start, n) :: us2))%nat /\
  forall a, covers (us1 ++ rest (start, n) k ++ us2) a <->
    covers (us1 ++ (start, n) :: us2) a /\ ~ start <= a < start + k * 0x1000.
Proof.
  intros Hok Hk Hc. destruct (ranges_ok_mid _ _ _ Hok) as (Hrest & Hb1 & Hb2 & Hout).
  pose proof Hok as (_ & (Hu & _ & _)%ranges_ok_cons & _)%ranges_ok_app.
  pose proof (range_ok_bound _ Hu) as (_ & Hn & _). pose proof Hu as (_ & Hcs & Hce).
  unfold rest. cbn [fst snd] in *. destruct (Z.eqb_spec n k) as [->|Hne]; cbn [app].
  - split_and!; [done|rewrite !length_app; cbn [length]; lia|].
    intros a. rewrite covers_put. specialize (Hout a). unfold range_end in *. cbn [fst snd] in *. tauto.
  - assert (range_end (start + k * 0x1000, n - k) = range_end (start, n)) as Hend
      by (unfold range_end; cbn; lia).
    split_and!; [|rewrite !length_app; cbn [length]; lia|].
    + apply ranges_ok_put; [done| | |].
      * unfold range_ok. rewrite Hend. cbn. split_and!; [lia|done..].
      * eapply Forall_impl; [|exact Hb1]. intros v Hv. apply Forall_cons_iff in Hv as [Hv _].
        apply Forall_cons_iff. split; [cbn in *; lia|constructor].
      * unfold below in *. rewrite Forall_cons_iff in *. by rewrite Hend.
    + intros a. rewrite !covers_put, Hend. specialize (Hout a).
      unfold range_end in *. cbn [fst snd] in *.
      destruct (decide (start <= a < start + n * 0x1000)) as [Ha|Ha]; [specialize (Hout Ha)|];
        intuition lia.
Qed.

(** Taking the first [k] pages of a free range of a page that is not full
    removes exactly these from what the ranges cover, whether or not the range is
    used up, and leaves the ranges in order and apart. *)
Theorem alloc_pages_takes (self : FPAInner) us1 us2 start n k (m : M) :
  entries self = pad (us1 ++ (start, n) :: us2) -> ranges_ok (us1 ++ (start, n) :: us2) ->
  (length (us1 ++ (start, n) :: us2) < ENTRIES_LEN)%nat -> 0 < k <= n ->
  canonical (start + k * 0x1000) ->
  exists us', alloc_pages prof [self] start k m = Ret ([set_entries self (pad us')], m) /\
    ranges_ok us' /\ (length us' <= length (us1 ++ (start, n) :: us2))%nat /\
    forall a, covers us' a <->
      covers (us1 ++ (start, n) :: us2) a /\ ~ start <= a < start + k * 0x1000.
Proof.
  intros He Hok Hl Hk Hc.
  pose proof Hok as (_ & (Hu & _ & _)%ranges_ok_cons & _)%ranges_ok_app.
  pose proof (range_ok_bound _ Hu) as (_ & Hn & _). pose proof Hu as (_ & Hcs & _).
  destruct (ranges_take us1 start n us2 k Hok ltac:(lia) Hc) as (Hok' & Hlen & Hcov).
  exists (us1 ++ rest (start, n) k ++ us2). split_and!; [|done..].
  destruct Hok as [Hsorted _]. apply ranges_sorted_below in Hsorted. cbn [fst snd] in *.
  cbn [alloc_pages]. rewrite He, scan_pad_hit
    by (lia || (eapply Forall_impl; [|exact Hsorted]; cbn; lia)).
  unfold rest. cbn [fst snd]. destruct (Z.eqb_spec n k) as [->|Hne].
  - destruct (remove_entry_single self us1 (start, k) us2 m He ltac:(lia)) as (es & -> & Hes & _).
    run_ret. by rewrite Hes.
  - rewrite !arith_ok by lia. run_ret. rewrite va_add_law by (done || lia). run_ret.
    rewrite index_set_ok by (rewrite pad_length; rewrite length_app in *; cbn [length] in *; lia).
    run_ret. by rewrite pad_insert.
Qed.
End one_page.

(** ** Examples *)

Definition three_ranges : FPAInner :=
  mkFPAInner 0x1000 (pad [(0x5000, 2); (0x9000, 4); (0x20000, 1)]) None.

Lemma canonical_low a : 0 <= a < 2 ^ 47 -> canonical a.
Proof. intros Ha. by left. Qed.

(** Lists of concrete ranges. *)
Ltac solve_ranges :=
  repeat match goal with
  | |- ranges_ok (_ :: _) => apply ranges_ok_cons; split_and!
  | |- ranges_ok [] => split; [exact I|apply Forall_nil_2]
  | |- Forall _ (_ :: _) => apply Forall_cons_iff; split
  | |- Forall _ [] => apply Forall_nil_2
  | |- range_ok _ => unfold range_ok; split_and!
  | |- canonical _ => apply canonical_low
  end; unfold range_end; cbn [fst snd]; lia.

Lemma dealloc_pages_gives_witness :
  exists us', @dealloc_pages x86_model _ list_kpages Debug [three_ranges] 0x7000 2 [] =
      Ret (Ok tt, ([set_entries three_ranges (pad us')], [])) /\
    ranges_ok us' /\ (length us' <= 4)%nat /\
    forall a, covers us' a <->
      covers [(0x5000, 2); (0x9000, 4); (0x20000, 1)] a \/ 0x7000 <= a < 0x7000 + 2 * 0x1000.
Proof.
  apply (@dealloc_pages_gives x86_model x86_model_laws (list Z) list_kpages Debug three_ranges
    [(0x5000, 2)] [(0x20000, 1)] 0x9000 4 0x7000 2 []).
  - reflexivity.
  - cbn [app]. solve_ranges.
  - cbn. unfold ENTRIES_LEN. lia.
  - solve_ranges.
  - unfold below. solve_ranges.
  - unfold range_end. cbn [fst snd]. lia.
Defined.

Lemma alloc_pages_takes_witness :
  exists us', @alloc_pages x86_model _ list_kpages Debug [three_ranges] 0x9000 3 [] =
      Ret ([set_entries three_ranges (pad us')], []) /\
    ranges_ok us' /\ (length us' <= 3)%nat /\
    forall a, covers us' a <->
      covers [(0x5000, 2); (0x9000, 4); (0x20000, 1)] a /\ ~ 0x9000 <= a < 0x9000 + 3 * 0x1000.
Proof.
  apply (@alloc_pages_takes x86_model x86_model_laws (list Z) list_kpages Debug three_ranges
    [(0x5000, 2)] [(0x20000, 1)] 0x9000 4 3 []).
  - reflexivity.
  - cbn [app]. solve_ranges.
  - cbn. unfold ENTRIES_LEN. lia.
  - lia.
  - apply canonical_low. lia.
Defined.
