(* ===== verification/PageChain.v ===== *)
(** * memory/allocator/page.rs: lists of entry pages

    The free ranges may fill several pages of entries.  A list of pages is one
    list of ranges, cut into pages of [ENTRIES_LEN]: all pages are full but the
    last one.  Putting a range in, taking one out and taking pages move ranges from
    page to page and are shown to be those of the one list; allocation is first
    fit on it. *)

From Stdlib Require Import ZArith Lia ZifyBool.
From stdpp Require Import base list numbers.
From S2P Require Import Prelude Layout Frame Kpage PageAlloc PageRanges.

Local Open Scope Z_scope.

(** The pages hold these ranges. *)
Fixpoint chain_of (self : list FPAInner) (us : list range) : Prop :=
  match self with
  | [] => False
  | p :: next =>
      entries p = pad (take ENTRIES_LEN us) /\
      match next with
      | [] => (length us <= ENTRIES_LEN)%nat
      | _ :: _ => (ENTRIES_LEN <= length us)%nat /\ chain_of next (drop ENTRIES_LEN us)
      end
  end.

Lemma chain_of_cons p next us :
  next <> [] ->
  chain_of (p :: next) us <->
  entries p = pad (take ENTRIES_LEN us) /\ (ENTRIES_LEN <= length us)%nat /\
  chain_of next (drop ENTRIES_LEN us).
Proof. by destruct next. Qed.

Lemma pad_full us : length us = ENTRIES_LEN -> pad us = to_entries us.
Proof. intros Hl. unfold pad. by rewrite Hl, Nat.sub_diag, app_nil_r. Qed.

(** The reference for the search: the first range with pages enough. *)
Definition first_fit (us : list range) (k : Z) : option Z :=
  fst <$> List.find (fun u => k <=? u.2) us.

Lemma find_split {A} (f : A -> bool) l :
  (exists l1 x l2, l = l1 ++ x :: l2 /\ Forall (fun y => f y = false) l1 /\ f x = true /\
     List.find f l = Some x) \/
  (Forall (fun y => f y = false) l /\ List.find f l = None).
Proof.
  induction l as [|y l IH]; [by right|]. cbn. destruct (f y) eqn:E.
  - left. by exists [], y, l.
  - destruct IH as [(l1 & x & l2 & -> & Hf & Hx & Hr)|[Hf Hr]].
    + left. exists (y :: l1), x, l2. split_and!; [done|by constructor|done..].
    + right. split; [by constructor|done].
Qed.

Lemma find_app {A} (f : A -> bool) l l' :
  List.find f (l ++ l') = match List.find f l with Some x => Some x | None => List.find f l' end.
Proof. induction l as [|x l IH]; [done|]. cbn. by destruct (f x). Qed.

(** The search over all pages is first fit on the one list. *)
Lemma find_free_chain self us k : chain_of self us -> find_free_pages self k = first_fit us k.
Proof.
  revert us. induction self as [|p next IH]; intros us Hc; [done|]. cbn [find_free_pages].
  destruct Hc as [He Hc]. rewrite He. unfold first_fit.
  rewrite <- (take_drop ENTRIES_LEN us) at 2. rewrite find_app.
  destruct (find_split (fun u => k <=? u.2) (take ENTRIES_LEN us))
    as [(l1 & [s n] & l2 & Ht & Hf & Hx & ->)|[Hf ->]].
  - rewrite Ht, (scan_pad_hit _ l1 s n l2); done.
  - destruct (decide (length us < ENTRIES_LEN)%nat) as [Hlt|Hge].
    + rewrite scan_pad_none; [|by rewrite length_take; lia|done]. by rewrite drop_ge by lia.
    + rewrite pad_full by (rewrite length_take; lia). unfold scan.
      rewrite <- (app_nil_r (to_entries _)), scan_from_app by done. cbn [scan_from].
      destruct next as [|q next]; [by rewrite drop_ge by lia|]. apply IH, Hc.
Qed.

(** ** The reference: first fit on the one list *)

Fixpoint take_first (us : list range) (k : Z) : option (Z * list range) :=
  match us with
  | [] => None
  | u :: us =>
      if k <=? u.2 then Some (u.1, rest u k ++ us)
      else '(addr, us) ← take_first us k; Some (addr, u :: us)
  end.

(** A range of the allocator's part of the address space. *)
Definition kernel_range `{X86Addr} (u : range) : Prop :=
  ALLOCATOR_START <= u.1 /\ range_end u <= bump_limit.

(** The pages have room for one range more, and a second page is there for the
    ranges in it. *)
Definition chain_room (self : list FPAInner) (us : list range) : Prop :=
  (length us < ENTRIES_LEN * length self)%nat /\
  ((1 < length self)%nat -> (ENTRIES_LEN * (length self - 1) < length us)%nat).

Lemma take_first_split us k :
  match take_first us k with
  | None => first_fit us k = None
  | Some (addr, us') => exists us1 n us2,
      us = us1 ++ (addr, n) :: us2 /\ us' = us1 ++ rest (addr, n) k ++ us2 /\ k <= n /\
      first_fit us k = Some addr
  end.
Proof.
  unfold first_fit. induction us as [|[s n] us IH]; [done|]. cbn [take_first List.find fst snd].
  destruct (Z.leb_spec k n) as [Hk|Hk].
  - by exists [], n, us.
  - destruct (take_first us k) as [[addr us']|]; [|done].
    destruct IH as (us1 & n' & us2 & -> & -> & Hn & Hf). by exists ((s, n) :: us1), n', us2.
Qed.

(** ** Moving the entries of a full page *)

Lemma put_full (es : list Entry) idx e :
  length es = ENTRIES_LEN -> (idx < ENTRIES_LEN)%nat ->
  (es' ← copy_within es idx (ENTRIES_LEN - 1) (idx + 1); index_set es' idx e) =
  Ret (take ENTRIES_LEN (take idx es ++ e :: drop idx es)).
Proof.
  intros Hl Hi. unfold copy_within. rewrite Hl.
  replace (_ && _ && _)%nat with true by lia. run_ret.
  rewrite (drop_ge es (idx + 1 + _)), app_nil_r by lia.
  destruct (lookup_lt_is_Some_2 es idx) as [x Hx]; [lia|].
  rewrite Nat.add_1_r, (take_S_r _ _ _ Hx), <- app_assoc.
  assert (length (take idx es) = idx) as Ht by (rewrite length_take; lia).
  rewrite index_set_ok by (rewrite !length_app, !length_take, length_drop; cbn [length]; lia).
  rewrite insert_app_r_alt by lia. rewrite Ht, Nat.sub_diag. cbn [app insert list_insert].
  rewrite take_app_ge by lia. rewrite Ht.
  replace (ENTRIES_LEN - idx)%nat with (S (ENTRIES_LEN - 1 - idx)) by lia. done.
Qed.

Lemma remove_full (es : list Entry) idx e :
  length es = ENTRIES_LEN -> (idx < ENTRIES_LEN)%nat ->
  (es' ← index_set es idx Empty; es' ← copy_within es' (idx + 1) ENTRIES_LEN idx;
   index_set es' (ENTRIES_LEN - 1) e) = Ret (take idx es ++ drop (S idx) es ++ [e]).
Proof.
  intros Hl Hi. rewrite index_set_ok by lia. run_ret. unfold copy_within.
  rewrite length_insert, Hl.
  replace (_ && _ && _)%nat with true by lia. run_ret.
  rewrite take_insert_ge, Nat.add_1_r, !drop_insert_lt by lia.
  rewrite (take_ge (drop (S idx) es)) by (rewrite length_drop; lia).
  replace (idx + (ENTRIES_LEN - S idx))%nat with (ENTRIES_LEN - 1)%nat by lia.
  rewrite (app_assoc (take idx es)).
  assert (length (take idx es ++ drop (S idx) es) = ENTRIES_LEN - 1)%nat as Hn
    by (rewrite length_app, length_take, length_drop; lia).
  destruct (drop (ENTRIES_LEN - 1) (<[idx:=Empty]> es)) as [|y [|z zs]] eqn:E;
    apply (f_equal length) in E; rewrite length_drop, length_insert in E; cbn [length] in E;
    try (unfold ENTRIES_LEN in *; lia).
  rewrite index_set_ok by (rewrite length_app; cbn [length]; lia).
  rewrite insert_app_r_alt by lia. rewrite Hn, Nat.sub_diag. by rewrite <- app_assoc.
Qed.

(** The first page of a longer list is full. *)
Lemma chain_full_page (us : list range) :
  (ENTRIES_LEN <= length us)%nat ->
  pad (take ENTRIES_LEN us) = to_entries (take ENTRIES_LEN us) /\
  length (to_entries (take ENTRIES_LEN us)) = ENTRIES_LEN.
Proof.
  intros Hl. assert (length (take ENTRIES_LEN us) = ENTRIES_LEN) as Ht by (rewrite length_take; lia).
  split; [by apply pad_full|]. unfold to_entries. by rewrite length_map.
Qed.

(** Putting an element in, seen on the two sides of a cut. *)
Lemma take_put {A} (l1 : list A) x l2 n :
  (length l1 < n)%nat ->
  take n (take (length l1) (take n (l1 ++ l2)) ++ x :: drop (length l1) (take n (l1 ++ l2))) =
  take n (l1 ++ x :: l2).
Proof.
  intros Hn. rewrite take_take, Nat.min_l, take_app_length by lia.
  rewrite (take_app_ge l1 l2), drop_app_length, !take_app_ge by lia. f_equal.
  replace (n - length l1)%nat with (S (n - length l1 - 1)) by lia. cbn [take]. f_equal.
  by rewrite take_take, Nat.min_l by lia.
Qed.

Lemma drop_put {A} (l1 : list A) x l2 n :
  (length l1 < n)%nat -> drop n (l1 ++ x :: l2) = drop (n - 1) (l1 ++ l2).
Proof.
  intros Hn. rewrite !drop_app_ge by lia.
  replace (n - length l1)%nat with (S (n - 1 - length l1)) by lia. done.
Qed.

(** A range goes into a full page, and its last range out of it. *)
Lemma put_page us1 (u : range) us2 :
  (ENTRIES_LEN <= length (us1 ++ us2))%nat -> (length us1 < ENTRIES_LEN)%nat ->
  (es ← copy_within (to_entries (take ENTRIES_LEN (us1 ++ us2)))
     (length us1) (ENTRIES_LEN - 1) (length us1 + 1);
   index_set es (length us1) (Usable u.1 u.2)) = Ret (pad (take ENTRIES_LEN (us1 ++ u :: us2))).
Proof.
  intros Hl Hi. destruct (chain_full_page _ Hl) as [_ Hpl]. rewrite (put_full _ _ _ Hpl Hi). f_equal.
  destruct (chain_full_page (us1 ++ u :: us2)) as [-> _].
  { rewrite length_app in *. cbn [length]. lia. }
  rewrite <- (take_put us1 u us2) by done. generalize (take ENTRIES_LEN (us1 ++ us2)). intros vs.
  unfold to_entries. rewrite <- firstn_map, map_app. cbn [map]. by rewrite firstn_map, skipn_map.
Qed.

(** Taking an element out, seen on the two sides of a cut. *)
Lemma take_out {A} (l1 : list A) x l2 n v :
  (length l1 < n)%nat -> (l1 ++ x :: l2) !! n = Some v ->
  take (length l1) (take n (l1 ++ x :: l2)) ++ drop (S (length l1)) (take n (l1 ++ x :: l2)) ++ [v] =
  take n (l1 ++ l2).
Proof.
  intros Hn Hv. rewrite lookup_app_r in Hv by lia.
  replace (n - length l1)%nat with (S (n - length l1 - 1)) in Hv by lia. cbn in Hv.
  rewrite take_take, Nat.min_l, take_app_length by lia. rewrite !take_app_ge by lia. f_equal.
  rewrite drop_app_ge by lia. replace (S (length l1) - length l1)%nat with 1%nat by lia.
  replace (n - length l1)%nat with (S (n - length l1 - 1)) by lia. cbn [take drop].
  by rewrite (take_S_r _ _ _ Hv).
Qed.

(** A range goes out of a full page, and the next page's first range into it. *)
Lemma out_page us1 (u : range) us2 (v : range) :
  (length us1 < ENTRIES_LEN)%nat -> (us1 ++ u :: us2) !! ENTRIES_LEN = Some v ->
  (es ← index_set (to_entries (take ENTRIES_LEN (us1 ++ u :: us2))) (length us1) Empty;
   es ← copy_within es (length us1 + 1) ENTRIES_LEN (length us1);
   index_set es (ENTRIES_LEN - 1) (Usable v.1 v.2)) = Ret (pad (take ENTRIES_LEN (us1 ++ us2))).
Proof.
  intros Hi Hv. pose proof (lookup_lt_Some _ _ _ Hv) as Hl.
  destruct (chain_full_page (us1 ++ u :: us2)) as [_ Hpl]; [lia|].
  rewrite (remove_full _ _ _ Hpl Hi). f_equal.
  destruct (chain_full_page (us1 ++ us2)) as [-> _].
  { rewrite length_app in *. cbn [length] in Hl. lia. }
  rewrite <- (take_out us1 u us2 _ v) by done.
  generalize (take ENTRIES_LEN (us1 ++ u :: us2)). intros vs. unfold to_entries.
  rewrite !map_app, <- firstn_map, <- skipn_map. done.
Qed.

(** ** Inserting *)

Section chain.
Context `{X86AddrLaws} {M : Type} `{KPages M} (prof : profile).

(** An entry goes in at an index of the first page, the last range of every
    page moves to the front of the next one. *)
Lemma insert_chain self fuel us1 u us2 (m : M) :
  chain_of self (us1 ++ us2) -> (length us1 < ENTRIES_LEN)%nat ->
  (length (us1 ++ us2) < ENTRIES_LEN * length self)%nat -> (length self <= fuel)%nat ->
  exists self', insert_entry prof fuel self (length us1) (Usable u.1 u.2) m = Ret (Ok tt, (self', m)) /\
    chain_of self' (us1 ++ u :: us2) /\ length self' = length self.
Proof.
  revert fuel us1 u us2. induction self as [|p next IH]; intros fuel us1 u us2 Hc Hi Hr Hf; [done|].
  destruct fuel as [|fuel]; [cbn in Hf; lia|]. destruct next as [|q next].
  - destruct Hc as [He Hc]. cbn [length] in Hr. rewrite take_ge in He by lia.
    assert (p = set_entries p (pad (us1 ++ us2))) as -> by (rewrite <- He; by destruct p).
    exists [set_entries p (pad (us1 ++ u :: us2))]. rewrite insert_entry_spec by lia.
    split_and!; [done| |done]. rewrite !length_app in *. cbn [length] in *.
    cbn [chain_of]. rewrite take_ge by (rewrite length_app; cbn [length]; lia).
    split; [done|rewrite length_app; cbn [length]; lia].
  - apply chain_of_cons in Hc as (He & Hl & Hc); [|done].
    destruct (chain_full_page _ Hl) as [Hp Hpl]. rewrite Hp in He.
    destruct (lookup_lt_is_Some_2 (us1 ++ us2) (ENTRIES_LEN - 1)) as [v Hv];
      [unfold ENTRIES_LEN in *; lia|].
    pose proof (drop_S _ _ _ Hv) as Hd.
    replace (S (ENTRIES_LEN - 1)) with ENTRIES_LEN in Hd by (unfold ENTRIES_LEN; lia).
    destruct (IH fuel [] v (drop ENTRIES_LEN (us1 ++ us2)) Hc) as (next' & Hins & Hc' & Hlen);
      [unfold ENTRIES_LEN; cbn; lia|cbn [app]; rewrite length_drop; cbn [length] in *; lia|cbn [length] in *; lia|].
    cbn [insert_entry]. rewrite He.
    rewrite (index_ok _ _ (Usable v.1 v.2)).
    2:{ rewrite <- Hp, pad_lookup, lookup_take_lt, Hv by (unfold ENTRIES_LEN; lia). done. }
    run_ret. cbn [with_next length] in *. rewrite Hins. run_ret.
    pose proof (put_page us1 u us2 Hl Hi) as Hput. rewrite <- He in Hput.
    destruct (copy_within _ _ _ _) as [es| | |]; try discriminate. run_ret.
    cbn [mbind outcome_bind] in Hput. rewrite Hput. run_ret.
    eexists. split_and!; [done| |cbn; lia]. apply chain_of_cons; [by destruct next'|].
    split_and!; [done|rewrite length_app in *; cbn [length]; lia|]. by rewrite drop_put, Hd.
Qed.

Lemma remove_entry_cons p q next idx (m : M) :
  remove_entry (p :: q :: next) idx m =
  ('(end_, (next, m)) ← remove_entry (q :: next) 0 m;
   entry ← index (entries p) idx;
   es ← index_set (entries p) idx Empty;
   es ← copy_within es (idx + 1) ENTRIES_LEN idx;
   match end_ with
   | Empty => s ← remove_entry_page (set_entries p es :: next) m; Ret (entry, s)
   | Usable _ _ => es ← index_set es (ENTRIES_LEN - 1) end_;
                   Ret (entry, (set_entries p es :: next, m))
   end).
Proof.
  change (remove_entry (p :: q :: next) idx m) with
    ('(end_, (next, m)) ← ('(e, s) ← remove_entry (q :: next) 0 m; Ret (Some e, s));
     entry ← index (entries p) idx;
     es ← index_set (entries p) idx Empty;
     es ← copy_within es (idx + 1) ENTRIES_LEN idx;
     match end_ with
     | None => Ret (entry, (set_entries p es :: next, m))
     | Some Empty => s ← remove_entry_page (set_entries p es :: next) m; Ret (entry, s)
     | Some end_ => es ← index_set es (ENTRIES_LEN - 1) end_;
                    Ret (entry, (set_entries p es :: next, m))
     end).
  by destruct (remove_entry (q :: next) 0 m) as [[[|s n] [next' m']]| | |].
Qed.

(** An entry of the first page goes out, the first range of every page moves to
    the end of the page before; the last page has a range to give and room. *)
Lemma remove_chain self us1 u us2 (m : M) :
  chain_of self (us1 ++ u :: us2) -> (length us1 < ENTRIES_LEN)%nat ->
  (ENTRIES_LEN * (length self - 1) < length (us1 ++ u :: us2) < ENTRIES_LEN * length self)%nat ->
  exists self', remove_entry self (length us1) m = Ret (Usable u.1 u.2, (self', m)) /\
    chain_of self' (us1 ++ us2) /\ length self' = length self.
Proof.
  revert us1 u us2. induction self as [|p next IH]; intros us1 u us2 Hc Hi Hr; [done|].
  destruct next as [|q next].
  - destruct Hc as [He Hc]. cbn [length] in Hr. rewrite take_ge in He by lia.
    destruct (remove_entry_single p us1 u us2 m He ltac:(lia)) as (es & Hrem & Hes & _).
    rewrite Hrem. eexists. split_and!; [done| |done]. rewrite Hes by lia.
    rewrite length_app in Hr. cbn [length] in Hr.
    split; [by rewrite take_ge by (rewrite length_app; lia)|rewrite length_app; lia].
  - apply chain_of_cons in Hc as (He & Hl & Hc); [|done].
    destruct (chain_full_page _ Hl) as [Hp Hpl]. rewrite Hp in He. cbn [length] in Hr.
    destruct (lookup_lt_is_Some_2 (us1 ++ u :: us2) ENTRIES_LEN) as [v Hv]; [lia|].
    rewrite (drop_S _ _ _ Hv) in Hc.
    destruct (IH [] v (drop (S ENTRIES_LEN) (us1 ++ u :: us2)) Hc) as (next' & Hrem & Hc' & Hlen).
    { unfold ENTRIES_LEN. cbn. lia. }
    { cbn [app length]. rewrite length_drop. lia. }
    cbn [length] in *. rewrite remove_entry_cons, Hrem. run_ret.
    pose proof (out_page us1 u us2 v Hi Hv) as Hput. rewrite <- He in Hput.
    rewrite (index_ok _ _ (Usable u.1 u.2)).
    2:{ rewrite He, <- Hp, pad_lookup, lookup_take_lt, list_lookup_middle by done. done. }
    run_ret. destruct (index_set _ _ _) as [es| | |]; try discriminate. run_ret.
    cbn [mbind outcome_bind] in Hput.
    destruct (copy_within _ _ _ _) as [es'| | |]; try discriminate. run_ret.
    cbn [mbind outcome_bind] in Hput. rewrite Hput. run_ret.
    eexists. split_and!; [done| |cbn; lia]. apply chain_of_cons; [by destruct next'|].
    split_and!; [done|rewrite length_app in *; cbn [length] in *; lia|].
    rewrite (drop_put us1 u us2) in Hc' by lia. cbn [app] in Hc'.
    by replace (S ENTRIES_LEN - 1)%nat with ENTRIES_LEN in Hc' by lia.
Qed.

(** Putting a range in and taking it out again gives it back and leaves the
    list as it was. *)
Lemma insert_remove_chain self fuel us1 u us2 (m : M) :
  chain_of self (us1 ++ us2) -> (length us1 < ENTRIES_LEN)%nat ->
  (ENTRIES_LEN * (length self - 1) <= length (us1 ++ us2))%nat ->
  (S (length (us1 ++ us2)) < ENTRIES_LEN * length self)%nat -> (length self <= fuel)%nat ->
  exists self', 
    ('(_, (self, m)) ← insert_entry prof fuel self (length us1) (Usable u.1 u.2) m;
     remove_entry self (length us1) m) = Ret (Usable u.1 u.2, (self', m)) /\
    chain_of self' (us1 ++ us2).
Proof.
  intros Hc Hi Hlo Hhi Hf.
  destruct (insert_chain self fuel us1 u us2 m Hc Hi) as (self1 & Hins & Hc1 & Hl1); [lia|done|].
  rewrite Hins. run_ret.
  destruct (remove_chain self1 us1 u us2 m Hc1 Hi) as (self2 & Hrem & Hc2 & _).
  { rewrite Hl1. rewrite !length_app in *. cbn [length]. lia. }
  by exists self2.
Qed.

(** ** Taking pages *)

(** The page of a list of pages that holds a range, and what changing it does. *)
Lemma chain_update p next us1 u v us2 :
  chain_of (p :: next) (us1 ++ u :: us2) -> (length us1 < ENTRIES_LEN)%nat ->
  let vs := take (ENTRIES_LEN - S (length us1)) us2 in
  entries p = pad (us1 ++ u :: vs) /\
  chain_of (set_entries p (pad (us1 ++ v :: vs)) :: next) (us1 ++ v :: us2).
Proof.
  intros Hc Hi vs.
  assert (forall w, take ENTRIES_LEN (us1 ++ w :: us2) = us1 ++ w :: vs) as Ht.
  { intros w. rewrite take_app_ge by lia. f_equal.
    by replace (ENTRIES_LEN - length us1)%nat with (S (ENTRIES_LEN - S (length us1))) by lia. }
  assert (length (us1 ++ v :: us2) = length (us1 ++ u :: us2)) as Hl by by rewrite !length_app.
  destruct Hc as [He Hc]. split; [by rewrite He, Ht|]. split; [by rewrite Ht|].
  destruct next as [|q next]; [by rewrite Hl|]. destruct Hc as [Hf Hc]. rewrite Hl. split; [done|].
  rewrite drop_put in Hc |- * by done. done.
Qed.

(** Going past the first page and back. *)
Lemma chain_skip p next us1 u us2 :
  chain_of (p :: next) (us1 ++ u :: us2) -> (ENTRIES_LEN <= length us1)%nat ->
  exists q next', next = q :: next' /\ entries p = to_entries (take ENTRIES_LEN us1) /\
    chain_of next (drop ENTRIES_LEN us1 ++ u :: us2).
Proof.
  intros Hc Hi. destruct next as [|q next].
  { destruct Hc as [_ Hl]. rewrite length_app in Hl. cbn in Hl. lia. }
  apply chain_of_cons in Hc as (He & Hl & Hc); [|done]. exists q, next.
  destruct (chain_full_page _ Hl) as [Hp _]. rewrite Hp in He.
  rewrite take_app_le in He by lia. by rewrite drop_app_le in Hc by lia.
Qed.

Lemma chain_unskip p next us1 us2 :
  entries p = to_entries (take ENTRIES_LEN us1) -> (ENTRIES_LEN <= length us1)%nat ->
  chain_of next (drop ENTRIES_LEN us1 ++ us2) -> chain_of (p :: next) (us1 ++ us2).
Proof.
  intros He Hi Hc. apply chain_of_cons; [by destruct next|].
  rewrite take_app_le, drop_app_le, length_app, He by lia.
  rewrite pad_full by (rewrite length_take; lia). split_and!; [done|lia|done].
Qed.

Lemma scan_skip f us1 n :
  Forall (fun u => f u.1 u.2 = false) us1 -> scan f (to_entries (take n us1)) = ScanEnd.
Proof.
  intros Hf. unfold scan. rewrite <- (app_nil_r (to_entries _)), scan_from_app; [done|].
  by apply Forall_take.
Qed.

Lemma alloc_chain self us1 start n us2 k (m : M) :
  let us := us1 ++ (start, n) :: us2 in
  chain_of self us -> (n = k -> chain_room self us) -> Forall (fun u => u.1 <> start) us1 ->
  kernel_range (start, n) -> 0 < n -> 0 <= k <= n ->
  exists self', alloc_pages prof self start k m = Ret (self', m) /\
    chain_of self' (us1 ++ rest (start, n) k ++ us2).
Proof.
  revert us1. induction self as [|p next IH]; intros us1 us Hc Hr Hf Hs Hn Hk; [done|].
  cbn [alloc_pages]. destruct (decide (length us1 < ENTRIES_LEN)%nat) as [Hi|Hi].
  - destruct (chain_update p next us1 (start, n) (start + k * 0x1000, n - k) us2 Hc Hi) as [He Hc'].
    cbv zeta in He, Hc'. rewrite He.
    rewrite scan_pad_hit by (lia || (eapply Forall_impl; [|exact Hf]; cbn; lia)).
    unfold rest. cbn [fst snd] in *. destruct (n =? k) eqn:Ek.
    + destruct (remove_chain (p :: next) us1 (start, n) us2 m Hc Hi) as (self' & Hrem & Hc'' & _).
      { fold us. destruct (Hr ltac:(lia)) as [Hr1 Hr']. split; [|done]. destruct next as [|q next]; [|apply Hr'; cbn; lia].
        unfold us. rewrite length_app. cbn [length]. lia. }
      rewrite Hrem. run_ret. by exists self'.
    + destruct Hs as [Hs1 Hs2]. unfold range_end in Hs2. cbn [fst snd] in *.
      assert (n < 2 ^ 52).
      { revert Hs2 Hs1. rewrite bump_limit_value, allocator_start_value, allocator_end_value. lia. }
      rewrite !arith_ok by lia. run_ret. rewrite va_add_law by (try apply bump_canonical; lia). run_ret.
      rewrite index_set_ok.
      2:{ rewrite pad_length; rewrite ?length_app; cbn [length]; rewrite ?length_take; lia. }
      run_ret. rewrite pad_insert. by eexists.
  - destruct (chain_skip p next us1 (start, n) us2 Hc ltac:(lia)) as (q & next' & -> & He & Hc').
    rewrite He, scan_skip by (eapply Forall_impl; [|exact Hf]; cbn; lia).
    assert (length us = ENTRIES_LEN + length (drop ENTRIES_LEN us1 ++ (start, n) :: us2))%nat as Hlen.
    { unfold us. rewrite !length_app, length_drop. cbn [length]. lia. }
    destruct (IH (drop ENTRIES_LEN us1)) as (self' & Ha & Hca); try done.
    { intros He'. destruct (Hr He'). split; cbn [length] in *; lia. }
    { by apply Forall_drop. }
    rewrite Ha. run_ret. exists (p :: self'). split; [done|]. apply chain_unskip; (done || lia).
Qed.

(** Giving back pages in front of a free range, on whatever page it is. *)
Lemma dealloc_chain self us1 s n us2 start k (m : M) :
  let us := us1 ++ (s, n) :: us2 in
  chain_of self us -> Forall (fun u => u.1 < start) us1 -> start + k * 0x1000 = s ->
  kernel_range (start, n + k) -> 0 < n -> 0 < k ->
  exists self', dealloc_pages prof self start k m = Ret (Ok tt, (self', m)) /\
    chain_of self' (us1 ++ (start, n + k) :: us2) /\ length self' = length self.
Proof.
  revert us1. induction self as [|p next IH]; intros us1 us Hc Hf Hs Hr Hn Hk; [done|].
  cbn [dealloc_pages]. destruct (decide (length us1 < ENTRIES_LEN)%nat) as [Hi|Hi].
  - destruct (chain_update p next us1 (s, n) (start, n + k) us2 Hc Hi) as [He Hc']. cbv zeta in He, Hc'.
    destruct Hr as [Hr1 Hr2]. unfold range_end in Hr2. cbn [fst snd] in *.
    assert (n + k < 2 ^ 52).
    { revert Hr1 Hr2. rewrite bump_limit_value, allocator_start_value, allocator_end_value. lia. }
    rewrite He, scan_pad_hit by (lia || (eapply Forall_impl; [|exact Hf]; cbn; lia)).
    rewrite !arith_ok by lia. run_ret. rewrite va_add_law by (try apply bump_canonical; lia). run_ret.
    rewrite Hs, Z.eqb_refl, index_set_ok.
    2:{ rewrite pad_length; rewrite ?length_app; cbn [length]; rewrite ?length_take; lia. }
    run_ret. rewrite pad_insert. by eexists.
  - destruct (chain_skip p next us1 (s, n) us2 Hc ltac:(lia)) as (q & next' & -> & He & Hc').
    rewrite He, scan_skip by (eapply Forall_impl; [|exact Hf]; cbn; lia).
    destruct (IH (drop ENTRIES_LEN us1)) as (self' & Ha & Hca & Hl); try done; [by apply Forall_drop|].
    rewrite Ha. run_ret. exists (p :: self'). split_and!; [done| |cbn [length] in *; lia].
    apply chain_unskip; (done || lia).
Qed.

(** Taking a part of a range and giving it back leaves the list as it was, over
    any number of pages. *)
Theorem alloc_dealloc_chain self us1 start n us2 k (m : M) :
  let us := us1 ++ (start, n) :: us2 in
  chain_of self us -> ranges_ok us -> kernel_range (start, n) -> 0 < k < n ->
  exists self1 self2, alloc_pages prof self start k m = Ret (self1, m) /\
    dealloc_pages prof self1 start k m = Ret (Ok tt, (self2, m)) /\ chain_of self2 us.
Proof.
  intros us Hc [Hsorted _] Hkr Hk. apply ranges_sorted_below in Hsorted.
  destruct (alloc_chain self us1 start n us2 k m Hc) as (self1 & Ha & Hc1); try (done || lia).
  { eapply Forall_impl; [|exact Hsorted]. cbn. lia. }
  unfold rest in Hc1. cbn [fst snd] in Hc1. replace (n =? k) with false in Hc1 by lia. cbn [app] in Hc1.
  destruct (dealloc_chain self1 us1 (start + k * 0x1000) (n - k) us2 start k m)
    as (self2 & Hd & Hc2 & _); try (done || lia).
  { by replace (n - k + k) with n by lia. }
  exists self1, self2. replace (n - k + k) with n in Hc2 by lia. done.
Qed.

(** C26: [allocate] over a chain of entry pages is first fit on the one list of
    free ranges the chain holds: it fails without a change when no range is large
    enough, and else cuts the first large enough range, whose pages were free, and
    maps them; the rest stays free, in order and in the list of pages.  Where a
    range fits exactly, and is taken out, the last page of the chain must not be
    full, nor empty when it is not the only one ([chain_room]): on other chains
    [remove_entry] leaves a range in the list twice. *)
Theorem allocate_first_fit self us size (m : M) :
  let k := div_ceil size 4096 in
  chain_of self us -> ((exists s, (s, k) ∈ us) -> chain_room self us) ->
  ranges_ok us -> Forall kernel_range us -> 0 <= size ->
  match take_first us k with
  | None => allocate prof self size m = Ret (Err alloc_error, (self, m))
  | Some (addr, us') => exists self',
      allocate prof self size m =
        (_ ← kp_ready m;
         '(r, m) ← kp_alloc_all (page_addrs addr k) m;
         Ret (match r with Ok _ => Ok addr | Err e => Err e end, (self', m))) /\
      chain_of self' us' /\ ranges_ok us' /\ Forall kernel_range us' /\
      forall a, (addr <= a < addr + k * 0x1000 -> covers us a) /\
        (covers us' a <-> covers us a /\ ~ addr <= a < addr + k * 0x1000)
  end.
Proof.
  intros k Hc Hr Hok Hk Hsize. pose proof (div_ceil_size size Hsize) as Hk0. fold k in Hk0.
  pose proof (take_first_split us k) as Ht. pose proof (find_free_chain _ _ k Hc) as Hff.
  unfold allocate. cbv zeta. fold k.
  replace (init_or_get prof self m) with (Ret (Ok tt, (self, m)) : outcome (result unit AllocError * _))
    by by destruct self.
  run_ret. destruct (take_first us k) as [[addr us']|]; rewrite Hff; [|by rewrite Ht].
  destruct Ht as (us1 & n & us2 & -> & -> & Hn & ->).
  pose proof Hk as (Hk1 & (Hkn & Hk2)%Forall_cons_iff)%Forall_app.
  pose proof Hok as (_ & (Hu & _ & _)%ranges_ok_cons & _)%ranges_ok_app.
  pose proof (proj1 Hu) as Hn0. cbn [fst snd] in Hn0.
  pose proof Hkn as [Hs He]. unfold range_end in He. cbn [fst snd] in Hs, He.
  destruct (alloc_chain self us1 addr n us2 k m Hc) as (self' & Ha & Hc'); [| |done|lia..|].
  { intros ->. apply Hr. exists addr. apply elem_of_app. right. by left. }
  { destruct Hok as [Hsorted _]. apply ranges_sorted_below in Hsorted.
    eapply Forall_impl; [|exact Hsorted]. cbn. lia. }
  destruct (ranges_take us1 addr n us2 k Hok) as (Hok' & _ & Hcov);
    [lia|apply bump_canonical; lia|].
  exists self'. rewrite Ha. run_ret. rewrite map_pages_spec by lia.
  rewrite Z2Nat.id, Z.add_0_r by done. split_and!; [|done..| |].
  - destruct (kp_ready m); run_ret; [|done..].
    destruct (kp_alloc_all (page_addrs addr k) m) as [[[[]|e] m']| | |]; run_ret; try done.
    replace (addr =? 0) with false by (rewrite allocator_start_value in Hs; lia). done.
  - rewrite !Forall_app. split_and!; [done| |done]. unfold rest, kernel_range, range_end.
    destruct (_ =? _); repeat constructor; cbn; lia.
  - intros a. split; [|apply Hcov]. intros Haddr. apply covers_put. right.
    unfold range_end. cbn. lia.
Qed.
End chain.

(** ** Examples *)

(** Single free pages, each with the page behind it in use. *)
Fixpoint spread (base : Z) (n : nat) : list range :=
  match n with
  | O => []
  | S n => (base, 1) :: spread (base + 0x2000) n
  end.

Lemma spread_ok `{X86AddrLaws} base n :
  ALLOCATOR_START <= base -> base + 0x2000 * Z.of_nat n <= bump_limit ->
  ranges_ok (spread base n) /\ Forall kernel_range (spread base n) /\
  Forall (fun u => base <= u.1) (spread base n).
Proof.
  revert base. induction n as [|n IH]; intros base Hb Hl.
  { split_and!; [split; [exact I|constructor]|constructor..]. }
  destruct (IH (base + 0x2000)) as (H1 & H2 & H3); [lia..|]. cbn [spread].
  assert (Forall (fun u => range_end (base, 1) <= u.1) (spread (base + 0x2000) n)) as Hab.
  { eapply Forall_impl; [|exact H3]. unfold range_end. cbn. lia. }
  split_and!.
  - apply ranges_ok_cons. split_and!; [|done..]. unfold range_ok, range_end. cbn.
    split_and!; [lia|apply bump_canonical; lia..].
  - constructor; [|done]. unfold kernel_range, range_end. cbn. lia.
  - constructor; [cbn; lia|]. eapply Forall_impl; [|exact H3]. cbn. lia.
Qed.

(** 172 ranges in two pages. *)
Definition chain_start : Z := 0xffffc90000100000.
Definition two_pages (n : nat) : list FPAInner :=
  let us := spread chain_start n in
  [mkFPAInner 0xffffc90000000000 (pad (take ENTRIES_LEN us)) None;
   mkFPAInner 0xffffc90000001000 (pad (drop ENTRIES_LEN us)) (Some 0xffffc90000000000)].

Lemma allocate_first_fit_witness :
  exists self', @allocate x86_model _ list_kpages Debug (two_pages 172) 4000 [] =
      Ret (Ok chain_start, (self', [chain_start])) /\
    chain_of self' (List.tl (spread chain_start 172)).
Proof.
  destruct (@spread_ok x86_model x86_model_laws chain_start 172) as (Hok & Hk & _);
    [vm_compute; congruence..|].
  destruct (@allocate_first_fit x86_model x86_model_laws (list Z) list_kpages Debug
    (two_pages 172) (spread chain_start 172) 4000 []) as (self' & Ha & Hc & _).
  - vm_compute. repeat split; lia.
  - intros _. vm_compute. lia.
  - exact Hok.
  - exact Hk.
  - lia.
  - exists self'. split; [exact Ha|exact Hc].
Defined.

(** A second page left empty: the next range used up leaves the last one of the
    first page in the list twice, and frees the second page. *)
Example empty_page_duplicates :
  match @alloc_pages x86_model _ list_kpages Debug (two_pages 170) chain_start 1 [0xffffc90000001000] with
  | Ret ([p], []) => entries p !! 168%nat = entries p !! 169%nat /\
      entries p !! 169%nat = Some (Usable (chain_start + 0x2000 * 169) 1)
  | _ => False
  end.
Proof. vm_compute. split; reflexivity. Qed.
