(* ===== verification/MemoryStack.v ===== *)
(** * memory/: the frames behind an allocation

    The page allocator over [alloc_kpage] over the bitmap frame allocator: which
    physical frames stand behind the pages of a block of memory, as long as the
    frame allocator does not repeat a frame. *)

From Stdlib Require Import ZArith Lia ZifyBool.
From stdpp Require Import base list numbers.
From S2P Require Import Prelude Layout Frame Kpage PageAlloc.

Local Open Scope Z_scope.

Section stack.
Context `{X86AddrLaws} {PT : Type} `{PageTableLaws PT} (prof : profile).
Context (r : MemoryRegion) (rs : list MemoryRegion).

#[local] Existing Instance memory_kpages.
#[local] Abbreviation memory pt a := (mkMemory (Some pt) (Some a)).

(** The page tables are in order and use no frame of the region from [m] on. *)
Definition pages_fresh (m : Z) (pt : PT) : Prop :=
  pt_wf pt /\ forall g, m <= g < region_frames r -> ~ in_use pt (region_frame r g).

(** The frames that mapping a page takes, while they are below frame 65: the next
    one for the page and those behind it for tables. *)
Lemma next_unused m (pt : PT) a :
  frames_ready r rs m a -> m + 3 <= 64 -> pages_fresh m pt ->
  exists a1 a4, bitmap_allocate_frame prof a = Ret (Some (region_frame r m), a1) /\
    frames_ready r rs (m + 1) a1 /\
    @allocate_frames _ (bitmap_frame_allocator prof) 3 a1 =
      Ret (map Some (map (region_frame r) [m + 1; m + 2; m + 3]), a4) /\
    fresh (in_use pt) (Some (region_frame r m) :: map Some (map (region_frame r) [m + 1; m + 2; m + 3])).
Proof.
  intros Ha Hm Hf. pose proof Ha as (_ & _ & _ & _ & Hn & H1m & _).
  destruct (allocate_frame_ready prof m a r rs Ha) as (a1 & Ha1 & Hr1).
  replace (Z.max m (Z.min m 64 + 1)) with (m + 1) in Hr1 by lia. rewrite Z.min_l in Ha1 by lia.
  destruct (allocate_frames_ready prof 3 _ a1 r rs Hr1) as (a4 & Ha4 & _).
  exists a1, a4. split_and!; [done..| |].
  - rewrite Ha4. cbn [map seq]. unfold region_frame. rewrite !Z.min_l by lia. do 2 f_equal.
    repeat (f_equal; try lia).
  - apply (region_fresh r (in_use pt) [m; m + 1; m + 2; m + 3]).
    + rewrite !list.NoDup_cons, !elem_of_cons, !elem_of_nil. split_and!; [lia..|constructor].
    + intros g Hg. apply Hf. rewrite !elem_of_cons, elem_of_nil in Hg. lia.
Qed.

(** Mapping a page: a free page gets the next frame, and at most three more are
    taken for tables; a page that is not free makes [alloc_kpage] panic. *)
Lemma kp_alloc_ready m (pt : PT) a va :
  frames_ready r rs m a -> m + 3 <= 64 -> pages_fresh m pt ->
  (exists pt' a' m',
     @kp_alloc _ (memory_kpages prof) (memory pt a) va = Ret (Ok tt, memory pt' a') /\
     frames_ready r rs m' a' /\ m + 1 <= m' <= m + 4 /\ pages_fresh m' pt' /\
     mapped pt' (page_containing va) = Some (region_frame r m) /\
     (forall page, page <> page_containing va -> mapped pt' page = mapped pt page) /\
     forall page, huge pt' page = huge pt page) \/
  @kp_alloc _ (memory_kpages prof) (memory pt a) va = Panic /\
    (mapped pt (page_containing va) <> None \/ huge pt (page_containing va) = true).
Proof.
  intros Ha Hm Hf. destruct (next_unused m pt a Ha Hm Hf) as (a1 & a4 & Ha1 & Hr1 & Ha4 & Hfresh).
  destruct (map_to_law _ (bitmap_frame_allocator prof) pt (page_containing va) _ a1 _ a4 (proj1 Hf) Ha4 Hfresh)
    as (r1 & pt' & k & a' & Hk & Hmap & Hk' & Hwf' & Ho & Hh & Hr').
  assert (@kp_alloc _ (memory_kpages prof) (memory pt a) va =
    match r1 with Ok _ => Ret (Ok tt, memory pt' a') | Err _ => Panic end) as Hkp.
  { cbn [kp_alloc memory_kpages FRAME_ALLOCATOR PAGE_TABLE unwrap mbind outcome_bind].
    unfold alloc_kpage. cbn [allocate_frame bitmap_frame_allocator]. rewrite Ha1.
    cbn [mbind outcome_bind]. cbv zeta. rewrite Hmap. by destruct r1. }
  rewrite Hkp. destruct r1 as [[]|[]].
  2:{ right. split; [done|]. destruct Hr' as (_ & _ & [?|[?|Hn]]); [tauto..|].
      cbn [map] in Hn. rewrite !elem_of_cons, elem_of_nil in Hn. by destruct Hn as [?|[?|[?|?]]]. }
  left. destruct Hr' as (_ & Hp & Hu).
  destruct (allocate_frames_ready prof k _ a1 r rs Hr1) as (a'' & Ha'' & Hra').
  rewrite Hk' in Ha''. injection Ha'' as _ <-.
  exists pt', a', (m + 1 + Z.of_nat k). pose proof Ha as (_ & _ & _ & _ & _ & H1m & _).
  replace (Z.max (m + 1) (Z.min (m + 1 + Z.of_nat k) 65)) with (m + 1 + Z.of_nat k) in Hra' by lia.
  split_and!; try (done || lia). split; [done|]. intros g Hg. rewrite Hu.
  intros [Hin|[Heq|Hin]]; [by apply (proj2 Hf g); [lia|]|unfold region_frame in Heq; lia|].
  destruct k as [|[|[|[|k]]]]; [..|lia]; cbn in Hin;
    rewrite ?elem_of_cons, elem_of_nil in Hin; unfold region_frame in Hin;
    repeat destruct Hin as [[= Hin]|Hin]; (done || lia).
Qed.

(** While there is room below frame 65, pages are mapped with unused frames. *)
Lemma memory_room_ready n m (pt : PT) a :
  frames_ready r rs m a -> m + 4 * Z.of_nat n <= 65 -> pages_fresh m pt ->
  memory_room prof n (memory pt a).
Proof.
  revert m pt a. induction n as [|n IH]; intros m pt a Ha Hm Hf; (split; [apply Hf|]); [done|].
  split_and!.
  - intros al [= <-] pt1 frame al1 [= <-] Hal. cbn [allocate_frame bitmap_frame_allocator] in Hal.
    destruct (next_unused m pt a Ha ltac:(lia) Hf) as (a1 & a4 & Ha1 & _ & Ha4 & Hfresh).
    rewrite Ha1 in Hal. injection Hal as <- <-. eauto.
  - apply (IH m); (done || lia).
  - intros va r0 m' Hr.
    destruct (kp_alloc_ready m pt a va Ha ltac:(lia) Hf)
      as [(pt' & a' & m1 & Hkp & Ha' & Hm1 & Hf' & _)|[Hkp _]]; rewrite Hkp in Hr; [|done].
    injection Hr as <- <-. apply (IH m1); (done || lia).
Qed.

(** Frame numbers as pages take them one after the other. *)
Definition rising (m : Z) (ns : list Z) : Prop :=
  (forall i n, ns !! i = Some n -> m <= n <= 64) /\
  forall i j n n', ns !! i = Some n -> ns !! j = Some n' -> (i < j)%nat -> n < n'.

Lemma rising_cons m m' ns : m < m' -> m <= 64 -> rising m' ns -> rising m (m :: ns).
Proof.
  intros Hm Hle [Hlow Hup]. split.
  - intros [|i] n Hi; [injection Hi as <-; lia|]. specialize (Hlow i n Hi). lia.
  - intros [|i] [|j] n n' Hi Hj Hlt; cbn in Hi, Hj; [lia| |lia|].
    + injection Hi as <-. specialize (Hlow j n' Hj). lia.
    + apply (Hup i j n n'); (done || lia).
Qed.

Lemma kp_alloc_all_ready ps m (pt : PT) a :
  frames_ready r rs m a -> m + 4 * Z.of_nat (length ps) <= 65 -> pages_fresh m pt -> NoDup ps ->
  Forall (fun p => page_containing p = p /\ mapped pt p = None /\ huge pt p = false) ps ->
  exists pt' a' ns,
    @kp_alloc_all _ (memory_kpages prof) ps (memory pt a) = Ret (Ok tt, memory pt' a') /\
    Forall2 (fun p n => mapped pt' p = Some (region_frame r n)) ps ns /\ rising m ns /\
    forall page, page ∉ ps -> mapped pt' page = mapped pt page.
Proof.
  revert m pt a. induction ps as [|p ps IH]; intros m pt a Ha Hle Hf Hnd Hps.
  { exists pt, a, []. by split_and!. }
  apply list.NoDup_cons in Hnd as [Hp Hnd]. apply Forall_cons_iff in Hps as [(Hpp & Hpm & Hph) Hps].
  cbn [length] in Hle.
  destruct (kp_alloc_ready m pt a p Ha ltac:(lia) Hf)
    as [(pt1 & a1 & m1 & Hr1 & Ha1 & Hm1 & Hf1 & Hpt1 & Ho1 & Hh1)|[_ [Hc|Hc]]];
    [|by rewrite Hpp in Hc|by rewrite Hpp, Hph in Hc].
  rewrite Hpp in Hpt1, Ho1.
  destruct (IH m1 pt1 a1 Ha1 ltac:(lia) Hf1 Hnd) as (pt' & a' & ns & Hr & Hfa & Hris & Ho).
  { rewrite list.Forall_forall in *. intros q Hq. destruct (Hps q Hq) as (? & ? & ?).
    rewrite Hh1. split_and!; [done| |done]. rewrite Ho1; [done|]. by intros ->. }
  exists pt', a', (m :: ns). split_and!.
  - cbn [kp_alloc_all]. rewrite Hr1. cbn [mbind outcome_bind]. exact Hr.
  - constructor; [|done]. by rewrite Ho.
  - apply (rising_cons m m1); [lia..|done].
  - intros page [? ?]%not_elem_of_cons. rewrite Ho, Ho1; done.
Qed.

Lemma page_addrs_elem addr k p :
  p ∈ page_addrs addr k <-> exists i, 0 <= i < k /\ p = addr + i * 0x1000.
Proof.
  unfold page_addrs. rewrite list_elem_of_In, in_map_iff. split.
  - intros (i & <- & Hi%in_seq). exists (Z.of_nat i). lia.
  - intros (i & Hi & ->). exists (Z.to_nat i). split; [lia|]. apply in_seq. lia.
Qed.

Lemma page_addrs_NoDup addr k : NoDup (page_addrs addr k).
Proof.
  unfold page_addrs. apply (NoDup_fmap_2_strong (fun i => addr + 0x1000 * Z.of_nat i)).
  - intros i j _ _ Hij. lia.
  - apply NoDup_ListNoDup, List.seq_NoDup.
Qed.

(** C20: the physical memory behind a block of pages.  With the first [m] frames of
    the region in use and room below frame 65 for the pages of the block and three
    tables each, an allocation succeeds: each page of the block is mapped to a frame
    of its own, which was unused, the numbers rising with the pages, and no other
    page is touched. *)
Theorem block_frames (b : bump) (size m : Z) (pt : PT) (a : BitmapFrameAllocator) :
  bump_wf b -> 0 < size -> div_ceil size 4096 <= b.2 ->
  frames_ready r rs m a -> m + 4 * div_ceil size 4096 <= 65 -> pages_fresh m pt ->
  (forall i, 0 <= i < div_ceil size 4096 ->
     mapped pt (b.1 + i * 0x1000) = None /\ huge pt (b.1 + i * 0x1000) = false) ->
  exists s pt' a' (frame : Z -> Z),
    @allocate _ _ (memory_kpages prof) prof (bump_repr b) size (memory pt a) =
      Ret (Ok b.1, (s, memory pt' a')) /\
    (forall i, 0 <= i < div_ceil size 4096 ->
       mapped pt' (b.1 + i * 0x1000) = Some (region_frame r (frame i)) /\
       m <= frame i <= 64 /\ ~ in_use pt (region_frame r (frame i))) /\
    (forall i j, 0 <= i < j -> j < div_ceil size 4096 -> frame i < frame j) /\
    forall page, page ∉ page_addrs b.1 (div_ceil size 4096) -> mapped pt' page = mapped pt page.
Proof.
  intros Hb Hsize Hroom Ha Hm Hf Hfree. pose proof (proj1 (div_ceil_bounds size)) as Hk.
  set (k := div_ceil size 4096) in *.
  destruct (kp_alloc_all_ready (page_addrs b.1 k) m pt a Ha) as (pt' & a' & ns & Hr & Hfa & Hris & Ho).
  { unfold page_addrs. rewrite length_map, length_seq. lia. }
  { done. }
  { apply page_addrs_NoDup. }
  { apply list.Forall_forall. intros p (i & Hi & ->)%page_addrs_elem. split; [|by apply Hfree].
    destruct Hb as (_ & Hs & Hal & Hl).
    rewrite page_containing_law by (apply bump_canonical; lia).
    rewrite Z.div_add by lia. pose proof (Z.div_mod b.1 4096). lia. }
  assert (forall i, 0 <= i < k -> page_addrs b.1 k !! Z.to_nat i = Some (b.1 + i * 0x1000)) as Hat.
  { intros i Hi. unfold page_addrs. rewrite list_lookup_fmap, lookup_seq_lt by lia. cbn. f_equal. lia. }
  assert (forall i, 0 <= i < k -> exists n, ns !! Z.to_nat i = Some n /\
    mapped pt' (b.1 + i * 0x1000) = Some (region_frame r n)) as Hns.
  { intros i Hi. by apply (Forall2_lookup_l _ _ _ _ _ Hfa), Hat. }
  exists (bump_repr (b.1 + k * 0x1000, b.2 - k)), pt', a', (fun i => default 0 (ns !! Z.to_nat i)).
  split_and!; [| | |done].
  - rewrite (@allocate_bump _ _ _ (memory_kpages prof)) by (done || lia). fold k. unfold bump_allocate, bump_take.
    replace ((b.2 =? 0) || (b.2 <? k)) with false by lia.
    cbn [kp_ready memory_kpages FRAME_ALLOCATOR unwrap mbind outcome_bind]. by rewrite Hr.
  - intros i Hi. destruct (Hns i Hi) as (n & Hn & Hp). rewrite Hn. cbn.
    pose proof (proj1 Hris _ _ Hn). destruct Ha as (_ & _ & _ & _ & ? & _).
    split_and!; [done|lia..|]. apply Hf. lia.
  - intros i j Hi Hj. destruct (Hns i ltac:(lia)) as (n & Hn & _), (Hns j ltac:(lia)) as (n' & Hn' & _).
    rewrite Hn, Hn'. cbn. apply (proj2 Hris (Z.to_nat i) (Z.to_nat j)); (done || lia).
Qed.
End stack.

(** ** Example *)

Lemma booted_ready : frames_ready (mkRegion 0x100000 0x200000 true) [] 12 booted.
Proof.
  split_and!; [exact booted_words|cbn; lia|reflexivity|apply one_region_ok|vm_compute; reflexivity|lia|].
  exact booted_prefix.
Qed.

Lemma empty_fresh m : pages_fresh (mkRegion 0x100000 0x200000 true) m (mkSmall [] []).
Proof. split; [exact I|]. intros g _ [[? [=]]|[? [=]]]. Qed.

(** A block of 13 pages with twelve frames in use. *)
Lemma block_frames_witness :
  exists s (pt' : small_table) a' (frame : Z -> Z),
    @allocate x86_model _ (@memory_kpages x86_model _ small_page_table Debug) Debug
        (@bump_repr x86_model (0xffffc90000002000, bump_pages - 1)) (13 * 4096)
        (mkMemory (Some (mkSmall [] [])) (Some booted)) =
      Ret (Ok 0xffffc90000002000, (s, mkMemory (Some pt') (Some a'))) /\
    (forall i, 0 <= i < div_ceil (13 * 4096) 4096 ->
       flat_lookup (st_pages pt') (0xffffc90000002000 + i * 0x1000) = Some (0x100000 + 4096 * frame i) /\
       12 <= frame i <= 64 /\ ~ small_in_use (mkSmall [] []) (0x100000 + 4096 * frame i)) /\
    (forall i j, 0 <= i < j -> j < div_ceil (13 * 4096) 4096 -> frame i < frame j) /\
    forall page, page ∉ page_addrs 0xffffc90000002000 (div_ceil (13 * 4096) 4096) ->
      flat_lookup (st_pages pt') page = None.
Proof.
  refine (@block_frames x86_model x86_model_laws small_table small_page_table small_page_table_laws
    Debug (mkRegion 0x100000 0x200000 true) [] (0xffffc90000002000, bump_pages - 1) (13 * 4096) 12
    (mkSmall [] []) booted _ _ _ booted_ready _ (empty_fresh 12) _).
  - vm_compute. repeat split; discriminate.
  - lia.
  - vm_compute. discriminate.
  - vm_compute. discriminate.
  - intros i _. split; reflexivity.
Defined.

(** The kernel's memory meets the condition of [allocate_maps_range]. *)
Example booted_room :
  @kp_room x86_model _ _ (@memory_kpages_laws x86_model small_table small_page_table _ Debug) 13
    (mkMemory (Some (mkSmall [] [])) (Some booted)).
Proof.
  apply (memory_room_ready Debug (mkRegion 0x100000 0x200000 true) [] 13 12);
    [exact booted_ready|cbn; lia|exact (empty_fresh 12)].
Qed.
