(* ===== verification/Bucket.v ===== *)
(** * memory/allocator/mod.rs: the kernel allocator

    Nine lists of buckets, one for each block size from 8 to 2048 bytes, with
    the page allocator below.  A list of buckets linked through [next] is a Rocq
    list; [None] is []. *)

From Stdlib Require Import ZArith Lia ZifyBool.
From stdpp Require Import base list numbers.
From S2P Require Import Prelude Layout Frame Kpage PageAlloc.

Local Open Scope Z_scope.

(** ** What the buckets need of [PAGE_ALLOCATOR] *)

(** [Allocator::allocate] for a layout of [size] bytes and [deallocate]. *)
Class PageAllocator (P : Type) := {
  pg_allocate : P -> Z -> outcome (result Z AllocError * P);
  pg_deallocate : P -> Z -> Z -> outcome P
}.

#[export] Instance full_page_allocator `{X86Addr} {M} `{KPages M} (prof : profile)
    : PageAllocator (FullPageAllocator * M) := {|
  pg_allocate p size := allocate prof p.1 size p.2;
  pg_deallocate p ptr size := m ← deallocate prof ptr size p.2; Ret (p.1, m)
|}.

(** Its promise: an allocation is a range of whole pages in the allocator's
    region, none of which was ever handed out before. *)
Class PageAllocatorLaws `{X86Addr} (P : Type) `{PageAllocator P} := {
  pg_wf : P -> Prop;
  pg_taken : P -> Z -> Prop;
  pg_allocate_law : forall p size r p',
    pg_wf p -> 0 <= size -> pg_allocate p size = Ret (r, p') ->
    pg_wf p' /\ (forall a, pg_taken p a -> pg_taken p' a) /\
    match r with
    | Ok addr =>
        addr mod 4096 = 0 /\ ALLOCATOR_START + 4096 <= addr /\
        addr + div_ceil size 4096 * 4096 <= bump_limit /\
        forall i, 0 <= i < div_ceil size 4096 ->
          ~ pg_taken p (addr + i * 4096) /\ pg_taken p' (addr + i * 4096)
    | Err _ => True
    end;
  pg_deallocate_law : forall p ptr size p',
    pg_wf p -> pg_deallocate p ptr size = Ret p' ->
    pg_wf p' /\ (forall a, pg_taken p a -> pg_taken p' a)
}.

(** The full page allocator keeps it: taken is what lies below the free range. *)
Definition free_low `{X86Addr} (self : FullPageAllocator) : Z :=
  match self with
  | [] => ALLOCATOR_START + 0x1000
  | fpa :: _ =>
      match entries fpa with
      | Usable s _ :: _ => s
      | _ => bump_limit
      end
  end.

Lemma free_low_repr `{X86Addr} ob : obump_wf ob -> free_low (obump_repr ob) = obump_low ob.
Proof.
  destruct ob as [[s n]|]; [|done]. intros (_ & _ & _ & Hl). cbn in *. unfold bump_entry. cbn.
  destruct (n =? 0) eqn:E; [lia|done].
Qed.

#[export, refine] Instance full_page_allocator_laws `{X86AddrLaws} {M} `{KPages M}
    (prof : profile) :
  @PageAllocatorLaws _ (FullPageAllocator * M) (full_page_allocator prof) := {|
  pg_wf p := exists ob, obump_wf ob /\ p.1 = obump_repr ob;
  pg_taken p a := a < free_low p.1
|}.
Proof.
- intros [self m] size r [self' m'] (ob & Hwf & Heq) Hs Hr. cbn in Hr. cbn [fst] in *. subst self.
  assert (forall b (m1 : M), bump_wf b -> obump_low ob <= b.1 ->
    allocate prof (bump_repr b) size m1 = Ret (r, (self', m')) ->
    exists b', bump_wf b' /\ self' = bump_repr b' /\ b.1 <= b'.1 /\
      match r with Ok addr => addr = b.1 /\ b'.1 = addr + div_ceil size 4096 * 0x1000 | Err _ => True end)
    as Hstep.
  { intros b m1 Hb Hle Ha. rewrite allocate_bump in Ha by done.
    destruct (bump_allocate b (div_ceil size 4096) m1) as [[r1 [b' m1']]| | |] eqn:Eb; try discriminate.
    injection Ha as <- <- <-. exists b'.
    destruct (bump_allocate_spec _ _ _ _ _ _ (div_ceil_size _ Hs) Hb Eb) as (? & ? & ?). done. }
  assert (forall b b', bump_wf b -> bump_wf b' -> self' = bump_repr b' -> b.1 <= b'.1 ->
    obump_low ob <= b.1 ->
    match r with Ok addr => addr = b.1 /\ b'.1 = addr + div_ceil size 4096 * 0x1000 | Err _ => True end ->
    (exists ob, obump_wf ob /\ self' = obump_repr ob) /\
    (forall a, a < free_low (obump_repr ob) -> a < free_low self') /\
    match r with
    | Ok addr => addr mod 4096 = 0 /\ ALLOCATOR_START + 4096 <= addr /\
        addr + div_ceil size 4096 * 4096 <= bump_limit /\
        forall i, 0 <= i < div_ceil size 4096 ->
          ~ addr + i * 4096 < free_low (obump_repr ob) /\ addr + i * 4096 < free_low self'
    | Err _ => True
    end) as Hdone.
  { intros b b' Hb Hb' -> Hle Hlow Hres.
    change (bump_repr b') with (obump_repr (Some b')). rewrite !free_low_repr by done.
    cbn [obump_low]. split_and!; [by exists (Some b')|lia|].
    destruct r as [addr|]; [|done]. destruct Hres as [-> He].
    destruct Hb as (_ & ? & ? & _), Hb' as (? & _ & _ & ?). split_and!; try (done || lia). }
  destruct ob as [b|].
  + destruct (Hstep b m Hwf ltac:(simpl; lia) Hr) as (b' & ? & ? & ? & ?).
    apply (Hdone b b'); try done.
  + change (obump_repr None) with page_allocator_new in Hr. rewrite allocate_first in Hr.
    destruct (kp_alloc m ALLOCATOR_START) as [[[[]|e] m1]| | |]; try discriminate.
    * destruct (Hstep bump_init m1 bump_init_wf ltac:(simpl; lia) Hr) as (b' & ? & ? & ? & ?).
      apply (Hdone bump_init b'); try done; apply bump_init_wf.
    * injection Hr as <- <- <-. split_and!; [by exists None|done|done].
- intros [self m] ptr size [self' m'] Hwf Hr. cbn in Hr. inv_outcome. done.
Defined.

(** ** Data *)

(** [Bucket<SIZE, BLOCK>]: its page and bitmap, and the address of the [Box] it
    lies in; the first bucket of a list lies in [Buckets]. *)
Record Bucket := mkBucket {
  b_page : Z;
  b_bitmap : list u8;
  b_box : option Z
}.

Definition set_bitmap (b : Bucket) (bm : list u8) : Bucket := mkBucket (b_page b) bm (b_box b).

(** [SIZE] and [BLOCK] of the fields of [Buckets]. *)
Record bucket_class := mkClass { SIZE : nat; BLOCK : Z }.
Definition bucket_classes : list bucket_class :=
  [mkClass 64 8; mkClass 32 16; mkClass 16 32; mkClass 8 64; mkClass 4 128; mkClass 2 256;
   mkClass 1 512; mkClass 1 1024; mkClass 1 2048].

Abbreviation Buckets := (list (list Bucket)) (only parsing).
Definition kallocator_new : Buckets := replicate 9 [].

(** [size_of::<Bucket<SIZE, BLOCK>>()]: the page, the box (a pointer and a
    reference) and the bitmap, padded to eight bytes. *)
Definition bucket_bytes (c : bucket_class) : Z := div_ceil (24 + Z.of_nat (SIZE c)) 8 * 8.

(** [Bucket::is_empty]. *)
Definition is_empty (b : Bucket) : bool := forallb (fun byte => byte =? 0) (b_bitmap b).

(** The loop of [allocate_block] over the bytes from index [i] on: the offset of
    the block it takes and the new bytes. *)
Fixpoint take_block (block : Z) (i : Z) (bitmap : list u8) : option (Z * list u8) :=
  match bitmap with
  | [] => None
  | byte :: rest =>
      let continue := '(off, rest') ← take_block block (i + 1) rest; Some (off, byte :: rest') in
      if byte =? 0xFF then continue
      else
        let leading := leading_ones 8 byte in
        let bit := 7 - leading in
        let off := i * 8 + leading in
        if 4096 / block <=? off then continue
        else Some (off, Z.lor byte (Z.shiftl 1 bit) :: rest)
  end.

Section bucket.
Context `{X86Addr} {P : Type} `{PageAllocator P} (prof : profile) (c : bucket_class).

(** [Bucket::new]. *)
Definition bucket_new (p : P) : outcome (result Bucket AllocError * P) :=
  '(r, p) ← pg_allocate p 1;
  match r with
  | Err e => Ret (Err e, p)
  | Ok page_ptr =>
      Ret (Ok (mkBucket (page_containing page_ptr) (replicate (SIZE c) 0) None), p)
  end.

(** [Drop]: the page of the bucket, then the buckets behind it, each with its
    box. *)
Fixpoint drop_bucket (self : list Bucket) (p : P) : outcome P :=
  match self with
  | [] => Ret p
  | b :: next =>
      p ← pg_deallocate p (b_page b) 1;
      p ← drop_bucket next p;
      match b_box b with
      | Some box => pg_deallocate p box (bucket_bytes c)
      | None => Ret p
      end
  end.

(** [Box::new_in(bucket, &PAGE_ALLOCATOR)]; a failure is [handle_alloc_error]. *)
Definition box_new_in (b : Bucket) (p : P) : outcome (Bucket * P) :=
  '(r, p) ← pg_allocate p (bucket_bytes c);
  match r with
  | Err _ => Panic
  | Ok box => Ret (mkBucket (b_page b) (b_bitmap b) (Some box), p)
  end.

(** The address of the block at an offset. *)
Definition block_at (b : Bucket) (off : Z) : outcome Z :=
  o ← arith prof 64 (off * BLOCK c);
  va_add (b_page b) o.

(** [Bucket::allocate_block].  A bucket made for the call takes the block from
    its own bitmap; should it have none it would go on to a further new bucket,
    which is the recursion the fuel bounds. *)
Fixpoint allocate_block (fuel : nat) (self : list Bucket) (p : P)
    : outcome (result Z AllocError * (list Bucket * P)) :=
  match fuel, self with
  | O, _ => NoFuel
  | _, [] => Panic
  | S fuel, b :: next =>
      match take_block (BLOCK c) 0 (b_bitmap b) with
      | Some (offset, bm) =>
          addr ← block_at b offset;
          Ret (Ok addr, (set_bitmap b bm :: next, p))
      | None =>
          match next with
          | _ :: _ =>
              '(r, (next, p)) ← allocate_block fuel next p;
              Ret (r, (b :: next, p))
          | [] =>
              '(r, p) ← bucket_new p;
              match r with
              | Err e => Ret (Err e, (self, p))
              | Ok nb =>
                  '(nb, p) ← box_new_in nb p;
                  '(r, (nbs, p)) ← allocate_block fuel [nb] p;
                  match r with
                  | Err e => p ← drop_bucket nbs p; Ret (Err e, (self, p))
                  | Ok addr => Ret (Ok addr, (b :: nbs, p))
                  end
              end
          end
      end
  end.

(** [Bucket::free_block]. *)
Fixpoint free_block (self : list Bucket) (addr : Z) (p : P) : outcome (list Bucket * P) :=
  match self with
  | [] => Panic
  | b :: next =>
      if va_align_down addr 4096 =? b_page b then
        d ← va_sub addr (b_page b);
        let offset := d / BLOCK c in
        let byte := Z.to_nat (offset / 8) in
        let bit := 7 - offset mod 8 in
        v ← index (b_bitmap b) byte;
        bm ← index_set (b_bitmap b) byte (Z.land v (Z.lxor (Z.shiftl 1 bit) (2 ^ 8 - 1)));
        Ret (set_bitmap b bm :: next, p)
      else
        match next with
        | [] => Ret (self, p)
        | _ :: _ =>
            '(next, p) ← free_block next addr p;
            match next with
            | nb :: rest =>
                if is_empty nb then
                  p ← drop_bucket [nb] p;
                  Ret (b :: rest, p)
                else Ret (b :: next, p)
            | [] => Ret (b :: next, p)
            end
        end
  end.

(** [allocate!] and [deallocate!]. *)
Definition class_allocate (chain : list Bucket) (p : P)
    : outcome (result Z AllocError * (list Bucket * P)) :=
  match chain with
  | _ :: _ => allocate_block (S (S (length chain))) chain p
  | [] =>
      '(r, p) ← bucket_new p;
      match r with
      | Err e => Ret (Err e, (chain, p))
      | Ok b =>
          '(r, (bs, p)) ← allocate_block 2 [b] p;
          match r with
          | Err e => p ← drop_bucket bs p; Ret (Err e, (chain, p))
          | Ok addr => Ret (Ok addr, (bs, p))
          end
      end
  end.

Definition class_deallocate (chain : list Bucket) (addr : Z) (p : P)
    : outcome (list Bucket * P) :=
  match chain with
  | _ :: _ => free_block chain addr p
  | [] => Panic
  end.
End bucket.

(** ** [KAllocator] *)

(** The [match max] of [allocate] and [deallocate]. *)
Definition class_index (max : Z) : option nat :=
  if max <=? 8 then Some 0%nat
  else if max <=? 16 then Some 1%nat
  else if max <=? 32 then Some 2%nat
  else if max <=? 64 then Some 3%nat
  else if max <=? 128 then Some 4%nat
  else if max <=? 256 then Some 5%nat
  else if max <=? 512 then Some 6%nat
  else if max <=? 1024 then Some 7%nat
  else if max <=? 2048 then Some 8%nat
  else None.

Section kallocator.
Context `{X86Addr} {P : Type} `{PageAllocator P} (prof : profile).

Definition kallocate (buckets : Buckets) (size align : Z) (p : P)
    : outcome (result Z AllocError * (Buckets * P)) :=
  let max := Z.max size align in
  match class_index max with
  | Some idx =>
      c ← unwrap (bucket_classes !! idx);
      chain ← index buckets idx;
      '(r, (chain, p)) ← class_allocate prof c chain p;
      let buckets := <[idx := chain]> buckets in
      match r with
      | Err e => Ret (Err e, (buckets, p))
      | Ok addr =>
          if addr =? 0 then Ret (Err alloc_error, (buckets, p))
          else Ret (Ok addr, (buckets, p))
      end
  | None =>
      _ ← rust_assert (align <=? 4096);
      '(r, p) ← pg_allocate p size;
      Ret (r, (buckets, p))
  end.

Definition kdeallocate (buckets : Buckets) (ptr size align : Z) (p : P)
    : outcome (Buckets * P) :=
  let max := Z.max size align in
  match class_index max with
  | Some idx =>
      c ← unwrap (bucket_classes !! idx);
      chain ← index buckets idx;
      '(chain, p) ← class_deallocate c chain ptr p;
      Ret (<[idx := chain]> buckets, p)
  | None =>
      _ ← rust_assert (align <=? 4096);
      p ← pg_deallocate p ptr size;
      Ret (buckets, p)
  end.

(** [GlobalAlloc]; null is 0. *)
Definition kalloc (buckets : Buckets) (size align : Z) (p : P) : outcome (Z * (Buckets * P)) :=
  '(r, s) ← kallocate buckets size align p;
  match r with
  | Ok addr => Ret (addr, s)
  | Err _ => Ret (0, s)
  end.
Definition kdealloc (buckets : Buckets) (ptr size align : Z) (p : P) : outcome (Buckets * P) :=
  kdeallocate buckets ptr size align p.
End kallocator.

(** ** Bitmaps *)

Definition byte_ok (v : u8) : Prop := 0 <= v < 2 ^ 8.

(** The block at offset [off] is in use. *)
Definition block_used (bm : list u8) (off : Z) : bool :=
  match bm !! Z.to_nat (off / 8) with
  | Some v => Z.testbit v (7 - off mod 8)
  | None => false
  end.

Lemma block_used_cons v bm j :
  0 <= j ->
  block_used (v :: bm) j = if j <? 8 then Z.testbit v (7 - j) else block_used bm (j - 8).
Proof.
  intros Hj. unfold block_used. destruct (j <? 8) eqn:E.
  - rewrite Z.div_small, Z.mod_small by lia. done.
  - assert (j / 8 = (j - 8) / 8 + 1 /\ j mod 8 = (j - 8) mod 8) as [-> ->].
    { rewrite <- Z.div_add, <- (Z.mod_add (j - 8) 1) by done.
      by replace (j - 8 + 1 * 8) with j by lia. }
    replace (Z.to_nat ((j - 8) / 8 + 1)) with (S (Z.to_nat ((j - 8) / 8))); [done|].
    pose proof (Z.div_pos (j - 8) 8). lia.
Qed.

Lemma block_used_zero n j : block_used (replicate n 0) j = false.
Proof.
  unfold block_used. destruct (_ !! _) eqn:E; [|done].
  apply lookup_replicate in E as [-> _]. apply Z.testbit_0_l.
Qed.

(** [take_block] takes the first block that is not in use. *)
Lemma take_block_spec block i bm :
  Forall byte_ok bm ->
  match take_block block i bm with
  | Some (off, bm') => exists o, off = i * 8 + o /\ 0 <= o < 8 * Z.of_nat (length bm) /\
      off < 4096 / block /\ block_used bm o = false /\
      (forall j, 0 <= j < o -> block_used bm j = true) /\
      length bm' = length bm /\ Forall byte_ok bm' /\
      forall j, 0 <= j -> block_used bm' j = (j =? o) || block_used bm j
  | None => forall j, 0 <= j < 8 * Z.of_nat (length bm) -> i * 8 + j < 4096 / block ->
      block_used bm j = true
  end.
Proof.
  revert i. induction bm as [|v bm IH]; intros i Hok; cbn [take_block length]; [lia|].
  apply Forall_cons_1 in Hok as [Hv Hok]. specialize (IH (i + 1) Hok). cbv zeta.
  destruct (leading_ones_spec 8 v) as (Hr & Hset & Hclr).
  pose proof (leading_ones_full 8 v Hv) as Hfull.
  change (Z.of_nat 8) with 8 in *. set (l := leading_ones 8 v) in *.
  assert (forall j, 0 <= j < l -> Z.testbit v (7 - j) = true) as Hset'.
  { intros j Hj. replace (7 - j) with (8 - 1 - j) by lia. by apply Hset. }
  (* the byte is passed over *)
  assert ((forall j, 0 <= j < 8 -> i * 8 + j < 4096 / block -> Z.testbit v (7 - j) = true) ->
    match '(off, rest') ← take_block block (i + 1) bm; Some (off, v :: rest') with
    | Some (off, bm') => exists o, off = i * 8 + o /\ 0 <= o < 8 * Z.of_nat (S (length bm)) /\
        off < 4096 / block /\ block_used (v :: bm) o = false /\
        (forall j, 0 <= j < o -> block_used (v :: bm) j = true) /\
        length bm' = S (length bm) /\ Forall byte_ok bm' /\
        forall j, 0 <= j -> block_used bm' j = (j =? o) || block_used (v :: bm) j
    | None => forall j, 0 <= j < 8 * Z.of_nat (S (length bm)) -> i * 8 + j < 4096 / block ->
        block_used (v :: bm) j = true
    end) as Hskip.
  { intros Hb. destruct (take_block block (i + 1) bm) as [[off bm']|]; cbn.
    - destruct IH as (o & -> & Ho & Hcap & Hf & Hbefore & Hl & Hok' & Hb').
      exists (o + 8). split_and!; try lia.
      + rewrite block_used_cons by lia. replace (o + 8 <? 8) with false by lia.
        by replace (o + 8 - 8) with o by lia.
      + intros j Hj. rewrite block_used_cons by lia. destruct (j <? 8) eqn:E.
        * apply Hb; lia.
        * apply Hbefore. lia.
      + by constructor.
      + intros j Hj. rewrite !block_used_cons by lia. destruct (j <? 8) eqn:E.
        * by replace (j =? o + 8) with false by lia.
        * rewrite Hb' by lia. f_equal. lia.
    - intros j Hj Hcap. rewrite block_used_cons by lia. destruct (j <? 8) eqn:E.
      + apply Hb; lia.
      + apply IH; lia. }
  destruct (v =? 255) eqn:Ev.
  { apply Hskip. intros j Hj _. apply Hset'. assert (v = 2 ^ 8 - 1) as Hv' by lia.
    apply Hfull in Hv'. lia. }
  assert (l < 8) as Hl8.
  { destruct (decide (l = 8)) as [Hl|]; [|lia]. apply Hfull in Hl. lia. }
  destruct (4096 / block <=? i * 8 + l) eqn:Ecap.
  { apply Hskip. intros j Hj Hcap. apply Hset'. lia. }
  exists l. split_and!; try lia.
  - rewrite block_used_cons by lia. replace (l <? 8) with true by lia.
    replace (7 - l) with (8 - 1 - l) by lia. by apply Hclr.
  - intros j Hj. rewrite block_used_cons by lia. replace (j <? 8) with true by lia.
    by apply Hset'.
  - done.
  - constructor; [|done]. apply set_bit_range; [done|lia].
  - intros j Hj. rewrite !block_used_cons by lia. destruct (j <? 8) eqn:E.
    + rewrite testbit_set by lia. rewrite orb_comm. f_equal. lia.
    + by replace (j =? l) with false by lia.
Qed.

(** Clearing the bit of a block. *)
Lemma clear_block_spec bm off v :
  Forall byte_ok bm -> 0 <= off -> bm !! Z.to_nat (off / 8) = Some v ->
  let bm' := <[Z.to_nat (off / 8) :=
    Z.land v (Z.lxor (Z.shiftl 1 (7 - off mod 8)) (2 ^ 8 - 1))]> bm in
  Forall byte_ok bm' /\
  forall j, 0 <= j -> block_used bm' j = block_used bm j && negb (j =? off).
Proof.
  intros Hok Ho Hv bm'. pose proof (Z.mod_pos_bound off 8 ltac:(lia)). split.
  - apply Forall_insert; [done|]. apply (clear_bit_range 8); [lia|].
    by apply (Forall_lookup_1 _ _ _ _ Hok Hv).
  - intros j Hj. unfold block_used, bm'.
    pose proof (Z.div_mod off 8 ltac:(lia)). pose proof (Z.div_mod j 8 ltac:(lia)).
    pose proof (Z.mod_pos_bound j 8 ltac:(lia)).
    destruct (decide (Z.to_nat (j / 8) = Z.to_nat (off / 8))) as [He|Hne].
    + rewrite He, list_lookup_insert_eq, Hv by (by eapply lookup_lt_Some).
      rewrite testbit_clear by lia. do 2 f_equal.
      pose proof (Z.div_pos j 8). pose proof (Z.div_pos off 8). lia.
    + rewrite list_lookup_insert_ne by done. replace (j =? off) with false; [by rewrite andb_true_r|].
      symmetry. apply Z.eqb_neq. by intros ->.
Qed.

(** ** Lists of buckets *)

Definition class_ok (c : bucket_class) : Prop :=
  0 < BLOCK c /\ 4096 mod BLOCK c = 0 /\ 4096 / BLOCK c <= 8 * Z.of_nat (SIZE c) /\
  (0 < SIZE c)%nat.

Definition bucket_ok `{X86Addr} (c : bucket_class) (b : Bucket) : Prop :=
  length (b_bitmap b) = SIZE c /\ Forall byte_ok (b_bitmap b) /\
  b_page b mod 4096 = 0 /\ ALLOCATOR_START + 4096 <= b_page b /\ b_page b + 4096 <= bump_limit.

(** The blocks in use: what the list of buckets represents. *)
Definition live (c : bucket_class) (chain : list Bucket) (a : Z) : Prop :=
  exists b off, b ∈ chain /\ 0 <= off < 4096 / BLOCK c /\
    block_used (b_bitmap b) off = true /\ a = b_page b + off * BLOCK c.

Lemma class_block c off :
  class_ok c -> 0 <= off < 4096 / BLOCK c -> 0 <= off * BLOCK c /\ off * BLOCK c + BLOCK c <= 4096.
Proof.
  intros (Hb & Hm & _) Ho. pose proof (Z.div_mod 4096 (BLOCK c)). nia.
Qed.

Lemma class_capacity c : class_ok c -> 0 < 4096 / BLOCK c.
Proof.
  intros (Hb & Hm & _). apply Z.div_str_pos. split; [done|].
  apply Z.divide_pos_le; [lia|]. by apply Z.mod_divide; [lia|].
Qed.

Lemma bucket_classes_ok : Forall class_ok bucket_classes.
Proof.
  unfold bucket_classes.
  repeat (apply Forall_cons_2;
    [unfold class_ok; cbn [SIZE BLOCK]; split_and!; [lia|reflexivity|vm_compute; discriminate|lia]|]).
  apply Forall_nil_2.
Qed.

Lemma live_app c l1 l2 a : live c (l1 ++ l2) a <-> live c l1 a \/ live c l2 a.
Proof.
  unfold live. split.
  - intros (b & off & Hb & H). apply elem_of_app in Hb as [|]; [left|right]; eauto.
  - intros [(b & off & Hb & H)|(b & off & Hb & H)]; exists b, off; rewrite elem_of_app; tauto.
Qed.

Lemma live_single c b a :
  live c [b] a <-> exists off, 0 <= off < 4096 / BLOCK c /\
    block_used (b_bitmap b) off = true /\ a = b_page b + off * BLOCK c.
Proof.
  unfold live. split.
  - intros (b' & off & ->%list_elem_of_singleton & H). eauto.
  - intros (off & H). exists b, off. by rewrite list_elem_of_singleton.
Qed.

Lemma live_cons c b l a : live c (b :: l) a <-> live c [b] a \/ live c l a.
Proof. apply (live_app c [b] l). Qed.

(** Blocks and their pages. *)
Lemma block_page_eq x y dx dy :
  x mod 4096 = 0 -> y mod 4096 = 0 -> 0 <= dx < 4096 -> 0 <= dy < 4096 ->
  x + dx = y + dy -> x = y.
Proof.
  intros Hx Hy Hdx Hdy He. pose proof (Z.div_mod x 4096). pose proof (Z.div_mod y 4096). lia.
Qed.

Section chains.
Context `{X86AddrLaws} {P : Type} `{PageAllocator P} (prof : profile) (c : bucket_class).
Hypothesis Hc : class_ok c.

Lemma block_at_ok b off :
  bucket_ok c b -> 0 <= off < 4096 / BLOCK c ->
  block_at prof c b off = Ret (b_page b + off * BLOCK c).
Proof.
  intros (_ & _ & _ & Hs & Hl) Ho. destruct (class_block c off Hc Ho). pose proof (proj1 Hc). unfold block_at.
  rewrite arith_ok by lia. run_ret. apply va_add_law; [apply bump_canonical|..|apply bump_canonical]; lia.
Qed.

(** A bucket with a free block serves the request itself: the first free block
    of the first bucket that has one, without the page allocator. *)
Lemma allocate_block_hit fuel pre b post (p : P) off bm :
  (length pre < fuel)%nat ->
  Forall (fun b => take_block (BLOCK c) 0 (b_bitmap b) = None) pre ->
  bucket_ok c b -> take_block (BLOCK c) 0 (b_bitmap b) = Some (off, bm) ->
  allocate_block prof c fuel (pre ++ b :: post) p =
  Ret (Ok (b_page b + off * BLOCK c), (pre ++ set_bitmap b bm :: post, p)).
Proof.
  intros Hfuel Hpre Hb Ht. revert fuel Hfuel.
  induction pre as [|b0 pre IH]; intros [|fuel] Hfuel; cbn [length] in Hfuel; try lia.
  - cbn [app allocate_block]. rewrite Ht.
    pose proof (take_block_spec (BLOCK c) 0 (b_bitmap b) (proj1 (proj2 Hb))) as Hspec.
    rewrite Ht in Hspec. destruct Hspec as (o & -> & Ho & Hcap & _).
    by rewrite block_at_ok by (done || lia).
  - apply Forall_cons_1 in Hpre as [Hb0 Hpre]. cbn [app allocate_block]. rewrite Hb0.
    specialize (IH Hpre fuel ltac:(lia)).
    destruct (pre ++ b :: post) eqn:E; [by destruct pre|]. rewrite IH. run_ret. done.
Qed.

(** A new bucket serves the first request with its first block. *)
Lemma take_block_fresh :
  exists bm, take_block (BLOCK c) 0 (replicate (SIZE c) 0) = Some (0, bm) /\
    length bm = SIZE c /\ Forall byte_ok bm /\ forall j, 0 <= j -> block_used bm j = (j =? 0).
Proof.
  assert (Forall byte_ok (replicate (SIZE c) 0)) as Hok.
  { apply Forall_replicate. by unfold byte_ok. }
  pose proof (take_block_spec (BLOCK c) 0 _ Hok) as Hspec.
  pose proof (class_capacity c Hc) as Hcap. destruct Hc as (_ & _ & _ & Hs).
  rewrite length_replicate in Hspec.
  destruct (take_block _ _ _) as [[off bm]|].
  - destruct Hspec as (o & -> & Ho & _ & _ & Hbefore & Hl & Hok' & Hb).
    destruct (decide (0 < o)) as [Hlt|].
    { specialize (Hbefore 0 ltac:(lia)). by rewrite block_used_zero in Hbefore. }
    replace o with 0 in * by lia. exists bm. split_and!; try done.
    intros j Hj. by rewrite Hb, block_used_zero, orb_false_r.
  - specialize (Hspec 0 ltac:(lia) ltac:(lia)). by rewrite block_used_zero in Hspec.
Qed.

(** When every bucket is full: a page for the blocks, a page for the bucket. *)
Definition grow (p : P) : outcome (result Bucket AllocError * P) :=
  '(r, p) ← bucket_new c p;
  match r with
  | Err e => Ret (Err e, p)
  | Ok nb => '(nb, p) ← box_new_in c nb p; Ret (Ok nb, p)
  end.

Lemma allocate_block_full fuel chain (p : P) :
  chain <> [] -> (length chain < fuel)%nat ->
  Forall (fun b => take_block (BLOCK c) 0 (b_bitmap b) = None) chain ->
  allocate_block prof c fuel chain p =
  '(r, p) ← grow p;
  match r with
  | Err e => Ret (Err e, (chain, p))
  | Ok nb =>
      '(r, (nbs, p)) ← allocate_block prof c (fuel - length chain) [nb] p;
      match r with
      | Err e => p ← drop_bucket c nbs p; Ret (Err e, (chain, p))
      | Ok addr => Ret (Ok addr, (chain ++ nbs, p))
      end
  end.
Proof.
  intros Hne Hfuel Hnone. revert fuel Hfuel.
  induction chain as [|b chain IH]; [done|]. intros [|fuel] Hfuel; cbn [length] in Hfuel; [lia|].
  apply Forall_cons_1 in Hnone as [Hb Hnone]. cbn [allocate_block]. rewrite Hb.
  destruct chain as [|b' chain].
  - unfold grow. destruct (bucket_new c p) as [[[nb|e] p1]| | |]; run_ret; try done.
    destruct (box_new_in c nb p1) as [[nb' p2]| | |]; run_ret; try done.
    replace (S fuel - length [b])%nat with fuel by (cbn [length]; lia).
    destruct (allocate_block prof c fuel [nb'] p2) as [[[a|e] [nbs p3]]| | |]; run_ret; try done.
  - rewrite IH by (done || cbn [length] in *; lia).
    destruct (grow p) as [[[nb|e] p1]| | |]; run_ret; try done.
    replace (S fuel - length (b :: b' :: chain))%nat with (fuel - length (b' :: chain))%nat
      by (cbn [length]; lia).
    destruct (allocate_block prof c _ [nb] p1) as [[[a|e] [nbs p3]]| | |]; run_ret; try done.
    by destruct (drop_bucket c nbs p3).
Qed.

Lemma split_first_free (chain : list Bucket) :
  Forall (fun b => take_block (BLOCK c) 0 (b_bitmap b) = None) chain \/
  exists pre b post off bm, chain = pre ++ b :: post /\
    Forall (fun b => take_block (BLOCK c) 0 (b_bitmap b) = None) pre /\
    take_block (BLOCK c) 0 (b_bitmap b) = Some (off, bm).
Proof.
  induction chain as [|b chain [IH|(pre & b' & post & off & bm & -> & Hpre & Ht)]]; [by left| |].
  - destruct (take_block (BLOCK c) 0 (b_bitmap b)) as [[off bm]|] eqn:E.
    + right. exists [], b, chain, off, bm. done.
    + left. by constructor.
  - right. destruct (take_block (BLOCK c) 0 (b_bitmap b)) as [[off' bm']|] eqn:E.
    + exists [], b, (pre ++ b' :: post), off', bm'. done.
    + exists (b :: pre), b', post, off, bm. split_and!; [done|by constructor|done].
Qed.
End chains.

Section chain_facts.
Context `{X86AddrLaws} {P : Type} `{PageAllocator P, !PageAllocatorLaws P}.
Context (prof : profile) (c : bucket_class).
Hypothesis Hc : class_ok c.

Definition chain_ok (p : P) (chain : list Bucket) : Prop :=
  Forall (bucket_ok c) chain /\ NoDup (map b_page chain) /\
  Forall (fun b => pg_taken p (b_page b)) chain.

Definition extends (p p' : P) : Prop := pg_wf p' /\ forall a, pg_taken p a -> pg_taken p' a.

Lemma extends_trans p1 p2 p3 : extends p1 p2 -> extends p2 p3 -> extends p1 p3.
Proof. unfold extends. intros [? ?] [? ?]. split; [done|]. eauto. Qed.

Lemma bucket_bytes_pos : 0 <= bucket_bytes c.
Proof.
  unfold bucket_bytes. pose proof (div_ceil_pos (24 + Z.of_nat (SIZE c)) 8). lia.
Qed.

Lemma bucket_new_spec (p p' : P) r :
  pg_wf p -> bucket_new c p = Ret (r, p') ->
  extends p p' /\
  match r with
  | Ok b => bucket_ok c b /\ b_bitmap b = replicate (SIZE c) 0 /\ b_box b = None /\
            ~ pg_taken p (b_page b) /\ pg_taken p' (b_page b)
  | Err _ => True
  end.
Proof.
  intros Hwf Hr. unfold bucket_new in Hr.
  destruct (pg_allocate p 1) as [[[a|e] p1]| | |] eqn:Ea; try discriminate;
    injection Hr as <- <-;
    destruct (pg_allocate_law p 1 _ _ Hwf ltac:(lia) Ea) as (Hwf1 & Hmono & Hres); [|done].
  destruct Hres as (Hal & Hs & Hl & Hfresh). cbn [b_page b_bitmap b_box].
  change (div_ceil 1 4096) with 1 in *. specialize (Hfresh 0 ltac:(lia)).
  rewrite Z.add_0_r in Hfresh.
  rewrite page_containing_law by (apply bump_canonical; lia).
  replace (a / 4096 * 4096) with a by (pose proof (Z.div_mod a 4096); lia).
  split; [done|]. split_and!; [|done|done|apply Hfresh..].
  unfold bucket_ok. cbn [b_page b_bitmap]. split_and!; [by rewrite length_replicate| |done|lia|lia].
  apply Forall_replicate. by unfold byte_ok.
Qed.

Lemma grow_spec (p p' : P) r :
  pg_wf p -> grow c p = Ret (r, p') ->
  extends p p' /\
  match r with
  | Ok b => bucket_ok c b /\ b_bitmap b = replicate (SIZE c) 0 /\
            ~ pg_taken p (b_page b) /\ pg_taken p' (b_page b)
  | Err _ => True
  end.
Proof.
  intros Hwf Hr. unfold grow in Hr.
  destruct (bucket_new c p) as [[[b|e] p1]| | |] eqn:Eb; try discriminate; cbn in Hr;
    destruct (bucket_new_spec _ _ _ Hwf Eb) as [Hext Hres]; [|by injection Hr as <- <-].
  destruct Hres as (Hok & Hbm & _ & Hn & Ht). unfold box_new_in in Hr.
  destruct (pg_allocate p1 (bucket_bytes c)) as [[[a|e] p2]| | |] eqn:Ea; try discriminate.
  injection Hr as <- <-.
  destruct (pg_allocate_law p1 _ _ _ (proj1 Hext) bucket_bytes_pos Ea) as (Hwf2 & Hmono & _).
  split; [by apply (extends_trans _ p1)|]. cbn [b_page b_bitmap]. split_and!; try done. by apply Hmono.
Qed.

(** Setting the bit of a free block adds that block. *)
Lemma live_take b off bm a :
  (forall j, 0 <= j -> block_used bm j = (j =? off) || block_used (b_bitmap b) j) ->
  0 <= off < 4096 / BLOCK c ->
  live c [set_bitmap b bm] a <-> live c [b] a \/ a = b_page b + off * BLOCK c.
Proof.
  intros Hb Ho. rewrite !live_single. cbn [b_page b_bitmap set_bitmap]. split.
  - intros (j & Hj & Hu & ->). rewrite Hb in Hu by lia.
    destruct (j =? off) eqn:E; [right; f_equal; f_equal; lia|left; eauto].
  - intros [(j & Hj & Hu & ->)| ->].
    + exists j. split_and!; try done; [lia..|]. rewrite Hb, Hu by lia. apply orb_true_r.
    + exists off. split_and!; try done; [lia..|]. by rewrite Hb, Z.eqb_refl by lia.
Qed.

Lemma live_page chain a :
  live c chain a -> exists b d, b ∈ chain /\ 0 <= d < 4096 /\ a = b_page b + d.
Proof.
  intros (b & off & Hb & Ho & _ & ->). destruct (class_block c off Hc Ho).
  pose proof (proj1 Hc). exists b, (off * BLOCK c). split_and!; (done || lia).
Qed.

(** A block of one bucket is no block of buckets with other pages. *)
Lemma not_live_elsewhere b chain off :
  bucket_ok c b -> Forall (bucket_ok c) chain -> b_page b ∉ map b_page chain ->
  0 <= off < 4096 / BLOCK c -> ~ live c chain (b_page b + off * BLOCK c).
Proof.
  intros Hb Hch Hn Ho (b' & d & Hb' & Hd & He)%live_page. apply Hn.
  destruct (class_block c off Hc Ho). pose proof (proj1 Hc).
  rewrite (block_page_eq (b_page b) (b_page b') (off * BLOCK c) d); try (done || lia).
  - change (map b_page chain) with (b_page <$> chain). by apply list_elem_of_fmap_2.
  - apply Hb.
  - rewrite list.Forall_forall in Hch. by apply Hch.
Qed.

Lemma bucket_ok_set b bm :
  bucket_ok c b -> length bm = length (b_bitmap b) -> Forall byte_ok bm ->
  bucket_ok c (set_bitmap b bm).
Proof. intros (Hl & _ & Hrest) Hlen Hok. unfold bucket_ok. cbn. by rewrite Hlen. Qed.

(** Changing the bitmap of one bucket keeps the list well-formed. *)
Lemma chain_ok_set p pre b post bm :
  chain_ok p (pre ++ b :: post) -> length bm = length (b_bitmap b) -> Forall byte_ok bm ->
  chain_ok p (pre ++ set_bitmap b bm :: post).
Proof.
  intros (Hok & Hnd & Ht) Hlen Hbm. unfold chain_ok. rewrite map_app. cbn [map set_bitmap b_page].
  rewrite map_app in Hnd. split_and!; [|done|].
  - apply Forall_app in Hok as [? Hok]. apply Forall_cons_1 in Hok as [? ?].
    apply Forall_app. split; [done|]. constructor; [by apply bucket_ok_set|done].
  - apply Forall_app in Ht as [? Ht]. apply Forall_cons_1 in Ht as [? ?].
    apply Forall_app. split; [done|]. by constructor.
Qed.

Lemma chain_ok_extends p p' chain : extends p p' -> chain_ok p chain -> chain_ok p' chain.
Proof.
  intros [_ Hm] (? & ? & Ht). split_and!; try done. eapply Forall_impl; [|exact Ht]. eauto.
Qed.

(** The page of a middle bucket is not the page of another. *)
Lemma chain_ok_middle p pre b post :
  chain_ok p (pre ++ b :: post) ->
  bucket_ok c b /\ Forall (bucket_ok c) (pre ++ post) /\ b_page b ∉ map b_page (pre ++ post).
Proof.
  intros (Hok & Hnd & _). apply Forall_app in Hok as [? Hok].
  apply Forall_cons_1 in Hok as [? ?]. split_and!; [done|by apply Forall_app|].
  rewrite map_app in *. cbn [map] in Hnd.
  apply list.NoDup_app in Hnd as (_ & Hd & Hnd). apply list.NoDup_cons in Hnd as [Hn _].
  rewrite elem_of_app. intros [Hin|Hin]; [|done]. apply (Hd _ Hin). by left.
Qed.

Lemma live_middle pre b post a :
  live c (pre ++ b :: post) a <-> live c [b] a \/ live c (pre ++ post) a.
Proof. rewrite !live_app, live_cons. tauto. Qed.

(** What a request that succeeds with [addr] does to a list of buckets. *)
Definition allocated (p p' : P) (chain chain' : list Bucket) (addr : Z) : Prop :=
  ~ live c chain addr /\ live c chain' addr /\
  (forall x, live c chain' x <-> live c chain x \/ x = addr) /\
  forall b, b ∈ chain' -> b_page b ∈ map b_page chain \/ ~ pg_taken p (b_page b).

Lemma allocated_hit p pre b post off bm :
  chain_ok p (pre ++ b :: post) -> take_block (BLOCK c) 0 (b_bitmap b) = Some (off, bm) ->
  chain_ok p (pre ++ set_bitmap b bm :: post) /\
  allocated p p (pre ++ b :: post) (pre ++ set_bitmap b bm :: post) (b_page b + off * BLOCK c).
Proof.
  intros Hch Ht. destruct (chain_ok_middle _ _ _ _ Hch) as (Hb & Hrest & Hn).
  pose proof (take_block_spec (BLOCK c) 0 (b_bitmap b) (proj1 (proj2 Hb))) as Hspec.
  rewrite Ht in Hspec. destruct Hspec as (o & -> & Ho & Hcap & Hfree & _ & Hl & Hok & Hbits).
  replace (0 * 8 + o) with o in * by lia.
  assert (forall x, live c [set_bitmap b bm] x <-> live c [b] x \/ x = b_page b + o * BLOCK c)
    as Hlive by (intros x; apply live_take; (done || lia)).
  split; [by apply chain_ok_set|]. unfold allocated. split_and!.
  - rewrite live_middle. intros [(j & Hj & Hu & He)%live_single|Hin].
    + assert (j = o) as ->; [|congruence]. pose proof (proj1 Hc). nia.
    + revert Hin. apply not_live_elsewhere; (done || lia).
  - rewrite live_middle, Hlive. tauto.
  - intros x. rewrite !live_middle, Hlive. tauto.
  - intros b' [Hb'|[->|Hb']%elem_of_cons]%elem_of_app; left; cbn [set_bitmap b_page].
    all: rewrite map_app; cbn [map]; rewrite elem_of_app, elem_of_cons.
    + left. by apply (list_elem_of_fmap_2 b_page).
    + right; by left.
    + right; right. by apply (list_elem_of_fmap_2 b_page).
Qed.

(** A new bucket behind a list, with its first block taken. *)
Lemma allocated_fresh p p' chain nb bm :
  chain_ok p chain -> extends p p' -> bucket_ok c nb ->
  length bm = SIZE c -> Forall byte_ok bm -> (forall j, 0 <= j -> block_used bm j = (j =? 0)) ->
  ~ pg_taken p (b_page nb) -> pg_taken p' (b_page nb) ->
  chain_ok p' (chain ++ [set_bitmap nb bm]) /\
  allocated p p' chain (chain ++ [set_bitmap nb bm]) (b_page nb + 0 * BLOCK c).
Proof.
  intros Hch Hext Hnb Hlen Hok Hbits Hn Ht. pose proof (class_capacity c Hc).
  assert (b_page nb ∉ map b_page chain) as Hnin.
  { intros (b & He & Hb)%(list_elem_of_fmap b_page). destruct Hch as (_ & _ & Htk).
    rewrite list.Forall_forall in Htk. apply Hn. rewrite He. by apply Htk. }
  assert (forall x, live c [set_bitmap nb bm] x <-> x = b_page nb + 0 * BLOCK c) as Hlive.
  { intros x. rewrite live_single. cbn [set_bitmap b_page b_bitmap]. split.
    - intros (j & Hj & Hu & ->). rewrite Hbits in Hu by lia. do 2 f_equal. lia.
    - intros ->. exists 0. split_and!; try lia. by rewrite Hbits. }
  pose proof (chain_ok_extends _ _ _ Hext Hch) as (Hok' & Hnd & Htk).
  split; [split_and!|unfold allocated; split_and!].
  - apply Forall_app. split; [done|]. constructor; [|done].
    apply bucket_ok_set; [done| |done]. by rewrite Hlen, (proj1 Hnb).
  - rewrite map_app. apply list.NoDup_app. split_and!; [done| |apply list.NoDup_singleton].
    intros x Hx ->%list_elem_of_singleton. by apply Hnin.
  - apply Forall_app. split; [done|]. by constructor.
  - apply not_live_elsewhere; (done || lia || by apply Hch).
  - rewrite live_app, Hlive. tauto.
  - intros x. rewrite live_app, Hlive. tauto.
  - intros b [Hb| ->%list_elem_of_singleton]%elem_of_app; [left|by right].
    by apply (list_elem_of_fmap_2 b_page).
Qed.

Lemma class_allocate_spec (p p' : P) chain chain' r :
  pg_wf p -> chain_ok p chain -> class_allocate prof c chain p = Ret (r, (chain', p')) ->
  extends p p' /\ chain_ok p' chain' /\
  match r with
  | Ok addr => allocated p p' chain chain' addr
  | Err _ => chain' = chain
  end.
Proof.
  intros Hwf Hch Hr. destruct (take_block_fresh c Hc) as (bm & Htk & Hlen & Hok & Hbits).
  assert (forall nb fuel (q : P), (0 < fuel)%nat -> bucket_ok c nb -> b_bitmap nb = replicate (SIZE c) 0 ->
    allocate_block prof c fuel [nb] q =
    Ret (Ok (b_page nb + 0 * BLOCK c), ([set_bitmap nb bm], q))) as Hnew.
  { intros nb fuel q Hf Hnb Hbm. apply (allocate_block_hit prof c Hc fuel [] nb [] q 0 bm); try done.
    by rewrite Hbm. }
  destruct chain as [|b0 chain0]; cbn [class_allocate] in Hr.
  { destruct (bucket_new c p) as [[[nb|e] p1]| | |] eqn:Eb; try discriminate; cbn [mbind outcome_bind] in Hr;
      destruct (bucket_new_spec _ _ _ Hwf Eb) as [Hext Hres].
    - destruct Hres as (Hnb & Hbm & _ & Hn & Ht). rewrite Hnew in Hr by (done || lia).
      injection Hr as <- <- <-. split; [done|]. by apply (allocated_fresh p p1 []).
    - injection Hr as <- <- <-. split; [done|]. by split; [apply (chain_ok_extends p)|]. }
  set (chain := b0 :: chain0) in *.
  destruct (split_first_free c chain) as [Hfull|(pre & b & post & off & bm' & Heq & Hpre & Ht)].
  - rewrite allocate_block_full in Hr by (done || lia).
    destruct (grow c p) as [[[nb|e] p1]| | |] eqn:Eg; try discriminate; cbn [mbind outcome_bind] in Hr;
      destruct (grow_spec _ _ _ Hwf Eg) as [Hext Hres].
    + destruct Hres as (Hnb & Hbm & Hn & Ht). rewrite Hnew in Hr by (done || lia).
      injection Hr as <- <- <-. split; [done|]. by apply (allocated_fresh p p1 chain).
    + injection Hr as <- <- <-. split; [done|]. by split; [apply (chain_ok_extends p)|].
  - clearbody chain. subst chain. rewrite (allocate_block_hit prof c Hc _ _ _ _ _ off bm') in Hr; try done.
    + injection Hr as <- <- <-. split; [by split|]. by apply allocated_hit.
    + rewrite length_app. cbn [length]. lia.
    + by apply chain_ok_middle in Hch as [? _].
Qed.

(** ** Freeing a block *)

Lemma is_empty_unused b off : is_empty b = true -> block_used (b_bitmap b) off = false.
Proof.
  unfold is_empty, block_used. intros He. rewrite forallb_forall in He.
  destruct (b_bitmap b !! _) as [v|] eqn:E; [|done].
  specialize (He v (proj1 (list_elem_of_In _ _) (list_elem_of_lookup_2 _ _ _ E))).
  replace v with 0 by lia. apply Z.testbit_0_l.
Qed.

Lemma live_empty b chain x : is_empty b = true -> live c (b :: chain) x <-> live c chain x.
Proof.
  intros He. rewrite live_cons, live_single. split; [|tauto]. intros [(off & _ & Hu & _)|]; [|done].
  by rewrite is_empty_unused in Hu.
Qed.

(** A bucket by its page and its box. *)
Definition b_key (b : Bucket) : Z * option Z := (b_page b, b_box b).

(** Buckets dropped one after the other. *)
Fixpoint drop_all (dropped : list Bucket) (p : P) : outcome P :=
  match dropped with
  | [] => Ret p
  | b :: dropped => p ← drop_bucket c [b] p; drop_all dropped p
  end.

Lemma drop_all_snoc dropped b (p : P) :
  drop_all (dropped ++ [b]) p = (p ← drop_all dropped p; drop_bucket c [b] p).
Proof.
  revert p. induction dropped as [|b' dropped IH]; intros p; cbn [app drop_all].
  - cbn [mbind outcome_bind]. by destruct (drop_bucket c [b] p).
  - destruct (drop_bucket c [b'] p); [apply IH|done..].
Qed.

Lemma drop_bucket_extends b (p p' : P) :
  pg_wf p -> drop_bucket c [b] p = Ret p' -> extends p p'.
Proof.
  intros Hwf Hr. cbn [drop_bucket] in Hr.
  destruct (pg_deallocate p (b_page b) 1) as [p1| | |] eqn:Hp1; try discriminate.
  destruct (pg_deallocate_law _ _ _ _ Hwf Hp1) as [Hwf1 Hm1].
  cbn [mbind outcome_bind] in Hr. destruct (b_box b) as [a|]; [|by injection Hr as <-].
  destruct (pg_deallocate_law _ _ _ _ Hwf1 Hr) as [Hwf2 Hm2]. split; [done|]. eauto.
Qed.

Lemma drop_all_extends dropped (p p' : P) :
  pg_wf p -> drop_all dropped p = Ret p' -> extends p p'.
Proof.
  revert p. induction dropped as [|b dropped IH]; intros p Hwf Hr; cbn [drop_all] in Hr.
  { injection Hr as <-. by split. }
  destruct (drop_bucket c [b] p) as [p1| | |] eqn:E; try discriminate.
  pose proof (drop_bucket_extends _ _ _ Hwf E) as Hext. apply (extends_trans _ p1); [done|].
  apply IH; [apply Hext|done].
Qed.

(** In the bucket itself the block's bit is cleared. *)
Lemma free_here b next off :
  bucket_ok c b -> 0 <= off < 4096 / BLOCK c ->
  exists bm, (forall p : P,
      free_block c (b :: next) (b_page b + off * BLOCK c) p = Ret (set_bitmap b bm :: next, p)) /\
    length bm = length (b_bitmap b) /\ Forall byte_ok bm /\
    forall x, live c [set_bitmap b bm] x <-> live c [b] x /\ x <> b_page b + off * BLOCK c.
Proof.
  intros Hb Ho. destruct (class_block c off Hc Ho). pose proof (proj1 Hc) as HB.
  pose proof Hb as (Hlen & Hok & Hal & Hs & Hl). destruct Hc as (_ & _ & Hcap & _).
  assert (Z.to_nat (off / 8) < length (b_bitmap b))%nat as Hi.
  { rewrite Hlen. pose proof (Z.div_mod off 8). pose proof (Z.mod_pos_bound off 8). lia. }
  destruct (lookup_lt_is_Some_2 _ _ Hi) as [v Hv].
  destruct (clear_block_spec (b_bitmap b) off v Hok ltac:(lia) Hv) as [Hok' Hbits].
  eexists. split_and!; [|by rewrite length_insert|exact Hok'|].
  - intros p. cbn [free_block]. rewrite va_align_down_law by (apply bump_canonical; lia).
    replace ((b_page b + off * BLOCK c) / 4096 * 4096 =? b_page b) with true.
    2:{ symmetry. apply Z.eqb_eq. pose proof (Z.div_mod (b_page b) 4096).
        pose proof (Z.div_mod (b_page b + off * BLOCK c) 4096).
        pose proof (Z.mod_pos_bound (b_page b + off * BLOCK c) 4096). lia. }
    rewrite va_sub_law by (try apply bump_canonical; lia). run_ret. cbv zeta.
    replace ((b_page b + off * BLOCK c - b_page b) / BLOCK c) with off.
    2:{ replace (b_page b + off * BLOCK c - b_page b) with (off * BLOCK c) by lia.
        by rewrite Z.div_mul by lia. }
    rewrite (index_ok _ _ _ Hv). run_ret. by rewrite index_set_ok by done.
  - intros x. rewrite !live_single. cbn [set_bitmap b_page b_bitmap]. split.
    + intros (j & Hj & Hu & ->). rewrite Hbits in Hu by lia. apply andb_prop in Hu as [Hu Hne].
      split; [eauto|]. assert (j <> off) by lia. nia.
    + intros [(j & Hj & Hu & ->) Hne]. exists j. split_and!; try (done || lia).
      rewrite Hbits, Hu by lia. cbn. apply negb_true_iff, Z.eqb_neq. by intros ->.
Qed.

(** The block's bucket is found behind the first one. *)
Lemma free_not_here p b next addr :
  chain_ok p (b :: next) -> live c next addr -> (va_align_down addr 4096 =? b_page b) = false.
Proof.
  intros Hch (b' & off & Hb' & Ho & _ & ->). destruct (class_block c off Hc Ho).
  destruct (chain_ok_middle p [] b next Hch) as (_ & Hnext & Hn). cbn [app] in Hnext, Hn.
  pose proof (proj1 Hc). rewrite list.Forall_forall in Hnext.
  pose proof (Hnext _ Hb') as (_ & _ & Hal & Hs & Hle).
  rewrite va_align_down_law by (apply bump_canonical; lia).
  apply Z.eqb_neq. intros He. apply Hn.
  assert (b_page b = b_page b') as ->; [|by apply (list_elem_of_fmap_2 b_page)].
  rewrite <- He. pose proof (Z.div_mod (b_page b') 4096).
  pose proof (Z.div_mod (b_page b' + off * BLOCK c) 4096).
  pose proof (Z.mod_pos_bound (b_page b' + off * BLOCK c) 4096). lia.
Qed.

Lemma chain_ok_cons p b next :
  chain_ok p (b :: next) <->
  bucket_ok c b /\ pg_taken p (b_page b) /\ (b_page b ∉ map b_page next) /\ chain_ok p next.
Proof.
  unfold chain_ok. cbn [map]. rewrite !Forall_cons_iff, list.NoDup_cons. tauto.
Qed.

(** Buckets with pages of others keep clear of a page that these keep clear of. *)
Lemma keys_apart (chain chain' : list Bucket) (b : Bucket) :
  (forall b', b' ∈ chain' -> b_key b' ∈ map b_key chain) -> b_page b ∉ map b_page chain ->
  b_page b ∉ map b_page chain'.
Proof.
  intros Hkeys Hn (b' & He & Hb')%(list_elem_of_fmap b_page). apply Hn. rewrite He.
  destruct (proj1 (list_elem_of_fmap b_key chain _) (Hkeys _ Hb')) as (b2 & Hk2 & Hb2).
  injection Hk2 as -> _. by apply (list_elem_of_fmap_2 b_page).
Qed.

(** What is left of a chain when buckets of it are dropped. *)
Definition splits (chain chain' dropped : list Bucket) : Prop :=
  map b_key chain ≡ₚ map b_key (chain' ++ dropped) /\
  Forall (fun b => is_empty b = true) dropped /\
  b_page <$> head chain' = b_page <$> head chain.

Lemma splits_keys chain chain' dropped b :
  splits chain chain' dropped -> b ∈ chain' -> b_key b ∈ map b_key chain.
Proof.
  intros (Hp & _ & _) Hb. rewrite Hp, map_app. apply elem_of_app. left.
  by apply (list_elem_of_fmap_2 b_key).
Qed.

(** [free_block] drops the buckets it finds empty on its way back, whatever the
    state of the pages, and leaves the chain without them. *)
Lemma free_block_spec chain addr (p : P) :
  chain_ok p chain -> live c chain addr ->
  exists chain' dropped,
    (forall q : P, free_block c chain addr q = (q' ← drop_all dropped q; Ret (chain', q'))) /\
    chain_ok p chain' /\ chain' <> [] /\ splits chain chain' dropped /\
    forall x, live c chain' x <-> live c chain x /\ x <> addr.
Proof.
  induction chain as [|b next IH]; intros Hch Hlive.
  { destruct Hlive as (b & ? & Hb & _). by apply elem_of_nil in Hb. }
  pose proof (proj1 (chain_ok_cons p b next) Hch) as (Hb & Htk & Hn & Hch'). pose proof (proj1 Hch').
  apply live_cons in Hlive as [(off & Ho & Hu & ->)%live_single|Hlive].
  - destruct (free_here b next off Hb Ho) as (bm & Hf & Hlen & Hok & Hbits).
    exists (set_bitmap b bm :: next), []. split_and!; try done.
    + by apply (chain_ok_set p [] b next).
    + split_and!; [by rewrite app_nil_r|constructor|done].
    + intros x. rewrite !(live_cons c _ next), Hbits.
      split; [|tauto]. intros [?|Hx]; [tauto|]. split; [tauto|]. intros ->. revert Hx.
      by apply not_live_elsewhere.
  - assert (forall x, live c [b] x -> x <> addr) as Hba.
    { intros x (off & Ho & _ & ->)%live_single <-. revert Hlive. by apply not_live_elsewhere. }
    pose proof (free_not_here p b next addr Hch Hlive) as Hnot.
    destruct (IH Hch' Hlive) as (next' & dropped & Hf & Hok1 & Hne & Hsp & Hl1).
    pose proof (keys_apart next next' b (fun b' => splits_keys next next' dropped b' Hsp) Hn) as Hn'.
    assert (next <> []) as Hnn by (intros ->; by destruct Hlive as (? & ? & ?%elem_of_nil & _)).
    destruct next' as [|nb rest]; [done|]. destruct Hsp as (Hp & Hd & _). destruct (is_empty nb) eqn:Ee.
    + exists (b :: rest), (dropped ++ [nb]). split_and!; try done.
      * intros q. cbn [free_block]. rewrite Hnot. destruct next as [|n0 next]; [done|].
        rewrite Hf, drop_all_snoc. destruct (drop_all dropped q) as [q1| | |]; [|done..].
        cbn [mbind outcome_bind]. by rewrite Ee.
      * apply chain_ok_cons in Hok1 as (_ & _ & _ & ?).
        cbn [map] in Hn'. apply not_elem_of_cons in Hn' as [_ ?]. by apply chain_ok_cons.
      * split_and!; [|apply Forall_app; by repeat constructor|done].
        cbn [app map]. rewrite Hp, app_assoc, map_app, map_app. cbn [map app]. constructor.
        rewrite map_app. cbn [map]. by rewrite Permutation_cons_append.
      * intros x. specialize (Hl1 x). rewrite live_empty in Hl1 by done.
        rewrite (live_cons c b rest), (live_cons c b next), Hl1.
        specialize (Hba x). tauto.
    + exists (b :: nb :: rest), dropped. split_and!; try done.
      * intros q. cbn [free_block]. rewrite Hnot. destruct next as [|n0 next]; [done|].
        rewrite Hf. destruct (drop_all dropped q) as [q1| | |]; [|done..].
        cbn [mbind outcome_bind]. by rewrite Ee.
      * by apply chain_ok_cons.
      * split_and!; [|done..]. cbn [app map] in *. by constructor.
      * intros x. rewrite (live_cons c b (nb :: rest)), (live_cons c b next), Hl1.
        specialize (Hba x). tauto.
Qed.
End chain_facts.

(** ** The allocator as a set of live blocks *)

Section heap.
Context `{X86AddrLaws} {P : Type} `{PageAllocator P, !PageAllocatorLaws P} (prof : profile).

(** Well-formed buckets: every list is, and no two lists share a page. *)
Definition kwf (bks : Buckets) (p : P) : Prop :=
  pg_wf p /\ length bks = length bucket_classes /\
  (forall i c chain, bucket_classes !! i = Some c -> bks !! i = Some chain -> chain_ok c p chain) /\
  (forall i j ci cj b b', i <> j -> bks !! i = Some ci -> bks !! j = Some cj ->
     b ∈ ci -> b' ∈ cj -> b_page b <> b_page b').

(** The abstract heap: the block of [B] bytes at [a] is allocated. *)
Definition klive (bks : Buckets) (a B : Z) : Prop :=
  exists i c chain, bucket_classes !! i = Some c /\ bks !! i = Some chain /\
    B = BLOCK c /\ live c chain a.

Lemma kallocator_new_wf (p : P) : pg_wf p -> kwf kallocator_new p.
Proof.
  intros Hp. split_and!; [done|done| |].
  - intros i c chain _ Hch. apply lookup_replicate in Hch as [-> _].
    split_and!; constructor.
  - intros i j ci cj b b' _ Hi _ Hb. apply lookup_replicate in Hi as [-> _]. by apply elem_of_nil in Hb.
Qed.

Lemma class_lookup_ok i c : bucket_classes !! i = Some c -> class_ok c.
Proof. intros Hi. by apply (Forall_lookup_1 _ _ _ _ bucket_classes_ok Hi). Qed.

Lemma klive_disjoint bks p a B a' B' :
  kwf bks p -> klive bks a B -> klive bks a' B' -> (a, B) <> (a', B') ->
  a + B <= a' \/ a' + B' <= a.
Proof.
  intros (_ & _ & Hok & Hdist) (i & c & ch & Hi & Hch & -> & b & off & Hb & Ho & _ & ->)
    (j & c' & ch' & Hj & Hch' & -> & b' & off' & Hb' & Ho' & _ & ->) Hne.
  pose proof (class_block c off (class_lookup_ok _ _ Hi) Ho) as [? ?].
  pose proof (class_block c' off' (class_lookup_ok _ _ Hj) Ho') as [? ?].
  pose proof (Hok _ _ _ Hi Hch) as (Hbs & _ & _). pose proof (Hok _ _ _ Hj Hch') as (Hbs' & _ & _).
  rewrite list.Forall_forall in Hbs, Hbs'.
  destruct (Hbs _ Hb) as (_ & _ & Hal & _), (Hbs' _ Hb') as (_ & _ & Hal' & _).
  pose proof (Z.div_mod (b_page b) 4096). pose proof (Z.div_mod (b_page b') 4096).
  destruct (decide (b_page b = b_page b')) as [He|]; [|lia].
  destruct (decide (i = j)) as [<-|Hij]; [|by destruct (Hdist _ _ _ _ _ _ Hij Hch Hch' Hb Hb')].
  assert (c' = c) as -> by congruence. rewrite He in *.
  pose proof (proj1 (class_lookup_ok _ _ Hi)).
  assert (off <> off') by (intros ->; by apply Hne). nia.
Qed.

(** The page allocator may move on below the buckets. *)
Lemma kwf_extends bks p p' : kwf bks p -> extends p p' -> kwf bks p'.
Proof.
  intros (_ & Hlen & Hok & Hdist) Hext. split_and!; [apply Hext|done| |done].
  intros i c chain Hi Hch. apply (chain_ok_extends c p); [done|by apply (Hok i)].
Qed.

(** Replacing one list of buckets. *)
Lemma kwf_update bks p p' i c chain chain' :
  kwf bks p -> bucket_classes !! i = Some c -> bks !! i = Some chain ->
  extends p p' -> chain_ok c p' chain' ->
  (forall b, b ∈ chain' -> b_page b ∈ map b_page chain \/ ~ pg_taken p (b_page b)) ->
  kwf (<[i := chain']> bks) p'.
Proof.
  intros (Hwf & Hlen & Hok & Hdist) Hi Hch Hext Hch' Hpages.
  pose proof (lookup_lt_Some _ _ _ Hch) as Hlt.
  assert (forall j cj b b', i <> j -> bks !! j = Some cj -> b ∈ chain' -> b' ∈ cj ->
    b_page b <> b_page b') as Hnew.
  { intros j cj b b' Hij Hj Hb Hb' He. destruct (Hpages b Hb) as [Hin|Hn].
    - apply (list_elem_of_fmap b_page) in Hin as (b0 & Hb0 & Hin).
      apply (Hdist _ _ _ _ b0 b' Hij Hch Hj); [done..|congruence].
    - apply Hn. rewrite He. destruct (lookup_lt_is_Some_2 bucket_classes j) as [c' Hc'].
      { rewrite <- Hlen. by eapply lookup_lt_Some. }
      destruct (Hok _ _ _ Hc' Hj) as (_ & _ & Ht). rewrite list.Forall_forall in Ht. by apply Ht. }
  split_and!.
  - apply Hext.
  - by rewrite length_insert.
  - intros j c' ch Hj Hlk. destruct (decide (i = j)) as [<-|Hij].
    + rewrite list_lookup_insert_eq in Hlk by done. assert (c' = c) as -> by congruence.
      by injection Hlk as <-.
    + rewrite list_lookup_insert_ne in Hlk by done.
      apply (chain_ok_extends c' p); [done|by apply (Hok j)].
  - intros j k cj ck b b' Hjk Hj Hk Hb Hb'.
    destruct (decide (i = j)) as [<-|Hij], (decide (i = k)) as [<-|Hik]; [done|..].
    + rewrite list_lookup_insert_eq in Hj by done. rewrite list_lookup_insert_ne in Hk by done.
      injection Hj as <-. by apply (Hnew k ck).
    + rewrite list_lookup_insert_eq in Hk by done. rewrite list_lookup_insert_ne in Hj by done.
      injection Hk as <-. intros He. by apply (Hnew j cj b' b).
    + rewrite list_lookup_insert_ne in Hj, Hk by done. by apply (Hdist j k cj ck).
Qed.

Lemma klive_update bks i c chain chain' (Q : Z -> Prop -> Prop) a B :
  bucket_classes !! i = Some c -> bks !! i = Some chain ->
  (forall x, live c chain' x <-> Q x (live c chain x)) ->
  klive (<[i := chain']> bks) a B <->
  (B = BLOCK c /\ Q a (live c chain a)) \/
  exists j c' ch, j <> i /\ bucket_classes !! j = Some c' /\ bks !! j = Some ch /\
    B = BLOCK c' /\ live c' ch a.
Proof.
  intros Hi Hch HQ. pose proof (lookup_lt_Some _ _ _ Hch) as Hlt. split.
  - intros (j & c' & ch & Hj & Hlk & -> & Hl). destruct (decide (i = j)) as [<-|Hij].
    + left. rewrite list_lookup_insert_eq in Hlk by done. assert (c' = c) as -> by congruence.
      injection Hlk as <-. by rewrite <- HQ.
    + right. rewrite list_lookup_insert_ne in Hlk by done. exists j, c', ch. auto.
  - intros [[-> Hq]|(j & c' & ch & Hne & Hj & Hlk & -> & Hl)].
    + exists i, c, chain'. rewrite list_lookup_insert_eq by done. by rewrite HQ.
    + exists j, c', ch. by rewrite list_lookup_insert_ne by done.
Qed.

Lemma klive_split bks i c chain a B :
  bucket_classes !! i = Some c -> bks !! i = Some chain ->
  klive bks a B <->
  (B = BLOCK c /\ live c chain a) \/
  exists j c' ch, j <> i /\ bucket_classes !! j = Some c' /\ bks !! j = Some ch /\
    B = BLOCK c' /\ live c' ch a.
Proof.
  intros Hi Hch. rewrite <- (klive_update bks i c chain chain (fun _ R => R)) by done.
  by rewrite list_insert_id.
Qed.

(** No class but [i] has the block size of class [i]. *)
Lemma block_size_inj i j c c' :
  bucket_classes !! i = Some c -> bucket_classes !! j = Some c' -> BLOCK c = BLOCK c' -> i = j.
Proof.
  intros Hi Hj He.
  assert (NoDup (BLOCK <$> bucket_classes)) as Hnd by (apply (bool_decide_unpack _); by vm_compute).
  eapply (NoDup_lookup _ _ _ _ Hnd); rewrite list_lookup_fmap; [by rewrite Hi|].
  rewrite Hj, He. done.
Qed.

Lemma class_index_spec m i :
  class_index m = Some i ->
  exists c k, bucket_classes !! i = Some c /\ m <= BLOCK c /\ BLOCK c = 2 ^ k /\ 3 <= k <= 11.
Proof.
  unfold class_index. intros Hm.
  repeat match type of Hm with
  | (if ?b then _ else _) = _ => destruct b eqn:?
  end; try discriminate; injection Hm as <-; eexists.
  all: [> exists 3|exists 4|exists 5|exists 6|exists 7|exists 8|exists 9|exists 10|exists 11].
  all: split_and!; [reflexivity|cbn [BLOCK]; lia|reflexivity|lia..].
Qed.

Lemma class_index_none m : class_index m = None -> 2048 < m.
Proof. unfold class_index. repeat (case_match; try discriminate). lia. Qed.

(** A power of two divides a larger one. *)
Lemma pow2_divide k l : 0 <= k <= l -> (2 ^ k | 2 ^ l).
Proof. intros Hk. exists (2 ^ (l - k)). rewrite <- Z.pow_add_r by lia. f_equal. lia. Qed.

Lemma align_divides_block bks p a B k align :
  kwf bks p -> klive bks a B -> B = 2 ^ k -> 0 <= k <= 12 -> (align | B) -> (align | a).
Proof.
  intros (_ & _ & Hok & _) (i & c & ch & Hi & Hch & -> & b & off & Hb & Ho & _ & ->) HB Hk Hd.
  destruct (Hok _ _ _ Hi Hch) as (Hbs & _). rewrite list.Forall_forall in Hbs.
  destruct (Hbs _ Hb) as (_ & _ & Hal & _).
  apply Z.divide_add_r; [|by apply Z.divide_mul_r].
  apply (Z.divide_trans _ 4096); [|by apply Z.mod_divide].
  apply (Z.divide_trans _ (BLOCK c)); [done|]. rewrite HB. change 4096 with (2 ^ 12).
  by apply pow2_divide.
Qed.

(** A fresh range of pages avoids every bucket. *)
Lemma fresh_pages_disjoint bks p addr n a B :
  kwf bks p -> addr mod 4096 = 0 ->
  (forall i, 0 <= i < n -> ~ pg_taken p (addr + i * 4096)) ->
  klive bks a B -> a + B <= addr \/ addr + n * 4096 <= a.
Proof.
  intros (_ & _ & Hok & _) Hal Hfresh (i & c & ch & Hi & Hch & -> & b & off & Hb & Ho & _ & ->).
  destruct (class_block c off (class_lookup_ok _ _ Hi) Ho) as [? ?].
  pose proof (proj1 (class_lookup_ok _ _ Hi)).
  destruct (Hok _ _ _ Hi Hch) as (Hbs & _ & Ht). rewrite list.Forall_forall in Hbs, Ht.
  destruct (Hbs _ Hb) as (_ & _ & Hal' & _). specialize (Ht _ Hb).
  pose proof (Z.div_mod addr 4096). pose proof (Z.div_mod (b_page b) 4096).
  destruct (decide (0 <= b_page b / 4096 - addr / 4096 < n)) as [Hin|]; [|lia].
  destruct (Hfresh _ Hin). by replace (addr + (b_page b / 4096 - addr / 4096) * 4096) with (b_page b) by lia.
Qed.

(** What a request does to the live blocks. *)
Definition kalloc_post (bks bks' : Buckets) (size align : Z) (r : result Z AllocError) : Prop :=
  match r with
  | Ok addr => exists B, size <= B /\ (align | addr) /\
      (forall a B', klive bks a B' -> a + B' <= addr \/ addr + B <= a) /\
      forall a B', klive bks' a B' <->
        klive bks a B' \/ (Z.max size align <= 2048 /\ a = addr /\ B' = B)
  | Err _ => forall a B', klive bks' a B' <-> klive bks a B'
  end.

(** A block added to the list of class [i]. *)
Lemma kalloc_small_ok bks p p1 i c chain chain' addr size align k l :
  kwf bks p -> align = 2 ^ k -> 0 <= k -> bucket_classes !! i = Some c ->
  Z.max size align <= BLOCK c -> BLOCK c = 2 ^ l -> 3 <= l <= 11 ->
  bks !! i = Some chain -> extends p p1 -> chain_ok c p1 chain' ->
  allocated c p p1 chain chain' addr ->
  addr <> 0 /\ kwf (<[i:=chain']> bks) p1 /\
  kalloc_post bks (<[i:=chain']> bks) size align (Ok addr).
Proof.
  intros Hk Halign Hk0 Hi Hm HB Hl Hch Hext Hch' (Hnew & Hlive & Hiff & Hpages).
  assert (kwf (<[i:=chain']> bks) p1) as Hk' by by apply (kwf_update bks p p1 i c chain).
  assert (forall a B, klive (<[i:=chain']> bks) a B <-> klive bks a B \/ (a = addr /\ B = BLOCK c)) as Hkl.
  { intros a B. rewrite (klive_update bks i c chain chain' (fun x R => R \/ x = addr)) by done.
    rewrite (klive_split bks i c chain) by done. tauto. }
  assert (klive (<[i:=chain']> bks) addr (BLOCK c)) as Haddr by (apply Hkl; by right).
  split_and!; [|done|exists (BLOCK c); split_and!].
  - intros ->. destruct Hlive as (b & off & Hb & Ho & _ & He).
    destruct (class_block c off (class_lookup_ok _ _ Hi) Ho).
    destruct Hch' as (Hbs & _). rewrite list.Forall_forall in Hbs.
    destruct (Hbs _ Hb) as (_ & _ & _ & Hs & _). rewrite allocator_start_value in Hs. lia.
  - lia.
  - apply (align_divides_block _ _ _ _ l align Hk' Haddr HB); [lia|]. rewrite Halign, HB.
    apply pow2_divide. split; [done|]. apply (Z.pow_le_mono_r_iff 2); lia.
  - intros a B' Hl'. apply (klive_disjoint _ _ a B' addr (BLOCK c) Hk'); [by apply Hkl; left|done|].
    intros [= -> ->]. apply Hnew.
    apply (klive_split bks i c chain _ _ Hi Hch) in Hl'
      as [[_ ?]|(j & c' & ch & Hne & Hj & _ & He & _)]; [done|].
    by destruct Hne; apply (block_size_inj j i c' c).
  - intros a B'. rewrite Hkl. split; [|tauto]. intros [?|[-> ->]]; [tauto|right].
    split; [|done]. assert (BLOCK c <= 2 ^ 11) by (rewrite HB; apply Z.pow_le_mono_r; lia). lia.
Qed.

Lemma kalloc_large bks p p1 size align k r :
  kwf bks p -> 0 <= size -> align = 2 ^ k -> 0 <= k -> 2048 < Z.max size align -> align <= 4096 ->
  pg_allocate p size = Ret (r, p1) -> kwf bks p1 /\ kalloc_post bks bks size align r.
Proof.
  intros Hk Hsize Halign Hk0 Hbig Eal Ea. pose proof Hk as (Hwf & Hlen & Hok & Hdist).
  destruct (pg_allocate_law _ _ _ _ Hwf Hsize Ea) as (Hwf' & Hmono & Hres).
  split; [by apply (kwf_extends bks p)|].
  destruct r as [addr|e]; [|done]. destruct Hres as (Hal & Hs & Hle & Hfresh).
  exists (div_ceil size 4096 * 4096). split_and!.
  - pose proof (div_ceil_bounds size). lia.
  - apply (Z.divide_trans _ 4096); [|by apply Z.mod_divide]. rewrite Halign in *.
    change 4096 with (2 ^ 12). apply pow2_divide. split; [done|].
    apply (Z.pow_le_mono_r_iff 2); lia.
  - intros a B' Hl'. apply (fresh_pages_disjoint bks p); try done. intros j Hj. by apply Hfresh.
  - intros a B'. split; [tauto|]. intros [?|[? _]]; [done|lia].
Qed.

Lemma class_chain bks p i c :
  kwf bks p -> bucket_classes !! i = Some c ->
  exists chain, index bks i = Ret chain /\ bks !! i = Some chain /\ chain_ok c p chain.
Proof.
  intros (_ & Hlen & Hok & _) Hi. destruct (lookup_lt_is_Some_2 bks i) as [chain Hch].
  { rewrite Hlen. by eapply lookup_lt_Some. }
  exists chain. split_and!; [by apply index_ok|done|by apply (Hok i)].
Qed.

(** The pages of the buckets behind an operation: old ones, or new ones. *)
Definition pages_from (bks bks' : Buckets) (p : P) : Prop :=
  forall j ch b, bks' !! j = Some ch -> b ∈ ch ->
    (exists ch0, bks !! j = Some ch0 /\ b_page b ∈ map b_page ch0) \/ ~ pg_taken p (b_page b).

Lemma pages_from_refl bks (p : P) : pages_from bks bks p.
Proof. intros j ch b Hj Hb. left. exists ch. split; [done|]. by apply (list_elem_of_fmap_2 b_page). Qed.

Lemma pages_from_update bks (p : P) i chain chain' :
  bks !! i = Some chain ->
  (forall b, b ∈ chain' -> b_page b ∈ map b_page chain \/ ~ pg_taken p (b_page b)) ->
  pages_from bks (<[i := chain']> bks) p.
Proof.
  intros Hi Hp j ch b Hj Hb. destruct (decide (i = j)) as [<-|Hne].
  - rewrite list_lookup_insert_eq in Hj by (by eapply lookup_lt_Some). injection Hj as <-.
    destruct (Hp b Hb); [left; by exists chain|by right].
  - rewrite list_lookup_insert_ne in Hj by done. by apply (pages_from_refl bks p j ch).
Qed.

Lemma kallocate_spec (bks bks' : Buckets) (p p' : P) (size align k : Z) r :
  kwf bks p -> 0 <= size -> align = 2 ^ k -> 0 <= k ->
  kallocate prof bks size align p = Ret (r, (bks', p')) ->
  kwf bks' p' /\ kalloc_post bks bks' size align r /\ extends p p' /\ pages_from bks bks' p /\
  match class_index (Z.max size align), r with
  | Some i, Ok addr => exists c, bucket_classes !! i = Some c /\ klive bks' addr (BLOCK c)
  | None, Ok addr => bks' = bks /\ align <= 4096 /\ addr mod 4096 = 0 /\ forall i, 0 <= i < div_ceil size 4096 ->
      ~ pg_taken p (addr + i * 4096) /\ pg_taken p' (addr + i * 4096)
  | _, Err _ => True
  end.
Proof.
  intros Hk Hsize Halign Hk0 Hr. unfold kallocate in Hr. cbv zeta in Hr.
  destruct (class_index (Z.max size align)) as [i|] eqn:Ei.
  - destruct (class_index_spec _ _ Ei) as (c & l & Hi & Hm & HB & Hl). rewrite Hi in Hr.
    destruct (class_chain _ _ _ _ Hk Hi) as (chain & Hix & Hch & Hok).
    cbn [unwrap mbind outcome_bind] in Hr. rewrite Hix in Hr. cbn [mbind outcome_bind] in Hr.
    destruct (class_allocate prof c chain p) as [[r1 [chain' p1]]| | |] eqn:Ea; try discriminate.
    destruct (class_allocate_spec prof c (class_lookup_ok _ _ Hi) _ _ _ _ _ (proj1 Hk) Hok Ea)
      as (Hext & Hch' & Hres). cbn [mbind outcome_bind] in Hr. destruct r1 as [addr|e].
    + destruct (kalloc_small_ok bks p p1 i c chain chain' addr size align k l) as (Hnz & ? & ?); try done.
      apply Z.eqb_neq in Hnz. rewrite Hnz in Hr. injection Hr as <- <- <-.
      destruct Hres as (_ & Hlive & _ & Hpages).
      split_and!; [done..|by apply (pages_from_update bks p i chain)|]. exists c. split; [done|].
      exists i, c, chain'. rewrite list_lookup_insert_eq by (by eapply lookup_lt_Some). done.
    + injection Hr as <- <- <-. subst chain'. rewrite list_insert_id by done.
      split_and!; [|done|done|by apply pages_from_refl|done].
      rewrite <- (list_insert_id bks i chain) by done. apply (kwf_update bks p p1 i c chain); try done.
      intros b Hb. left. by apply (list_elem_of_fmap_2 b_page).
  - apply class_index_none in Ei. unfold rust_assert in Hr.
    destruct (align <=? 4096) eqn:Eal; [|discriminate]. cbn [mbind outcome_bind] in Hr.
    destruct (pg_allocate p size) as [[r1 p1]| | |] eqn:Ea; try discriminate.
    injection Hr as <- <- <-.
    destruct (kalloc_large bks p p1 size align k r1) as [? ?]; try (done || lia).
    destruct (pg_allocate_law _ _ _ _ (proj1 Hk) Hsize Ea) as (? & ? & Hres).
    split_and!; [done..|by apply pages_from_refl|].
    destruct r1; [|done]. destruct Hres as (? & _ & _ & ?). split_and!; (done || lia).
Qed.

(** C1: the kernel allocator hands out memory that is free: a successful
    request returns an address of at least [size] bytes, aligned as asked, that
    overlaps no live block; a small request adds exactly that block to the live
    blocks, a large one and a failed one change none.  The invariant is kept. *)
Theorem kallocate_correct (bks bks' : Buckets) (p p' : P) (size align k : Z) r :
  kwf bks p -> 0 <= size -> align = 2 ^ k -> 0 <= k ->
  kallocate prof bks size align p = Ret (r, (bks', p')) ->
  kwf bks' p' /\
  match r with
  | Ok addr => exists B, size <= B /\ (align | addr) /\
      (forall a B', klive bks a B' -> a + B' <= addr \/ addr + B <= a) /\
      forall a B', klive bks' a B' <->
        klive bks a B' \/ (Z.max size align <= 2048 /\ a = addr /\ B' = B)
  | Err _ => forall a B', klive bks' a B' <-> klive bks a B'
  end.
Proof.
  intros Hk Hsize Halign Hk0 Hr.
  destruct (kallocate_spec bks bks' p p' size align k r Hk Hsize Halign Hk0 Hr) as (? & ? & _). done.
Qed.

Lemma kdeallocate_spec (bks : Buckets) (p : P) (size align ptr : Z) i c chain :
  kwf bks p -> class_index (Z.max size align) = Some i -> bucket_classes !! i = Some c ->
  bks !! i = Some chain -> live c chain ptr ->
  exists chain' dropped,
    kdeallocate bks ptr size align p =
      (p' ← drop_all c dropped p; Ret (<[i := chain']> bks, p')) /\
    splits chain chain' dropped /\
    (forall a B, klive (<[i := chain']> bks) a B <-> klive bks a B /\ (a, B) <> (ptr, BLOCK c)) /\
    forall p', drop_all c dropped p = Ret p' ->
      kwf (<[i := chain']> bks) p' /\ extends p p' /\ pages_from bks (<[i := chain']> bks) p.
Proof.
  intros Hk Hidx Hi Hch Hl. pose proof Hk as (Hwf & _ & Hok & _).
  destruct (free_block_spec c (class_lookup_ok _ _ Hi) chain ptr p (Hok _ _ _ Hi Hch) Hl)
    as (chain' & dropped & Hf & Hch' & _ & Hsp & Hiff).
  exists chain', dropped. split_and!; [|done| |].
  - unfold kdeallocate. cbv zeta. rewrite Hidx, Hi. cbn [unwrap]. run_ret.
    rewrite (index_ok _ _ _ Hch). run_ret. unfold class_deallocate.
    destruct chain as [|b chain]; [by destruct Hl as (? & ? & ?%elem_of_nil & _)|]. rewrite Hf.
    by destruct (drop_all c dropped p).
  - intros a B. rewrite (klive_update bks i c chain chain' (fun x R => R /\ x <> ptr)) by done.
    rewrite (klive_split bks i c chain) by done. split.
    + intros [[-> [? ?]]|(j & c' & ch & Hne & Hj & ? & -> & ?)]; [split; [by left|congruence]|].
      split; [right; exists j, c', ch; done|]. intros [= _ He].
      by apply Hne, (block_size_inj j i c' c).
    + intros [[[-> ?]|?] Hne]; [left|by right]. split_and!; [done..|congruence].
  - intros p' Hd. pose proof (drop_all_extends c dropped p p' Hwf Hd) as Hext.
    assert (forall b, b ∈ chain' -> b_page b ∈ map b_page chain \/ ~ pg_taken p (b_page b)) as Hpages.
    { intros b Hb. left.
      destruct (proj1 (list_elem_of_fmap b_key _ _) (splits_keys _ _ _ _ Hsp Hb)) as (b2 & [= -> _] & Hb2).
      by apply (list_elem_of_fmap_2 b_page). }
    split_and!; [|done|by apply (pages_from_update bks p i chain)].
    apply (kwf_update bks p p' i c chain); try done. by apply (chain_ok_extends c p).
Qed.

(** C2: giving a live small block back removes exactly that block from the live
    blocks.  The deallocation is giving the pages and boxes of certain buckets back
    to the page allocator, one bucket after the other: buckets of the list that have
    become empty, never its first one, and the list is left without them.  It
    returns when the page allocator takes them, and keeps the invariant then; when
    no bucket is dropped it returns in any case. *)
Theorem kdeallocate_correct (bks : Buckets) (p : P) (size align ptr : Z) i c chain :
  kwf bks p -> class_index (Z.max size align) = Some i -> bucket_classes !! i = Some c ->
  bks !! i = Some chain -> live c chain ptr ->
  exists chain' dropped,
    kdeallocate bks ptr size align p =
      (p' ← drop_all c dropped p; Ret (<[i := chain']> bks, p')) /\
    map b_key chain ≡ₚ map b_key (chain' ++ dropped) /\
    Forall (fun b => is_empty b = true) dropped /\
    b_page <$> head chain' = b_page <$> head chain /\
    (forall a B, klive (<[i := chain']> bks) a B <-> klive bks a B /\ (a, B) <> (ptr, BLOCK c)) /\
    forall p', drop_all c dropped p = Ret p' -> kwf (<[i := chain']> bks) p'.
Proof.
  intros Hk Hidx Hi Hch Hl.
  destruct (kdeallocate_spec bks p size align ptr i c chain Hk Hidx Hi Hch Hl)
    as (chain' & dropped & ? & (? & ? & ?) & ? & Hd). exists chain', dropped. split_and!; try done.
  intros p' Hp. by destruct (Hd p' Hp).
Qed.

(** As long as a block of the right class is free, allocation succeeds
    without the page allocator, and takes the first free block of the first
    bucket that has one. *)
Theorem kallocate_first_fit (bks : Buckets) (p : P) (size align off : Z) i c pre b post :
  kwf bks p -> class_index (Z.max size align) = Some i -> bucket_classes !! i = Some c ->
  bks !! i = Some (pre ++ b :: post) ->
  (forall b' j, b' ∈ pre -> 0 <= j < 4096 / BLOCK c -> block_used (b_bitmap b') j = true) ->
  0 <= off < 4096 / BLOCK c -> block_used (b_bitmap b) off = false ->
  (forall j, 0 <= j < off -> block_used (b_bitmap b) j = true) ->
  exists bm, kallocate prof bks size align p =
    Ret (Ok (b_page b + off * BLOCK c), (<[i := pre ++ set_bitmap b bm :: post]> bks, p)).
Proof.
  intros Hk Hidx Hi Hch Hpre Hoff Hfree Hbefore. pose proof (class_lookup_ok _ _ Hi) as Hc.
  destruct (class_chain _ _ _ _ Hk Hi) as (chain & Hix & Hch' & Hok).
  assert (chain = pre ++ b :: post) as -> by congruence.
  destruct (chain_ok_middle c _ _ _ _ Hok) as (Hb & Hrest & _). apply Forall_app in Hrest as [Hrest _].
  assert (Forall (fun b => take_block (BLOCK c) 0 (b_bitmap b) = None) pre) as Hnone.
  { apply list.Forall_forall. intros b' Hb'. rewrite list.Forall_forall in Hrest.
    pose proof (take_block_spec (BLOCK c) 0 (b_bitmap b') (proj1 (proj2 (Hrest _ Hb')))) as Hs.
    destruct (take_block _ _ _) as [[o bm]|]; [|done].
    destruct Hs as (o' & -> & Ho & Hcap & Hf & _). rewrite Hpre in Hf; (done || lia). }
  pose proof (take_block_spec (BLOCK c) 0 (b_bitmap b) (proj1 (proj2 Hb))) as Hs.
  destruct (take_block (BLOCK c) 0 (b_bitmap b)) as [[o bm]|] eqn:Et.
  2:{ rewrite Hs in Hfree; [done| |lia]. destruct Hc as (_ & _ & ? & _). rewrite (proj1 Hb). lia. }
  destruct Hs as (o' & -> & Ho & Hcap & Hf & Hb' & _).
  assert (o' = off) as ->.
  { destruct (Z.lt_trichotomy o' off) as [?|[?|?]]; [|done|].
    - rewrite Hbefore in Hf by lia. done.
    - rewrite Hb' in Hfree by lia. done. }
  exists bm. unfold kallocate. cbv zeta. rewrite Hidx, Hi. cbn [unwrap]. run_ret.
  rewrite Hix. run_ret. unfold class_allocate.
  destruct (pre ++ b :: post) as [|x xs] eqn:Ex; [by destruct pre|]. rewrite <- Ex.
  rewrite (allocate_block_hit prof c Hc _ _ _ _ _ (0 * 8 + off) bm); try done.
  2:{ rewrite length_app. cbn [length]. lia. }
  run_ret. replace (0 * 8 + off) with off by lia.
  destruct (class_block c off Hc Hoff). destruct Hb as (_ & _ & _ & Hs & _).
  rewrite allocator_start_value in Hs.
  by replace (b_page b + off * BLOCK c =? 0) with false by lia.
Qed.
End heap.

(** ** Examples *)

(** A 32-byte block in use: the first block of a first bucket. *)
Definition example_pages : FullPageAllocator * unit :=
  (@bump_repr x86_model (0xffffc90000002000, bump_pages - 1), tt).
Definition example_chain : list Bucket :=
  [mkBucket 0xffffc90000001000 (128 :: replicate 15 0) None].
Definition example_buckets : Buckets := <[2%nat := example_chain]> kallocator_new.
Definition example_pg : PageAllocator (FullPageAllocator * unit) :=
  @full_page_allocator x86_model unit unit_kpages Debug.
Definition example_pg_laws : @PageAllocatorLaws x86_model _ example_pg :=
  @full_page_allocator_laws x86_model x86_model_laws unit unit_kpages Debug.

Lemma example_pg_new : @pg_wf _ _ _ example_pg_laws (page_allocator_new, tt).
Proof. by exists None. Qed.

Lemma example_allocates :
  @class_allocate x86_model _ example_pg Debug (mkClass 16 32) [] (page_allocator_new, tt) =
  Ret (Ok 0xffffc90000001000, (example_chain, example_pages)).
Proof. vm_compute. reflexivity. Qed.

Lemma example_kwf : @kwf _ _ _ example_pg_laws example_buckets example_pages.
Proof.
  pose proof (@kallocator_new_wf _ _ _ example_pg_laws _ example_pg_new) as Hk.
  assert (@chain_ok _ _ _ example_pg_laws (mkClass 16 32) (page_allocator_new, tt) []) as Hnil
    by (split_and!; constructor).
  destruct (@class_allocate_spec x86_model x86_model_laws _ example_pg example_pg_laws Debug
    (mkClass 16 32) (class_lookup_ok 2 _ eq_refl) _ _ _ _ _ (proj1 Hk) Hnil example_allocates)
    as (Hext & Hch & _ & _ & _ & Hpages).
  by apply (@kwf_update _ _ _ example_pg_laws kallocator_new (page_allocator_new, tt) example_pages
    2%nat (mkClass 16 32) []).
Qed.

Lemma kallocate_correct_witness :
  exists bks' p',
    @kallocate x86_model _ example_pg Debug example_buckets 20 16 example_pages =
      Ret (Ok 0xffffc90000001020, (bks', p')) /\
    @kwf _ _ _ example_pg_laws bks' p' /\
    exists B, 20 <= B /\ (16 | 0xffffc90000001020) /\
      (forall a B', klive example_buckets a B' ->
         a + B' <= 0xffffc90000001020 \/ 0xffffc90000001020 + B <= a) /\
      forall a B', klive bks' a B' <->
        klive example_buckets a B' \/ (Z.max 20 16 <= 2048 /\ a = 0xffffc90000001020 /\ B' = B).
Proof.
  do 2 eexists. split; [vm_compute; reflexivity|].
  eapply (@kallocate_correct x86_model x86_model_laws _ example_pg example_pg_laws Debug
    example_buckets _ example_pages _ 20 16 4 (Ok 0xffffc90000001020)).
  - exact example_kwf.
  - lia.
  - reflexivity.
  - lia.
  - vm_compute. reflexivity.
Defined.

(** The same over the kernel's memory: three blocks of 2048 bytes, the last one
    alone in a second bucket. *)
Definition kernel_pg : PageAllocator (FullPageAllocator * Memory small_table) :=
  @full_page_allocator x86_model _ (@memory_kpages x86_model small_table small_page_table Debug) Debug.
Definition kernel_pg_laws : @PageAllocatorLaws x86_model _ kernel_pg :=
  @full_page_allocator_laws x86_model x86_model_laws _
    (@memory_kpages x86_model small_table small_page_table Debug) Debug.
Definition kernel_start : Buckets * (FullPageAllocator * Memory small_table) :=
  (kallocator_new, (page_allocator_new, mkMemory (Some (mkSmall [] [])) (Some booted))).
Definition allocate_2048 (s : Buckets * (FullPageAllocator * Memory small_table))
    : outcome (Buckets * (FullPageAllocator * Memory small_table)) :=
  '(_, s) ← @kallocate x86_model _ kernel_pg Debug s.1 2048 8 s.2; Ret s.
Definition three_blocks : outcome (Buckets * (FullPageAllocator * Memory small_table)) :=
  s ← allocate_2048 kernel_start; s ← allocate_2048 s; allocate_2048 s.
Definition three_allocated : Buckets * (FullPageAllocator * Memory small_table) :=
  Eval vm_compute in match three_blocks with Ret s => s | _ => kernel_start end.
Definition second_chain : list Bucket :=
  [mkBucket 0xffffc90000001000 [192] None; mkBucket 0xffffc90000002000 [128] (Some 0xffffc90000003000)].

Lemma kernel_start_wf : @pg_wf _ _ _ kernel_pg_laws kernel_start.2.
Proof. exists None. split; [exact I|reflexivity]. Qed.

Lemma allocate_2048_kwf s s' :
  @kwf _ _ _ kernel_pg_laws s.1 s.2 -> allocate_2048 s = Ret s' ->
  @kwf _ _ _ kernel_pg_laws s'.1 s'.2.
Proof.
  assert (8 = 2 ^ 3 /\ 0 <= 2048 /\ 0 <= 3) as (H8 & H2048 & H3) by lia.
  intros Hk Hr. unfold allocate_2048 in Hr.
  destruct (@kallocate x86_model _ kernel_pg Debug s.1 2048 8 s.2) as [[r [bks p]]| | |] eqn:E; try discriminate.
  injection Hr as <-. pose proof (@kallocate_spec x86_model x86_model_laws _ kernel_pg kernel_pg_laws Debug s.1 bks s.2 p
    2048 8 3 r Hk H2048 H8 H3) as Hs. specialize (Hs E). apply Hs.
Qed.

Lemma three_allocated_kwf : @kwf _ _ _ kernel_pg_laws three_allocated.1 three_allocated.2.
Proof.
  assert (three_blocks = Ret three_allocated) as Hr by (vm_compute; reflexivity).
  pose proof (@kallocator_new_wf _ _ _ kernel_pg_laws _ kernel_start_wf) as H0.
  unfold three_blocks in Hr.
  destruct (allocate_2048 kernel_start) as [s1| | |] eqn:E1; [|discriminate Hr..]. cbn [mbind outcome_bind] in Hr.
  destruct (allocate_2048 s1) as [s2| | |] eqn:E2; [|discriminate Hr..]. cbn [mbind outcome_bind] in Hr.
  exact (allocate_2048_kwf s2 _ (allocate_2048_kwf s1 _ (allocate_2048_kwf kernel_start _ H0 E1) E2) Hr).
Qed.

(** The second bucket is dropped: its page and its box are unmapped, and their frames
    are free again. *)
Lemma kdeallocate_correct_witness :
  exists chain' p',
    @kdeallocate x86_model _ kernel_pg three_allocated.1 0xffffc90000002000 2048 8 three_allocated.2 =
      Ret (<[8%nat := chain']> three_allocated.1, p') /\
    @kwf _ _ _ kernel_pg_laws (<[8%nat := chain']> three_allocated.1) p' /\
    map b_page chain' = [0xffffc90000001000] /\
    (forall a B, klive (<[8%nat := chain']> three_allocated.1) a B <->
       klive three_allocated.1 a B /\ (a, B) <> (0xffffc90000002000, 2048)).
Proof.
  destruct (@kdeallocate_correct x86_model x86_model_laws _ kernel_pg kernel_pg_laws
    three_allocated.1 three_allocated.2 2048 8 0xffffc90000002000 8 (mkClass 1 2048) second_chain)
    as (chain' & dropped & Hd & _ & _ & _ & Hl & Hk).
  - exact three_allocated_kwf.
  - reflexivity.
  - reflexivity.
  - reflexivity.
  - exists (mkBucket 0xffffc90000002000 [128] (Some 0xffffc90000003000)), 0.
    split; [right; left|]. vm_compute. repeat split; discriminate.
  - destruct (drop_all (mkClass 1 2048) dropped three_allocated.2) as [p'| | |] eqn:Ed;
      [|vm_compute in Hd; discriminate Hd..].
    exists chain', p'. cbn [mbind outcome_bind] in Hd. split; [exact Hd|].
    split; [by apply Hk|]. split; [|exact Hl].
    assert (chain' = [mkBucket 0xffffc90000001000 [192] None]) as ->; [|reflexivity].
    apply (f_equal (fun o => match o with Ret (bks, _) => bks !! 8%nat | _ => None end)) in Hd.
    vm_compute in Hd. by injection Hd as <-.
Defined.

Lemma kallocate_first_fit_witness :
  exists bm, @kallocate x86_model _ example_pg Debug example_buckets 32 1 example_pages =
    Ret (Ok (0xffffc90000001000 + 1 * 32),
         (<[2%nat := [set_bitmap (mkBucket 0xffffc90000001000 (128 :: replicate 15 0) None) bm]]>
            example_buckets, example_pages)).
Proof.
  apply (@kallocate_first_fit x86_model x86_model_laws _ example_pg example_pg_laws Debug
    example_buckets example_pages 32 1 1 2 (mkClass 16 32) []
    (mkBucket 0xffffc90000001000 (128 :: replicate 15 0) None) []).
  - exact example_kwf.
  - reflexivity.
  - reflexivity.
  - reflexivity.
  - intros b' j Hb'. by apply elem_of_nil in Hb'.
  - vm_compute. split; [discriminate|reflexivity].
  - reflexivity.
  - intros j Hj. assert (j = 0) as -> by lia. reflexivity.
Defined.
