(* ===== verification/HeapTrace.v ===== *)
(** * The kernel allocator as its clients see it

    Sequences of requests to the global allocator and of memory given back, small
    and large, over the page allocator: whatever their order, the blocks that
    clients hold never overlap. *)

From Stdlib Require Import ZArith Lia ZifyBool.
From stdpp Require Import base list numbers.
From S2P Require Import Prelude Layout Frame Kpage PageAlloc Bucket.

Local Open Scope Z_scope.

(** A request for memory, or giving back the [n]th block held. *)
Inductive heap_op := HAlloc (size align : Z) | HFree (n : nat).

(** A block held: its address and layout. *)
Record held := mkHeld { h_addr : Z; h_size : Z; h_align : Z }.

Definition is_small (h : held) : option nat := class_index (Z.max (h_size h) (h_align h)).

(** The bytes a block takes up: a block of its class, or whole pages. *)
Definition footprint (h : held) : Z :=
  match is_small h with
  | Some i => match bucket_classes !! i with Some c => BLOCK c | None => 0 end
  | None => div_ceil (h_size h) 4096 * 4096
  end.

Definition apart (h h' : held) : Prop :=
  h_addr h + footprint h <= h_addr h' \/ h_addr h' + footprint h' <= h_addr h.

Section run.
Context `{X86Addr} {P : Type} `{PageAllocator P} (prof : profile).

Definition heap_step (o : heap_op) (s : list held * (Buckets * P))
    : outcome (list held * (Buckets * P)) :=
  let '(hs, (bks, p)) := s in
  match o with
  | HAlloc size align =>
      '(r, s) ← kallocate prof bks size align p;
      match r with
      | Ok addr => Ret (mkHeld addr size align :: hs, s)
      | Err _ => Ret (hs, s)
      end
  | HFree n =>
      match hs !! n with
      | None => Ret s
      | Some h =>
          s ← kdeallocate bks (h_addr h) (h_size h) (h_align h) p;
          Ret (delete n hs, s)
      end
  end.

Fixpoint heap_run (os : list heap_op) (s : list held * (Buckets * P))
    : outcome (list held * (Buckets * P)) :=
  match os with
  | [] => Ret s
  | o :: os => s ← heap_step o s; heap_run os s
  end.
End run.

(** [Layout]s have a size above zero and a power of two as alignment. *)
Definition heap_op_ok (o : heap_op) : Prop :=
  match o with
  | HAlloc size align => 0 < size /\ exists k, 0 <= k /\ align = 2 ^ k
  | HFree _ => True
  end.

Section trace.
Context `{X86AddrLaws} {P : Type} `{PageAllocator P, !PageAllocatorLaws P} (prof : profile).

(** No bucket lies in the pages. *)
Definition avoids (bks : Buckets) (addr n : Z) : Prop :=
  forall j ch b i, bks !! j = Some ch -> b ∈ ch -> 0 <= i < n -> b_page b <> addr + i * 4096.

(** What holds of a block held. *)
Definition held_ok (bks : Buckets) (p : P) (h : held) : Prop :=
  0 < h_size h <= footprint h /\ (h_align h | h_addr h) /\
  match is_small h with
  | Some _ => klive bks (h_addr h) (footprint h)
  | None => h_align h <= 4096 /\ h_addr h mod 4096 = 0 /\ avoids bks (h_addr h) (div_ceil (h_size h) 4096) /\
      forall i, 0 <= i < div_ceil (h_size h) 4096 -> pg_taken p (h_addr h + i * 4096)
  end.

(** The invariant of the heap and its clients. *)
Definition heap_ok (s : list held * (Buckets * P)) : Prop :=
  let '(hs, (bks, p)) := s in
  kwf bks p /\ Forall (held_ok bks p) hs /\
  forall i j h h', hs !! i = Some h -> hs !! j = Some h' -> i <> j -> apart h h'.

Lemma avoids_disjoint bks (p : P) addr n a B :
  kwf bks p -> addr mod 4096 = 0 -> avoids bks addr n -> klive bks a B ->
  a + B <= addr \/ addr + n * 4096 <= a.
Proof.
  intros (_ & _ & Hok & _) Hal Hav (i & c & ch & Hi & Hch & -> & b & off & Hb & Ho & _ & ->).
  destruct (class_block c off (class_lookup_ok _ _ Hi) Ho) as [? ?].
  pose proof (proj1 (class_lookup_ok _ _ Hi)).
  destruct (Hok _ _ _ Hi Hch) as (Hbs & _). rewrite list.Forall_forall in Hbs.
  destruct (Hbs _ Hb) as (_ & _ & Hal' & _).
  pose proof (Z.div_mod addr 4096). pose proof (Z.div_mod (b_page b) 4096).
  destruct (decide (0 <= b_page b / 4096 - addr / 4096 < n)) as [Hin|]; [|lia].
  destruct (Hav _ _ _ _ Hch Hb Hin). lia.
Qed.

(** Pages handed out before keep clear of the buckets behind an operation. *)
Lemma avoids_mono bks bks' (p : P) addr n :
  avoids bks addr n -> pages_from bks bks' p ->
  (forall i, 0 <= i < n -> pg_taken p (addr + i * 4096)) -> avoids bks' addr n.
Proof.
  intros Hav Hp Ht j ch b i Hj Hb Hi He. destruct (Hp _ _ _ Hj Hb) as [(ch0 & Hj0 & Hin)|Hn].
  - apply (list_elem_of_fmap b_page) in Hin as (b0 & Hb0 & Hin).
    apply (Hav _ _ _ _ Hj0 Hin Hi). congruence.
  - apply Hn. rewrite He. by apply Ht.
Qed.

Lemma held_ok_mono bks bks' (p p' : P) h :
  held_ok bks p h -> extends p p' -> pages_from bks bks' p ->
  (is_small h <> None -> klive bks (h_addr h) (footprint h) -> klive bks' (h_addr h) (footprint h)) ->
  held_ok bks' p' h.
Proof.
  intros (Hsz & Hal & Hh) [_ Ht] Hp Hl. split_and!; [apply Hsz..|done|].
  destruct (is_small h); [by apply Hl|]. destruct Hh as (? & ? & Hav & Htk).
  split_and!; [done..|by apply (avoids_mono bks _ p)|]. intros i Hi. apply Ht, Htk, Hi.
Qed.

Lemma footprint_small h i c :
  is_small h = Some i -> bucket_classes !! i = Some c -> footprint h = BLOCK c.
Proof. intros Hs Hi. unfold footprint. by rewrite Hs, Hi. Qed.

(** Blocks held lie apart from a block that is live, or in pages newly taken. *)
Lemma held_apart_small bks (p : P) h a B :
  kwf bks p -> held_ok bks p h -> klive bks a B -> (is_small h <> None -> (a, B) <> (h_addr h, footprint h)) ->
  a + B <= h_addr h \/ h_addr h + footprint h <= a.
Proof.
  intros Hk (_ & _ & Hh) Hl Hne. destruct (is_small h) eqn:Es.
  - apply (klive_disjoint bks p); [done..|]. by apply Hne.
  - unfold footprint. rewrite Es. destruct Hh as (_ & ? & ? & _). by apply (avoids_disjoint bks p).
Qed.

(** Pages newly taken hold no bucket and no block held. *)
Lemma fresh_avoids bks (p : P) addr n :
  kwf bks p -> (forall i, 0 <= i < n -> ~ pg_taken p (addr + i * 4096)) -> avoids bks addr n.
Proof.
  intros (_ & Hlen & Hok & _) Hf j ch b i Hj Hb Hi He. apply (Hf i Hi). rewrite <- He.
  destruct (lookup_lt_is_Some_2 bucket_classes j) as [c Hc].
  { rewrite <- Hlen. by eapply lookup_lt_Some. }
  destruct (Hok _ _ _ Hc Hj) as (_ & _ & Ht). rewrite list.Forall_forall in Ht. by apply Ht.
Qed.

Lemma fresh_apart bks (p : P) h addr n :
  kwf bks p -> held_ok bks p h -> addr mod 4096 = 0 -> 0 < n ->
  (forall i, 0 <= i < n -> ~ pg_taken p (addr + i * 4096)) ->
  addr + n * 4096 <= h_addr h \/ h_addr h + footprint h <= addr.
Proof.
  intros Hk (Hsz & _ & Hh) Hal Hn Hf. destruct (is_small h) eqn:Es.
  - destruct (fresh_pages_disjoint bks p addr n _ _ Hk Hal Hf Hh); [by right|by left].
  - unfold footprint. rewrite Es. destruct Hh as (_ & Hal' & _ & Ht).
    pose proof (Z.div_mod addr 4096). pose proof (Z.div_mod (h_addr h) 4096).
    pose proof (proj1 (div_ceil_bounds (h_size h))).
    set (d := addr / 4096 - h_addr h / 4096).
    destruct (decide (0 <= d < div_ceil (h_size h) 4096)) as [Hd|].
    + destruct (Hf 0 ltac:(lia)).
      replace (addr + 0 * 4096) with (h_addr h + d * 4096) by lia. by apply Ht.
    + destruct (decide (0 <= - d < n)) as [Hd|]; [|lia].
      destruct (Hf _ Hd).
      replace (addr + - d * 4096) with (h_addr h + 0 * 4096) by lia. apply Ht. lia.
Qed.

(** A block that joins those held. *)
Lemma heap_ok_cons bks (p : P) h hs :
  kwf bks p -> held_ok bks p h -> Forall (fun h' => held_ok bks p h' /\ apart h h') hs ->
  (forall i j h h', hs !! i = Some h -> hs !! j = Some h' -> i <> j -> apart h h') ->
  heap_ok (h :: hs, (bks, p)).
Proof.
  intros Hk Hh Hhs Hap. split_and!; [done| |].
  - constructor; [done|]. rewrite list.Forall_forall in *. intros h' Hin. by apply Hhs.
  - rewrite list.Forall_lookup in Hhs.
    intros [|i] [|j] h1 h2 H1' H2' Hne; cbn in H1', H2'; simplify_eq; [by apply (Hhs j)| |].
    + destruct (Hhs i h1 H1') as [_ [?|?]]; [by right|by left].
    + apply (Hap i j); [done..|]. congruence.
Qed.

(** A request keeps the invariant. *)
Lemma heap_alloc_ok hs bks (p : P) size align s' :
  heap_ok (hs, (bks, p)) -> heap_op_ok (HAlloc size align) ->
  heap_step prof (HAlloc size align) (hs, (bks, p)) = Ret s' -> heap_ok s'.
Proof.
  intros (Hk & Hhs & Hap) (Hsz & k & Hk0 & Hal) Hr. cbn [heap_step] in Hr.
  destruct (kallocate prof bks size align p) as [[r [bks' p']]| | |] eqn:Ea; try discriminate.
  destruct (kallocate_spec prof bks bks' p p' size align k r) as (Hk' & Hpost & Hext & Hpg & Hres);
    [done|lia|done..|].
  cbn [mbind outcome_bind] in Hr.
  assert (Forall (held_ok bks' p') hs) as Hhs'.
  { eapply Forall_impl; [|exact Hhs]. intros h Hh. apply (held_ok_mono bks _ p); try done.
    intros _ Hl. destruct r; [destruct Hpost as (? & _ & _ & _ & Hiff)|rename Hpost into Hiff];
    apply Hiff; auto. }
  destruct r as [addr|e]; injection Hr as <-; [|by split_and!].
  destruct Hpost as (B & HB & Hdiv & Hdis & _). rewrite list.Forall_forall in Hhs, Hhs'.
  destruct (class_index (Z.max size align)) as [i|] eqn:Ei.
  - destruct Hres as (c & Hc & Hl). destruct (class_index_spec _ _ Ei) as (c' & l & Hc' & Hm & _).
    assert (c = c') as -> by congruence.
    assert (footprint (mkHeld addr size align) = BLOCK c') as Hfp by (by apply (footprint_small _ i)).
    apply heap_ok_cons; [done| | |done].
    + unfold held_ok, is_small. rewrite Hfp. cbn [h_addr h_size h_align]. rewrite Ei.
      split_and!; (done || lia).
    + apply list.Forall_forall. intros h Hin. split; [by apply Hhs'|]. unfold apart. rewrite Hfp.
      apply (held_apart_small bks' p'); [done|by apply Hhs'|done|].
      intros Hs [= -> He]. destruct (Hhs h Hin) as (Hz & _ & Hh). destruct (is_small h); [|done].
      destruct (Hdis _ _ Hh); cbn [h_addr] in *; lia.
  - destruct Hres as (-> & Ha4 & Hal4 & Hf).
    assert (footprint (mkHeld addr size align) = div_ceil size 4096 * 4096) as Hfp.
    { unfold footprint, is_small. cbn. by rewrite Ei. }
    pose proof (proj1 (div_ceil_bounds size)).
    assert (forall i, 0 <= i < div_ceil size 4096 -> ~ pg_taken p (addr + i * 4096)) as Hnt
      by (intros i Hi; by apply Hf).
    apply heap_ok_cons; [done| | |done].
    + unfold held_ok, is_small. rewrite Hfp. cbn [h_addr h_size h_align]. rewrite Ei.
      split_and!; [lia|lia|done..|by apply (fresh_avoids bks p)|]. intros i Hi. by apply Hf.
    + apply list.Forall_forall. intros h Hin. split; [by apply Hhs'|]. unfold apart. rewrite Hfp.
      apply (fresh_apart bks p); [done|by apply Hhs|done|lia|done].
Qed.

(** Where the blocks left over were. *)
Lemma lookup_delete_from {A} (hs : list A) n i x :
  delete n hs !! i = Some x -> hs !! (if decide (i < n)%nat then i else S i) = Some x.
Proof.
  intros Hi. destruct (decide (i < n)%nat).
  - by rewrite list_lookup_delete_lt in Hi.
  - by rewrite list_lookup_delete_ge in Hi by lia.
Qed.

(** Giving a block back keeps the blocks live that are held besides. *)
Lemma heap_free_state bks (p : P) h s' :
  kwf bks p -> held_ok bks p h -> kdeallocate bks (h_addr h) (h_size h) (h_align h) p = Ret s' ->
  kwf s'.1 s'.2 /\ extends p s'.2 /\ pages_from bks s'.1 p /\
  forall a B, klive bks a B -> (a, B) <> (h_addr h, footprint h) -> klive s'.1 a B.
Proof.
  intros Hk (_ & _ & Hh) Hr. destruct (is_small h) as [i|] eqn:Es.
  - destruct (class_index_spec _ _ Es) as (c & _ & Hi & _).
    rewrite (footprint_small h i c) in * by done.
    destruct Hh as (j & c' & ch & Hj & Hch & He & Hl).
    assert (j = i) as -> by (by apply (block_size_inj j i c' c)).
    assert (c' = c) as -> by congruence.
    destruct (kdeallocate_spec bks p (h_size h) (h_align h) (h_addr h) i c ch Hk Es Hi Hch Hl)
      as (chain' & dropped & Hr' & _ & Hiff & Hd).
    rewrite Hr' in Hr. destruct (drop_all c dropped p) as [p'| | |]; try discriminate.
    injection Hr as <-. destruct (Hd p' eq_refl) as (? & ? & ?).
    split_and!; [done..|]. intros a B Ha Hne. by apply Hiff.
  - unfold kdeallocate in Hr. fold (is_small h) in Hr. cbv zeta in Hr. rewrite Es in Hr. inv_outcome.
    destruct (pg_deallocate_law _ _ _ _ (proj1 Hk) E0) as [Hwf Hm]. cbn [fst snd].
    split_and!; [by apply (kwf_extends bks p)|done..|by apply pages_from_refl|done].
Qed.

Lemma heap_free_ok hs bks (p : P) n s' :
  heap_ok (hs, (bks, p)) -> heap_step prof (HFree n) (hs, (bks, p)) = Ret s' -> heap_ok s'.
Proof.
  intros (Hk & Hhs & Hap) Hr. cbn [heap_step] in Hr.
  destruct (hs !! n) as [h|] eqn:Hn; [|by injection Hr as <-].
  rewrite list.Forall_lookup in Hhs. pose proof (Hhs _ _ Hn) as Hh.
  destruct (kdeallocate bks (h_addr h) (h_size h) (h_align h) p) as [s1| | |] eqn:Ed; try discriminate.
  destruct (heap_free_state bks p h s1 Hk Hh Ed) as (Hk' & Hext & Hpg & Hl).
  injection Hr as <-. destruct s1 as [bks' p']. cbn [fst snd] in *. split_and!; [done| |].
  - apply list.Forall_lookup. intros i h' Hi%lookup_delete_from.
    pose proof (Hhs _ _ Hi) as Hh'. apply (held_ok_mono bks _ p); [done..|].
    intros _ Hlv. apply Hl; [done|]. intros [= Ha Hf].
    destruct (Hap _ n _ _ Hi Hn) as [?|?]; [destruct (decide _); lia|..];
      destruct Hh as [? _], Hh' as [? _]; lia.
  - intros i j h1 h2 Hi%lookup_delete_from Hj%lookup_delete_from Hne.
    apply (Hap _ _ _ _ Hi Hj). repeat destruct (decide _); lia.
Qed.

Lemma heap_run_ok os s s' :
  heap_ok s -> Forall heap_op_ok os -> heap_run prof os s = Ret s' -> heap_ok s'.
Proof.
  revert s. induction os as [|o os IH]; intros [hs [bks p]] Hok Hos Hr; [by injection Hr as <-|].
  apply Forall_cons_1 in Hos as [Ho Hos]. cbn [heap_run] in Hr.
  destruct (heap_step prof o (hs, (bks, p))) as [s1| | |] eqn:Es; try discriminate.
  apply (IH s1); [|done..]. destruct o; [by eapply heap_alloc_ok|by eapply heap_free_ok].
Qed.

(** C3: memory safety of the kernel allocator over any history: after any
    sequence of requests and of blocks given back, small ones and large ones in
    any order, starting from the empty allocator, every block a client holds is
    aligned as it was asked for and no two of them share a byte. *)
Theorem heap_trace_safe (p p' : P) os hs bks :
  pg_wf p -> Forall heap_op_ok os ->
  heap_run prof os ([], (kallocator_new, p)) = Ret (hs, (bks, p')) ->
  Forall (fun h => (h_align h | h_addr h)) hs /\
  forall i j h h', hs !! i = Some h -> hs !! j = Some h' -> i <> j ->
    h_addr h + h_size h <= h_addr h' \/ h_addr h' + h_size h' <= h_addr h.
Proof.
  intros Hp Hos Hr.
  destruct (heap_run_ok os ([], (kallocator_new, p)) (hs, (bks, p'))) as (_ & Hhs & Hap); [|done..|].
  { split_and!; [by apply kallocator_new_wf|constructor|]. intros i j h h' Hi. by destruct i. }
  split; [by eapply Forall_impl; [|exact Hhs]; intros h (_ & ? & _)|].
  rewrite list.Forall_lookup in Hhs. intros i j h h' Hi Hj Hne.
  destruct (Hap i j h h' Hi Hj Hne); destruct (Hhs _ _ Hi) as ([_ ?] & _), (Hhs _ _ Hj) as ([_ ?] & _); lia.
Qed.
End trace.

(** ** Example *)

(** Two small blocks, a large one, the first given back, and another small one. *)
Definition example_ops : list heap_op :=
  [HAlloc 20 8; HAlloc 32 16; HAlloc 5000 64; HFree 2; HAlloc 24 4].

Lemma heap_trace_safe_witness :
  exists hs s,
    @heap_run x86_model _ example_pg Debug example_ops ([], (kallocator_new, (page_allocator_new, tt))) =
      Ret (hs, s) /\ length hs = 3%nat /\
    Forall (fun h => (h_align h | h_addr h)) hs /\
    forall i j h h', hs !! i = Some h -> hs !! j = Some h' -> i <> j ->
      h_addr h + h_size h <= h_addr h' \/ h_addr h' + h_size h' <= h_addr h.
Proof.
  do 2 eexists. split; [vm_compute; reflexivity|]. split; [reflexivity|].
  eapply (@heap_trace_safe x86_model x86_model_laws _ example_pg example_pg_laws Debug
    (page_allocator_new, tt) _ example_ops).
  - exact example_pg_new.
  - repeat constructor; cbn; try lia; [exists 3|exists 4|exists 6|exists 2]; lia.
  - vm_compute. reflexivity.
Defined.
