(* ===== verification/HeapLocks.v ===== *)
(** * memory/: the locks of the allocators

    Four mutexes protect the memory of the kernel: the buckets of the kernel
    allocator, the list of the page allocator, [FRAME_ALLOCATOR] and
    [PAGE_TABLE].  Here the operations of [Kpage], [PageAlloc] and [Bucket] run on
    a memory that also keeps the locks taken and given back so far, in order.
    They do what they do without locks, and take locks only in one order, so that
    any number of processors using the allocator at the same time get done. *)

From Stdlib Require Import ZArith Lia ZifyBool.
From stdpp Require Import base list numbers relations.
From S2P Require Import Prelude Layout Frame Kpage PageAlloc Bucket.

Local Open Scope Z_scope.

(** ** Locks and what is done with them *)

Inductive lock := LBuckets | LPages | LFrames | LTable.
#[export] Instance lock_eq_dec : EqDecision lock.
Proof. solve_decision. Defined.

Inductive event := Acq (k : lock) | Rel (k : lock).
Abbreviation events := (list event).

(** The order in which the locks are taken. *)
Definition lock_rank (k : lock) : nat :=
  match k with LBuckets => 0 | LPages => 1 | LFrames => 2 | LTable => 3 end.

(** All locks held come before this one. *)
Definition belowb (h : list lock) (k : lock) : bool :=
  forallb (fun k' => lock_rank k' <? lock_rank k)%nat h.

(** The locks held after a list of events, the last one taken first; [None] when
    a lock is taken out of order, or given back before one that was taken later. *)
Fixpoint run_locks (h : list lock) (t : events) : option (list lock) :=
  match t with
  | [] => Some h
  | Acq k :: t => if belowb h k then run_locks (k :: h) t else None
  | Rel k :: t =>
      match h with
      | k' :: h => if bool_decide (k = k') then run_locks h t else None
      | [] => None
      end
  end.

(** ** The operations, with their locks *)

Section locked.
Context `{X86Addr} {PT : Type} `{PageTable PT} (prof : profile).

(** The statics of memory/mod.rs and what was done with the locks so far. *)
Definition LMemory : Type := Memory PT * events.
Definition emit (e : event) (m : LMemory) : LMemory := (m.1, m.2 ++ [e]).

(** [alloc_kpage]: the guard of [PAGE_TABLE] lives for one statement. *)
Definition l_alloc_kpage (alloc : BitmapFrameAllocator) (virt_addr : Z) (m : LMemory)
    : outcome (result unit AllocError * LMemory) :=
  '(o, alloc) ← bitmap_allocate_frame prof alloc;
  match o with
  | None => Ret (Err alloc_error, (mkMemory (PAGE_TABLE m.1) (Some alloc), m.2))
  | Some frame =>
      let page := page_containing virt_addr in
      let m := emit (Acq LTable) m in
      match PAGE_TABLE m.1 with
      | None => Ret (Err alloc_error, emit (Rel LTable) (mkMemory None (Some alloc), m.2))
      | Some pt =>
          '(r, (pt, alloc)) ← @map_to _ _ _ (bitmap_frame_allocator prof) pt page frame alloc;
          match r with
          | Ok _ => Ret (Ok tt, emit (Rel LTable) (mkMemory (Some pt) (Some alloc), m.2))
          | Err _ => Panic
          end
      end
  end.

(** [free_kpage]: [PAGE_TABLE] is locked to the end. *)
Definition l_free_kpage (alloc : BitmapFrameAllocator) (virt_addr : Z) (m : LMemory)
    : outcome LMemory :=
  let page := page_containing virt_addr in
  let m := emit (Acq LTable) m in
  pt ← unwrap (PAGE_TABLE m.1);
  '(r, pt) ← unmap pt page;
  match r with
  | Err _ => Panic
  | Ok frame =>
      alloc ← @deallocate_frame _ (bitmap_frame_deallocator prof) alloc frame;
      '(pt, alloc) ← @clean_up _ _ _ (bitmap_frame_deallocator prof) pt page alloc;
      Ret (emit (Rel LTable) (mkMemory (Some pt) (Some alloc), m.2))
  end.

(** The kernel's pages for a caller that has [FRAME_ALLOCATOR] locked, and for one
    that locks it for the call. *)
Definition pages_under : KPages LMemory := {|
  kp_ready m := _ ← unwrap (FRAME_ALLOCATOR m.1); Ret tt;
  kp_alloc m va := alloc ← unwrap (FRAME_ALLOCATOR m.1); l_alloc_kpage alloc va m;
  kp_free m va := alloc ← unwrap (FRAME_ALLOCATOR m.1); l_free_kpage alloc va m
|}.
Definition pages_alone : KPages LMemory := {|
  kp_ready m := _ ← unwrap (FRAME_ALLOCATOR m.1); Ret tt;
  kp_alloc m va :=
    '(r, m) ← @kp_alloc _ pages_under (emit (Acq LFrames) m) va; Ret (r, emit (Rel LFrames) m);
  kp_free m va :=
    m ← @kp_free _ pages_under (emit (Acq LFrames) m) va; Ret (emit (Rel LFrames) m)
|}.

(** [FullPageAllocator::allocate]: the list is unlocked before the frames are
    locked for all pages. *)
Definition l_allocate (self : FullPageAllocator) (size : Z) (m : LMemory)
    : outcome (result Z AllocError * (FullPageAllocator * LMemory)) :=
  let num_pages := div_ceil size 4096 in
  '(r, (self, m)) ← @init_or_get _ _ pages_alone prof self (emit (Acq LPages) m);
  match r with
  | Err e => Ret (Err e, (self, emit (Rel LPages) m))
  | Ok _ =>
      match find_free_pages self num_pages with
      | None => Ret (Err alloc_error, (self, emit (Rel LPages) m))
      | Some addr =>
          '(self, m) ← @alloc_pages _ _ pages_alone prof self addr num_pages m;
          let m := emit (Acq LFrames) (emit (Rel LPages) m) in
          _ ← unwrap (FRAME_ALLOCATOR m.1);
          '(r, m) ← @map_pages _ _ pages_under prof addr 0 (Z.to_nat num_pages) m;
          let m := emit (Rel LFrames) m in
          match r with
          | Err e => Ret (Err e, (self, m))
          | Ok _ =>
              if addr =? 0 then Ret (Err alloc_error, (self, m))
              else Ret (Ok addr, (self, m))
          end
      end
  end.

(** [FullPageAllocator::deallocate]. *)
Definition l_deallocate (ptr size : Z) (m : LMemory) : outcome LMemory :=
  let num_pages := div_ceil size 4096 in
  off ← arith prof 64 (0x1000 * num_pages);
  past ← va_add ptr off;
  let first := page_containing ptr in
  let end_ := page_containing past in
  let m := emit (Acq LFrames) m in
  _ ← unwrap (FRAME_ALLOCATOR m.1);
  m ← @free_pages _ pages_under first (Z.to_nat ((end_ - first) / 0x1000)) m;
  Ret (emit (Rel LFrames) m).

(** [PAGE_ALLOCATOR] as the buckets see it. *)
Definition locked_pages : PageAllocator (FullPageAllocator * LMemory) := {|
  pg_allocate p size := l_allocate p.1 size p.2;
  pg_deallocate p ptr size := m ← l_deallocate ptr size p.2; Ret (p.1, m)
|}.
Definition emit_pages (e : event) (p : FullPageAllocator * LMemory) := (p.1, emit e p.2).

(** [KAllocator::allocate] and [deallocate]: the buckets are locked to the end,
    for large requests too. *)
Definition l_kallocate (buckets : Buckets) (size align : Z) (p : FullPageAllocator * LMemory)
    : outcome (result Z AllocError * (Buckets * (FullPageAllocator * LMemory))) :=
  '(r, (buckets, p)) ←
    @kallocate _ _ locked_pages prof buckets size align (emit_pages (Acq LBuckets) p);
  Ret (r, (buckets, emit_pages (Rel LBuckets) p)).

Definition l_kdeallocate (buckets : Buckets) (ptr size align : Z) (p : FullPageAllocator * LMemory)
    : outcome (Buckets * (FullPageAllocator * LMemory)) :=
  '(buckets, p) ←
    @kdeallocate _ _ locked_pages buckets ptr size align (emit_pages (Acq LBuckets) p);
  Ret (buckets, emit_pages (Rel LBuckets) p).

(** [memory::init] and [init_frame_allocator], which has the page table locked
    when it stores the frame allocator. *)
Definition l_init (cr3 : Z) (offset_page_table : Z -> Z -> PT) (m : LMemory) : outcome LMemory :=
  m' ← init cr3 offset_page_table m.1;
  Ret (emit (Rel LTable) (m', (emit (Acq LTable) m).2)).

Definition l_init_frame_allocator (cr3 : Z) (offset_page_table : Z -> Z -> PT)
    (memory_regions : list MemoryRegion) (m : LMemory) : outcome LMemory :=
  m ← l_init cr3 offset_page_table m;
  let m := emit (Acq LTable) m in
  pt ← unwrap (PAGE_TABLE m.1);
  '(frame_alloc, pt) ← bitmap_new prof memory_regions pt;
  let m := emit (Acq LFrames) m in
  let m := (mkMemory (Some pt) (Some frame_alloc), m.2) in
  Ret (emit (Rel LTable) (emit (Rel LFrames) m)).
End locked.

(** ** Lemmas on lists of events *)

Lemma run_locks_app h t1 t2 :
  run_locks h (t1 ++ t2) = (h' ← run_locks h t1; run_locks h' t2).
Proof.
  revert h. induction t1 as [|[k|k] t1 IH]; intros h; cbn [run_locks app]; [done| |].
  - destruct (belowb h k); [apply IH|done].
  - destruct h as [|k' h]; [done|]. case_bool_decide; [apply IH|done].
Qed.

Lemma belowb_cons h k k' :
  belowb h k = true -> (lock_rank k < lock_rank k')%nat -> belowb (k :: h) k' = true.
Proof.
  unfold belowb. rewrite !forallb_forall. intros Hh Hk x [<-|Hx]; [lia|]. specialize (Hh x Hx). lia.
Qed.

Lemma belowb_mono h k k' :
  belowb h k = true -> (lock_rank k <= lock_rank k')%nat -> belowb h k' = true.
Proof. unfold belowb. rewrite !forallb_forall. intros Hh Hk x Hx. specialize (Hh x Hx). lia. Qed.

Lemma run_acq h k : belowb h k = true -> run_locks h [Acq k] = Some (k :: h).
Proof. intros Hh. cbn. by rewrite Hh. Qed.
Lemma run_rel h k : run_locks (k :: h) [Rel k] = Some h.
Proof. cbn. by rewrite bool_decide_eq_true_2. Qed.

Create HintDb heap_locks.
#[export] Hint Resolve run_acq run_rel : heap_locks.
#[export] Hint Extern 2 (belowb (_ :: _) _ = true) => apply belowb_cons; [|cbn; lia] : heap_locks.
#[export] Hint Extern 3 (belowb _ _ = true) =>
  eapply belowb_mono; [eassumption|cbn; lia] : heap_locks.

(** ** Running with locks and without *)

Section erasure.
Context `{X86Addr} {PT : Type} `{PageTable PT} (prof : profile).

(** The frame allocator is there. *)
Definition ready (m : Memory PT) : Prop := is_Some (FRAME_ALLOCATOR m).

(** Results that carry the memory, and the same with the events. *)
Class Carries (X X' : Type) := { put : X -> events -> X'; mem : X -> Memory PT }.
#[export] Instance carries_memory : Carries (Memory PT) LMemory := {|
  put m t := (m, t); mem m := m
|}.
#[export] Instance carries_pair {A X X'} `{Carries X X'} : Carries (A * X) (A * X') := {|
  put y t := (y.1, put y.2 t); mem y := mem y.2
|}.

(** From locks [h] to locks [h'], with the events [t] before: the computation
    with locks does what the one without does, and takes locks in order. *)
Definition erases {X X'} `{Carries X X'} (h h' : list lock) (t : events)
    (x' : outcome X') (x : outcome X) : Prop :=
  match x with
  | Ret y => ready (mem y) /\ exists e, run_locks h e = Some h' /\ x' = Ret (put y (t ++ e))
  | Panic => x' = Panic
  | Hang => x' = Hang
  | NoFuel => x' = NoFuel
  end.

Lemma erases_ret {X X'} `{Carries X X'} h t x' (y : X) :
  ready (mem y) -> x' = Ret (put y t) -> erases h h t x' (Ret y).
Proof. intros Hy ->. split; [done|]. exists []. by rewrite app_nil_r. Qed.

Lemma erases_emit {X X'} `{Carries X X'} h h1 h2 t e x' (x : outcome X) :
  run_locks h [e] = Some h1 -> erases h1 h2 (t ++ [e]) x' x -> erases h h2 t x' x.
Proof.
  intros He. destruct x as [y| | |]; try done. intros (Hy & es & Hes & ->). split; [done|].
  exists ([e] ++ es). rewrite run_locks_app, He, app_assoc. done.
Qed.

Lemma erases_bind {X X' Y Y'} `{Carries X X', Carries Y Y'} h h1 h2 t x' (x : outcome X)
    (f' : X' -> outcome Y') (f : X -> outcome Y) :
  erases h h1 t x' x ->
  (forall y t1, ready (mem y) -> erases h1 h2 t1 (f' (put y t1)) (f y)) ->
  erases h h2 t (x' ≫= f') (x ≫= f).
Proof.
  intros Hx Hf. destruct x as [y| | |]; cbn in Hx; [|subst; done..].
  destruct Hx as (Hy & e & He & ->). cbn. specialize (Hf y (t ++ e) Hy).
  destruct (f y) as [z| | |]; try done. destruct Hf as (Hz & e' & He' & ->).
  split; [done|]. exists (e ++ e'). by rewrite run_locks_app, He, app_assoc.
Qed.

(** What a computation with locks has done with them. *)
Lemma erases_events {X X'} `{Carries X X'} h h' t x' (x : outcome X) y' :
  erases h h' t x' x -> x' = Ret y' -> exists y e, run_locks h e = Some h' /\ y' = put y (t ++ e).
Proof.
  intros He ->. destruct x as [y| | |]; try done. destruct He as (_ & e & He & Heq).
  injection Heq as ->. by exists y, e.
Qed.

(** A lock given back behind a computation. *)
Lemma erases_then {X X'} `{Carries X X'} h h1 h2 t e x' (x : outcome X) (f' : X' -> outcome X') :
  run_locks h1 [e] = Some h2 -> erases h h1 t x' x ->
  (forall y t1, f' (put y t1) = Ret (put y (t1 ++ [e]))) -> erases h h2 t (x' ≫= f') x.
Proof.
  intros He Hx Hf. destruct x as [y| | |]; cbn in Hx; [|subst; done..].
  destruct Hx as (Hy & es & Hes & ->). split; [done|]. exists (es ++ [e]). cbn [mbind outcome_bind].
  by rewrite run_locks_app, Hes, Hf, app_assoc.
Qed.

(** A part that does not touch the memory. *)
Lemma erases_pure {A Y Y'} `{Carries Y Y'} h h' t (x : outcome A)
    (f' : A -> outcome Y') (f : A -> outcome Y) :
  (forall a, erases h h' t (f' a) (f a)) -> erases h h' t (x ≫= f') (x ≫= f).
Proof. intros Hf. destruct x; cbn; [apply Hf|done..]. Qed.

#[local] Abbreviation base := (memory_kpages prof).

(** The end of both computations; a lock taken or given back in front. *)
Ltac finish_ret := apply erases_ret; [first [assumption | by eexists] | reflexivity].
Ltac emits e := eapply (erases_emit _ _ _ _ e); [solve [eauto with heap_locks]|].

(** One page. *)
Lemma under_alloc h t (m : Memory PT) va :
  belowb h LTable = true ->
  erases h h t (@kp_alloc _ (pages_under prof) (m, t) va) (@kp_alloc _ base m va).
Proof.
  intros Hh. cbn [kp_alloc pages_under memory_kpages fst].
  destruct (FRAME_ALLOCATOR m) as [a|]; [|done]. cbn [unwrap mbind outcome_bind].
  unfold l_alloc_kpage, alloc_kpage. cbn [allocate_frame bitmap_frame_allocator].
  destruct (bitmap_allocate_frame prof a) as [[[fr|] a1]| | |]; try done; cbn [mbind outcome_bind].
  2:{ finish_ret. }
  cbn [emit fst snd]. emits (Acq LTable).
  destruct (PAGE_TABLE m) as [pt|]; cbn [mbind outcome_bind].
  - destruct (map_to _ _ _ _) as [[[u|e] [pt' a2]]| | |]; try done. cbn [mbind outcome_bind].
    emits (Rel LTable).
    finish_ret.
  - emits (Rel LTable).
    finish_ret.
Qed.

Lemma under_free h t (m : Memory PT) va :
  belowb h LTable = true ->
  erases h h t (@kp_free _ (pages_under prof) (m, t) va) (@kp_free _ base m va).
Proof.
  intros Hh. cbn [kp_free pages_under memory_kpages fst].
  destruct (FRAME_ALLOCATOR m) as [a|]; [|done]. cbn [unwrap mbind outcome_bind].
  unfold l_free_kpage, free_kpage. cbn [emit fst snd]. emits (Acq LTable).
  destruct (PAGE_TABLE m) as [pt|]; [|done]. cbn [unwrap mbind outcome_bind].
  destruct (unmap _ _) as [[[fr|e] pt1]| | |]; try done; cbn [mbind outcome_bind].
  destruct (deallocate_frame _ _) as [a1| | |]; try done; cbn [mbind outcome_bind].
  destruct (clean_up _ _ _) as [[pt2 a2]| | |]; try done; cbn [mbind outcome_bind].
  emits (Rel LTable). finish_ret.
Qed.

Lemma alone_alloc h t (m : Memory PT) va :
  belowb h LFrames = true ->
  erases h h t (@kp_alloc _ (pages_alone prof) (m, t) va) (@kp_alloc _ base m va).
Proof.
  intros Hh. cbn [kp_alloc pages_alone]. emits (Acq LFrames).
  eapply erases_then; [apply run_rel|apply under_alloc; auto with heap_locks|].
  by intros [r m'] t'.
Qed.

Lemma alone_free h t (m : Memory PT) va :
  belowb h LFrames = true ->
  erases h h t (@kp_free _ (pages_alone prof) (m, t) va) (@kp_free _ base m va).
Proof.
  intros Hh. cbn [kp_free pages_alone]. emits (Acq LFrames).
  eapply erases_then; [apply run_rel|apply under_free; auto with heap_locks|]. done.
Qed.

(** Next to the same step on both sides; a pure step; a step shown already. *)
Ltac pure_step := apply erases_pure; intros ?.
Ltac known_step := eapply erases_bind; [solve [eauto with heap_locks]|].

(** The page allocator's list. *)
Lemma remove_entry_page_erases h t self (m : Memory PT) :
  belowb h LFrames = true -> ready m ->
  erases h h t (@remove_entry_page _ (pages_alone prof) self (m, t)) (@remove_entry_page _ base self m).
Proof.
  intros Hh Hm. unfold remove_entry_page. destruct (list.last self) as [lst|]; [|done].
  eapply erases_bind; [by apply alone_free|]. intros m1 t1 Hm1.
  destruct (prev lst); finish_ret.
Qed.

Lemma remove_entry_erases h self idx t (m : Memory PT) :
  belowb h LFrames = true -> ready m ->
  erases h h t (@remove_entry _ (pages_alone prof) self idx (m, t)) (@remove_entry _ base self idx m).
Proof.
  intros Hh. revert idx t m. induction self as [|p next IH]; intros idx t m Hm; [done|].
  cbn [remove_entry]. eapply (erases_bind (X := option Entry * (list FPAInner * Memory PT)) h h).
  - destruct next as [|q next]; [finish_ret|]. eapply erases_bind; [by apply IH|].
    intros [e [l m1]] t1 Hm1. finish_ret.
  - intros [end_ [l m1]] t1 Hm1. cbn [put carries_pair carries_memory fst snd].
    pure_step. pure_step. pure_step. destruct end_ as [[|s n]|].
    + eapply erases_bind; [by apply remove_entry_page_erases|]. intros [l2 m2] t2 Hm2. finish_ret.
    + pure_step. finish_ret.
    + finish_ret.
Qed.

Lemma alloc_pages_erases h self start pages t (m : Memory PT) :
  belowb h LFrames = true -> ready m ->
  erases h h t (@alloc_pages _ _ (pages_alone prof) prof self start pages (m, t))
    (@alloc_pages _ _ base prof self start pages m).
Proof.
  intros Hh. revert t m. induction self as [|p next IH]; intros t m Hm; [done|].
  cbn [alloc_pages]. destruct (scan _ _) as [i s n| |]; [|finish_ret|].
  - destruct (n =? pages).
    + eapply erases_bind; [by apply remove_entry_erases|]. intros [e [l m1]] t1 Hm1. finish_ret.
    + do 4 pure_step. finish_ret.
  - destruct next as [|q next]; [done|]. eapply erases_bind; [by apply IH|].
    intros [l m1] t1 Hm1. finish_ret.
Qed.

Lemma init_or_get_erases h self t (m : Memory PT) :
  belowb h LFrames = true -> ready m ->
  erases h h t (@init_or_get _ _ (pages_alone prof) prof self (m, t))
    (@init_or_get _ _ base prof self m).
Proof.
  intros Hh Hm. unfold init_or_get, add_entry_page. destruct self as [|p next]; [|finish_ret].
  eapply erases_bind; [by apply alone_alloc|]. intros [[[]|e] m1] t1 Hm1; [|finish_ret].
  cbn [put carries_pair carries_memory fst snd]. do 4 pure_step. finish_ret.
Qed.

Lemma map_pages_erases h addr i n t (m : Memory PT) :
  belowb h LTable = true -> ready m ->
  erases h h t (@map_pages _ _ (pages_under prof) prof addr i n (m, t))
    (@map_pages _ _ base prof addr i n m).
Proof.
  intros Hh. revert i t m. induction n as [|n IH]; intros i t m Hm; [finish_ret|].
  cbn [map_pages]. do 2 pure_step. eapply erases_bind; [by apply under_alloc|].
  intros [[u|e] m1] t1 Hm1; [by apply IH|finish_ret].
Qed.

Lemma free_pages_erases h page n t (m : Memory PT) :
  belowb h LTable = true -> ready m ->
  erases h h t (@free_pages _ (pages_under prof) page n (m, t)) (@free_pages _ base page n m).
Proof.
  intros Hh. revert page t m. induction n as [|n IH]; intros page t m Hm; [finish_ret|].
  cbn [free_pages]. eapply erases_bind; [by apply under_free|]. intros m1 t1 Hm1. by apply IH.
Qed.

Lemma allocate_erases h self size t (m : Memory PT) :
  belowb h LPages = true -> ready m ->
  erases h h t (l_allocate prof self size (m, t)) (@allocate _ _ base prof self size m).
Proof.
  intros Hh Hm. unfold l_allocate, allocate. cbv zeta. emits (Acq LPages).
  eapply erases_bind; [apply init_or_get_erases; [auto with heap_locks|done]|].
  intros [[u|e] [l m1]] t1 Hm1; cbn [put carries_pair carries_memory fst snd]; [|emits (Rel LPages); finish_ret].
  destruct (find_free_pages l _) as [addr|]; [|emits (Rel LPages); finish_ret].
  eapply erases_bind; [apply alloc_pages_erases; [auto with heap_locks|done]|].
  intros [l2 m2] t2 [a Ha]; cbn [put carries_pair carries_memory fst snd mem] in *.
  cbn [emit fst snd]. emits (Rel LPages). emits (Acq LFrames).
  cbn [kp_ready memory_kpages]. rewrite Ha. cbn [unwrap mbind outcome_bind].
  eapply erases_bind; [apply map_pages_erases; [auto with heap_locks|by exists a]|].
  intros [r m3] t3 Hm3. cbn [put carries_pair carries_memory fst snd emit]. emits (Rel LFrames).
  destruct r; [destruct (_ =? _)|]; finish_ret.
Qed.

Lemma deallocate_erases h ptr size t (m : Memory PT) :
  belowb h LFrames = true -> ready m ->
  erases h h t (l_deallocate prof ptr size (m, t)) (@deallocate _ _ base prof ptr size m).
Proof.
  intros Hh Hm. unfold l_deallocate, deallocate. cbv zeta. do 2 pure_step.
  emits (Acq LFrames). cbn [emit fst snd kp_ready memory_kpages]. pose proof Hm as [fa Hfa]. rewrite Hfa.
  cbn [unwrap mbind outcome_bind].
  eapply erases_then; [apply run_rel|apply free_pages_erases; [auto with heap_locks|done]|done].
Qed.

(** The page allocator as the buckets use it. *)
#[local] Abbreviation P := (FullPageAllocator * Memory PT)%type.
#[local] Abbreviation pg := (full_page_allocator (H0 := base) prof).
#[local] Abbreviation lpg := (locked_pages prof).

Lemma pg_allocate_erases h t (p : P) size :
  belowb h LPages = true -> ready (mem p) ->
  erases h h t (@pg_allocate _ lpg (put p t) size) (@pg_allocate _ pg p size).
Proof. destruct p as [self m]. apply allocate_erases. Qed.

Lemma pg_deallocate_erases h t (p : P) ptr size :
  belowb h LPages = true -> ready (mem p) ->
  erases h h t (@pg_deallocate _ lpg (put p t) ptr size) (@pg_deallocate _ pg p ptr size).
Proof.
  destruct p as [self m]. intros Hh Hm. cbn [pg_deallocate locked_pages full_page_allocator fst snd put
    carries_pair carries_memory].
  eapply erases_bind; [apply deallocate_erases; [auto with heap_locks|done]|].
  intros m1 t1 Hm1. finish_ret.
Qed.
#[local] Hint Resolve pg_allocate_erases pg_deallocate_erases : heap_locks.

Section buckets.
Context (h : list lock) (Hh : belowb h LPages = true) (c : bucket_class).

Lemma bucket_new_erases t (p : P) :
  ready (mem p) -> erases h h t (@bucket_new _ _ lpg c (put p t)) (@bucket_new _ _ pg c p).
Proof. intros Hp. unfold bucket_new. known_step. intros [[a|e] p1] t1 Hp1; finish_ret. Qed.

Lemma drop_bucket_erases t bs (p : P) :
  ready (mem p) -> erases h h t (@drop_bucket _ lpg c bs (put p t)) (@drop_bucket _ pg c bs p).
Proof.
  revert t p. induction bs as [|b bs IH]; intros t p Hp; cbn [drop_bucket]; [finish_ret|].
  known_step. intros p1 t1 Hp1. eapply erases_bind; [by apply IH|]. intros p2 t2 Hp2.
  destruct (b_box b); [|finish_ret]. eauto with heap_locks.
Qed.

Lemma box_new_in_erases t b (p : P) :
  ready (mem p) -> erases h h t (@box_new_in _ lpg c b (put p t)) (@box_new_in _ pg c b p).
Proof. intros Hp. unfold box_new_in. known_step. intros [[a|e] p1] t1 Hp1; [finish_ret|done]. Qed.

Lemma allocate_block_erases fuel t bs (p : P) :
  ready (mem p) ->
  erases h h t (@allocate_block _ _ lpg prof c fuel bs (put p t)) (@allocate_block _ _ pg prof c fuel bs p).
Proof.
  revert t bs p. induction fuel as [|fuel IH]; intros t bs p Hp; [done|].
  destruct bs as [|b next]; [done|]. cbn [allocate_block].
  destruct (take_block _ _ _) as [[off bm]|]; [pure_step; finish_ret|].
  destruct next as [|b' next].
  2:{ eapply erases_bind; [by apply IH|]. intros [r [l p1]] t1 Hp1. finish_ret. }
  eapply erases_bind; [by apply bucket_new_erases|]. intros [[nb|e] p1] t1 Hp1; [|finish_ret].
  eapply erases_bind; [by apply box_new_in_erases|]. intros [nb' p2] t2 Hp2.
  eapply erases_bind; [by apply IH|]. intros [[a|e] [nbs p3]] t3 Hp3; [finish_ret|].
  eapply erases_bind; [by apply drop_bucket_erases|]. intros p4 t4 Hp4. finish_ret.
Qed.

Lemma free_block_erases t bs addr (p : P) :
  ready (mem p) ->
  erases h h t (@free_block _ _ lpg c bs addr (put p t)) (@free_block _ _ pg c bs addr p).
Proof.
  revert t p. induction bs as [|b next IH]; intros t p Hp; [done|]. cbn [free_block].
  destruct (_ =? _); [do 3 pure_step; finish_ret|]. destruct next as [|b' next]; [finish_ret|].
  eapply erases_bind; [by apply IH|]. intros [l p1] t1 Hp1.
  cbn [put carries_pair carries_memory fst snd]. destruct l as [|nb l]; [finish_ret|].
  destruct (is_empty nb); [|finish_ret].
  eapply erases_bind; [by apply drop_bucket_erases|]. intros p2 t2 Hp2. finish_ret.
Qed.

Lemma class_allocate_erases t bs (p : P) :
  ready (mem p) ->
  erases h h t (@class_allocate _ _ lpg prof c bs (put p t)) (@class_allocate _ _ pg prof c bs p).
Proof.
  intros Hp. unfold class_allocate. destruct bs as [|b bs]; [|by apply allocate_block_erases].
  eapply erases_bind; [by apply bucket_new_erases|]. intros [[nb|e] p1] t1 Hp1; [|finish_ret].
  eapply erases_bind; [by apply allocate_block_erases|]. intros [[a|e] [nbs p2]] t2 Hp2; [finish_ret|].
  eapply erases_bind; [by apply drop_bucket_erases|]. intros p3 t3 Hp3. finish_ret.
Qed.
End buckets.

Lemma kallocate_erases bks size align t (p : P) :
  ready (mem p) ->
  erases [] [] t (l_kallocate prof bks size align (put p t)) (@kallocate _ _ pg prof bks size align p).
Proof.
  intros Hp. unfold l_kallocate. emits (Acq LBuckets).
  eapply (erases_then _ [LBuckets] _ _ (Rel LBuckets)); [done| |by intros [r [b q]] t1].
  change (emit_pages (Acq LBuckets) (put p t)) with (put p (t ++ [Acq LBuckets])).
  unfold kallocate. cbv zeta. destruct (class_index _) as [i|].
  - do 2 pure_step. eapply erases_bind; [by apply class_allocate_erases|].
    intros [[r|e] [bs p1]] t1 Hp1; cbn [put carries_pair carries_memory fst snd]; [|finish_ret].
    destruct (_ =? _); finish_ret.
  - pure_step. eapply erases_bind; [by apply pg_allocate_erases|]. intros [r p1] t1 Hp1. finish_ret.
Qed.

Lemma kdeallocate_erases bks ptr size align t (p : P) :
  ready (mem p) ->
  erases [] [] t (l_kdeallocate prof bks ptr size align (put p t))
    (@kdeallocate _ _ pg bks ptr size align p).
Proof.
  intros Hp. unfold l_kdeallocate. emits (Acq LBuckets).
  eapply (erases_then _ [LBuckets] _ _ (Rel LBuckets)); [done| |by intros [b q] t1].
  change (emit_pages (Acq LBuckets) (put p t)) with (put p (t ++ [Acq LBuckets])).
  unfold kdeallocate, class_deallocate. cbv zeta. destruct (class_index _) as [i|].
  - do 2 pure_step.
    eapply (erases_bind (X := list Bucket * P)).
    { destruct a0 as [|b bs]; [done|]. by apply free_block_erases. }
    intros [bs p1] t1 Hp1. finish_ret.
  - pure_step. eapply erases_bind; [by apply pg_deallocate_erases|]. intros p1 t1 Hp1. finish_ret.
Qed.

(** C5: the allocators with their locks do what they do without: every request to
    the kernel allocator and every block given back ends in the same way, with
    the same result and memory; on the way the locks are taken in the order
    buckets, pages, frames, page table, and all are given back. *)
Theorem heap_locks_transparent self (m : Memory PT) bks t :
  is_Some (FRAME_ALLOCATOR m) ->
  (forall size align,
     erases [] [] t (l_kallocate prof bks size align (self, (m, t)))
       (@kallocate _ _ pg prof bks size align (self, m))) /\
  (forall ptr size align,
     erases [] [] t (l_kdeallocate prof bks ptr size align (self, (m, t)))
       (@kdeallocate _ _ pg bks ptr size align (self, m))).
Proof.
  intros Hm. split; intros.
  - by apply (kallocate_erases bks size align t (self, m)).
  - by apply (kdeallocate_erases bks ptr size align t (self, m)).
Qed.
End erasure.

(** ** Several processors *)

(** A processor: the locks it holds and what it will do with locks. *)
Record cpu := mkCpu { held : list lock; todo : events }.

(** One processor does its next step: it takes a lock that nobody holds, or gives
    back the one it took last. *)
Inductive cpu_step : list cpu -> list cpu -> Prop :=
| step_acq cs i h k t :
    cs !! i = Some (mkCpu h (Acq k :: t)) -> Forall (fun c => k ∉ held c) cs ->
    cpu_step cs (<[i := mkCpu (k :: h) t]> cs)
| step_rel cs i h k t :
    cs !! i = Some (mkCpu (k :: h) (Rel k :: t)) ->
    cpu_step cs (<[i := mkCpu h t]> cs).

(** Everything done, no lock held. *)
Definition all_done (cs : list cpu) : Prop := Forall (fun c => c = mkCpu [] []) cs.

(** The events left over all processors. *)
Definition work (cs : list cpu) : nat := sum_list_with (fun c => length (todo c)) cs.

(** Locks are taken in order to the end, and no lock is held twice. *)
Fixpoint ascending (h : list lock) : Prop :=
  match h with [] => True | k :: h => belowb h k = true /\ ascending h end.
Definition cpu_ok (c : cpu) : Prop :=
  ascending (held c) /\ run_locks (held c) (todo c) = Some [].
Definition exclusive (cs : list cpu) : Prop :=
  forall i j c d k, cs !! i = Some c -> cs !! j = Some d -> k ∈ held c -> k ∈ held d -> i = j.

Lemma work_insert cs i c d :
  cs !! i = Some c -> (work (<[i := d]> cs) + length (todo c) = work cs + length (todo d))%nat.
Proof.
  unfold work. revert i. induction cs as [|c' cs IH]; intros [|i] Hi; [done..|injection Hi as ->|];
    [cbn; lia|].
  specialize (IH i Hi). change (<[S i := d]> (c' :: cs)) with (c' :: <[i := d]> cs).
  cbn [sum_list_with]. lia.
Qed.

(** What is true of a list after one element is replaced. *)
Lemma Forall_update {A} (Q : A -> Prop) l i x : Forall Q l -> Q x -> Forall Q (<[i := x]> l).
Proof. intros Hl Hx. by apply Forall_insert. Qed.

Lemma exclusive_insert cs i c c' :
  exclusive cs -> cs !! i = Some c ->
  (forall k j d, k ∈ held c' -> cs !! j = Some d -> k ∈ held d -> i = j) ->
  exclusive (<[i := c']> cs).
Proof.
  intros He Hi Hc j1 j2 d1 d2 k H1 H2 Hk1 Hk2.
  pose proof (lookup_lt_Some _ _ _ Hi) as Hlt.
  destruct (decide (i = j1)) as [<-|N1], (decide (i = j2)) as [<-|N2]; [done|..].
  - rewrite list_lookup_insert_eq in H1 by done. injection H1 as <-.
    rewrite list_lookup_insert_ne in H2 by done. by apply (Hc k j2 d2).
  - rewrite list_lookup_insert_eq in H2 by done. injection H2 as <-.
    rewrite list_lookup_insert_ne in H1 by done. symmetry. by apply (Hc k j1 d1).
  - rewrite list_lookup_insert_ne in H1, H2 by done. by apply (He j1 j2 d1 d2 k).
Qed.

(** A step keeps the order of the locks and that nobody else holds them, and
    there is less to do. *)
Lemma cpu_step_ok cs cs' :
  cpu_step cs cs' -> Forall cpu_ok cs -> exclusive cs ->
  Forall cpu_ok cs' /\ exclusive cs' /\ (work cs' < work cs)%nat.
Proof.
  intros Hs Hok Hex. destruct Hs as [cs i h k t Hi Hfree|cs i h k t Hi];
    pose proof (Forall_lookup_1 _ _ _ _ Hok Hi) as [Ha Hc]; cbn [held todo run_locks ascending] in Ha, Hc.
  - destruct (belowb h k) eqn:Eb; [|done]. split_and!.
    + by apply Forall_update.
    + eapply exclusive_insert; [done..|]. cbn [held]. intros k' j d Hk' Hj Hd.
      apply elem_of_cons in Hk' as [->|Hk'].
      * by destruct (Forall_lookup_1 _ _ _ _ Hfree Hj).
      * eapply Hex; [exact Hi|exact Hj|done..].
    + pose proof (work_insert cs i _ (mkCpu (k :: h) t) Hi). cbn [todo length] in *. lia.
  - rewrite bool_decide_eq_true_2 in Hc by done. destruct Ha as [_ Ha]. split_and!.
    + by apply Forall_update.
    + eapply exclusive_insert; [done..|]. cbn [held]. intros k' j d Hk' Hj Hd.
      eapply Hex; [exact Hi|exact Hj| |done]. by apply elem_of_cons; right.
    + pose proof (work_insert cs i _ (mkCpu h t) Hi). cbn [todo length] in *. lia.
Qed.

(** The last lock a processor took. *)
Definition top_rank (c : cpu) : nat :=
  match held c with [] => 0 | k :: _ => S (lock_rank k) end.

Lemma list_max_exists {A} (f : A -> nat) l :
  l <> [] -> exists i x, l !! i = Some x /\ Forall (fun y => f y <= f x)%nat l.
Proof.
  induction l as [|x l IH]; [done|]. intros _. destruct l as [|y l].
  { exists 0%nat, x. split; [done|]. by repeat constructor. }
  destruct IH as (i & z & Hi & Hz); [done|]. destruct (decide (f x <= f z)%nat) as [Hx|Hx].
  - exists (S i), z. split; [done|]. by constructor.
  - exists 0%nat, x. split; [done|]. constructor; [done|]. eapply Forall_impl; [exact Hz|].
    cbn. lia.
Qed.

(** Nobody holds a lock above the last one of the processor with the highest. *)
Lemma above_top cs c k :
  Forall cpu_ok cs -> Forall (fun d => top_rank d <= top_rank c)%nat cs ->
  (top_rank c <= lock_rank k)%nat -> Forall (fun d => k ∉ held d) cs.
Proof.
  intros Hok Htop Hk. apply list.Forall_forall. intros d Hd Hin.
  rewrite list.Forall_forall in Hok, Htop. destruct (Hok d Hd) as [Ha _]. specialize (Htop d Hd).
  unfold top_rank in Htop at 1. destruct (held d) as [|k' h]; [by apply elem_of_nil in Hin|].
  destruct Ha as [Hb _]. apply elem_of_cons in Hin as [->|Hin]; [lia|].
  unfold belowb in Hb. rewrite forallb_forall in Hb. apply list_elem_of_In, Hb in Hin. lia.
Qed.

(** Someone can always go on. *)
Lemma cpu_progress cs : Forall cpu_ok cs -> all_done cs \/ exists cs', cpu_step cs cs'.
Proof.
  intros Hok. destruct (decide (Exists (fun c => todo c <> []) cs)) as [Hex|Hno].
  2:{ left. apply list.Forall_forall. intros [h t] Hc. rewrite Exists_exists in Hno.
      rewrite list.Forall_forall in Hok. destruct (Hok _ Hc) as [_ Hr]. destruct t as [|e t].
      - cbn in Hr. by injection Hr as ->.
      - exfalso. apply Hno. by eexists. }
  right. apply Exists_exists in Hex as (u & Hu & Hut). apply list_elem_of_lookup in Hu as [iu Hu].
  destruct (list_max_exists top_rank cs) as (i & c & Hi & Htop); [by destruct cs|].
  assert (exists j h t, cs !! j = Some (mkCpu h t) /\ t <> [] /\ top_rank (mkCpu h t) = top_rank c)
    as (j & h & t & Hj & Ht & Hc).
  { destruct c as [h t]. destruct t as [|e t]; [|by exists i, h, (e :: t)].
    destruct (Forall_lookup_1 _ _ _ _ Hok Hi) as [_ Hr]. cbn in Hr. injection Hr as ->.
    destruct u as [h t]. exists iu, h, t. split_and!; [done..|].
    pose proof (Forall_lookup_1 _ _ _ _ Htop Hu). cbn in *. lia. }
  destruct (Forall_lookup_1 _ _ _ _ Hok Hj) as [Ha Hr]. destruct t as [|[k|k] t]; [done|..].
  - eexists. eapply step_acq; [exact Hj|]. apply (above_top cs c k Hok Htop). rewrite <- Hc.
    cbn [held todo run_locks] in Hr. unfold top_rank. cbn [held].
    destruct h as [|k' h]; [lia|]. cbn [belowb forallb] in Hr.
    destruct (lock_rank k' <? lock_rank k)%nat eqn:E; [lia|done].
  - cbn in Hr. destruct h as [|k' h]; [done|]. case_bool_decide as Hk; [|done]. subst k'.
    eexists. eapply step_rel. exact Hj.
Qed.

Lemma cpu_run_ok cs cs' :
  rtc cpu_step cs cs' -> Forall cpu_ok cs -> exclusive cs -> Forall cpu_ok cs' /\ exclusive cs'.
Proof.
  induction 1 as [|cs1 cs2 cs3 Hs _ IH]; [done|]. intros Hok Hex.
  destruct (cpu_step_ok _ _ Hs Hok Hex) as (? & ? & _). by apply IH.
Qed.

(** Every run is at most as long as the work, and can be completed. *)
Lemma cpu_completes cs :
  Forall cpu_ok cs -> exclusive cs -> exists cs', rtc cpu_step cs cs' /\ all_done cs'.
Proof.
  remember (work cs) as n eqn:En. revert cs En. induction n as [n IH] using lt_wf_ind.
  intros cs -> Hok Hex. destruct (cpu_progress cs Hok) as [Hd|[cs1 Hs]]; [by exists cs|].
  destruct (cpu_step_ok _ _ Hs Hok Hex) as (Hok1 & Hex1 & Hw).
  destruct (IH _ Hw cs1 eq_refl Hok1 Hex1) as (cs' & Hr & Hd). exists cs'. split; [|done].
  by eapply rtc_l.
Qed.

Lemma cpu_run_bounded n cs cs' :
  nsteps cpu_step n cs cs' -> Forall cpu_ok cs -> exclusive cs -> (n + work cs' <= work cs)%nat.
Proof.
  induction 1 as [|n cs1 cs2 cs3 Hs _ IH]; [lia|]. intros Hok Hex.
  destruct (cpu_step_ok _ _ Hs Hok Hex) as (Hok1 & Hex1 & Hw). specialize (IH Hok1 Hex1). lia.
Qed.

Lemma start_ok ts :
  Forall (fun t => run_locks [] t = Some []) ts ->
  Forall cpu_ok (map (mkCpu []) ts) /\ exclusive (map (mkCpu []) ts).
Proof.
  intros Hts. split.
  - apply Forall_map. eapply Forall_impl; [exact Hts|]. done.
  - intros i j c d k Hi _ Hk _. change (map (mkCpu []) ts) with (mkCpu [] <$> ts) in Hi.
    rewrite list_lookup_fmap in Hi. destruct (ts !! i); [|done]. injection Hi as <-.
    by apply elem_of_nil in Hk.
Qed.

Section processors.
Context `{X86Addr} {PT : Type} `{PageTable PT} (prof : profile).

(** What one call of the kernel allocator does with locks, whatever memory it
    finds. *)
Inductive heap_call : events -> Prop :=
| call_alloc bks size align self (m : Memory PT) r bks' self' m' e :
    ready m ->
    l_kallocate prof bks size align (self, (m, [])) = Ret (r, (bks', (self', (m', e)))) ->
    heap_call e
| call_dealloc bks ptr size align self (m : Memory PT) bks' self' m' e :
    ready m ->
    l_kdeallocate prof bks ptr size align (self, (m, [])) = Ret (bks', (self', (m', e))) ->
    heap_call e.

Lemma heap_call_ordered e : heap_call e -> run_locks [] e = Some [].
Proof.
  intros [bks size align self m r bks' self' m' e' Hm Hr|bks ptr size align self m bks' self' m' e' Hm Hr].
  - destruct (erases_events _ _ _ _ _ _ (kallocate_erases prof bks size align [] (self, m) Hm) Hr)
      as ([r1 [b1 [s1 m1]]] & e1 & He1 & Heq). by injection Heq as <- <- <- <- <-.
  - destruct (erases_events _ _ _ _ _ _ (kdeallocate_erases prof bks ptr size align [] (self, m) Hm) Hr)
      as ([b1 [s1 m1]] & e1 & He1 & Heq). by injection Heq as <- <- <- <-.
Qed.

Lemma calls_ordered es : Forall heap_call es -> run_locks [] (mjoin es) = Some [].
Proof.
  induction 1 as [|e es He _ IH]; [done|]. cbn [mjoin list_join].
  by rewrite run_locks_app, (heap_call_ordered e He).
Qed.

(** C4: processors that use the kernel allocator at the same time never wait for
    each other for ever: in every state they can get to, no lock is held by two
    of them and the others can go on until all calls have returned; and no run is
    longer than the number of times locks are taken and given back. *)
Theorem processors_complete (calls : list (list events)) :
  Forall (Forall heap_call) calls ->
  let start := map (fun es => mkCpu [] (mjoin es)) calls in
  forall cs, rtc cpu_step start cs ->
    exclusive cs /\ (exists cs', rtc cpu_step cs cs' /\ all_done cs') /\
    forall n cs', nsteps cpu_step n start cs' -> (n <= work start)%nat.
Proof.
  intros Hcalls start cs Hr.
  destruct (start_ok (map mjoin calls)) as [Hok Hex].
  { apply Forall_map. eapply Forall_impl; [exact Hcalls|]. apply calls_ordered. }
  rewrite map_map in Hok, Hex. fold start in Hok, Hex.
  destruct (cpu_run_ok _ _ Hr Hok Hex) as [Hok' Hex']. split_and!; [done|by apply cpu_completes|].
  intros n cs' Hn. pose proof (cpu_run_bounded _ _ _ Hn Hok Hex). lia.
Qed.
End processors.

(** ** Setting up *)

Section setup.
Context `{X86Addr} {PT : Type} `{PageTable PT} (prof : profile).

(** Setting the frame allocator up: the frames are locked under the page table,
    which is against the order of all other calls. *)
Definition init_events : events :=
  [Acq LTable; Rel LTable; Acq LTable; Acq LFrames; Rel LFrames; Rel LTable].

Lemma l_init_frame_allocator_events cr3 (opt : Z -> Z -> PT) regions m t :
  l_init_frame_allocator prof cr3 opt regions (m, t) =
  (m' ← init_frame_allocator prof cr3 opt regions m; Ret (m', t ++ init_events)).
Proof.
  unfold l_init_frame_allocator, l_init, init_frame_allocator. cbn [fst].
  destruct (init cr3 opt m) as [m1| | |]; try done. cbn [mbind outcome_bind emit fst snd].
  destruct (PAGE_TABLE m1) as [pt|]; [|done]. cbn [unwrap mbind outcome_bind].
  destruct (bitmap_new prof regions pt) as [[fa pt']| | |]; try done. cbn [mbind outcome_bind emit fst snd].
  unfold emit. cbn [fst snd]. by rewrite <- !app_assoc.
Qed.
End setup.

(** ** Examples *)

(** A booted memory. *)
Definition ex_memory : Memory (list (Z * Z)) := mkMemory (Some []) (Some booted).

(** What the first request does with locks. *)
Definition first_request : events :=
  [Acq LBuckets; Acq LPages; Acq LFrames; Acq LTable; Rel LTable; Rel LFrames; Rel LPages;
   Acq LFrames; Acq LTable; Rel LTable; Rel LFrames; Rel LBuckets].

Lemma heap_locks_transparent_witness :
  erases (PT := list (Z * Z)) [] [] []
    (@l_kallocate x86_model _ flat_page_table Debug kallocator_new 8 8 ([], (ex_memory, [])))
    (@kallocate x86_model _ (@full_page_allocator x86_model _ (@memory_kpages x86_model _ flat_page_table Debug) Debug)
       Debug kallocator_new 8 8 ([], ex_memory)) /\
  exists bks p m,
    @l_kallocate x86_model _ flat_page_table Debug kallocator_new 8 8 ([], (ex_memory, [])) =
    Ret (Ok 0xffffc90000001000, (bks, (p, (m, first_request)))).
Proof.
  split; [|do 3 eexists; vm_compute; reflexivity].
  exact (proj1 (@heap_locks_transparent x86_model (list (Z * Z)) flat_page_table Debug [] ex_memory
    kallocator_new [] (ex_intro _ booted eq_refl)) 8 8).
Defined.

Lemma first_request_call : @heap_call x86_model _ flat_page_table Debug first_request.
Proof.
  eapply (@call_alloc x86_model _ flat_page_table Debug kallocator_new 8 8 [] ex_memory).
  - by exists booted.
  - vm_compute. reflexivity.
Qed.

(** Two processors, of which the first has the buckets. *)
Lemma processors_complete_witness :
  exists cs', rtc cpu_step [mkCpu [LBuckets] (List.tl first_request); mkCpu [] first_request] cs' /\
    all_done cs'.
Proof.
  apply (@processors_complete x86_model (list (Z * Z)) flat_page_table Debug
    [[first_request]; [first_request]]).
  - repeat constructor; exact first_request_call.
  - apply rtc_once. exact (step_acq [mkCpu [] first_request; mkCpu [] first_request] 0 [] LBuckets
      (List.tl first_request) eq_refl ltac:(repeat constructor; by apply not_elem_of_nil)).
Defined.

(** Setting the frame allocator up while another processor uses the allocator:
    they can wait for each other. *)
Theorem init_deadlocks :
  exists cs, rtc cpu_step [mkCpu [] init_events; mkCpu [] first_request] cs /\
    ~ all_done cs /\ forall cs', ~ cpu_step cs cs'.
Proof.
  exists [mkCpu [LTable] (drop 3 init_events); mkCpu [LFrames; LPages; LBuckets] (drop 3 first_request)].
  split_and!.
  - assert (forall k h, belowb h k = true -> k ∉ h) as Hfree.
    { intros k h Hb Hin. unfold belowb in Hb. rewrite forallb_forall in Hb.
      apply list_elem_of_In, Hb in Hin. lia. }
    do 3 (eapply rtc_l; [eapply (step_acq _ 1); [reflexivity|repeat constructor; by apply Hfree]|];
      cbn [insert list_insert]).
    eapply rtc_l; [eapply (step_acq _ 0); [reflexivity|repeat constructor; by apply Hfree]|].
    cbn [insert list_insert].
    eapply rtc_l; [eapply (step_rel _ 0); reflexivity|]. cbn [insert list_insert].
    eapply rtc_l; [eapply (step_acq _ 0); [reflexivity|repeat constructor; by apply Hfree]|].
    reflexivity.
  - intros Hd. by apply Forall_cons_1 in Hd as [[=] _].
  - intros cs' Hs. inversion Hs as [cs i h k t Hi Hf|cs i h k t Hi]; subst;
      destruct i as [|[|i]]; cbn in Hi; try discriminate; injection Hi as <- <- <-;
      rewrite !Forall_cons_iff in Hf; destruct Hf as (Hf0 & Hf1 & _); cbn [held] in Hf0, Hf1;
      [destruct Hf1|destruct Hf0]; by left.
Qed.
