(* ===== verification/Vfs.v ===== *)
(** * fs/vfs: errors, flags, inodes and traits, and the locks of the [spin] crate *)

From Stdlib Require Import ZArith Lia.
From stdpp Require Import base list numbers gmap.
From S2P Require Import Prelude PathComponents.

Local Open Scope Z_scope.

(** ** vfs/error.rs *)

Inductive FSError :=
| BadPath
| NoEntry
| NoMount
| MissingInode
| WrongInode
| NotDirectory
| Exists
| Unimplemented
| NotSupported.

#[export] Instance FSError_eq_dec : EqDecision FSError.
Proof. solve_decision. Defined.

(** ** vfs/mod.rs *)

(** [Mode] and [Permission] are sets of flags: their bits. *)
Definition FIFO : Z := Z.shiftl 1 0.
Definition CHARACTER_DEVICE : Z := Z.shiftl 1 1.
Definition DIRECTORY : Z := Z.shiftl 1 2.
Definition BLOCK_DEVICE : Z := Z.shiftl 1 3.
Definition REGULAR_FILE : Z := Z.shiftl 1 4.
Definition SYMBOLIC_LINK : Z := Z.shiftl 1 5.
Definition SOCKET : Z := Z.shiftl 1 6.

(** [bitflags]: [contains]. *)
Definition flags_contain (flags other : Z) : bool := Z.land flags other =? other.

(** [vfs::Inode].  [private] is a [Box<dyn Any>] that the file system's
    operations downcast: [Some] of that file system's inode, [None] for any
    other type.  ([ops] points to the operations of the file system.) *)
Record vInode (I : Type) := mkVInode {
  v_mode : Z;
  v_permission : Z;
  v_user_id : Z;
  v_group_id : Z;
  v_num : Z;
  v_size : Z;
  v_nlink : Z;
  v_blocks : Z;
  v_last_access_time : Z;
  v_creation_time : Z;
  v_last_modification_time : Z;
  v_private : option I
}.
Arguments mkVInode {I}.
Arguments v_mode {I}.
Arguments v_permission {I}.
Arguments v_user_id {I}.
Arguments v_group_id {I}.
Arguments v_num {I}.
Arguments v_size {I}.
Arguments v_nlink {I}.
Arguments v_blocks {I}.
Arguments v_last_access_time {I}.
Arguments v_creation_time {I}.
Arguments v_last_modification_time {I}.
Arguments v_private {I}.

Definition is_dir {I} (inode : vInode I) : bool := flags_contain (v_mode inode) DIRECTORY.

(** [Permission]. *)
Definition OTHER_EXECUTE : Z := Z.shiftl 1 0.
Definition OTHER_WRITE : Z := Z.shiftl 1 1.
Definition OTHER_READ : Z := Z.shiftl 1 2.
Definition GROUP_EXECUTE : Z := Z.shiftl 1 3.
Definition GROUP_WRITE : Z := Z.shiftl 1 4.
Definition GROUP_READ : Z := Z.shiftl 1 5.
Definition USER_EXECUTE : Z := Z.shiftl 1 6.
Definition USER_WRITE : Z := Z.shiftl 1 7.
Definition USER_READ : Z := Z.shiftl 1 8.
Definition STICKY : Z := Z.shiftl 1 9.

(** ** [file_iter.rs] *)

(** [FileIterator]: the names and inode numbers of a directory, one after the
    other, where [S] is what the iterator has locked. *)
Class FileIterator (S It : Type) := {
  fi_next : S -> It -> outcome (option (str * Z) * It)
}.

(** [FileIter]: an iterator with the inode it goes over. *)
Record FileIter (I It : Type) := mkFileIter { fi_inode : vInode I; fi_iter : It }.
Arguments mkFileIter {I It} _ _.
Arguments fi_inode {I It} _.
Arguments fi_iter {I It} _.

#[export] Instance file_iter_iterator {I S It} `{FileIterator S It}
    : FileIterator S (FileIter I It) := {|
  fi_next lock self :=
    '(o, it) ← fi_next lock (fi_iter self); Ret (o, mkFileIter (fi_inode self) it)
|}.

(** ** The traits *)

(** [SuperBlock] of a file system with state [SB] and inodes [I], over a store
    [H] of shared blocks; [now] is the time of the call. *)
Class SuperBlockOps (SB I H : Type) := {
  sb_root_inode : SB -> H -> outcome (result (vInode I) FSError * H);
  sb_create_inode : Z -> SB -> H -> outcome (result (vInode I) FSError * (SB * H));
  sb_get_inode : SB -> H -> Z -> outcome (result (option (vInode I)) FSError * H);
  sb_destroy_inode : SB -> Z -> outcome (result unit FSError * SB);
  sb_write_inode : SB -> vInode I -> result unit FSError * SB
}.

(** [InodeOps].  An operation takes and returns the inode it works on and the
    inode of the directory entry [parent]; [list] gives a [FileIter] over an
    iterator [It] of the file system. *)
Class InodeOps (I H It : Type) := {
  ops_create : Z -> vInode I -> vInode I -> Component -> H ->
    outcome (result unit FSError * (vInode I * vInode I * H));
  ops_link : Z -> vInode I -> vInode I -> Component -> H ->
    outcome (result unit FSError * (vInode I * vInode I * H));
  ops_symlink : Z -> vInode I -> str -> vInode I -> Component -> H ->
    outcome (result unit FSError * (vInode I * vInode I * H));
  ops_unlink : vInode I -> vInode I -> result unit FSError;
  ops_rename : vInode I -> vInode I -> vInode I -> Component -> result unit FSError;
  ops_mkdir : Z -> vInode I -> vInode I -> Component -> H ->
    outcome (result unit FSError * (vInode I * vInode I * H));
  ops_list : vInode I -> H -> outcome (result (FileIter I It) FSError * H)
}.

(** The methods of [Inode] call the operations of its file system. *)
Section inode_methods.
Context {I H It : Type} `{InodeOps I H It} (now : Z).

Definition v_create (self parent : vInode I) (path : Component) (h : H) :=
  ops_create now self parent path h.
Definition v_link (self parent : vInode I) (path : Component) (h : H) :=
  ops_link now self parent path h.
Definition v_symlink (self : vInode I) (src : str) (parent : vInode I) (path : Component) (h : H) :=
  ops_symlink now self src parent path h.
Definition v_unlink (self parent : vInode I) : result unit FSError := ops_unlink self parent.
Definition v_rename (self src_p dst_p : vInode I) (path : Component) : result unit FSError :=
  ops_rename self src_p dst_p path.
Definition v_mkdir (self parent : vInode I) (path : Component) (h : H) :=
  ops_mkdir now self parent path h.
Definition v_list (self : vInode I) (h : H) : outcome (result (FileIter I It) FSError * H) :=
  ops_list self h.
End inode_methods.

(** A store through a reference into [private]. *)
Definition set_private {I} (v : vInode I) (i : I) : vInode I :=
  mkVInode (v_mode v) (v_permission v) (v_user_id v) (v_group_id v) (v_num v) (v_size v)
    (v_nlink v) (v_blocks v) (v_last_access_time v) (v_creation_time v)
    (v_last_modification_time v) (Some i).

(** ** Reader-writer spin locks *)

(** A lock that is not free spins for ever when its own holder waits for it:
    there is one thread of control. *)
Record RwLock (T : Type) := mkRwLock { rw_readers : nat; rw_writer : bool; rw_value : T }.
Arguments mkRwLock {T}.
Arguments rw_readers {T}.
Arguments rw_writer {T}.
Arguments rw_value {T}.

Definition rw_new {T} (x : T) : RwLock T := mkRwLock 0 false x.
Definition rw_read {T} (l : RwLock T) : outcome (RwLock T) :=
  if rw_writer l then Hang else Ret (mkRwLock (S (rw_readers l)) false (rw_value l)).
Definition rw_read_drop {T} (l : RwLock T) : RwLock T :=
  mkRwLock (pred (rw_readers l)) (rw_writer l) (rw_value l).
Definition rw_write {T} (l : RwLock T) : outcome (RwLock T) :=
  if rw_writer l || (0 <? rw_readers l)%nat then Hang else Ret (mkRwLock 0 true (rw_value l)).
Definition rw_write_drop {T} (l : RwLock T) : RwLock T := mkRwLock 0 false (rw_value l).
Definition rw_set {T} (l : RwLock T) (x : T) : RwLock T :=
  mkRwLock (rw_readers l) (rw_writer l) x.

(** [Arc<RwLock<T>>]: shared locks, by address. *)
Record Heap (T : Type) := mkHeap { h_next : Z; h_locks : gmap Z (RwLock T) }.
Arguments mkHeap {T}.
Arguments h_next {T}.
Arguments h_locks {T}.

Definition heap_empty {T} : Heap T := mkHeap 0 ∅.

(** [Arc::new(RwLock::new(x))]. *)
Definition arc_new {T} (h : Heap T) (x : T) : Z * Heap T :=
  (h_next h, mkHeap (h_next h + 1) (<[h_next h := rw_new x]> (h_locks h))).

(** The lock behind an [Arc] (which always exists), changed by [f]. *)
Definition arc_update {T} (h : Heap T) (a : Z) (f : RwLock T -> outcome (RwLock T))
    : outcome (T * Heap T) :=
  match h_locks h !! a with
  | None => Panic
  | Some l => l ← f l; Ret (rw_value l, mkHeap (h_next h) (<[a := l]> (h_locks h)))
  end.

Definition arc_read {T} (h : Heap T) (a : Z) : outcome (T * Heap T) := arc_update h a rw_read.
Definition arc_read_drop {T} (h : Heap T) (a : Z) : outcome (Heap T) :=
  snd <$> arc_update h a (fun l => Ret (rw_read_drop l)).
Definition arc_write {T} (h : Heap T) (a : Z) : outcome (T * Heap T) := arc_update h a rw_write.
Definition arc_write_drop {T} (h : Heap T) (a : Z) : outcome (Heap T) :=
  snd <$> arc_update h a (fun l => Ret (rw_write_drop l)).
(** Store through a write guard. *)
Definition arc_set {T} (h : Heap T) (a : Z) (x : T) : outcome (Heap T) :=
  snd <$> arc_update h a (fun l => Ret (rw_set l x)).

(** ** Lemmas *)

(** A lock nobody holds. *)
Definition free_lock {T} (h : Heap T) (a : Z) (x : T) : Prop :=
  h_locks h !! a = Some (rw_new x).

(** Reading a free lock and giving it back changes nothing. *)
Lemma arc_read_free {T} (h : Heap T) a x :
  free_lock h a x -> exists h' l, arc_read h a = Ret (x, h') /\ arc_read_drop h' a = Ret h /\
    h_locks h' !! a = Some l /\ rw_value l = x.
Proof.
  intros Hf. unfold arc_read, arc_read_drop, arc_update. rewrite Hf.
  do 2 eexists. split; [reflexivity|]. cbn. rewrite lookup_insert_eq. cbn.
  unfold rw_read_drop. cbn. rewrite insert_insert_eq, insert_id by done. by destruct h.
Qed.

(** A write section on a free lock stores a value. *)
Definition heap_put {T} (h : Heap T) (a : Z) (x : T) : Heap T :=
  mkHeap (h_next h) (<[a := rw_new x]> (h_locks h)).

Lemma arc_write_free {T} (h : Heap T) a x :
  free_lock h a x -> exists h', arc_write h a = Ret (x, h') /\
    forall y, exists h'', arc_set h' a y = Ret h'' /\
      arc_write_drop h'' a = Ret (heap_put h a y) /\ arc_read h'' a = Hang.
Proof.
  intros Hf. unfold arc_write, arc_set, arc_write_drop, arc_read, arc_update, heap_put. rewrite Hf.
  eexists. split; [reflexivity|]. intros y. cbn. rewrite lookup_insert_eq. cbn.
  eexists. split; [reflexivity|]. cbn. rewrite lookup_insert_eq. cbn.
  by rewrite !insert_insert_eq.
Qed.

Lemma free_lock_put {T} (h : Heap T) a b x y :
  free_lock h b y -> free_lock (heap_put h a x) b (if decide (a = b) then x else y).
Proof.
  unfold free_lock, heap_put. cbn. intros Hf. destruct (decide (a = b)) as [->|Hne].
  - by rewrite lookup_insert_eq.
  - by rewrite lookup_insert_ne.
Qed.
