(* ===== verification/Ext2.v ===== *)
(** * fs/ext2: the structures of the ext2 file system

    The declarations of fs/ext2/superblock.rs, inode.rs and block_group.rs, with
    the sizes the compiler is asked to check and the flags.  There are no
    operations on them yet, and the module is not compiled. *)

From Stdlib Require Import ZArith Lia.
From stdpp Require Import base list numbers.
From S2P Require Import Prelude Vfs.

Local Open Scope Z_scope.

(** ** superblock.rs *)

(** [FileSystemState] and [ErrorHandlingMethod], with their discriminants. *)
Inductive FileSystemState := StateClean | StateError.
Definition state_code (s : FileSystemState) : Z :=
  match s with StateClean => 1 | StateError => 2 end.

Inductive ErrorHandlingMethod := Ignore | RemountAsReadOnly | KernelPanic.
Definition errors_code (e : ErrorHandlingMethod) : Z :=
  match e with Ignore => 1 | RemountAsReadOnly => 2 | KernelPanic => 3 end.

Record SuperBlock := mkSuperBlock {
  inode_count : Z;
  block_count : Z;
  reserved_block_count : Z;
  unallocated_block_count : Z;
  unallocated_inode_count : Z;
  superblock_block_number : Z;
  block_size : Z;
  fragment_size : Z;
  blocks_per_group : Z;
  fragments_per_group : Z;
  inodes_per_group : Z;
  last_mount_time : Z;
  last_write_time : Z;
  mount_count : Z;
  max_mount_count : Z;
  magic : Z;
  state : FileSystemState;
  errors : ErrorHandlingMethod;
  minor_version : Z;
  last_check_time : Z;
  check_interval : Z;
  creator_os : Z;
  major_version : Z;
  reserved_blocks_uid : Z;
  reserved_blocks_gid : Z;
  first_non_reserved_inode : Z;
  inode_size : Z;
  block_group_number : Z;
  optional_features : Z;
  required_features : Z;
  readonly_features : Z;
  filesystem_id : Z;
  volume_name : list Z;
  path_to_last_mounted : list Z;
  compression_algorithms : Z;
  block_preallocations_for_files : Z;
  block_preallocations_for_directories : Z;
  sb_unused : Z;
  journal_id : Z;
  journal_inode : Z;
  journal_device : Z;
  orphan_inode_list_head : Z;
  sb_unused2 : list Z
}.

(** [OptFeatures]. *)
Definition PREALLOCATE_BLOCKS_FOR_DIRECTORIES : Z := 0x0001.
Definition AFS_SERVER_INODES_EXIST : Z := 0x0002.
Definition HAS_JOURNAL : Z := 0x0004.
Definition INODES_HAVE_EXTENDED_ATTRIBUTES : Z := 0x0008.
Definition CAN_RESIZE : Z := 0x0010.
Definition DIRECTORIES_USE_HASH_INDEX : Z := 0x0020.

(** [RequiredFeatures]. *)
Definition COMPRESSION : Z := 0x0001.
Definition DIRECTORY_TYPE_FIELD : Z := 0x0002.
Definition NEEDS_JOURNAL_REPLAY : Z := 0x0004.
Definition USES_JOURNAL_DEVICE : Z := 0x0008.

(** [ReadOnlyFeatures]. *)
Definition SPARSE_SUPERBLOCKS_AND_GROUP_DESCRIPTORS : Z := 0x0001.
Definition USES_64_BIT_FILE_SIZE : Z := 0x0002.
Definition HAS_BINARY_TREES : Z := 0x0004.

(** ** block_group.rs *)

Record BlockGroup := mkBlockGroup {
  block_usage_bitmap_block : Z;
  inode_usage_bitmap_block : Z;
  inode_table_block : Z;
  unallocated_blocks_count : Z;
  unallocated_inodes_count : Z;
  directories_count : Z;
  bg_unused : list Z
}.

(** ** inode.rs *)

Record TypeAndPermission := mkTypeAndPermission { tp_value : Z }.

Record Inode := mkInode {
  tp_and_perm : TypeAndPermission;
  user_id : Z;
  size_lo : Z;
  last_access_time : Z;
  creation_time : Z;
  last_modification_time : Z;
  deletion_time : Z;
  group_id : Z;
  hard_link_count : Z;
  disk_sectors : Z;
  flags : Z;
  os_specific_value_1 : Z;
  direct_block_pointers : list Z;
  singly_indirect_block_pointer : Z;
  doubly_indirect_block_pointer : Z;
  triply_indirect_block_pointer : Z;
  generation_number : Z;
  extended_attribute_block : Z;
  size_hi : Z;
  fragment_block_address : Z;
  os_specific_value_2 : list Z
}.

(** [Type]. *)
Definition FIFO : Z := 0x1000.
Definition CHARACTER_DEVICE : Z := 0x2000.
Definition DIRECTORY : Z := 0x4000.
Definition BLOCK_DEVICE : Z := 0x6000.
Definition REGULAR_FILE : Z := 0x8000.
Definition SYMBOLIC_LINK : Z := 0xA000.
Definition SOCKET : Z := 0xC000.

(** [Permission]. *)
Definition OTHER_EXECUTE : Z := 0x01.
Definition OTHER_WRITE : Z := 0x02.
Definition OTHER_READ : Z := 0x04.
Definition GROUP_EXECUTE : Z := 0x10.
Definition GROUP_WRITE : Z := 0x20.
Definition GROUP_READ : Z := 0x40.
Definition USER_EXECUTE : Z := 0x100.
Definition USER_WRITE : Z := 0x200.
Definition USER_READ : Z := 0x400.
Definition STICKY : Z := 0x1000.
Definition SET_GROUP_ID : Z := 0x2000.
Definition SET_USER_ID : Z := 0x4000.

(** [InodeFlags]. *)
Definition SECURE_DELETION : Z := 0x00000001.
Definition KEEP_COPY_ON_DELETE : Z := 0x00000002.
Definition FILE_COMPRESSION : Z := 0x00000004.
Definition SYNC_CHANGES : Z := 0x00000008.
Definition IMMUTABLE_FILE : Z := 0x00000010.
Definition APPEND_ONLY : Z := 0x00000020.
Definition NO_DUMP : Z := 0x00000040.
Definition LAST_ACCESS_TIME : Z := 0x00000080.
Definition HASH_INDEXED_DIRECTORY : Z := 0x00010000.
Definition AFS_DIRECTORY : Z := 0x00020000.
Definition JOURNAL_FILE_DATA : Z := 0x00040000.

(** ** Sizes *)

(** The type of a field, as far as its layout goes; [Arr t n] is [[t; n]]. *)
Inductive fty := U (bytes : Z) | Arr (t : fty) (n : Z).

Fixpoint size_of (t : fty) : Z :=
  match t with U b => b | Arr t n => n * size_of t end.

(** The alignment of [u128] differs between versions of the compiler. *)
Fixpoint align_of (a128 : Z) (t : fty) : Z :=
  match t with U b => if b =? 16 then a128 else b | Arr t _ => align_of a128 t end.

Definition round_up (x a : Z) : Z := (x + a - 1) / a * a.

(** The size of a struct whose fields are laid out in the given order. *)
Definition struct_size (a128 : Z) (fs : list fty) : Z :=
  round_up (foldl (fun off t => round_up off (align_of a128 t) + size_of t) 0 fs)
           (foldr (fun t a => Z.max (align_of a128 t) a) 1 fs).

(** The fields in the order they are declared in. *)
Definition superblock_fields : list fty :=
  replicate 13 (U 4) ++ replicate 6 (U 2) ++ replicate 4 (U 4) ++ [U 2; U 2] ++
  [U 4; U 2; U 2; U 4; U 4; U 4; U 16; Arr (U 1) 16; Arr (U 1) 64; U 4; U 1; U 1; U 2; U 16;
   U 4; U 4; U 4; Arr (U 1) 788].
Definition block_group_fields : list fty :=
  [U 4; U 4; U 4; U 2; U 2; U 2; Arr (U 1) 14].
Definition inode_fields : list fty :=
  [U 2; U 2; U 4; U 4; U 4; U 4; U 4; U 2; U 2; U 4; U 4; U 4; Arr (U 4) 12; U 4; U 4; U 4; U 4; U 4;
   U 4; U 4; Arr (U 4) 3].

(** The sizes asserted in the source: block groups and inodes have them in the
    declared order; a super block has it in that order when [u128] is aligned to 8
    bytes; aligned to 16 bytes both its [u128] are moved behind padding, and only
    an order the compiler chooses can have the size. *)
Theorem asserted_sizes :
  (forall a, struct_size a block_group_fields = 32 /\ struct_size a inode_fields = 128) /\
  struct_size 8 superblock_fields = 1024 /\ struct_size 16 superblock_fields = 1040 /\
  exists fs, fs ≡ₚ superblock_fields /\ struct_size 16 fs = 1024.
Proof.
  split_and!; [intros a; by split|done..|].
  exists (replicate 2 (U 16) ++ replicate 13 (U 4) ++ replicate 6 (U 2) ++ replicate 4 (U 4) ++
    [U 2; U 2; U 4; U 2; U 2; U 4; U 4; U 4; Arr (U 1) 16; Arr (U 1) 64; U 4; U 1; U 1; U 2;
     U 4; U 4; U 4; Arr (U 1) 788]).
  split; [|done]. unfold superblock_fields. cbn. solve_Permutation.
Qed.

(** ** Flags *)

Definition types : list Z :=
  [FIFO; CHARACTER_DEVICE; DIRECTORY; BLOCK_DEVICE; REGULAR_FILE; SYMBOLIC_LINK; SOCKET].
Definition access_flags : list Z :=
  [OTHER_EXECUTE; OTHER_WRITE; OTHER_READ; GROUP_EXECUTE; GROUP_WRITE; GROUP_READ;
   USER_EXECUTE; USER_WRITE; USER_READ].

(** The flags for access are kept apart from the type in the one number of
    [TypeAndPermission]: whatever of them is set, the type can be read back. *)
Theorem access_keeps_type t ps :
  t ∈ types -> Forall (fun p => p ∈ access_flags) ps ->
  Z.land (Z.lor t (foldr Z.lor 0 ps)) 0xF000 = t.
Proof.
  intros Ht Hps. assert (Z.land (foldr Z.lor 0 ps) 0xF000 = 0) as Hz.
  { induction Hps as [|p ps Hp _ IH]; [done|]. cbn [foldr].
    rewrite Z.land_lor_distr_l, IH, Z.lor_0_r.
    unfold access_flags in Hp. rewrite !elem_of_cons, elem_of_nil in Hp.
    by repeat destruct Hp as [->|Hp]. }
  rewrite Z.land_lor_distr_l, Hz, Z.lor_0_r.
  unfold types in Ht. rewrite !elem_of_cons, elem_of_nil in Ht. by repeat destruct Ht as [->|Ht].
Qed.

(** The other three flags are not: every directory has [SET_USER_ID] set, and a
    regular file with it reads as a socket, one with [SET_GROUP_ID] as a symbolic
    link. *)
Theorem mode_bits_collide p :
  flags_contain (Z.lor DIRECTORY p) SET_USER_ID = true /\
  Z.lor REGULAR_FILE SET_USER_ID = SOCKET /\ Z.lor REGULAR_FILE SET_GROUP_ID = SYMBOLIC_LINK /\
  STICKY = FIFO.
Proof.
  split_and!; [|done..]. unfold flags_contain. apply Z.eqb_eq.
  change SET_USER_ID with DIRECTORY.
  apply Z.bits_inj'. intros n Hn. rewrite Z.land_spec, Z.lor_spec.
  by destruct (Z.testbit DIRECTORY n), (Z.testbit p n).
Qed.
