(* ===== verification/RamFs.v ===== *)
(** * fs/ramfs/mod.rs: the in-memory file system

    The contents of a file or directory are blocks of 4096 bytes behind an
    [Arc<RwLock<..>>] that all copies of an inode share: they live in a [Heap],
    and an inode holds the address. *)

From Stdlib Require Import ZArith Lia ZifyBool.
From stdpp Require Import base list numbers gmap strings.
From S2P Require Import Prelude PathComponents Vfs.

Local Open Scope Z_scope.

Definition FS_NAME : str := lit "ramfs".
Definition BLOCK_SIZE : nat := 4096.
Definition DIR_ENTRY_SIZE : nat := 256.

Abbreviation block := (list u8) (only parsing).
Abbreviation BlockHeap := (Heap (list block)) (only parsing).

(** ** Data *)

Record Inode := mkInode {
  i_mode : Z;
  i_permission : Z;
  i_user_id : Z;
  i_group_id : Z;
  i_num : Z;
  i_size : Z;
  i_nlink : Z;
  i_blocks : Z;
  i_last_access : Z;
  i_creation_time : Z;
  i_last_modification : Z
}.

Record SuperBlock := mkSuperBlock {
  sb_root : Z;
  sb_count : Z;
  sb_inodes : gmap Z Inode
}.

Record DirEntry := mkDirEntry {
  de_inode : Z;
  de_length : u8;
  de_name : list u8
}.

(** [#[derive(Default)]]: a new empty [Arc] of blocks. *)
Definition inode_default (h : BlockHeap) : Inode * BlockHeap :=
  let '(a, h) := arc_new h [] in
  (mkInode 0 0 0 0 0 0 0 a 0 0 0, h).

Definition set_mode (i : Inode) (m : Z) : Inode :=
  mkInode m (i_permission i) (i_user_id i) (i_group_id i) (i_num i) (i_size i) (i_nlink i)
    (i_blocks i) (i_last_access i) (i_creation_time i) (i_last_modification i).
Definition set_permission (i : Inode) (p : Z) : Inode :=
  mkInode (i_mode i) p (i_user_id i) (i_group_id i) (i_num i) (i_size i) (i_nlink i)
    (i_blocks i) (i_last_access i) (i_creation_time i) (i_last_modification i).
Definition set_size (i : Inode) (s : Z) : Inode :=
  mkInode (i_mode i) (i_permission i) (i_user_id i) (i_group_id i) (i_num i) s (i_nlink i)
    (i_blocks i) (i_last_access i) (i_creation_time i) (i_last_modification i).
(** The two assignments of [last_modification] and [last_access]. *)
Definition touch (i : Inode) (now : Z) : Inode :=
  mkInode (i_mode i) (i_permission i) (i_user_id i) (i_group_id i) (i_num i) (i_size i)
    (i_nlink i) (i_blocks i) now (i_creation_time i) now.

(** [From<Inode> for vfs::Inode]. *)
Definition inode_into (value : Inode) (h : BlockHeap) : outcome (vInode Inode * BlockHeap) :=
  '(bs, h) ← arc_read h (i_blocks value);
  h ← arc_read_drop h (i_blocks value);
  Ret (mkVInode (i_mode value) (i_permission value) (i_user_id value) (i_group_id value)
         (i_num value) (i_size value) (i_nlink value) (Z.of_nat (length bs))
         (i_last_access value) (i_creation_time value) (i_last_modification value)
         (Some value), h).

(** ** The super block *)

(** [FileSystem::new]. *)
Definition superblock_new : SuperBlock := mkSuperBlock 0 0 ∅.

Section superblock.
Context (prof : profile).

(** [SuperBlock::root]; indexing a missing key panics. *)
Definition root (sb : SuperBlock) (h : BlockHeap)
    : outcome (result (vInode Inode) FSError * BlockHeap) :=
  i ← unwrap (sb_inodes sb !! sb_root sb);
  '(v, h) ← inode_into i h;
  Ret (Ok v, h).

(** [SuperBlock::create_inode]; [now] is [TICKS.get()]. *)
Definition create_inode (sb : SuperBlock) (h : BlockHeap) (now : Z)
    : outcome (result (vInode Inode) FSError * (SuperBlock * BlockHeap)) :=
  let '(inode, h) := inode_default h in
  let key := sb_count sb in
  let inode := mkInode (i_mode inode) (i_permission inode) (i_user_id inode) (i_group_id inode)
    key (i_size inode) (i_nlink inode) (i_blocks inode) now now now in
  let inodes := <[key := inode]> (sb_inodes sb) in
  count ← arith prof 64 (sb_count sb + 1);
  '(v, h) ← inode_into inode h;
  Ret (Ok v, (mkSuperBlock (sb_root sb) count inodes, h)).

Definition get_inode (sb : SuperBlock) (h : BlockHeap) (inode_n : Z)
    : outcome (result (option (vInode Inode)) FSError * BlockHeap) :=
  match sb_inodes sb !! inode_n with
  | None => Ret (Ok None, h)
  | Some i => '(v, h) ← inode_into i h; Ret (Ok (Some v), h)
  end.

(** [todo!()]. *)
Definition destroy_inode (sb : SuperBlock) (inode_n : Z)
    : outcome (result unit FSError * SuperBlock) := Panic.

Definition write_inode (sb : SuperBlock) (inode : vInode Inode)
    : result unit FSError * SuperBlock :=
  match v_private inode with
  | None => (Err WrongInode, sb)
  | Some r_inode =>
      match sb_inodes sb !! i_num r_inode with
      | Some _ => (Ok tt, mkSuperBlock (sb_root sb) (sb_count sb)
                            (<[i_num r_inode := r_inode]> (sb_inodes sb)))
      | None => (Err MissingInode, sb)
      end
  end.

(** [FileSystem::init_super]. *)
Definition init_super (sb : SuperBlock) (h : BlockHeap) (now : Z)
    : outcome (result unit FSError * (SuperBlock * BlockHeap)) :=
  '(r, (sb, h)) ← create_inode sb h now;
  match r with
  | Err e => Ret (Err e, (sb, h))
  | Ok root =>
      i ← unwrap (sb_inodes sb !! v_num root);
      Ret (Ok tt, (mkSuperBlock (v_num root) (sb_count sb)
                     (<[v_num root := set_mode i DIRECTORY]> (sb_inodes sb)), h))
  end.
End superblock.

(** ** Directory entries *)

(** [u64::to_ne_bytes] (little endian) and back. *)
Fixpoint to_le_bytes (n : nat) (x : Z) : list u8 :=
  match n with
  | O => []
  | S n => x mod 256 :: to_le_bytes n (x / 256)
  end.
Fixpoint from_le_bytes (bs : list u8) : Z :=
  match bs with
  | [] => 0
  | b :: bs => b + 256 * from_le_bytes bs
  end.

(** [DirEntry::to_bytes]. *)
Definition to_bytes (e : DirEntry) : list u8 :=
  to_le_bytes 8 (de_inode e) ++ [de_length e] ++ de_name e.

(** [DirEntry::from_bytes]: the same memory read as [repr(C, packed)]. *)
Definition from_bytes (bytes : list u8) : DirEntry :=
  mkDirEntry (from_le_bytes (take 8 bytes)) (List.nth 8 bytes 0) (drop 9 bytes).

(** [chunks_exact] and [as_chunks_unchecked]. *)
Definition chunks_exact (n : nat) (b : list u8) : list (list u8) :=
  map (fun i => take n (drop (n * i) b)) (seq 0 (length b / n)).

(** Overwrite bytes in place. *)
Definition splice (b : list u8) (off : nat) (bs : list u8) : list u8 :=
  take off b ++ bs ++ drop (off + length bs) b.

(** The first entry with inode 0, from the last block to the first, within a
    block from front to back. *)
Definition free_chunk (b : block) : option nat :=
  position (fun c => de_inode (from_bytes c) =? 0) (chunks_exact DIR_ENTRY_SIZE b).
Fixpoint find_slot (bs : list block) : option (nat * nat) :=
  match bs with
  | [] => None
  | b :: bs' =>
      match find_slot bs' with
      | Some (i, j) => Some (S i, j)
      | None => j ← free_chunk b; Some (0%nat, j)
      end
  end.

(** [InodeOps::append_dir_entry], the part under the lock. *)
Definition append_entry (bs : list block) (entry : DirEntry) : outcome (list block) :=
  match find_slot bs with
  | Some (i, j) =>
      b ← index bs i;
      index_set bs i (splice b (DIR_ENTRY_SIZE * j) (to_bytes entry))
  | None => Ret (bs ++ [splice (replicate BLOCK_SIZE 0) 0 (to_bytes entry)])
  end.
Definition append_dir_entry (inode : Inode) (entry : DirEntry) (h : BlockHeap)
    : outcome BlockHeap :=
  '(bs, h) ← arc_write h (i_blocks inode);
  bs ← append_entry bs entry;
  h ← arc_set h (i_blocks inode) bs;
  arc_write_drop h (i_blocks inode).

(** ** [DirIterator] *)

(** The iterator holds a read lock on the blocks of its inode. *)
Record DirIterator := mkDirIterator { it_blocks : Z; blkidx : nat; entryidx : nat }.

Definition dir_iterator_new (inode : Inode) (h : BlockHeap) : outcome (DirIterator * BlockHeap) :=
  '(_, h) ← arc_read h (i_blocks inode);
  Ret (mkDirIterator (i_blocks inode) 0 0, h).

Fixpoint dir_next (fuel : nat) (lock : list block) (self : DirIterator)
    : outcome (option (str * Z) * DirIterator) :=
  match fuel with
  | O => NoFuel
  | S fuel =>
      match lock !! blkidx self with
      | None => Ret (None, self)
      | Some blk =>
          match chunks_exact DIR_ENTRY_SIZE blk !! entryidx self with
          | None => dir_next fuel lock (mkDirIterator (it_blocks self) (S (blkidx self)) 0)
          | Some c =>
              let entry := from_bytes c in
              let self := mkDirIterator (it_blocks self) (blkidx self) (S (entryidx self)) in
              if (de_inode entry =? 0) || (de_length entry =? 0) then dir_next fuel lock self
              else
                name ← slice_to (de_name entry) (Z.to_nat (de_length entry));
                _ ← rust_assert (utf8 name);
                Ret (Some (name, de_inode entry), self)
          end
      end
  end.

(** A block has 16 entries, so a call passes at most 17 positions a block. *)
Definition dir_fuel (lock : list block) : nat := (17 * length lock + 2)%nat.

(** The blocks a held read guard points to. *)
Definition guard_value (h : BlockHeap) (a : Z) : outcome (list block) :=
  l ← unwrap (h_locks h !! a); Ret (rw_value l).

(** ** [InodeOps] *)

(** [list]: the iterator, with the lock held. *)
Definition list_ (inode : vInode Inode) (h : BlockHeap)
    : outcome (result (FileIter Inode DirIterator) FSError * BlockHeap) :=
  match v_private inode with
  | None => Ret (Err WrongInode, h)
  | Some i =>
      if negb (i_mode i =? DIRECTORY) then Ret (Err NotDirectory, h)
      else '(it, h) ← dir_iterator_new i h; Ret (Ok (mkFileIter inode it), h)
  end.

#[export] Instance dir_file_iterator : FileIterator (list block) DirIterator := {|
  fi_next lock it := dir_next (dir_fuel lock) lock it
|}.

(** The loop of [add_dir_entry] over the names. *)
Fixpoint name_exists (fuel : nat) (lock : list block) (it : FileIter Inode DirIterator) (path : str)
    : outcome bool :=
  match fuel with
  | O => NoFuel
  | S fuel =>
      '(o, it) ← fi_next lock it;
      match o with
      | None => Ret false
      | Some (p, _) => if bytes_eqb p path then Ret true else name_exists fuel lock it path
      end
  end.

Section inode_ops.
Context (now : Z).

(** [add_dir_entry]: the inodes behind the references it returns. *)
Definition add_dir_entry (dst i_vfs_parent : vInode Inode) (path : Component)
    (inherit_permissions : bool) (h : BlockHeap)
    : outcome (result (Inode * Inode) FSError * BlockHeap) :=
  match path with
  | Normal path =>
      if negb (v_mode i_vfs_parent =? DIRECTORY) then Ret (Err NotDirectory, h)
      else
        '(r, h) ← list_ i_vfs_parent h;
        match r with
        | Err e => Ret (Err e, h)
        | Ok it =>
            lock ← guard_value h (it_blocks (fi_iter it));
            found ← name_exists (dir_fuel lock) lock it path;
            h ← arc_read_drop h (it_blocks (fi_iter it));
            if (found : bool) then Ret (Err Exists, h)
            else
              match v_private dst, v_private i_vfs_parent with
              | Some i_dst, Some i_parent =>
                  name ← (if (length path <=? 247)%nat then
                            Ret (path ++ replicate (247 - length path) 0) else Panic);
                  let entry := mkDirEntry (v_num dst) (Z.of_nat (length path) mod 256) name in
                  h ← append_dir_entry i_parent entry h;
                  let i_dst := if inherit_permissions
                               then set_permission i_dst (i_permission i_parent) else i_dst in
                  Ret (Ok (touch i_dst now, touch i_parent now), h)
              | _, _ => Ret (Err WrongInode, h)
              end
        end
  | _ => Ret (Err BadPath, h)
  end.

(** The inodes after [*dst = i_dst; *i_vfs_parent = i_parent]. *)
Definition update_both (i_dst i_parent : Inode) (h : BlockHeap)
    : outcome (result unit FSError * (vInode Inode * vInode Inode * BlockHeap)) :=
  '(dst, h) ← inode_into i_dst h;
  '(parent, h) ← inode_into i_parent h;
  Ret (Ok tt, (dst, parent, h)).

(** The operations take and return [dst] and the inode of [parent]. *)
Definition create (dst parent : vInode Inode) (path : Component) (h : BlockHeap)
    : outcome (result unit FSError * (vInode Inode * vInode Inode * BlockHeap)) :=
  '(r, h) ← add_dir_entry dst parent path true h;
  match r with
  | Err e => Ret (Err e, (dst, parent, h))
  | Ok (i_dst, i_parent) => update_both (set_mode i_dst REGULAR_FILE) i_parent h
  end.

Definition link (src parent : vInode Inode) (path : Component) (h : BlockHeap)
    : outcome (result unit FSError * (vInode Inode * vInode Inode * BlockHeap)) :=
  '(r, h) ← add_dir_entry src parent path false h;
  match r with
  | Err e => Ret (Err e, (src, parent, h))
  | Ok (i_dst, i_parent) => update_both i_dst i_parent h
  end.

(** The write guard on the blocks of [dst] is still held when the inodes are
    converted; it is dropped behind that. *)
Definition symlink (dst : vInode Inode) (src : str) (parent : vInode Inode) (path : Component)
    (h : BlockHeap)
    : outcome (result unit FSError * (vInode Inode * vInode Inode * BlockHeap)) :=
  '(r, h) ← add_dir_entry dst parent path true h;
  match r with
  | Err e => Ret (Err e, (dst, parent, h))
  | Ok (i_dst, i_parent) =>
      let i_dst := set_mode i_dst SYMBOLIC_LINK in
      if (BLOCK_SIZE <? length src)%nat then
        Ret (Err BadPath, (set_private dst i_dst, set_private parent i_parent, h))
      else
        let i_dst := set_size i_dst (Z.of_nat (length src)) in
        let block := splice (replicate BLOCK_SIZE 0) 0 src in
        '(bs, h) ← arc_write h (i_blocks i_dst);
        h ← arc_set h (i_blocks i_dst) (bs ++ [block]);
        '(r, (dst, parent, h)) ← update_both i_dst i_parent h;
        h ← arc_write_drop h (i_blocks i_dst);
        Ret (r, (dst, parent, h))
  end.

Definition unlink (dst parent : vInode Inode) : result unit FSError := Err Unimplemented.
Definition rename (src src_p dst_p : vInode Inode) (path : Component) : result unit FSError :=
  Err Unimplemented.

Definition mkdir (dst parent : vInode Inode) (path : Component) (h : BlockHeap)
    : outcome (result unit FSError * (vInode Inode * vInode Inode * BlockHeap)) :=
  '(r, h) ← add_dir_entry dst parent path true h;
  match r with
  | Err e => Ret (Err e, (dst, parent, h))
  | Ok (i_dst, i_parent) => update_both (set_mode i_dst DIRECTORY) i_parent h
  end.
End inode_ops.

(** ramfs implements the traits. *)
#[export] Instance ramfs_super_block (prof : profile) : SuperBlockOps SuperBlock Inode BlockHeap := {|
  sb_root_inode := root;
  sb_create_inode now sb h := create_inode prof sb h now;
  sb_get_inode := get_inode;
  sb_destroy_inode := destroy_inode;
  sb_write_inode := write_inode
|}.
#[export] Instance ramfs_inode_ops : InodeOps Inode BlockHeap DirIterator := {|
  ops_create := create;
  ops_link := link;
  ops_symlink := symlink;
  ops_unlink := unlink;
  ops_rename := rename;
  ops_mkdir := mkdir;
  ops_list := list_
|}.

(** ** Bytes of directory entries *)

Lemma to_le_bytes_length n x : length (to_le_bytes n x) = n.
Proof. revert x. induction n as [|n IH]; intros x; cbn; [done|]. by rewrite IH. Qed.

Lemma le_bytes_roundtrip n x : 0 <= x < 256 ^ Z.of_nat n -> from_le_bytes (to_le_bytes n x) = x.
Proof.
  revert x. induction n as [|n IH]; intros x Hx; [cbn in *; lia|].
  cbn [to_le_bytes from_le_bytes]. pose proof (Z.div_mod x 256).
  assert (256 ^ Z.of_nat (S n) = 256 * 256 ^ Z.of_nat n) as Hp.
  { rewrite Nat2Z.inj_succ. apply Z.pow_succ_r. lia. }
  rewrite IH; [lia|]. split; [apply Z.div_pos; lia|]. apply Z.div_lt_upper_bound; lia.
Qed.

Definition entry_ok (e : DirEntry) : Prop := 0 <= de_inode e < 2 ^ 64 /\ length (de_name e) = 247%nat.

Lemma to_bytes_length e : entry_ok e -> length (to_bytes e) = DIR_ENTRY_SIZE.
Proof.
  intros [_ Hn]. unfold to_bytes. rewrite !length_app, to_le_bytes_length, Hn. done.
Qed.

Lemma from_to_bytes e : entry_ok e -> from_bytes (to_bytes e) = e.
Proof.
  intros [Hi Hn]. unfold from_bytes, to_bytes.
  rewrite take_app_length' by (by rewrite to_le_bytes_length).
  rewrite le_bytes_roundtrip by (cbn; lia).
  rewrite app_nth2 by (rewrite to_le_bytes_length; lia). rewrite to_le_bytes_length.
  rewrite app_assoc, drop_app_length' by (rewrite length_app, to_le_bytes_length; done).
  by destruct e.
Qed.

(** ** Blocks as sequences of entries *)

Lemma chunks_length b : length b = BLOCK_SIZE -> length (chunks_exact DIR_ENTRY_SIZE b) = 16%nat.
Proof. intros Hb. unfold chunks_exact. rewrite length_map, length_seq, Hb. done. Qed.

Lemma chunks_lookup b i :
  length b = BLOCK_SIZE ->
  chunks_exact DIR_ENTRY_SIZE b !! i =
  if (i <? 16)%nat then Some (take DIR_ENTRY_SIZE (drop (DIR_ENTRY_SIZE * i) b)) else None.
Proof.
  intros Hb. destruct (i <? 16)%nat eqn:E.
  - unfold chunks_exact. change (map ?f ?l) with (f <$> l).
    rewrite list_lookup_fmap, Hb. change (BLOCK_SIZE / DIR_ENTRY_SIZE)%nat with 16%nat.
    rewrite lookup_seq_lt by lia. done.
  - apply lookup_ge_None. rewrite chunks_length by done. lia.
Qed.

Lemma splice_length b off bs :
  (off + length bs <= length b)%nat -> length (splice b off bs) = length b.
Proof. intros Hl. unfold splice. rewrite !length_app, length_take, length_drop. lia. Qed.

(** Overwriting one entry. *)
Lemma chunks_splice b j bs :
  length b = BLOCK_SIZE -> length bs = DIR_ENTRY_SIZE -> (j < 16)%nat ->
  chunks_exact DIR_ENTRY_SIZE (splice b (DIR_ENTRY_SIZE * j) bs) =
  <[j := bs]> (chunks_exact DIR_ENTRY_SIZE b).
Proof.
  intros Hb Hbs Hj.
  assert (length (splice b (DIR_ENTRY_SIZE * j) bs) = BLOCK_SIZE) as Hl.
  { rewrite splice_length; [done|]. rewrite Hb, Hbs. unfold DIR_ENTRY_SIZE, BLOCK_SIZE. lia. }
  assert (length (take (DIR_ENTRY_SIZE * j) b) = (DIR_ENTRY_SIZE * j)%nat) as Ht.
  { rewrite length_take, Hb. unfold DIR_ENTRY_SIZE, BLOCK_SIZE. lia. }
  apply list_eq. intros i. rewrite chunks_lookup by done.
  destruct (decide (i = j)) as [->|Hne].
  - rewrite list_lookup_insert_eq by (by rewrite chunks_length).
    replace (j <? 16)%nat with true by lia. unfold splice.
    rewrite drop_app_length' by done. by rewrite take_app_length'.
  - rewrite list_lookup_insert_ne, chunks_lookup by done.
    destruct (i <? 16)%nat eqn:E; [|done]. do 1 f_equal. unfold splice.
    destruct (decide (i < j)%nat).
    + rewrite drop_app_le by (rewrite Ht; unfold DIR_ENTRY_SIZE; lia).
      rewrite take_app_le by (rewrite length_drop, Ht; unfold DIR_ENTRY_SIZE; lia).
      rewrite skipn_firstn_comm, take_take. f_equal. unfold DIR_ENTRY_SIZE. lia.
    + rewrite drop_app_ge by (rewrite Ht; unfold DIR_ENTRY_SIZE; lia).
      rewrite Ht, drop_app_ge by (rewrite Hbs; unfold DIR_ENTRY_SIZE; lia).
      rewrite drop_drop, Hbs. do 2 f_equal. unfold DIR_ENTRY_SIZE. lia.
Qed.

(** ** Directories as lists of names *)

(** An entry that is listed, and what is listed for it. *)
Definition valid (c : list u8) : bool :=
  negb ((de_inode (from_bytes c) =? 0) || (de_length (from_bytes c) =? 0)).
Definition item (c : list u8) : str * Z :=
  (take (Z.to_nat (de_length (from_bytes c))) (de_name (from_bytes c)), de_inode (from_bytes c)).
Definition items (cs : list (list u8)) : list (str * Z) := map item (List.filter valid cs).

Definition dchunks (bs : list block) : list (list u8) :=
  concat (map (chunks_exact DIR_ENTRY_SIZE) bs).
(** The directory that blocks represent. *)
Definition listing (bs : list block) : list (str * Z) := items (dchunks bs).

(** A name in an entry is at most 247 bytes of UTF-8. *)
Definition chunk_ok (c : list u8) : Prop :=
  valid c = true ->
  (Z.to_nat (de_length (from_bytes c)) <= length (de_name (from_bytes c)))%nat /\
  utf8 (item c).1 = true.
Definition block_ok (b : block) : Prop :=
  length b = BLOCK_SIZE /\ Forall chunk_ok (chunks_exact DIR_ENTRY_SIZE b).

Lemma items_app l1 l2 : items (l1 ++ l2) = items l1 ++ items l2.
Proof. unfold items. by rewrite List.filter_app, map_app. Qed.

Lemma items_cons c l : items (c :: l) = (if valid c then [item c] else []) ++ items l.
Proof. unfold items. cbn. by destruct (valid c). Qed.

Lemma dchunks_app l1 l2 : dchunks (l1 ++ l2) = dchunks l1 ++ dchunks l2.
Proof. unfold dchunks. by rewrite map_app, concat_app. Qed.

Lemma dchunks_cons b l : dchunks (b :: l) = chunks_exact DIR_ENTRY_SIZE b ++ dchunks l.
Proof. done. Qed.

(** ** The iterator *)

Section iterator.
Context (bs : list block) (Hok : Forall block_ok bs).

(** The entries in front of the iterator, and the positions it can still pass. *)
Definition rest (it : DirIterator) : list (list u8) :=
  match bs !! blkidx it with
  | None => []
  | Some b => drop (entryidx it) (chunks_exact DIR_ENTRY_SIZE b) ++ dchunks (drop (S (blkidx it)) bs)
  end.
Definition it_ok (it : DirIterator) : Prop := (entryidx it <= 16)%nat.
Definition it_left (it : DirIterator) : nat := (17 * (length bs - blkidx it) - entryidx it)%nat.

Lemma rest_block it : 
  bs !! blkidx it <> None -> entryidx it = 16%nat ->
  rest it = rest (mkDirIterator (it_blocks it) (S (blkidx it)) 0).
Proof.
  intros Hb He. unfold rest. cbn [blkidx entryidx].
  destruct (bs !! blkidx it) as [b|] eqn:E; [|done].
  pose proof (Forall_lookup_1 _ _ _ _ Hok E) as [Hl _].
  rewrite He, drop_ge by (by rewrite chunks_length). cbn [app].
  destruct (bs !! S (blkidx it)) as [b'|] eqn:E'.
  - rewrite (drop_S _ _ _ E'). done.
  - apply lookup_ge_None in E'. by rewrite drop_ge.
Qed.

Lemma rest_entry it c b :
  bs !! blkidx it = Some b -> chunks_exact DIR_ENTRY_SIZE b !! entryidx it = Some c ->
  rest it = c :: rest (mkDirIterator (it_blocks it) (blkidx it) (S (entryidx it))) /\ chunk_ok c /\
  (entryidx it < 16)%nat.
Proof.
  intros Hb Hc. pose proof (Forall_lookup_1 _ _ _ _ Hok Hb) as [Hl Hcs].
  split_and!.
  - unfold rest. cbn [blkidx entryidx]. rewrite Hb, (drop_S _ _ _ Hc). done.
  - by apply (Forall_lookup_1 _ _ _ _ Hcs Hc).
  - apply lookup_lt_Some in Hc. by rewrite chunks_length in Hc.
Qed.

(** One call: it passes the entries that are not listed and stops behind the
    first that is. *)
Lemma dir_next_spec fuel it :
  it_ok it -> (it_left it < fuel)%nat ->
  exists o it', dir_next fuel bs it = Ret (o, it') /\ it_blocks it' = it_blocks it /\ it_ok it' /\
    match o with
    | None => items (rest it) = []
    | Some x => items (rest it) = x :: items (rest it') /\ (it_left it' < it_left it)%nat
    end.
Proof.
  revert it. induction fuel as [|fuel IH]; intros it Hit Hf; [lia|].
  cbn [dir_next]. unfold it_ok, it_left in *.
  destruct (bs !! blkidx it) as [b|] eqn:Eb.
  2:{ exists None, it. unfold rest. by rewrite Eb. }
  pose proof (lookup_lt_Some _ _ _ Eb) as Hlt.
  destruct (chunks_exact DIR_ENTRY_SIZE b !! entryidx it) as [c|] eqn:Ec.
  - destruct (rest_entry it c b Eb Ec) as (Hr & Hc & He). cbv zeta.
    set (it1 := mkDirIterator (it_blocks it) (blkidx it) (S (entryidx it))) in *.
    rewrite Hr, items_cons. unfold valid. unfold chunk_ok, valid in Hc.
    destruct ((de_inode (from_bytes c) =? 0) || (de_length (from_bytes c) =? 0)) eqn:Ev.
    + cbn [negb app]. destruct (IH it1) as (o & it' & -> & Hb' & Hit' & Ho); [cbn; lia..|].
      exists o, it'. split_and!; [done..|]. destruct o; [|done]. cbn in *. split; [apply Ho|].
      destruct Ho as [_ Ho]. unfold it1 in Ho. cbn in Ho. lia.
    + destruct (Hc eq_refl) as [Hle Hu]. rewrite slice_to_ok by done. run_ret.
      unfold item in Hu. cbn [fst] in Hu. rewrite Hu. cbn [rust_assert]. run_ret.
      exists (Some (item c)), it1. split; [done|]. split; [done|]. unfold it1. cbn [entryidx blkidx].
      split; [lia|]. split; [done|]. lia.
  - assert (entryidx it = 16%nat) as He.
    { apply lookup_ge_None in Ec. pose proof (Forall_lookup_1 _ _ _ _ Hok Eb) as [Hl _].
      rewrite chunks_length in Ec by done. lia. }
    rewrite (rest_block it) by (done || congruence).
    set (it1 := mkDirIterator (it_blocks it) (S (blkidx it)) 0).
    destruct (IH it1) as (o & it' & -> & Hb' & Hit' & Ho); [cbn; lia..|].
    exists o, it'. split_and!; [done..|]. destruct o; [|done]. split; [apply Ho|].
    destruct Ho as [_ Ho]. cbn in Ho. lia.
Qed.

Lemma name_exists_spec fuel v it path :
  it_ok it -> (it_left it <= 17 * length bs)%nat -> (it_left it < fuel)%nat ->
  name_exists fuel bs (mkFileIter v it) path = Ret (existsb (fun x => bytes_eqb x.1 path) (items (rest it))).
Proof.
  revert it. induction fuel as [|fuel IH]; intros it Hit Hle Hf; [lia|].
  cbn [name_exists fi_next file_iter_iterator dir_file_iterator fi_iter fi_inode].
  destruct (dir_next_spec (dir_fuel bs) it Hit) as (o & it' & -> & _ & Hit' & Ho).
  { unfold dir_fuel. lia. }
  run_ret. destruct o as [[p n]|]; [|by rewrite Ho]. destruct Ho as [-> Hlt]. cbn [existsb fst].
  destruct (bytes_eqb p path); [done|]. cbn [orb]. apply IH; (done || lia).
Qed.

(** The whole iteration, as a [for] loop makes it. *)
Fixpoint collect (fuel : nat) (it : FileIter Inode DirIterator) : outcome (list (str * Z)) :=
  match fuel with
  | O => NoFuel
  | S fuel =>
      '(o, it) ← fi_next bs it;
      match o with
      | None => Ret []
      | Some x => xs ← collect fuel it; Ret (x :: xs)
      end
  end.

Lemma collect_spec fuel v it :
  it_ok it -> (it_left it <= 17 * length bs)%nat -> (it_left it < fuel)%nat ->
  collect fuel (mkFileIter v it) = Ret (items (rest it)).
Proof.
  revert it. induction fuel as [|fuel IH]; intros it Hit Hle Hf; [lia|].
  cbn [collect fi_next file_iter_iterator dir_file_iterator fi_iter fi_inode].
  destruct (dir_next_spec (dir_fuel bs) it Hit) as (o & it' & -> & _ & Hit' & Ho).
  { unfold dir_fuel. lia. }
  run_ret. destruct o as [x|]; [|by rewrite Ho]. destruct Ho as [-> Hlt].
  by rewrite IH by (done || lia).
Qed.

Lemma rest_start a : rest (mkDirIterator a 0 0) = dchunks bs.
Proof. unfold rest. cbn. destruct bs as [|b l]; [done|]. cbn. by rewrite drop_0. Qed.
End iterator.

(** ** Adding an entry *)

Lemma find_slot_spec bs :
  Forall block_ok bs ->
  match find_slot bs with
  | Some (i, j) => exists l1 b l2 c, bs = l1 ++ b :: l2 /\ length l1 = i /\
      chunks_exact DIR_ENTRY_SIZE b !! j = Some c /\ valid c = false
  | None => True
  end.
Proof.
  induction bs as [|b bs IH]; intros Hok; [done|]. apply Forall_cons_1 in Hok as [Hb Hok].
  cbn [find_slot]. specialize (IH Hok). destruct (find_slot bs) as [[i j]|].
  - destruct IH as (l1 & b' & l2 & c & -> & <- & Hc & Hv). exists (b :: l1), b', l2, c. done.
  - unfold free_chunk.
    pose proof (position_spec (fun c => de_inode (from_bytes c) =? 0) (chunks_exact DIR_ENTRY_SIZE b)) as Hp.
    destruct (position _ _) as [j|]; [|done]. cbn [mbind option_bind].
    destruct Hp as (c1 & c & c2 & Heq & Hlen & Hz & _).
    exists [], b, bs, c. split_and!; try done.
    + rewrite Heq, <- Hlen. by apply list_lookup_middle.
    + unfold valid. by rewrite Hz.
Qed.

Lemma listing_middle l1 b l2 c1 c c2 :
  chunks_exact DIR_ENTRY_SIZE b = c1 ++ c :: c2 ->
  listing (l1 ++ b :: l2) =
  (listing l1 ++ items c1) ++ (if valid c then [item c] else []) ++ items c2 ++ listing l2.
Proof.
  intros Hb. unfold listing. rewrite dchunks_app, dchunks_cons, Hb.
  rewrite !items_app, items_cons, <- !app_assoc. done.
Qed.

Lemma zero_chunks : Forall (fun c => valid c = false) (chunks_exact DIR_ENTRY_SIZE (replicate BLOCK_SIZE 0)).
Proof.
  apply list.Forall_forall. intros c (i & Hi)%list_elem_of_lookup_1.
  rewrite chunks_lookup in Hi by (by rewrite length_replicate).
  destruct (i <? 16)%nat eqn:E; [|done]. apply (inj Some) in Hi. subst c.
  rewrite drop_replicate, take_replicate.
  replace (DIR_ENTRY_SIZE `min` (BLOCK_SIZE - DIR_ENTRY_SIZE * i))%nat with DIR_ENTRY_SIZE; [done|].
  unfold BLOCK_SIZE, DIR_ENTRY_SIZE. lia.
Qed.

Lemma items_invalid cs : Forall (fun c => valid c = false) cs -> items cs = [].
Proof. induction 1 as [|c cs Hc _ IH]; [done|]. rewrite items_cons, Hc. done. Qed.

Lemma append_entry_spec bs e :
  Forall block_ok bs -> entry_ok e -> chunk_ok (to_bytes e) ->
  exists bs', append_entry bs e = Ret bs' /\ Forall block_ok bs' /\
    listing bs' ≡ₚ (if valid (to_bytes e) then [item (to_bytes e)] else []) ++ listing bs.
Proof.
  intros Hok He Hce. pose proof (to_bytes_length e He) as Hlen.
  unfold append_entry. pose proof (find_slot_spec bs Hok) as Hs.
  destruct (find_slot bs) as [[i j]|].
  - destruct Hs as (l1 & b & l2 & c & -> & <- & Hc & Hv).
    apply Forall_app in Hok as [Hok1 Hok2]. apply Forall_cons_1 in Hok2 as [[Hb Hcs] Hok2].
    pose proof (lookup_lt_Some _ _ _ Hc) as Hj. rewrite chunks_length in Hj by done.
    rewrite (index_ok _ _ b) by (by apply list_lookup_middle). run_ret.
    rewrite index_set_ok by (rewrite length_app; cbn [length]; lia).
    eexists. split; [reflexivity|].
    rewrite insert_app_r_alt, Nat.sub_diag by lia. cbn [insert list_insert].
    pose proof (chunks_splice b j (to_bytes e) Hb Hlen Hj) as Hch.
    rewrite <- (take_drop_middle _ _ _ Hc) in Hch at 1.
    pose proof (take_drop_middle _ _ _ Hc) as Hold.
    assert (length (take j (chunks_exact DIR_ENTRY_SIZE b)) = j) as Hlt.
    { rewrite length_take, chunks_length by done. lia. }
    rewrite insert_app_r_alt in Hch by lia. rewrite Hlt, Nat.sub_diag in Hch.
    cbn [insert list_insert] in Hch. split.
    + apply Forall_app. split; [done|]. constructor; [|done]. split.
      * rewrite splice_length; [done|]. rewrite Hb, Hlen. unfold DIR_ENTRY_SIZE, BLOCK_SIZE. lia.
      * rewrite Hch. rewrite <- Hold in Hcs. apply Forall_app in Hcs as [? Hcs].
        apply Forall_cons_1 in Hcs as [_ ?]. apply Forall_app. by split; [|constructor].
    + rewrite (listing_middle _ _ _ _ _ _ Hch), (listing_middle l1 b l2 _ c _ (eq_sym Hold)), Hv.
      cbn [app]. destruct (valid (to_bytes e)); [|done]. cbn [app]. symmetry. apply Permutation_middle.
  - eexists. split; [reflexivity|].
    assert (chunks_exact DIR_ENTRY_SIZE (splice (replicate BLOCK_SIZE 0) 0 (to_bytes e)) =
      [] ++ to_bytes e :: drop 1 (chunks_exact DIR_ENTRY_SIZE (replicate BLOCK_SIZE 0))) as Hch.
    { change 0%nat with (DIR_ENTRY_SIZE * 0)%nat at 1.
      rewrite chunks_splice by (rewrite ?length_replicate; done || lia).
      destruct (chunks_exact DIR_ENTRY_SIZE (replicate BLOCK_SIZE 0)) eqn:E; [|done].
      pose proof (chunks_length (replicate BLOCK_SIZE 0)) as Hl. by rewrite E, length_replicate in Hl; specialize (Hl eq_refl). }
    pose proof zero_chunks as Hz. apply (Forall_drop _ 1) in Hz. split.
    + apply Forall_app. split; [done|]. constructor; [|done]. split.
      * rewrite splice_length, length_replicate; [done|]. rewrite Hlen, length_replicate.
        unfold DIR_ENTRY_SIZE, BLOCK_SIZE. lia.
      * rewrite Hch. constructor; [done|]. eapply Forall_impl; [exact Hz|].
        intros c Hc Hc'. cbv beta in Hc. congruence.
    + rewrite (listing_middle bs _ [] _ _ _ Hch), (items_invalid _ Hz). cbn [items map List.filter app].
      rewrite !app_nil_r. apply Permutation_app_comm.
Qed.

(** The entry made for a name. *)
Definition name_entry (path : str) (n : Z) : DirEntry :=
  mkDirEntry n (Z.of_nat (length path) mod 256) (path ++ replicate (247 - length path) 0).
Definition name_ok (path : str) : Prop :=
  (0 < length path <= 247)%nat /\ utf8 path = true.

Lemma name_entry_spec path n :
  name_ok path -> 0 <= n < 2 ^ 64 ->
  entry_ok (name_entry path n) /\ chunk_ok (to_bytes (name_entry path n)) /\
  valid (to_bytes (name_entry path n)) = negb (n =? 0) /\
  item (to_bytes (name_entry path n)) = (path, n).
Proof.
  intros [Hl Hu] Hn.
  assert (entry_ok (name_entry path n)) as He.
  { split; [done|]. cbn. rewrite length_app, length_replicate. lia. }
  unfold chunk_ok, valid, item. rewrite from_to_bytes by done. cbn [name_entry de_inode de_length de_name].
  rewrite Z.mod_small, Nat2Z.id by lia. rewrite take_app_length. cbn [fst].
  replace (Z.of_nat (length path) =? 0) with false by lia. rewrite orb_false_r.
  split_and!; try done. intros _. rewrite length_app. split; [lia|done].
Qed.

(** ** Operations on a directory *)

(** The [vfs::Inode] made from an inode with [n] blocks. *)
Definition view (i : Inode) (n : nat) : vInode Inode :=
  mkVInode (i_mode i) (i_permission i) (i_user_id i) (i_group_id i) (i_num i) (i_size i)
    (i_nlink i) (Z.of_nat n) (i_last_access i) (i_creation_time i) (i_last_modification i) (Some i).

Lemma inode_into_free i h bs :
  free_lock h (i_blocks i) bs -> inode_into i h = Ret (view i (length bs), h).
Proof.
  intros Hf. destruct (arc_read_free h _ _ Hf) as (h' & l & Hr & Hd & _).
  unfold inode_into. rewrite Hr. run_ret. rewrite Hd. done.
Qed.

Lemma append_dir_entry_free i e h bs bs' :
  free_lock h (i_blocks i) bs -> append_entry bs e = Ret bs' ->
  append_dir_entry i e h = Ret (heap_put h (i_blocks i) bs').
Proof.
  intros Hf Ha. destruct (arc_write_free h _ _ Hf) as (h' & Hw & Hset).
  destruct (Hset bs') as (h'' & Hs & Hd & _).
  unfold append_dir_entry. rewrite Hw. run_ret. rewrite Ha. run_ret. rewrite Hs. run_ret. done.
Qed.

Definition names (bs : list block) : list str := map fst (listing bs).

Lemma existsb_names bs path :
  existsb (fun x => bytes_eqb x.1 path) (listing bs) = bool_decide (path ∈ names bs).
Proof.
  unfold names. induction (listing bs) as [|x l IH]; [done|]. cbn [existsb map]. rewrite IH.
  unfold bytes_eqb. destruct (decide (x.1 = path)) as [He|Hne].
  - rewrite bool_decide_true by done. rewrite He. cbn. symmetry. apply bool_decide_true. by left.
  - rewrite (bool_decide_false (x.1 = path)) by done. cbn. apply bool_decide_ext.
    rewrite elem_of_cons. intuition congruence.
Qed.

(** A directory at hand: the inode passed as parent, with its blocks free. *)
Definition dir_at (parent : vInode Inode) (ip : Inode) (h : BlockHeap) (bs : list block) : Prop :=
  v_private parent = Some ip /\ v_mode parent = DIRECTORY /\ i_mode ip = DIRECTORY /\
  free_lock h (i_blocks ip) bs /\ Forall block_ok bs.

(** The checks of [add_dir_entry] on such a directory. *)
Lemma add_dir_entry_checks now dst parent ip h bs path inherit :
  dir_at parent ip h bs ->
  add_dir_entry now dst parent (Normal path) inherit h =
  if bool_decide (path ∈ names bs) then Ret (Err Exists, h)
  else
    match v_private dst with
    | Some d =>
        if (length path <=? 247)%nat then
          h ← append_dir_entry ip (name_entry path (v_num dst)) h;
          Ret (Ok (touch (if inherit then set_permission d (i_permission ip) else d) now,
                   touch ip now), h)
        else Panic
    | None => Ret (Err WrongInode, h)
    end.
Proof.
  intros (Hp & Hm & Him & Hf & Hok).
  destruct (arc_read_free h _ _ Hf) as (h' & l & Hr & Hdrop & Hlk & Hval).
  unfold add_dir_entry, list_, dir_iterator_new. rewrite Hm, Hp, Him.
  replace (DIRECTORY =? DIRECTORY) with true by done. cbn [negb]. rewrite Hr. run_ret.
  cbn [it_blocks fi_iter]. unfold guard_value. rewrite Hlk. cbn [unwrap]. run_ret. rewrite Hval.
  rewrite (name_exists_spec bs Hok) by (try done; unfold it_ok, it_left, dir_fuel; cbn; lia). run_ret.
  rewrite (rest_start bs Hok). fold (listing bs). rewrite existsb_names, Hdrop. run_ret.
  destruct (bool_decide (path ∈ names bs)); [done|]. destruct (v_private dst); [|done].
  by destruct (length path <=? 247)%nat.
Qed.

Lemma add_dir_entry_spec now dst d parent ip h bs path inherit :
  v_private dst = Some d -> 0 <= v_num dst < 2 ^ 64 -> dir_at parent ip h bs -> name_ok path ->
  exists bs', Forall block_ok bs' /\
    listing bs' ≡ₚ (if v_num dst =? 0 then [] else [(path, v_num dst)]) ++ listing bs /\
    add_dir_entry now dst parent (Normal path) inherit h =
    if bool_decide (path ∈ names bs) then Ret (Err Exists, h)
    else Ret (Ok (touch (if inherit then set_permission d (i_permission ip) else d) now,
                  touch ip now), heap_put h (i_blocks ip) bs').
Proof.
  intros Hd Hn (Hp & Hm & Him & Hf & Hok) Hname.
  destruct (name_entry_spec path (v_num dst) Hname Hn) as (He & Hce & Hv & Hit).
  destruct (append_entry_spec bs _ Hok He Hce) as (bs' & Ha & Hok' & Hl).
  rewrite Hv, Hit in Hl. exists bs'. split; [done|]. split; [by destruct (v_num dst =? 0)|].
  rewrite (add_dir_entry_checks _ _ _ ip h bs) by done. rewrite Hd.
  destruct (bool_decide (path ∈ names bs)); [done|].
  replace (length path <=? 247)%nat with true by (destruct Hname; lia).
  by rewrite (append_dir_entry_free _ _ _ _ _ Hf Ha).
Qed.

(** The operations that add an entry. *)
Inductive dir_op := OpCreate | OpMkdir | OpLink.
Definition run_op (o : dir_op) :=
  match o with OpCreate => create | OpMkdir => mkdir | OpLink => link end.
Definition op_inherits (o : dir_op) : bool := match o with OpLink => false | _ => true end.
Definition op_mode (o : dir_op) (m : Z) : Z :=
  match o with OpCreate => REGULAR_FILE | OpMkdir => DIRECTORY | OpLink => m end.

(** The inode of [dst] behind the operation. *)
Definition op_inode (o : dir_op) (d ip : Inode) (now : Z) : Inode :=
  let d := touch (if op_inherits o then set_permission d (i_permission ip) else d) now in
  set_mode d (op_mode o (i_mode d)).

Lemma op_inode_blocks o d ip now : i_blocks (op_inode o d ip now) = i_blocks d.
Proof. by destruct o. Qed.

Lemma dir_at_put parent ip h bs bs' now n :
  dir_at parent ip h bs -> Forall block_ok bs' ->
  dir_at (view (touch ip now) n) (touch ip now) (heap_put h (i_blocks ip) bs') bs'.
Proof.
  intros (_ & _ & Him & Hf & _) Hok. split_and!; try done.
  pose proof (free_lock_put h (i_blocks ip) (i_blocks ip) bs' bs Hf) as Hput.
  by rewrite decide_True in Hput by done.
Qed.

(** An operation either finds the name and changes nothing, or adds it. *)
Lemma run_op_spec o now dst d dbs parent ip h bs path :
  v_private dst = Some d -> free_lock h (i_blocks d) dbs -> 0 <= v_num dst < 2 ^ 64 ->
  dir_at parent ip h bs -> name_ok path ->
  exists bs' n, Forall block_ok bs' /\
    listing bs' ≡ₚ (if v_num dst =? 0 then [] else [(path, v_num dst)]) ++ listing bs /\
    run_op o now dst parent (Normal path) h =
    if bool_decide (path ∈ names bs) then Ret (Err Exists, (dst, parent, h))
    else Ret (Ok tt, (view (op_inode o d ip now) n, view (touch ip now) (length bs'),
                      heap_put h (i_blocks ip) bs')).
Proof.
  intros Hd Hf Hn Hdir Hname.
  destruct (add_dir_entry_spec now dst d parent ip h bs path (op_inherits o) Hd Hn Hdir Hname)
    as (bs' & Hok' & Hl & Hadd).
  pose proof (dir_at_put parent ip h bs bs' now 0 Hdir Hok') as (_ & _ & _ & Hfp & _).
  pose proof (free_lock_put h (i_blocks ip) (i_blocks d) bs' dbs Hf) as Hfd.
  eexists bs', _. split; [done|]. split; [done|].
  assert (update_both (op_inode o d ip now) (touch ip now) (heap_put h (i_blocks ip) bs') =
    Ret (Ok tt, (view (op_inode o d ip now)
                   (length (if decide (i_blocks ip = i_blocks d) then bs' else dbs)),
                 view (touch ip now) (length bs'), heap_put h (i_blocks ip) bs'))) as Hup.
  { unfold update_both.
    rewrite (inode_into_free (op_inode o d ip now) _ _ ltac:(rewrite op_inode_blocks; exact Hfd)).
    run_ret. by rewrite (inode_into_free _ _ _ Hfp). }
  destruct o; cbn [run_op op_inherits] in *; unfold create, mkdir, link; rewrite Hadd;
    (destruct (bool_decide (path ∈ names bs)); run_ret; [reflexivity|exact Hup]).
Qed.

(** ** A directory as a map *)

(** Names and the inodes they are given, in order of the operations. *)
Definition dir_cmd : Type := dir_op * vInode Inode * str.

Fixpoint dir_run (now : Z) (cmds : list dir_cmd) (parent : vInode Inode) (h : BlockHeap)
    : outcome (list (result unit FSError) * (vInode Inode * BlockHeap)) :=
  match cmds with
  | [] => Ret ([], (parent, h))
  | (o, dst, path) :: cmds =>
      '(r, (_, parent, h)) ← run_op o now dst parent (Normal path) h;
      '(rs, s) ← dir_run now cmds parent h;
      Ret (r :: rs, s)
  end.

Fixpoint map_run (cmds : list dir_cmd) (m : gmap str Z)
    : list (result unit FSError) * gmap str Z :=
  match cmds with
  | [] => ([], m)
  | (_, dst, path) :: cmds =>
      match m !! path with
      | Some _ => let '(rs, m) := map_run cmds m in (Err Exists :: rs, m)
      | None => let '(rs, m) := map_run cmds (<[path := v_num dst]> m) in (Ok tt :: rs, m)
      end
  end.

Definition cmd_ok (h : BlockHeap) (cmd : dir_cmd) : Prop :=
  let '(_, dst, path) := cmd in
  name_ok path /\ 0 < v_num dst < 2 ^ 64 /\
  exists d dbs, v_private dst = Some d /\ free_lock h (i_blocks d) dbs.

(** The blocks list exactly the bindings of the map. *)
Definition represents (bs : list block) (m : gmap str Z) : Prop := listing bs ≡ₚ map_to_list m.

Lemma represents_names bs m path :
  represents bs m -> bool_decide (path ∈ names bs) = bool_decide (is_Some (m !! path)).
Proof.
  intros Hr. apply bool_decide_ext. unfold names.
  assert (path ∈ map fst (listing bs) <-> path ∈ (map_to_list m).*1) as ->.
  { change (map fst (listing bs)) with ((listing bs).*1). by rewrite Hr. }
  rewrite list_elem_of_fmap. split.
  - intros ([k x] & -> & Hin). apply elem_of_map_to_list in Hin. cbn. eauto.
  - intros [x Hx]. exists (path, x). by rewrite elem_of_map_to_list.
Qed.

Lemma cmd_ok_put h a x cmd : cmd_ok h cmd -> cmd_ok (heap_put h a x) cmd.
Proof.
  destruct cmd as [[o dst] path]. intros (Hn & Hnum & d & dbs & Hd & Hf).
  split_and!; [done|lia..|]. exists d. eexists. split; [done|]. by apply free_lock_put.
Qed.

Lemma dir_run_map now cmds parent ip h bs m :
  dir_at parent ip h bs -> represents bs m -> Forall (cmd_ok h) cmds ->
  exists parent' ip' h' bs', dir_run now cmds parent h = Ret ((map_run cmds m).1, (parent', h')) /\
    dir_at parent' ip' h' bs' /\ i_blocks ip' = i_blocks ip /\ represents bs' (map_run cmds m).2.
Proof.
  revert parent ip h bs m.
  induction cmds as [|[[o dst] path] cmds IH]; intros parent ip h bs m Hdir Hr Hcmds.
  { exists parent, ip, h, bs. done. }
  apply Forall_cons_1 in Hcmds as [(Hname & Hnum & d & dbs & Hd & Hf) Hcmds].
  destruct (run_op_spec o now dst d dbs parent ip h bs path Hd Hf ltac:(lia) Hdir Hname)
    as (bs1 & n & Hok1 & Hl1 & Hop).
  cbn [dir_run map_run]. rewrite Hop, (represents_names bs m path Hr).
  replace (v_num dst =? 0) with false in Hl1 by lia.
  destruct (m !! path) as [x|] eqn:Em.
  - rewrite bool_decide_true by done. run_ret.
    destruct (IH parent ip h bs m Hdir Hr Hcmds) as (parent' & ip' & h' & bs' & Hrun & H1 & H2 & H3).
    rewrite Hrun. run_ret. destruct (map_run cmds m) as [rs m']. by exists parent', ip', h', bs'.
  - rewrite bool_decide_false by (by apply is_Some_None). run_ret.
    assert (represents bs1 (<[path := v_num dst]> m)) as Hr1.
    { unfold represents. rewrite map_to_list_insert by done. rewrite Hl1. cbn [app]. by rewrite Hr. }
    destruct (IH _ _ _ _ _ (dir_at_put parent ip h bs bs1 now (length bs1) Hdir Hok1) Hr1)
      as (parent' & ip' & h' & bs' & Hrun & H1 & H2 & H3).
    { eapply Forall_impl; [exact Hcmds|]. intros cmd. apply cmd_ok_put. }
    rewrite Hrun. run_ret. destruct (map_run cmds _) as [rs m']. by exists parent', ip', h', bs'.
Qed.

(** Listing a directory, from [list] to the end of the iteration. *)
Definition list_dir (parent : vInode Inode) (h : BlockHeap)
    : outcome (result (list (str * Z)) FSError * BlockHeap) :=
  '(r, h) ← list_ parent h;
  match r with
  | Err e => Ret (Err e, h)
  | Ok it =>
      lock ← guard_value h (it_blocks (fi_iter it));
      xs ← collect lock (dir_fuel lock) it;
      h ← arc_read_drop h (it_blocks (fi_iter it));
      Ret (Ok xs, h)
  end.

Lemma list_dir_spec parent ip h bs :
  dir_at parent ip h bs -> list_dir parent h = Ret (Ok (listing bs), h).
Proof.
  intros (Hp & _ & Him & Hf & Hok).
  destruct (arc_read_free h _ _ Hf) as (h' & l & Hr & Hdrop & Hlk & Hval).
  unfold list_dir, list_, dir_iterator_new. rewrite Hp, Him.
  replace (DIRECTORY =? DIRECTORY) with true by done. cbn [negb]. rewrite Hr. run_ret.
  cbn [it_blocks fi_iter]. unfold guard_value. rewrite Hlk. cbn [unwrap]. run_ret. rewrite Hval.
  rewrite (collect_spec bs Hok) by (try done; unfold it_ok, it_left, dir_fuel; cbn; lia).
  run_ret. rewrite Hdrop, (rest_start bs Hok). done.
Qed.

(** C7: a ramfs directory is a map from names to inode numbers: any sequence of
    [create], [mkdir] and [link] gives the results of insertion into a map that
    refuses names that exist, and the listing of the directory behind it is, up
    to order, the bindings of that map. *)
Theorem directory_refines_map (now : Z) (cmds : list dir_cmd) (parent : vInode Inode)
    (ip : Inode) (h : BlockHeap) (bs : list block) (m : gmap str Z) :
  dir_at parent ip h bs -> listing bs ≡ₚ map_to_list m -> Forall (cmd_ok h) cmds ->
  exists parent' h' xs,
    dir_run now cmds parent h = Ret ((map_run cmds m).1, (parent', h')) /\
    list_dir parent' h' = Ret (Ok xs, h') /\ xs ≡ₚ map_to_list (map_run cmds m).2.
Proof.
  intros Hdir Hr Hcmds.
  destruct (dir_run_map now cmds parent ip h bs m Hdir Hr Hcmds)
    as (parent' & ip' & h' & bs' & Hrun & Hdir' & _ & Hr').
  exists parent', h', (listing bs'). split_and!; [done|by eapply list_dir_spec|done].
Qed.

(** What a file operation writes is what reading entries back gives: the
    bytes of an entry decode to the entry. *)
Theorem dir_entry_roundtrip (path : str) (n : Z) :
  name_ok path -> 0 < n < 2 ^ 64 ->
  from_bytes (to_bytes (name_entry path n)) = name_entry path n /\
  length (to_bytes (name_entry path n)) = DIR_ENTRY_SIZE /\
  items [to_bytes (name_entry path n)] = [(path, n)].
Proof.
  intros Hname Hn. destruct (name_entry_spec path n Hname ltac:(lia)) as (He & _ & Hv & Hi).
  rewrite items_cons, Hv, Hi. replace (n =? 0) with false by lia.
  split_and!; [by apply from_to_bytes|by apply to_bytes_length|done].
Qed.

(** C13: [symlink] never returns once it has a valid new name and a target that
    fits a block: it converts the inode while it holds the write lock on the
    inode's blocks, and waits for itself. *)
Theorem symlink_hangs (now : Z) dst d dbs parent ip h bs (path src : str) :
  v_private dst = Some d -> free_lock h (i_blocks d) dbs -> 0 <= v_num dst < 2 ^ 64 ->
  dir_at parent ip h bs -> name_ok path -> path ∉ names bs -> (length src <= BLOCK_SIZE)%nat ->
  symlink now dst src parent (Normal path) h = Hang.
Proof.
  intros Hd Hf Hn Hdir Hname Hnew Hsrc.
  destruct (add_dir_entry_spec now dst d parent ip h bs path true Hd Hn Hdir Hname)
    as (bs' & Hok' & Hl & Hadd).
  rewrite bool_decide_false in Hadd by done. unfold symlink. rewrite Hadd. run_ret.
  pose proof (free_lock_put h (i_blocks ip) (i_blocks d) bs' dbs Hf) as Hfd.
  destruct (arc_write_free _ _ _ Hfd) as (h1 & Hw & Hset). cbv zeta.
  replace (BLOCK_SIZE <? length src)%nat with false by lia.
  cbn [i_blocks set_size set_mode touch set_permission]. rewrite Hw. run_ret.
  edestruct Hset as (h2 & Hs & _ & Hhang). rewrite Hs. run_ret.
  unfold update_both, inode_into. cbn [i_blocks set_size set_mode touch set_permission].
  rewrite Hhang. done.
Qed.

(** A target that does not fit a block is refused too late: [symlink]
    returns [BadPath] and the directory lists the new name all the same. *)
Theorem symlink_too_long_adds_name (now : Z) dst d parent ip h bs (path src : str) :
  v_private dst = Some d -> 0 < v_num dst < 2 ^ 64 ->
  dir_at parent ip h bs -> name_ok path -> path ∉ names bs -> (BLOCK_SIZE < length src)%nat ->
  exists dst' parent' h' xs,
    symlink now dst src parent (Normal path) h = Ret (Err BadPath, (dst', parent', h')) /\
    list_dir parent' h' = Ret (Ok xs, h') /\ xs ≡ₚ (path, v_num dst) :: listing bs.
Proof.
  intros Hd Hn Hdir Hname Hnew Hsrc.
  destruct (add_dir_entry_spec now dst d parent ip h bs path true Hd ltac:(lia) Hdir Hname)
    as (bs' & Hok' & Hl & Hadd).
  rewrite bool_decide_false in Hadd by done. replace (v_num dst =? 0) with false in Hl by lia.
  do 3 eexists. exists (listing bs'). split_and!; [|eapply list_dir_spec|done].
  - unfold symlink. rewrite Hadd. run_ret. cbv zeta.
    replace (BLOCK_SIZE <? length src)%nat with true by lia. reflexivity.
  - destruct (dir_at_put parent ip h bs bs' now 0 Hdir Hok') as (_ & _ & ? & ? & _).
    destruct Hdir as (_ & ? & _). split_and!; done.
Qed.

(** Inode number 0 stands for an unused entry, and the root directory has
    that number: a hard link to it succeeds, but the listing does not change. *)
Theorem link_to_root_invisible (now : Z) dst d dbs parent ip h bs (path : str) :
  v_private dst = Some d -> free_lock h (i_blocks d) dbs -> v_num dst = 0 ->
  dir_at parent ip h bs -> name_ok path -> path ∉ names bs ->
  exists dst' parent' h' xs,
    link now dst parent (Normal path) h = Ret (Ok tt, (dst', parent', h')) /\
    list_dir parent' h' = Ret (Ok xs, h') /\ xs ≡ₚ listing bs.
Proof.
  intros Hd Hf Hn Hdir Hname Hnew.
  destruct (run_op_spec OpLink now dst d dbs parent ip h bs path Hd Hf ltac:(lia) Hdir Hname)
    as (bs' & n & Hok' & Hl & Hop).
  rewrite bool_decide_false in Hop by done. rewrite Hn in Hl. cbn [Z.eqb app] in Hl.
  do 3 eexists. exists (listing bs'). split_and!; [exact Hop| |done].
  by eapply list_dir_spec, dir_at_put.
Qed.

(** A name longer than 247 bytes passes all checks and panics. *)
Theorem long_name_panics (now : Z) dst d parent ip h bs (path : str) inherit :
  v_private dst = Some d -> dir_at parent ip h bs -> path ∉ names bs ->
  (247 < length path)%nat ->
  add_dir_entry now dst parent (Normal path) inherit h = Panic.
Proof.
  intros Hd Hdir Hnew Hlong. rewrite (add_dir_entry_checks _ _ _ ip h bs) by done.
  rewrite bool_decide_false, Hd by done.
  by replace (length path <=? 247)%nat with false by lia.
Qed.

(** ** The super block *)

(** Inodes are stored under their number, below the count; each has blocks of
    its own, not locked, and well formed if it is a directory. *)
Definition sb_wf (sb : SuperBlock) (h : BlockHeap) : Prop :=
  0 <= sb_count sb /\ (forall a, is_Some (h_locks h !! a) -> a < h_next h) /\
  (forall n i, sb_inodes sb !! n = Some i ->
     i_num i = n /\ 0 <= n < sb_count sb /\
     exists bs, free_lock h (i_blocks i) bs /\ (i_mode i = DIRECTORY -> Forall block_ok bs)) /\
  (forall n n' i i', sb_inodes sb !! n = Some i -> sb_inodes sb !! n' = Some i' ->
     i_blocks i = i_blocks i' -> n = n').

(** A new inode: number, empty blocks, mode 0. *)
Definition fresh_inode (sb : SuperBlock) (h : BlockHeap) (now : Z) : Inode :=
  mkInode 0 0 0 0 (sb_count sb) 0 0 (h_next h) now now now.
Definition sb_added (sb : SuperBlock) (i : Inode) : SuperBlock :=
  mkSuperBlock (sb_root sb) (sb_count sb + 1) (<[sb_count sb := i]> (sb_inodes sb)).
Definition heap_added (h : BlockHeap) : BlockHeap :=
  mkHeap (h_next h + 1) (<[h_next h := rw_new []]> (h_locks h)).

Lemma create_inode_eq prof sb h now :
  0 <= sb_count sb < 2 ^ 64 - 1 ->
  create_inode prof sb h now =
  Ret (Ok (view (fresh_inode sb h now) 0), (sb_added sb (fresh_inode sb h now), heap_added h)).
Proof.
  intros Hc. unfold create_inode, inode_default. cbn [arc_new]. cbv zeta.
  rewrite arith_ok by lia. run_ret.
  rewrite (inode_into_free _ (heap_added h) []); [done|]. unfold free_lock. cbn.
  by rewrite lookup_insert_eq.
Qed.

Lemma free_lock_added (h : BlockHeap) a bs :
  (forall a, is_Some (h_locks h !! a) -> a < h_next h) -> free_lock h a bs -> free_lock (heap_added h) a bs.
Proof.
  intros Hlt Hf. unfold free_lock, heap_added. cbn.
  rewrite lookup_insert_ne; [done|]. intros <-. specialize (Hlt _ (mk_is_Some _ _ Hf)). lia.
Qed.

Lemma sb_wf_added sb h now :
  sb_wf sb h -> sb_wf (sb_added sb (fresh_inode sb h now)) (heap_added h).
Proof.
  intros (Hc & Hlt & Hin & Hinj). split_and!; cbn.
  - lia.
  - intros a Ha. destruct (decide (a = h_next h)) as [->|Hne]; [lia|].
    rewrite lookup_insert_ne in Ha by done. specialize (Hlt _ Ha). lia.
  - intros n i Hi. destruct (decide (n = sb_count sb)) as [->|Hne].
    + rewrite lookup_insert_eq in Hi. injection Hi as <-. cbn. split_and!; [done|lia..|].
      exists []. split; [|by constructor]. unfold free_lock. cbn. by rewrite lookup_insert_eq.
    + rewrite lookup_insert_ne in Hi by done. destruct (Hin _ _ Hi) as (? & ? & bs & Hf & Hd).
      split_and!; [done|lia..|]. exists bs. split; [by apply free_lock_added|done].
  - intros n n' i i' Hi Hi' He.
    assert (forall m j, sb_inodes sb !! m = Some j -> i_blocks j <> h_next h) as Hfresh.
    { intros m j Hj Hb. destruct (Hin _ _ Hj) as (_ & _ & bs & Hf & _).
      rewrite Hb in Hf. specialize (Hlt _ (mk_is_Some _ _ Hf)). lia. }
    destruct (decide (n = sb_count sb)) as [->|Hne], (decide (n' = sb_count sb)) as [->|Hne']; [done|..].
    + rewrite lookup_insert_eq in Hi. rewrite lookup_insert_ne in Hi' by done.
      injection Hi as <-. cbn in He. by destruct (Hfresh _ _ Hi').
    + rewrite lookup_insert_eq in Hi'. rewrite lookup_insert_ne in Hi by done.
      injection Hi' as <-. cbn in He. by destruct (Hfresh _ _ Hi).
    + rewrite lookup_insert_ne in Hi, Hi' by done. by apply (Hinj _ _ i i').
Qed.

Lemma get_inode_eq sb h n i bs :
  sb_inodes sb !! n = Some i -> free_lock h (i_blocks i) bs ->
  get_inode sb h n = Ret (Ok (Some (view i (length bs))), h).
Proof. intros Hi Hf. unfold get_inode. rewrite Hi. by rewrite (inode_into_free _ _ _ Hf). Qed.

(** C28: [create_inode] gives a new inode the next number and empty blocks of its
    own, finds it again under that number, leaves every other inode as it was
    and keeps the super block well formed. *)
Theorem create_inode_correct (prof : profile) (sb : SuperBlock) (h : BlockHeap) (now : Z) :
  sb_wf sb h -> sb_count sb < 2 ^ 64 - 1 ->
  exists v sb' h', create_inode prof sb h now = Ret (Ok v, (sb', h')) /\ sb_wf sb' h' /\
    v_num v = sb_count sb /\ v_blocks v = 0 /\ get_inode sb' h' (v_num v) = Ret (Ok (Some v), h') /\
    sb_inodes sb !! v_num v = None /\
    forall n, n <> v_num v -> sb_inodes sb' !! n = sb_inodes sb !! n.
Proof.
  intros Hwf Hc. pose proof Hwf as (Hc0 & Hlt & Hin & _).
  do 3 eexists. rewrite create_inode_eq by lia. split; [reflexivity|]. split_and!.
  - by apply sb_wf_added.
  - done.
  - done.
  - apply (get_inode_eq _ _ _ (fresh_inode sb h now) []); cbn.
    + by rewrite lookup_insert_eq.
    + unfold free_lock. cbn. by rewrite lookup_insert_eq.
  - cbn. destruct (sb_inodes sb !! sb_count sb) eqn:E; [|done].
    destruct (Hin _ _ E) as (_ & ? & _). lia.
  - intros n Hn. cbn. by rewrite lookup_insert_ne.
Qed.

(** ** A session *)

(** A new file system, its root, a file created in it and written back; the
    root is not written back.  Then the root is read again and listed. *)
Definition session (prof : profile) (name : str) (t0 t1 t2 : Z)
    : outcome (result (list (str * Z) * option (vInode Inode)) FSError) :=
  '(r, (sb, h)) ← init_super prof superblock_new heap_empty t0;
  match r with
  | Err e => Ret (Err e)
  | Ok _ =>
      '(r, h) ← root sb h;
      match r with
      | Err e => Ret (Err e)
      | Ok dir =>
          '(r, (sb, h)) ← create_inode prof sb h t1;
          match r with
          | Err e => Ret (Err e)
          | Ok file =>
              '(r, (file, dir, h)) ← create t2 file dir (Normal name) h;
              match r, write_inode sb file with
              | Ok _, (Ok _, sb) =>
                  '(r, h) ← root sb h;
                  match r with
                  | Err e => Ret (Err e)
                  | Ok dir =>
                      '(r, h) ← list_dir dir h;
                      match r with
                      | Err e => Ret (Err e)
                      | Ok xs => '(r, h) ← get_inode sb h 1;
                                 match r with
                                 | Ok o => Ret (Ok (xs, o))
                                 | Err e => Ret (Err e)
                                 end
                      end
                  end
              | Err e, _ => Ret (Err e)
              | _, (Err e, _) => Ret (Err e)
              end
          end
      end
  end.

Lemma root_eq sb h i bs :
  sb_inodes sb !! sb_root sb = Some i -> free_lock h (i_blocks i) bs ->
  root sb h = Ret (Ok (view i (length bs)), h).
Proof. intros Hi Hf. unfold root. rewrite Hi. cbn [unwrap]. run_ret. by rewrite (inode_into_free _ _ _ Hf). Qed.

(** C27: a file created in a new file system and written back is found: the root
    directory read again from the super block lists exactly its name, although
    the directory itself was never written back (its blocks are shared), and its
    number leads to a regular file with the times of the calls. *)
Theorem session_lists_file (prof : profile) (name : str) (t0 t1 t2 : Z) :
  name_ok name ->
  exists v, session prof name t0 t1 t2 = Ret (Ok ([(name, 1)], Some v)) /\
    v_num v = 1 /\ v_mode v = REGULAR_FILE /\ v_creation_time v = t1 /\
    v_last_modification_time v = t2.
Proof.
  intros Hname. unfold session, init_super. rewrite create_inode_eq by (cbn; lia). run_ret.
  cbn [v_num view fresh_inode i_num sb_count superblock_new sb_added sb_inodes sb_root].
  rewrite lookup_insert_eq. cbn [unwrap]. run_ret. rewrite insert_insert_eq.
  set (r0 := set_mode (fresh_inode superblock_new heap_empty t0) DIRECTORY).
  change (set_mode _ DIRECTORY) with r0. set (h1 := heap_added heap_empty).
  set (sb1 := mkSuperBlock 0 (0 + 1) {[0 := r0]}).
  change (mkSuperBlock 0 (0 + 1) (<[0:=r0]> ∅)) with sb1.
  rewrite (root_eq sb1 h1 r0 []) by done. run_ret.
  rewrite create_inode_eq by (cbn; lia). run_ret.
  set (i1 := fresh_inode sb1 h1 t1). set (h2 := heap_added h1). set (sb2 := sb_added sb1 i1).
  assert (dir_at (view r0 (length ([] : list block))) r0 h2 []) as Hdir by (split_and!; done).
  destruct (run_op_spec OpCreate t2 (view i1 0) i1 [] _ r0 h2 [] name eq_refl eq_refl
    ltac:(cbn; lia) Hdir Hname) as (bs' & n & Hok' & Hl & Hop).
  cbn [run_op] in Hop. rewrite bool_decide_false in Hop by (by intros ?%elem_of_nil).
  rewrite Hop. run_ret. cbv beta iota.
  assert (listing bs' = [(name, 1)]) as Hl1 by (by apply Permutation_singleton_r).
  pose proof (dir_at_put _ r0 h2 [] bs' t2 (length bs') Hdir Hok') as (_ & _ & _ & Hfr & _).
  pose proof (free_lock_put h2 (i_blocks r0) (i_blocks i1) bs' [] eq_refl) as Hfi.
  rewrite decide_False in Hfi by done.
  set (h3 := heap_put h2 (i_blocks r0) bs') in *.
  set (f := op_inode OpCreate i1 r0 t2) in *.
  assert (write_inode sb2 (view f n) =
    (Ok tt, mkSuperBlock 0 2 (<[1 := f]> (sb_inodes sb2)))) as -> by done.
  set (sb3 := mkSuperBlock 0 2 (<[1 := f]> (sb_inodes sb2))).
  rewrite (root_eq sb3 h3 r0 bs') by done. run_ret.
  rewrite (list_dir_spec _ r0 h3 bs') by (split_and!; done). run_ret.
  rewrite (get_inode_eq sb3 h3 1 f []) by done. run_ret.
  rewrite Hl1. eexists. split; [reflexivity|]. done.
Qed.

(** ** Examples *)

(** An empty directory and two files, all with empty blocks. *)
Definition ex_heap : BlockHeap :=
  mkHeap 3 (<[0 := rw_new []]> (<[1 := rw_new []]> (<[2 := rw_new []]> ∅))).
Definition ex_dir : Inode := mkInode DIRECTORY 0 0 0 0 0 0 0 0 0 0.
Definition ex_file (n : Z) : Inode := mkInode 0 0 0 0 n 0 0 n 0 0 0.
Definition ex_parent : vInode Inode := view ex_dir 0.

Lemma ex_dir_at : dir_at ex_parent ex_dir ex_heap [].
Proof. split_and!; try done. Qed.

Lemma ex_name_ok s : bool_decide (0 < length (lit s) <= 247)%nat && utf8 (lit s) = true -> name_ok (lit s).
Proof. intros [H1%bool_decide_eq_true H2]%andb_prop. done. Qed.

Definition ex_cmds : list dir_cmd :=
  [(OpCreate, view (ex_file 1) 0, lit "a"); (OpMkdir, view (ex_file 2) 0, lit "a");
   (OpMkdir, view (ex_file 2) 0, lit "bc")].

Lemma directory_refines_map_witness :
  exists parent' h' xs,
    dir_run 7 ex_cmds ex_parent ex_heap = Ret ([Ok tt; Err Exists; Ok tt], (parent', h')) /\
    list_dir parent' h' = Ret (Ok xs, h') /\
    xs ≡ₚ map_to_list (map_run ex_cmds ∅).2.
Proof.
  replace [Ok tt; Err Exists; Ok tt] with (map_run ex_cmds ∅).1 by (vm_compute; reflexivity).
  apply (directory_refines_map 7 ex_cmds ex_parent ex_dir ex_heap [] ∅).
  - exact ex_dir_at.
  - reflexivity.
  - repeat (apply Forall_cons_2;
      [split_and!; [by apply ex_name_ok|done|done|do 2 eexists; split; reflexivity]|]).
    apply Forall_nil_2.
Defined.

Lemma dir_entry_roundtrip_witness :
  from_bytes (to_bytes (name_entry (lit "etc") 5)) = name_entry (lit "etc") 5 /\
  length (to_bytes (name_entry (lit "etc") 5)) = DIR_ENTRY_SIZE /\
  items [to_bytes (name_entry (lit "etc") 5)] = [(lit "etc", 5)].
Proof. apply dir_entry_roundtrip; [by apply ex_name_ok|lia]. Defined.

Lemma symlink_hangs_witness :
  symlink 7 (view (ex_file 1) 0) (lit "/etc") ex_parent (Normal (lit "l")) ex_heap = Hang.
Proof.
  apply (symlink_hangs 7 _ (ex_file 1) [] ex_parent ex_dir ex_heap []).
  - reflexivity.
  - reflexivity.
  - simpl. lia.
  - exact ex_dir_at.
  - by apply ex_name_ok.
  - by intros ?%elem_of_nil.
  - vm_compute. lia.
Defined.

Lemma symlink_too_long_adds_name_witness :
  exists dst' parent' h' xs,
    symlink 7 (view (ex_file 1) 0) (replicate 5000 97) ex_parent (Normal (lit "l")) ex_heap =
      Ret (Err BadPath, (dst', parent', h')) /\
    list_dir parent' h' = Ret (Ok xs, h') /\ xs ≡ₚ (lit "l", 1) :: listing [].
Proof.
  apply (symlink_too_long_adds_name 7 (view (ex_file 1) 0) (ex_file 1) ex_parent ex_dir ex_heap []).
  - reflexivity.
  - simpl. lia.
  - exact ex_dir_at.
  - by apply ex_name_ok.
  - by intros ?%elem_of_nil.
  - rewrite length_replicate. unfold BLOCK_SIZE. apply Nat.ltb_lt. vm_compute. reflexivity.
Defined.

Lemma link_to_root_invisible_witness :
  exists dst' parent' h' xs,
    link 7 ex_parent ex_parent (Normal (lit "self")) ex_heap = Ret (Ok tt, (dst', parent', h')) /\
    list_dir parent' h' = Ret (Ok xs, h') /\ xs ≡ₚ listing [].
Proof.
  apply (link_to_root_invisible 7 ex_parent ex_dir [] ex_parent ex_dir ex_heap []).
  - reflexivity.
  - reflexivity.
  - reflexivity.
  - exact ex_dir_at.
  - by apply ex_name_ok.
  - by intros ?%elem_of_nil.
Defined.

Lemma long_name_panics_witness :
  add_dir_entry 7 (view (ex_file 1) 0) ex_parent (Normal (replicate 248 97)) true ex_heap = Panic.
Proof.
  apply (long_name_panics 7 _ (ex_file 1) ex_parent ex_dir ex_heap []).
  - reflexivity.
  - exact ex_dir_at.
  - by intros ?%elem_of_nil.
  - rewrite length_replicate. lia.
Defined.

Lemma create_inode_correct_witness :
  exists v sb' h', create_inode Debug superblock_new heap_empty 3 = Ret (Ok v, (sb', h')) /\
    sb_wf sb' h' /\ v_num v = 0 /\ v_blocks v = 0 /\
    get_inode sb' h' (v_num v) = Ret (Ok (Some v), h') /\
    (∅ : gmap Z Inode) !! v_num v = None /\
    forall n, n <> v_num v -> sb_inodes sb' !! n = (∅ : gmap Z Inode) !! n.
Proof.
  apply (create_inode_correct Debug superblock_new heap_empty 3).
  - split_and!; cbn; [lia| | |].
    + intros a [x Hx]. by rewrite lookup_empty in Hx.
    + intros n i Hi. by rewrite lookup_empty in Hi.
    + intros n n' i i' Hi. by rewrite lookup_empty in Hi.
  - simpl. lia.
Defined.

Lemma session_lists_file_witness :
  exists v, session Debug (lit "test.txt") 1 2 3 = Ret (Ok ([(lit "test.txt", 1)], Some v)) /\
    v_num v = 1 /\ v_mode v = REGULAR_FILE /\ v_creation_time v = 2 /\
    v_last_modification_time v = 3.
Proof. apply (session_lists_file Debug (lit "test.txt") 1 2 3). by apply ex_name_ok. Defined.
