(* ===== verification/Dentry.v ===== *)
(** * fs/dentry.rs, fs/mod.rs and fs/mount.rs: the directory cache and mounts

    A [DEntry] is an [Arc] of its name, inode and file system: the entries live
    in a store and are passed by address.  The locks of this component
    are left out here; [DentryLocks] has the operations with them and shows that
    they change nothing. *)

From Stdlib Require Import ZArith Lia ZifyBool.
From stdpp Require Import base list numbers gmap strings.
From S2P Require Import Prelude PathComponents Path PathBuf Vfs.

Local Open Scope Z_scope.

(** ** What the cache needs of file systems *)

(** [vfs::FileSystem], [vfs::SuperBlock] and [InodeOps::list], on the state [W]
    of all file systems; a file system is an [Arc], by address.  Reading a
    directory or an inode has no effect. *)
Class FileSystems (W I : Type) := {
  fs_name : W -> Z -> str;
  fs_list : W -> vInode I -> outcome (result (list (str * Z)) FSError);
  fs_get_inode : W -> Z -> Z -> outcome (result (option (vInode I)) FSError);
  fs_root : W -> Z -> outcome (result (vInode I) FSError);
  fs_init_super : W -> Z -> outcome (result unit FSError * W)
}.

(** The order in which [HashMap::iter] visits a map is not specified. *)
Class HashOrder := {
  hash_iter : gmap str (Z * Z) -> list (str * (Z * Z));
  hash_iter_law : forall m, hash_iter m ≡ₚ map_to_list m
}.

(** ** [Peekable] *)

Record Peekable (C : Type) := mkPeekable { peeked : option (option Component); pk_iter : C }.
Arguments mkPeekable {C}.
Arguments peeked {C}.
Arguments pk_iter {C}.

Definition peekable {C} (c : C) : Peekable C := mkPeekable None c.
Definition peek {C} `{ComponentIter C} (p : Peekable C) : outcome (option Component * Peekable C) :=
  match peeked p with
  | Some o => Ret (o, p)
  | None => '(o, c) ← it_next (pk_iter p); Ret (o, mkPeekable (Some o) c)
  end.
#[export] Instance peekable_iter {C} `{ComponentIter C} : ComponentIter (Peekable C) := {|
  it_next p :=
    match peeked p with
    | Some o => Ret (o, mkPeekable None (pk_iter p))
    | None => '(o, c) ← it_next (pk_iter p); Ret (o, mkPeekable None c)
    end
|}.

(** ** Data *)

(** [0x8000 / size_of::<DEntry>()], an [Arc]. *)
Definition CACHE_SIZE : nat := 4096.

Record DEntryInner (I : Type) := mkDEntry {
  d_name : str;
  d_inode : vInode I;
  d_fs : Z
}.
Arguments mkDEntry {I}.
Arguments d_name {I}.
Arguments d_inode {I}.
Arguments d_fs {I}.

(** [MountType] has one constructor, so a [Mount] is its file system and entry. *)
Record Mount := mkMount { m_fs : Z; m_dentry : Z }.

(** The store of entries, [DIR_CACHE] (for each path the entry and the time of
    its last use) and [MOUNTS]. *)
Record DirState (I : Type) := mkDirState {
  arcs : gmap Z (DEntryInner I);
  arc_count : Z;
  cache : gmap str (Z * Z);
  mounts : list Mount
}.
Arguments mkDirState {I}.
Arguments arcs {I}.
Arguments arc_count {I}.
Arguments cache {I}.
Arguments mounts {I}.

Definition set_cache {I} (s : DirState I) (c : gmap str (Z * Z)) : DirState I :=
  mkDirState (arcs s) (arc_count s) c (mounts s).

(** [DEntry::new] and its accessors. *)
Definition dentry_new {I} (name : str) (inode : vInode I) (fs : Z) (s : DirState I)
    : Z * DirState I :=
  (arc_count s, mkDirState (<[arc_count s := mkDEntry name inode fs]> (arcs s))
                  (arc_count s + 1) (cache s) (mounts s)).
Definition inner {I} (s : DirState I) (d : Z) : outcome (DEntryInner I) := unwrap (arcs s !! d).
Definition set_inode {I} (s : DirState I) (d : Z) (i : vInode I) : outcome (DirState I) :=
  e ← inner s d;
  Ret (mkDirState (<[d := mkDEntry (d_name e) i (d_fs e)]> (arcs s)) (arc_count s) (cache s)
         (mounts s)).

(** [Mounts::is_mount_path]. *)
Definition is_mount_path {I} (s : DirState I) (path : str) : bool :=
  existsb (fun m => match arcs s !! m_dentry m with
                    | Some e => bytes_eqb (d_name e) path
                    | None => false
                    end) (mounts s).

Section dentry.
Context {W I : Type} `{FileSystems W I, HashOrder} (now : Z).

(** The loop of [evict_entry]. *)
Fixpoint find_lru (is_mount : str -> bool) (it : list (str * (Z * Z))) (lru : option str)
    (lru_time : Z) : option str :=
  match it with
  | [] => lru
  | (path, (_, last_access)) :: it =>
      if is_mount path then find_lru is_mount it lru lru_time
      else if last_access <? lru_time then find_lru is_mount it (Some path) last_access
      else find_lru is_mount it lru lru_time
  end.
Definition evict_entry (s : DirState I) : DirState I :=
  match find_lru (is_mount_path s) (hash_iter (cache s)) None u64_max with
  | Some lru => set_cache s (delete lru (cache s))
  | None => s
  end.

(** [insert_entry]. *)
Definition insert_entry (s : DirState I) (entry : Z) : outcome (DirState I) :=
  let s := if (CACHE_SIZE <=? base.size (cache s))%nat then evict_entry s else s in
  e ← inner s entry;
  Ret (set_cache s (<[d_name e := (entry, now)]> (cache s))).

(** [DirectoryCache::mount]. *)
Definition mount (s : DirState I) (dentry : Z) : outcome (DirState I) := insert_entry s dentry.

(** The loop of [fill_path] over the entries of a directory. *)
Fixpoint find_name (comp : Component) (es : list (str * Z)) : option (str * Z) :=
  match es with
  | [] => None
  | (path, n) :: es => if bytes_eqb (component_as_path comp) path then Some (path, n)
                       else find_name comp es
  end.

(** [fill_path].  The entries of a directory are listed before they are compared; the
    source reads them one by one, and keeps the iterator, a reader of the directory's
    blocks, until the recursion returns.  Nothing the recursion does writes to blocks, so
    the iterator sees the entries listed here. *)
Fixpoint fill_path {C} `{ComponentIter C} (fuel : nat) (w : W) (s : DirState I) (parent : str)
    (pdentry : Z) (comps : Peekable C) : outcome (result Z FSError * DirState I) :=
  match fuel with
  | O => NoFuel
  | S fuel =>
      '(o, comps) ← it_next comps;
      match o with
      | None => Ret (Ok pdentry, s)
      | Some comp =>
          e ← inner s pdentry;
          '(more, comps) ←
            (if is_dir (d_inode e) then Ret (None, comps) else peek comps);
          if negb (is_dir (d_inode e)) && bool_decide (is_Some more) then Ret (Err NoEntry, s)
          else
            r ← fs_list w (d_inode e);
            match r with
            | Err err => Ret (Err err, s)
            | Ok dir_entries =>
                match find_name comp dir_entries with
                | None => Ret (Err NoEntry, s)
                | Some (path, inode_n) =>
                    let new_path := push parent path in
                    r ← fs_get_inode w (d_fs e) inode_n;
                    match r with
                    | Err err => Ret (Err err, s)
                    | Ok None => Ret (Err MissingInode, s)
                    | Ok (Some inode) =>
                        let '(entry, s) := dentry_new new_path inode (d_fs e) s in
                        s ← insert_entry s entry;
                        fill_path fuel w s new_path entry comps
                    end
                end
            end
      end
  end.

(** [DirectoryCache::get_opt]. *)
Definition get_opt (s : DirState I) (path : str) : option Z * DirState I :=
  match cache s !! path with
  | Some (d, _) => (Some d, set_cache s (<[path := (d, now)]> (cache s)))
  | None => (None, s)
  end.

(** The loop of [_get] over the ancestors of the path. *)
Fixpoint get_from_ancestors (fuel : nat) (w : W) (s : DirState I) (path : str) (it : Ancestors)
    : outcome (result Z FSError * DirState I) :=
  match fuel with
  | O => NoFuel
  | S fuel =>
      '(o, it) ← ancestors_next it;
      match o with
      | None => Panic
      | Some parent =>
          match get_opt s parent with
          | (Some entry, s) =>
              r ← strip_prefix path parent;
              match r with
              | Ok remaining =>
                  fill_path (length remaining + 4) w s parent entry
                    (peekable (components remaining))
              | Err _ => Panic
              end
          | (None, s) => get_from_ancestors fuel w s path it
          end
      end
  end.

(** [DirectoryCache::_get]. *)
Definition get (w : W) (s : DirState I) (path : str) : outcome (result Z FSError * DirState I) :=
  match get_opt s path with
  | (Some entry, s) => Ret (Ok entry, s)
  | (None, s) => get_from_ancestors (length path + 4) w s path (ancestors path)
  end.

(** [DirectoryCache::reload]. *)
Definition reload (w : W) (s : DirState I) (dentry : Z)
    : outcome (result unit FSError * DirState I) :=
  e ← inner s dentry;
  r ← fs_get_inode w (d_fs e) (v_num (d_inode e));
  match r with
  | Err err => Ret (Err err, s)
  | Ok (Some inode) => s ← set_inode s dentry inode; Ret (Ok tt, s)
  | Ok None => Ret (Ok tt, set_cache s (delete (d_name e) (cache s)))
  end.

(** [delete], [delete_inode] and [unmount]. *)
Definition delete_path (s : DirState I) (path : str) : DirState I :=
  set_cache s (delete path (cache s)).
Definition retain (s : DirState I) (keep : DEntryInner I -> bool) : DirState I :=
  set_cache s (filter (fun kv => match arcs s !! kv.2.1 with
                                 | Some e => keep e
                                 | None => false
                                 end = true) (cache s)).
Definition delete_inode (w : W) (s : DirState I) (fs : Z) (inode : vInode I) : DirState I :=
  retain s (fun e => negb (bytes_eqb (fs_name w (d_fs e)) (fs_name w fs)) ||
                     negb (v_num (d_inode e) =? v_num inode)).
Definition unmount (w : W) (s : DirState I) (fs : Z) : DirState I :=
  retain s (fun e => negb (bytes_eqb (fs_name w (d_fs e)) (fs_name w fs))).

(** [mount::mount_nodev] and [Mounts::mount_fs]; [dest] is [ctx.dest]. *)
Definition mount_nodev (w : W) (fs : Z) : outcome (result unit FSError * W) := fs_init_super w fs.

Definition mount_fs (w : W) (s : DirState I) (fs : Z) (dest : option Z)
    : outcome (result unit FSError * (W * DirState I)) :=
  '(r, w) ← mount_nodev w fs;
  match r with
  | Err e => Ret (Err e, (w, s))
  | Ok _ =>
      '(rd, s) ←
        match dest with
        | Some dentry => Ret (Ok dentry, s)
        | None =>
            r ← fs_root w fs;
            match r with
            | Err e => Ret (Err e, s)
            | Ok inode => let '(d, s) := dentry_new (lit "/") inode fs s in Ret (Ok d, s)
            end
        end;
      match rd with
      | Err e => Ret (Err e, (w, s))
      | Ok dentry =>
          let s := mkDirState (arcs s) (arc_count s) (cache s) (mounts s ++ [mkMount fs dentry]) in
          s ← mount s dentry;
          Ret (Ok tt, (w, s))
      end
  end.
End dentry.

(** ** Lemmas *)

(** Peeking keeps what an iterator has to come. *)
#[export, refine] Instance peekable_laws {C} `{ComponentIterLaws C}
    : ComponentIterLaws (Peekable C) := {|
  it_view p := match peeked p with
               | None => it_view (pk_iter p)
               | Some (Some c) => c :: it_view (pk_iter p)
               | Some None => []
               end;
  it_inv p := it_inv (pk_iter p) /\ (peeked p = Some None -> it_view (pk_iter p) = [])
|}.
Proof.
  intros [[[c|]|] i] [Hi Hn]; cbn in *; [by eexists|exists (mkPeekable None i)|].
  - specialize (Hn eq_refl). cbn. by rewrite Hn.
  - destruct (it_next_law i Hi) as (i' & -> & Hi' & Hv). by eexists.
Defined.

Lemma peek_spec {C} `{ComponentIterLaws C} (p : Peekable C) :
  it_inv p -> exists p', peek p = Ret (head (it_view p), p') /\ it_inv p' /\ it_view p' = it_view p.
Proof.
  destruct p as [[[c|]|] i]; intros [Hi Hn]; cbn in *.
  - by eexists.
  - by exists (mkPeekable (Some None) i).
  - destruct (it_next_law i Hi) as (i' & -> & Hi' & Hv). cbn.
    eexists. split; [reflexivity|]. destruct (it_view i) as [|c l] eqn:E; cbn in *; by rewrite Hv.
Qed.

(** ** Resolving a path *)

Section walk.
Context {W I : Type} `{FileSystems W I}.

(** The specification: the inode that names lead to from an inode. *)
Fixpoint walk (w : W) (fs : Z) (inode : vInode I) (comps : list Component)
    : outcome (result (vInode I) FSError) :=
  match comps with
  | [] => Ret (Ok inode)
  | comp :: rest =>
      if negb (is_dir inode) && negb (bool_decide (rest = [])) then Ret (Err NoEntry)
      else
        r ← fs_list w inode;
        match r with
        | Err e => Ret (Err e)
        | Ok es =>
            match find_name comp es with
            | None => Ret (Err NoEntry)
            | Some (_, n) =>
                r ← fs_get_inode w fs n;
                match r with
                | Err e => Ret (Err e)
                | Ok None => Ret (Err MissingInode)
                | Ok (Some i) => walk w fs i rest
                end
            end
        end
  end.

(** A lookup that ends as the walk does, in an entry for the inode found; no
    entry is changed. *)
Definition resolved (s : DirState I) (fs : Z) (res : outcome (result Z FSError * DirState I))
    (spec : outcome (result (vInode I) FSError)) : Prop :=
  match spec with
  | Ret (Ok i) => exists d s' e, res = Ret (Ok d, s') /\ arcs s' !! d = Some e /\
                    d_inode e = i /\ d_fs e = fs /\ arcs s ⊆ arcs s'
  | Ret (Err x) => exists s', res = Ret (Err x, s') /\ arcs s ⊆ arcs s'
  | Panic => res = Panic
  | Hang => res = Hang
  | NoFuel => res = NoFuel
  end.

(** Addresses are given out in order. *)
Definition arcs_ok (s : DirState I) : Prop := forall d, is_Some (arcs s !! d) -> d < arc_count s.

Context `{HashOrder} (now : Z).

Lemma evict_arcs (s : DirState I) : arcs (evict_entry s) = arcs s /\ arc_count (evict_entry s) = arc_count s.
Proof. unfold evict_entry. by destruct (find_lru _ _ _ _). Qed.

Lemma insert_entry_arcs (s : DirState I) d e :
  arcs s !! d = Some e ->
  exists s', insert_entry now s d = Ret s' /\ arcs s' = arcs s /\ arc_count s' = arc_count s.
Proof.
  intros Hd. unfold insert_entry, inner. cbv zeta.
  destruct (CACHE_SIZE <=? base.size (cache s))%nat.
  - destruct (evict_arcs s) as [Ha Hc]. rewrite Ha, Hd. cbn [unwrap]. run_ret. by eexists.
  - rewrite Hd. cbn [unwrap]. run_ret. by eexists.
Qed.

Lemma resolved_mono s s1 fs res spec :
  arcs s ⊆ arcs s1 -> resolved s1 fs res spec -> resolved s fs res spec.
Proof.
  intros Hs. destruct spec as [[i|x]| | |]; cbn; try done.
  - intros (d & s' & e & ? & ? & ? & ? & Hs'). exists d, s', e. split_and!; try done. by etrans.
  - intros (s' & ? & Hs'). exists s'. split; [done|]. by etrans.
Qed.

Lemma fill_path_walks {C} `{ComponentIterLaws C} fuel w s parent pd e (comps : Peekable C) :
  arcs_ok s -> arcs s !! pd = Some e -> it_inv comps -> (length (it_view comps) < fuel)%nat ->
  resolved s (d_fs e) (fill_path now fuel w s parent pd comps)
    (walk w (d_fs e) (d_inode e) (it_view comps)).
Proof.
  revert s parent pd e comps. induction fuel as [|fuel IH]; intros s parent pd e comps Hok Hpd Hinv Hf; [lia|].
  cbn [fill_path]. destruct (it_next_law comps Hinv) as (c1 & -> & Hinv1 & Hv1). run_ret.
  destruct (it_view comps) as [|comp rest]; cbn [head walk].
  { exists pd, s, e. done. }
  cbn [tail length] in *. unfold inner at 1. rewrite Hpd. cbn [unwrap]. run_ret.
  assert (exists more c2, (if is_dir (d_inode e) then Ret (None, c1) else peek c1) = Ret (more, c2) /\
    it_inv c2 /\ it_view c2 = rest /\
    negb (is_dir (d_inode e)) && bool_decide (is_Some more) =
    negb (is_dir (d_inode e)) && negb (bool_decide (rest = []))) as (more & c2 & -> & Hinv2 & Hv2 & Hcond).
  { destruct (is_dir (d_inode e)); [by exists None, c1|].
    destruct (peek_spec c1 Hinv1) as (c2 & -> & Hinv2 & Hv2).
    exists (head (it_view c1)), c2. rewrite Hv2, Hv1. split_and!; try done. by destruct rest. }
  run_ret. rewrite Hcond.
  destruct (negb (is_dir (d_inode e)) && negb (bool_decide (rest = []))); [by exists s|].
  destruct (fs_list w (d_inode e)) as [[es|x]| | |]; run_ret; try done; [|by exists s].
  destruct (find_name comp es) as [[path n]|]; [|by exists s]. cbv zeta.
  destruct (fs_get_inode w (d_fs e) n) as [[[i|]|x]| | |]; run_ret; try done; [|by exists s..].
  cbn [dentry_new]. cbv beta iota.
  match goal with |- context [insert_entry now ?x _] => set (s1 := x) end.
  set (e1 := mkDEntry (push parent path) i (d_fs e)).
  assert (arcs s1 !! arc_count s = Some e1) as He1 by (cbn; by rewrite lookup_insert_eq).
  destruct (insert_entry_arcs s1 (arc_count s) e1 He1) as (s2 & -> & Ha2 & Hc2). run_ret.
  apply (resolved_mono s s2).
  { rewrite Ha2. cbn. apply insert_subseteq. destruct (arcs s !! arc_count s) eqn:E; [|done].
    specialize (Hok _ (mk_is_Some _ _ E)). lia. }
  rewrite <- Hv2. apply (IH s2 _ _ e1); [|by rewrite Ha2|done|rewrite Hv2; lia].
  intros d Hd. rewrite Ha2 in Hd. rewrite Hc2. cbn in Hd |- *.
  destruct (decide (d = arc_count s)) as [->|Hne]; [lia|].
  rewrite lookup_insert_ne in Hd by done. specialize (Hok _ Hd). lia.
Qed.
End walk.

(** ** Lookups in the cache *)

Section get.
Context {W I : Type} `{FileSystems W I, HashOrder} (now : Z).

Definition cache_ok (s : DirState I) : Prop :=
  arcs_ok s /\ forall p d t, cache s !! p = Some (d, t) -> is_Some (arcs s !! d).

Definition cached (s : DirState I) (p : str) : bool := bool_decide (is_Some (cache s !! p)).

Lemma strip_prefix_ok p a :
  spec_components a `prefix_of` spec_components p ->
  exists q, strip_prefix p a = Ret (Ok q) /\ spec_components p = spec_components a ++ spec_components q.
Proof. intros Ha. by destruct (strip_prefix_spec p a) as [?|[_ Hn]]. Qed.

(** The lookup through ancestors: from the first that is cached. *)
Definition from_ancestor (w : W) (s : DirState I) (path : str) (l : list str)
    (res : outcome (result Z FSError * DirState I)) : Prop :=
  match List.find (cached s) l with
  | None => res = Panic
  | Some a => exists d t e rest, cache s !! a = Some (d, t) /\ arcs s !! d = Some e /\
      spec_components path = spec_components a ++ rest /\
      resolved s (d_fs e) res (walk w (d_fs e) (d_inode e) rest)
  end.

Lemma get_from_ancestors_spec fuel w s path it l :
  cache_ok s -> collect_ancestors fuel it = Ret l ->
  Forall (fun a => spec_components a `prefix_of` spec_components path) l ->
  from_ancestor w s path l (get_from_ancestors now fuel w s path it).
Proof.
  intros [Hok Hc]. revert it l. induction fuel as [|fuel IH]; intros it l Hl Hall; [done|].
  cbn [collect_ancestors get_from_ancestors] in *.
  destruct (ancestors_next it) as [[o it1]| | |]; try discriminate. run_ret. cbn [mbind outcome_bind] in Hl.
  destruct o as [a|]; [|by injection Hl as <-].
  destruct (collect_ancestors fuel it1) as [l1| | |] eqn:El; try discriminate. injection Hl as <-.
  apply Forall_cons_1 in Hall as [Ha Hall]. unfold from_ancestor. cbn [List.find].
  unfold cached at 1, get_opt. destruct (cache s !! a) as [[d t]|] eqn:Ea.
  - rewrite bool_decide_true by done. destruct (Hc _ _ _ Ea) as [e He].
    destruct (strip_prefix_ok path a Ha) as (q & -> & Hq). run_ret.
    exists d, t, e, (spec_components q). split_and!; try done.
    rewrite <- (remaining_new q).
    change (remaining (new q)) with (it_view (peekable (components q))).
    apply (fill_path_walks now _ w (set_cache s _) a d e); try done.
    cbn. rewrite remaining_new. pose proof (spec_components_length q). lia.
  - rewrite bool_decide_false by (by apply is_Some_None). by apply IH.
Qed.

Lemma get_spec w s path :
  cache_ok s ->
  exists l, collect_ancestors (length path + 4) (ancestors path) = Ret (path :: l) /\
    Forall (fun a => spec_components a `prefix_of` spec_components path) (path :: l) /\
    from_ancestor w s path (path :: l) (get now w s path).
Proof.
  intros Hok. pose proof (spec_components_length path).
  destruct (collect_ancestors_spec (length path + 4) path) as (l & Hl & _ & Hall); [lia|].
  exists l. assert (Forall (fun a => spec_components a `prefix_of` spec_components path) (path :: l))
    by (by constructor).
  split_and!; [done..|]. unfold get, get_opt.
  destruct (cache s !! path) as [[d t]|] eqn:E.
  - unfold from_ancestor. cbn [List.find]. unfold cached. rewrite E, bool_decide_true by done.
    destruct Hok as [_ Hc]. destruct (Hc _ _ _ E) as [e He].
    exists d, t, e, []. rewrite app_nil_r. split_and!; try done.
    exists d, (set_cache s (<[path := (d, now)]> (cache s))), e. done.
  - by apply get_from_ancestors_spec.
Qed.

(** C8: looking a path up returns, without panic or endless loop of its own, the
    entry that the names behind its nearest cached ancestor lead to: it fails as
    the walk through the directories fails, and ends in an entry with the inode
    the walk finds.  No entry of the store is changed.  Only a path without any
    cached ancestor panics. *)
Theorem get_walks (w : W) (s : DirState I) (path : str) :
  cache_ok s ->
  exists l, collect_ancestors (length path + 4) (ancestors path) = Ret l /\
    match List.find (fun a => bool_decide (is_Some (cache s !! a))) l with
    | None => get now w s path = Panic
    | Some a => exists d t e rest, cache s !! a = Some (d, t) /\ arcs s !! d = Some e /\
        spec_components path = spec_components a ++ rest /\
        resolved s (d_fs e) (get now w s path) (walk w (d_fs e) (d_inode e) rest)
    end.
Proof.
  intros Hok. destruct (get_spec w s path Hok) as (l & Hl & _ & Hget). by exists (path :: l).
Qed.

(** ** Eviction *)

Lemma find_lru_spec is_mount it lru lru_time :
  match find_lru is_mount it lru lru_time with
  | Some p =>
      (lru = Some p /\ Forall (fun x => is_mount x.1 = true \/ lru_time <= x.2.2) it) \/
      (exists d t, (p, (d, t)) ∈ it /\ is_mount p = false /\ t < lru_time /\
         Forall (fun x => is_mount x.1 = true \/ t <= x.2.2) it)
  | None => lru = None /\ Forall (fun x => is_mount x.1 = true \/ lru_time <= x.2.2) it
  end.
Proof.
  revert lru lru_time. induction it as [|[p [d t]] it IH]; intros lru lru_time; cbn [find_lru].
  { destruct lru; [left|]; by split; [|constructor]. }
  destruct (is_mount p) eqn:Em.
  { specialize (IH lru lru_time). destruct (find_lru _ _ _ _) as [q|].
    - destruct IH as [[? ?]|(d' & t' & ? & ? & ? & ?)]; [left|right; exists d', t'].
      + split; [done|]. constructor; [by left|done].
      + split_and!; [by right|done..|]. constructor; [by left|done].
    - destruct IH. split; [done|]. constructor; [by left|done]. }
  destruct (t <? lru_time) eqn:Et.
  - specialize (IH (Some p) t). destruct (find_lru _ _ _ _) as [q|]; [|by destruct IH].
    right. destruct IH as [[[= ->] Hall]|(d' & t' & ? & ? & ? & Hall)].
    + exists d, t. split_and!; [by left|done|lia|]. constructor; [by right|done].
    + exists d', t'. split_and!; [by right|done|lia|]. constructor; [right; cbn; lia|done].
  - specialize (IH lru lru_time). destruct (find_lru _ _ _ _) as [q|].
    + destruct IH as [[? ?]|(d' & t' & ? & ? & ? & ?)]; [left|right; exists d', t'].
      * split; [done|]. constructor; [right; cbn; lia|done].
      * split_and!; [by right|done..|]. constructor; [right; cbn; lia|done].
    + destruct IH. split; [done|]. constructor; [right; cbn; lia|done].
Qed.

(** C29: with a full cache, inserting an entry evicts a least recently used entry
    that is not a mount point, whatever order the map is visited in; mount
    points stay, and the cache does not grow beyond its size. *)
Theorem insert_evicts_lru (s : DirState I) (d : Z) (e : DEntryInner I) (p0 : str) (d0 t0 : Z) :
  arcs s !! d = Some e -> base.size (cache s) = CACHE_SIZE ->
  cache s !! p0 = Some (d0, t0) -> is_mount_path s p0 = false -> t0 < u64_max ->
  exists victim dv tv s', insert_entry now s d = Ret s' /\
    cache s !! victim = Some (dv, tv) /\ is_mount_path s victim = false /\
    cache s' = <[d_name e := (d, now)]> (delete victim (cache s)) /\
    (forall p d' t, cache s !! p = Some (d', t) -> is_mount_path s p = false -> tv <= t) /\
    (base.size (cache s') <= CACHE_SIZE)%nat.
Proof.
  intros Hd Hsize Hp0 Hm0 Ht0. unfold insert_entry, evict_entry, inner. cbv zeta.
  rewrite Hsize, Nat.leb_refl.
  pose proof (find_lru_spec (is_mount_path s) (hash_iter (cache s)) None u64_max) as Hl.
  assert (forall p d t, (p, (d, t)) ∈ hash_iter (cache s) <-> cache s !! p = Some (d, t)) as Hin.
  { intros p d' t. rewrite hash_iter_law. apply elem_of_map_to_list. }
  destruct (find_lru _ _ _ _) as [v|].
  2:{ destruct Hl as [_ Hall]. rewrite list.Forall_forall in Hall.
      destruct (Hall (p0, (d0, t0))) as [Hx|Hx]; [by apply Hin|cbn in Hx; congruence|cbn in Hx; lia]. }
  destruct Hl as [[? _]|(dv & tv & Hv & Hmv & Htv & Hall)]; [done|].
  cbn [set_cache arcs cache]. rewrite Hd. cbn [unwrap]. run_ret.
  do 4 eexists. split; [reflexivity|]. apply Hin in Hv. cbn [cache set_cache].
  split_and!; try done.
  - intros p d' t Hp Hmp. apply Hin in Hp. rewrite list.Forall_forall in Hall.
    destruct (Hall _ Hp) as [Hx|Hx]; cbn in Hx; [congruence|done].
  - assert (base.size (delete v (cache s)) = pred (base.size (cache s))) as Hdel.
    { rewrite map_size_delete. by rewrite Hv. }
    pose proof (map_size_insert (d_name e) (d, now) (delete v (cache s))) as Hins.
    rewrite Hdel, Hsize in Hins. unfold CACHE_SIZE in *. rewrite Hins.
    destruct (delete v (cache s) !! d_name e); unfold id; lia.
Qed.

(** ** The keys of the cache *)

Lemma parent_of_name n :
  is_name n = true -> parent (SEPERATOR_BYTE :: n) = Ret (Some [SEPERATOR_BYTE]).
Proof.
  intros Hn. pose proof (is_name_no_sep n Hn) as Hs.
  assert (spec_components (SEPERATOR_BYTE :: n) = [RootDir; Normal n]) as Hc.
  { pose proof (spec_abs_path [n] ltac:(by constructor)) as Ha. cbn in Ha.
    by rewrite app_nil_r in Ha. }
  destruct (parent_spec (SEPERATOR_BYTE :: n)) as (o & -> & Hp & Hcut). rewrite Hc in Hp.
  cbn in Hp. destruct o as [q|]; [|done]. cbn in Hp. injection Hp as Hq.
  destruct (Hcut q eq_refl) as (t & Heq & Ht). do 2 f_equal.
  destruct q as [|b q]; [by rewrite (eq_refl : spec_components [] = []) in Hq|].
  injection Heq as <- ->. destruct Ht as [->|[Ht|[?|[?|?]]]]; try done.
  - by rewrite app_nil_r, Hq in Hc.
  - apply Forall_app in Hs as [_ Hs]. destruct t as [|b t]; [done|]. injection Ht as ->.
    by apply Forall_cons_1 in Hs as [? _].
Qed.

Lemma push_root n : is_name n = true -> push [SEPERATOR_BYTE] n = SEPERATOR_BYTE :: SEPERATOR_BYTE :: n.
Proof. intros Hn. rewrite push_eq, name_relative by done. done. Qed.

Lemma find_name_spec n es p k : find_name (Normal n) es = Some (p, k) -> p = n.
Proof.
  induction es as [|[p' k'] es IH]; cbn [find_name]; [done|].
  destruct (bytes_eqb _ p') eqn:E; [|done]. intros [= <- _].
  by apply bool_decide_eq_true in E.
Qed.

(** One name below a directory. *)
Lemma fill_path_one {C} `{ComponentIterLaws C} fuel w s parent pd e (comps : Peekable C) comp es
    path k i :
  it_inv comps -> it_view comps = [comp] -> arcs s !! pd = Some e -> is_dir (d_inode e) = true ->
  fs_list w (d_inode e) = Ret (Ok es) -> find_name comp es = Some (path, k) ->
  fs_get_inode w (d_fs e) k = Ret (Ok (Some i)) ->
  fill_path now (S (S fuel)) w s parent pd comps =
  let '(entry, s) := dentry_new (push parent path) i (d_fs e) s in
  s ← insert_entry now s entry; Ret (Ok entry, s).
Proof.
  intros Hinv Hv He Hdir Hlist Hfind Hget.
  destruct (it_next_law comps Hinv) as (c1 & Hn1 & Hi1 & Hv1). rewrite Hv in *. cbn [head tail] in *.
  destruct (it_next_law c1 Hi1) as (c2 & Hn2 & _). rewrite Hv1 in Hn2. cbn [head] in Hn2.
  cbn [fill_path]. rewrite Hn1. run_ret. unfold inner. rewrite He. cbn [unwrap]. run_ret.
  rewrite Hdir. run_ret. cbn [negb andb]. rewrite Hlist. run_ret. rewrite Hfind. cbv zeta.
  rewrite Hget. run_ret. cbn [dentry_new]. cbv beta iota.
  destruct (insert_entry now _ _) as [s2| | |]; run_ret; try done. by rewrite Hn2.
Qed.

(** Nothing is evicted from a cache with room. *)
Lemma insert_entry_room (s : DirState I) d e :
  arcs s !! d = Some e -> (base.size (cache s) < CACHE_SIZE)%nat ->
  insert_entry now s d = Ret (set_cache s (<[d_name e := (d, now)]> (cache s))).
Proof.
  intros Hd Hsize. unfold insert_entry, inner. cbv zeta.
  replace (CACHE_SIZE <=? base.size (cache s))%nat with false by lia. by rewrite Hd.
Qed.

(** A name below the root, looked up through the root's entry. *)
Lemma get_below_root (w : W) (s : DirState I) (n : str) (d t k : Z) (e : DEntryInner I)
    (es : list (str * Z)) (i : vInode I) :
  is_name n = true -> cache s !! [SEPERATOR_BYTE] = Some (d, t) -> arcs s !! d = Some e ->
  is_dir (d_inode e) = true -> fs_list w (d_inode e) = Ret (Ok es) ->
  find_name (Normal n) es = Some (n, k) -> fs_get_inode w (d_fs e) k = Ret (Ok (Some i)) ->
  cache s !! (SEPERATOR_BYTE :: n) = None -> (base.size (cache s) < CACHE_SIZE)%nat ->
  exists s', get now w s (SEPERATOR_BYTE :: n) = Ret (Ok (arc_count s), s') /\
    arcs s' !! arc_count s = Some (mkDEntry (SEPERATOR_BYTE :: SEPERATOR_BYTE :: n) i (d_fs e)) /\
    cache s' !! (SEPERATOR_BYTE :: n) = None /\
    cache s' !! (SEPERATOR_BYTE :: SEPERATOR_BYTE :: n) = Some (arc_count s, now).
Proof.
  intros Hn Hroot He Hdir Hlist Hfind Hget Hnone Hsize.
  set (p := SEPERATOR_BYTE :: n) in *.
  assert (spec_components p = spec_components [SEPERATOR_BYTE] ++ [Normal n]) as Hc.
  { pose proof (spec_abs_path [n] ltac:(by constructor)) as Ha. cbn in Ha.
    rewrite app_nil_r in Ha. exact Ha. }
  destruct (strip_prefix_ok p [SEPERATOR_BYTE]) as (q & Hstrip & Hq); [by rewrite Hc; eexists|].
  rewrite Hc in Hq. apply (inj (app _)) in Hq.
  assert (ancestors_next (ancestors p) = Ret (Some p, mkAncestors (Some [SEPERATOR_BYTE]))) as Hn1.
  { unfold ancestors_next. cbn [anc_next ancestors]. unfold p. by rewrite (parent_of_name n Hn). }
  assert (ancestors_next (mkAncestors (Some [SEPERATOR_BYTE])) =
    Ret (Some [SEPERATOR_BYTE], mkAncestors None)) as Hn2 by done.
  set (s1 := set_cache s (<[[SEPERATOR_BYTE]:=(d, now)]> (cache s))).
  assert (get_opt now s p = (None, s)) as Hg1 by (unfold get_opt; by rewrite Hnone).
  assert (get_opt now s [SEPERATOR_BYTE] = (Some d, s1)) as Hg2 by (unfold get_opt; by rewrite Hroot).
  unfold get. rewrite Hg1. replace (length p + 4)%nat with (S (S (length p + 2))) by lia.
  cbn [get_from_ancestors]. rewrite Hn1. run_ret. rewrite Hg1, Hn2. run_ret.
  rewrite Hg2, Hstrip. run_ret. replace (length q + 4)%nat with (S (S (length q + 2))) by lia.
  rewrite (fill_path_one _ w s1 _ d e _ (Normal n) es n k i); try done.
  rewrite push_root by done. unfold dentry_new.
  rewrite (insert_entry_room _ _ (mkDEntry (SEPERATOR_BYTE :: p) i (d_fs e))).
  2:{ cbn. by rewrite lookup_insert_eq. }
  2:{ cbn [cache s1 set_cache]. by rewrite map_size_insert_Some by done. }
  run_ret. eexists. split; [reflexivity|]. cbn [arcs cache set_cache d_name s1].
  rewrite !lookup_insert_eq. split_and!; try done.
  rewrite !lookup_insert_ne; try done.
  - unfold p. intros [= He1]. by subst n.
  - unfold p. intros [= He1]. pose proof (is_name_no_sep n Hn) as Hs. rewrite <- He1 in Hs.
    by apply Forall_cons_1 in Hs as [? _].
Qed.

(** An entry filled in below the root is stored under a key with the
    separator doubled, so the path that was looked up is still not cached and
    the next lookup reads the directory again. *)
Theorem cache_key_doubled (w : W) (s : DirState I) (n : str) (d t k : Z) (e : DEntryInner I)
    (es : list (str * Z)) (i : vInode I) :
  is_name n = true -> cache s !! [SEPERATOR_BYTE] = Some (d, t) -> arcs s !! d = Some e ->
  is_dir (d_inode e) = true -> fs_list w (d_inode e) = Ret (Ok es) ->
  find_name (Normal n) es = Some (n, k) -> fs_get_inode w (d_fs e) k = Ret (Ok (Some i)) ->
  cache s !! (SEPERATOR_BYTE :: n) = None -> (base.size (cache s) < CACHE_SIZE)%nat ->
  exists s', get now w s (SEPERATOR_BYTE :: n) = Ret (Ok (arc_count s), s') /\
    arcs s' !! arc_count s = Some (mkDEntry (SEPERATOR_BYTE :: SEPERATOR_BYTE :: n) i (d_fs e)) /\
    cache s' !! (SEPERATOR_BYTE :: n) = None /\
    cache s' !! (SEPERATOR_BYTE :: SEPERATOR_BYTE :: n) = Some (arc_count s, now).
Proof. apply get_below_root. Qed.
End get.
