(* ===== verification/FsWorld.v ===== *)
(** * The file system as a whole: ramfs behind the directory cache

    The ramfs of [RamFs] provides what the cache of [Dentry] asks of file
    systems, and a mounted ramfs serves lookups of the files created in it. *)

From Stdlib Require Import ZArith Lia ZifyBool.
From stdpp Require Import base list numbers gmap strings.
From S2P Require Import Prelude PathComponents Path PathBuf Vfs RamFs Dentry.

Local Open Scope Z_scope.

(** The super blocks of the file systems in use, by address, and their blocks. *)
Definition RamWorld : Type := gmap Z SuperBlock * Heap (list (list u8)).

#[export] Instance ramfs_file_systems (prof : profile) (now : Z) : FileSystems RamWorld Inode := {|
  fs_name w fs := FS_NAME;
  fs_list w v := '(r, _) ← list_dir v w.2; Ret r;
  fs_get_inode w fs n :=
    sb ← unwrap (w.1 !! fs);
    '(r, _) ← get_inode sb w.2 n; Ret r;
  fs_root w fs :=
    sb ← unwrap (w.1 !! fs);
    '(r, _) ← root sb w.2; Ret r;
  fs_init_super w fs :=
    sb ← unwrap (w.1 !! fs);
    '(r, (sb, h)) ← init_super prof sb w.2 now;
    Ret (r, (<[fs := sb]> w.1, h))
|}.

Section mounted.
Context `{HashOrder} (prof : profile) (now : Z).

(** Create a file in the directory behind an entry and write its inode back. *)
Definition create_file (w : RamWorld) (s : DirState Inode) (dir : Z) (name : str)
    : outcome (result unit FSError * (RamWorld * DirState Inode)) :=
  e ← inner s dir;
  sb ← unwrap (w.1 !! d_fs e);
  '(r, (sb, h)) ← sb_create_inode (SuperBlockOps := ramfs_super_block prof) now sb w.2;
  match r with
  | Err x => Ret (Err x, ((<[d_fs e := sb]> w.1, h), s))
  | Ok file =>
      '(r, (file, parent, h)) ← v_create now file (d_inode e) (Normal name) h;
      s ← set_inode s dir parent;
      match r with
      | Err x => Ret (Err x, ((<[d_fs e := sb]> w.1, h), s))
      | Ok _ =>
          let '(r, sb) := sb_write_inode (SuperBlockOps := ramfs_super_block prof) sb file in
          Ret (r, ((<[d_fs e := sb]> w.1, h), s))
      end
  end.

(** A new ramfs, mounted at the root. *)
Definition world0 : RamWorld := ({[0 := superblock_new]}, heap_empty).
Definition dirs0 : DirState Inode := mkDirState ∅ 0 ∅ [].

Definition mount_create_get (name : str) : outcome (result (vInode Inode) FSError) :=
  '(r, (w, s)) ← mount_fs (H := ramfs_file_systems prof now) now world0 dirs0 0 None;
  match r with
  | Err e => Ret (Err e)
  | Ok _ =>
      '(r, s) ← get (H := ramfs_file_systems prof now) now w s (lit "/");
      match r with
      | Err e => Ret (Err e)
      | Ok dir =>
          '(r, (w, s)) ← create_file w s dir name;
          match r with
          | Err e => Ret (Err e)
          | Ok _ =>
              '(r, s) ← get (H := ramfs_file_systems prof now) now w s (SEPERATOR_BYTE :: name);
              match r with
              | Err e => Ret (Err e)
              | Ok d => e ← inner s d; Ret (Ok (d_inode e))
              end
          end
      end
  end.

(** The state behind the mount. *)
Definition root_inode : Inode := set_mode (fresh_inode superblock_new heap_empty now) DIRECTORY.
Definition sb_mounted : SuperBlock := mkSuperBlock 0 1 {[0 := root_inode]}.
Definition heap_mounted : Heap (list (list u8)) := heap_added heap_empty.
Definition dirs_mounted (v : vInode Inode) : DirState Inode :=
  mkDirState {[0 := mkDEntry (lit "/") v 0]} 1 {[lit "/" := (0, now)]} [mkMount 0 0].

Lemma mount_new :
  mount_fs (H := ramfs_file_systems prof now) now world0 dirs0 0 None =
  Ret (Ok tt, (({[0 := sb_mounted]}, heap_mounted), dirs_mounted (view root_inode 0))).
Proof. by destruct prof. Qed.

Lemma get_root w v :
  get (H := ramfs_file_systems prof now) now w (dirs_mounted v) (lit "/") = Ret (Ok 0, dirs_mounted v).
Proof. done. Qed.

(** Creating a file in the root of the mounted file system. *)
Lemma create_in_root name :
  name_ok name ->
  exists bs f n, listing bs = [(name, 1)] /\ Forall block_ok bs /\
    f = op_inode OpCreate (fresh_inode sb_mounted heap_mounted now) root_inode now /\
    let h := heap_put (heap_added heap_mounted) 0 bs in
    create_file ({[0 := sb_mounted]}, heap_mounted) (dirs_mounted (view root_inode 0)) 0 name =
    Ret (Ok tt, (({[0 := mkSuperBlock 0 2 (<[1 := f]> {[0 := root_inode]})]}, h),
                 dirs_mounted (view (touch root_inode now) n))) /\
    free_lock h 0 bs /\ free_lock h 1 [].
Proof.
  intros Hname.
  set (i1 := fresh_inode sb_mounted heap_mounted now). set (h2 := heap_added heap_mounted).
  assert (dir_at (view root_inode 0) root_inode h2 []) as Hdir by (split_and!; done).
  destruct (run_op_spec OpCreate now (view i1 0) i1 [] _ root_inode h2 [] name eq_refl eq_refl
    ltac:(cbn; lia) Hdir Hname) as (bs & n & Hok & Hl & Hop).
  cbn [run_op] in Hop. rewrite bool_decide_false in Hop by (by intros ?%elem_of_nil).
  exists bs, (op_inode OpCreate i1 root_inode now), (length bs).
  split; [by apply Permutation_singleton_r|]. split; [done|]. split; [done|]. cbv zeta.
  pose proof (dir_at_put _ root_inode h2 [] bs now 0 Hdir Hok) as (_ & _ & _ & Hfr & _).
  pose proof (free_lock_put h2 0 1 bs [] eq_refl) as Hfi. rewrite decide_False in Hfi by done.
  split_and!; [|exact Hfr|exact Hfi].
  unfold create_file, inner. cbn [arcs dirs_mounted]. rewrite lookup_singleton_eq. cbn [unwrap]. run_ret.
  cbn [d_fs fst snd]. rewrite lookup_singleton_eq. cbn [unwrap]. run_ret.
  cbn [sb_create_inode ramfs_super_block]. rewrite create_inode_eq by (cbn; lia). run_ret.
  cbn [d_inode]. fold i1 h2. unfold v_create. cbn [ops_create ramfs_inode_ops]. rewrite Hop. run_ret.
  done.
Qed.

(** C12: a file created in a mounted ramfs is found by its path: mounting,
    looking the root up, creating the file there and looking it up through the
    cache leads to its inode, a regular file with the next number. *)
Theorem created_file_is_found (name : str) :
  name_ok name -> is_name name = true ->
  exists v, mount_create_get name = Ret (Ok v) /\ v_num v = 1 /\ v_mode v = REGULAR_FILE.
Proof.
  intros Hname Hn. unfold mount_create_get. rewrite mount_new. run_ret. rewrite get_root. run_ret.
  destruct (create_in_root name Hname) as (bs & f & n & Hl & Hok & Hf & Hc & Hf0 & Hf1).
  rewrite Hc. run_ret. set (h := heap_put _ 0 bs) in *.
  set (w := ({[0 := mkSuperBlock 0 2 (<[1 := f]> {[0 := root_inode]})]}, h) : RamWorld).
  assert (i_blocks f = 1) as Hfb by (by rewrite Hf).
  destruct (get_below_root (H := ramfs_file_systems prof now) now w
    (dirs_mounted (view (touch root_inode now) n)) name 0 now 1
    (mkDEntry (lit "/") (view (touch root_inode now) n) 0) [(name, 1)] (view f 0))
    as (s' & Hget & Harc & _); try done.
  - cbn [fs_list ramfs_file_systems d_inode]. unfold w. cbn [snd].
    rewrite (list_dir_spec _ (touch root_inode now) h bs) by (split_and!; done). run_ret. by rewrite Hl.
  - cbn. unfold bytes_eqb. by rewrite bool_decide_true.
  - cbn [d_fs fs_get_inode ramfs_file_systems]. unfold w. cbn [fst snd].
    rewrite lookup_singleton_eq. cbn [unwrap]. run_ret.
    rewrite (get_inode_eq _ _ _ f []); [done| |by rewrite Hfb]. cbn. by rewrite lookup_insert_eq.
  - cbn [cache dirs_mounted]. rewrite lookup_singleton_ne; [done|]. intros [= He]. by subst name.
  - cbn [cache dirs_mounted]. rewrite map_size_singleton. unfold CACHE_SIZE. lia.
  - rewrite Hget. run_ret. unfold inner. rewrite Harc. cbn [unwrap]. run_ret. cbn [d_inode].
    exists (view f 0). rewrite Hf. done.
Qed.
End mounted.

(** ** Examples *)

#[export] Instance list_order : HashOrder := {|
  hash_iter := map_to_list;
  hash_iter_law m := reflexivity (map_to_list m)
|}.

Definition ex_world : RamWorld :=
  ({[0 := mkSuperBlock 0 2 (<[1 := ex_file 1]> {[0 := ex_dir]})]}, ex_heap).
Definition ex_dirs : DirState Inode := dirs_mounted 3 ex_parent.

Lemma get_walks_witness :
  exists l, collect_ancestors (length (lit "/a/b") + 4) (ancestors (lit "/a/b")) = Ret l /\
    match List.find (fun a => bool_decide (is_Some (cache ex_dirs !! a))) l with
    | None => get (H := ramfs_file_systems Debug 5) 5 ex_world ex_dirs (lit "/a/b") = Panic
    | Some a => exists d t e rest, cache ex_dirs !! a = Some (d, t) /\ arcs ex_dirs !! d = Some e /\
        spec_components (lit "/a/b") = spec_components a ++ rest /\
        resolved ex_dirs (d_fs e)
          (get (H := ramfs_file_systems Debug 5) 5 ex_world ex_dirs (lit "/a/b"))
          (walk (H := ramfs_file_systems Debug 5) ex_world (d_fs e) (d_inode e) rest)
    end.
Proof.
  apply (get_walks (H := ramfs_file_systems Debug 5) 5 ex_world ex_dirs (lit "/a/b")).
  split.
  - intros d [e He]. cbn [ex_dirs dirs_mounted arcs] in He. apply lookup_singleton_Some in He as [<- _]. done.
  - intros p d t Hp. cbn [ex_dirs dirs_mounted cache] in Hp. apply lookup_singleton_Some in Hp as [_ [= <- _]].
    eexists. reflexivity.
Defined.

(** A full cache of distinct keys, one of them the root. *)
Definition ex_key (i : nat) : str := [97; Z.of_nat i].
Definition ex_full : DirState Inode :=
  mkDirState {[0 := mkDEntry (lit "/") ex_parent 0; 1 := mkDEntry (lit "new") ex_parent 0]} 2
    (<[lit "/" := (0, 3)]>
       (list_to_map (map (fun i => (ex_key i, (0, 10 + Z.of_nat i))) (seq 0 (CACHE_SIZE - 1)))))
    [mkMount 0 0].

Lemma insert_evicts_lru_witness :
  exists victim dv tv s', insert_entry 9000 ex_full 1 = Ret s' /\
    cache ex_full !! victim = Some (dv, tv) /\ is_mount_path ex_full victim = false /\
    cache s' = <[lit "new" := (1, 9000)]> (delete victim (cache ex_full)) /\
    (forall p d' t, cache ex_full !! p = Some (d', t) -> is_mount_path ex_full p = false -> tv <= t) /\
    (base.size (cache s') <= CACHE_SIZE)%nat.
Proof.
  apply (insert_evicts_lru 9000 ex_full 1 (mkDEntry (lit "new") ex_parent 0) (ex_key 5) 0 15).
  - reflexivity.
  - vm_compute. reflexivity.
  - vm_compute. reflexivity.
  - vm_compute. reflexivity.
  - vm_compute. reflexivity.
Defined.

(** The example world with one file in its root directory. *)
Definition ex_block : list u8 := splice (replicate BLOCK_SIZE 0) 0 (to_bytes (name_entry (lit "f") 1)).
Definition ex_world_f : RamWorld :=
  ({[0 := mkSuperBlock 0 2 (<[1 := ex_file 1]> {[0 := ex_dir]})]}, heap_put ex_heap 0 [ex_block]).

Lemma cache_key_doubled_witness :
  exists s', get (H := ramfs_file_systems Debug 5) 5 ex_world_f ex_dirs (lit "/f") = Ret (Ok 1, s') /\
    arcs s' !! 1 = Some (mkDEntry (lit "//f") (view (ex_file 1) 0) 0) /\
    cache s' !! lit "/f" = None /\ cache s' !! lit "//f" = Some (1, 5).
Proof.
  apply (cache_key_doubled (H := ramfs_file_systems Debug 5) 5 ex_world_f ex_dirs (lit "f") 0 3 1
    (mkDEntry (lit "/") ex_parent 0) [(lit "f", 1)] (view (ex_file 1) 0)).
  all: try (vm_compute; reflexivity).
  cbn [cache ex_dirs dirs_mounted]. rewrite map_size_singleton. unfold CACHE_SIZE. lia.
Defined.

Lemma created_file_is_found_witness :
  exists v, mount_create_get Debug 7 (lit "test.txt") = Ret (Ok v) /\ v_num v = 1 /\
    v_mode v = REGULAR_FILE.
Proof.
  apply (created_file_is_found Debug 7 (lit "test.txt")); [by apply ex_name_ok|reflexivity].
Defined.
