(* ===== verification/DentryLocks.v ===== *)
(** * fs/dentry.rs and fs/mod.rs: the locks

    [Dentry] leaves out the locks of the cache, of the mounts, of directory
    entries and of super blocks.  Here the operations take them and give them back
    as the code does, with the guards its thread holds as state: a lock that one
    holds in a way that excludes the access is waited for for ever.  (No interrupt
    handler takes these locks.)  The locks inside a file system are its own
    ([RamFs]). *)

From Stdlib Require Import ZArith Lia ZifyBool.
From stdpp Require Import base list numbers gmap strings.
From S2P Require Import Prelude PathComponents Path PathBuf Vfs RamFs Dentry FsWorld.

Local Open Scope Z_scope.

(** ** Locks and guards *)

Inductive lock_id := LEntries | LMounts | LDEntry (d : Z) | LSuper (fs : Z).
Inductive mode := Read | Write.
Abbreviation guard := (lock_id * mode)%type.

#[export] Instance lock_id_eq_dec : EqDecision lock_id.
Proof. solve_decision. Defined.
#[export] Instance mode_eq_dec : EqDecision mode.
Proof. solve_decision. Defined.

(** The guards held, the last one taken first. *)
Abbreviation guards := (list guard).

(** [RwLock::read] and [RwLock::write]. *)
Definition acquire (k : lock_id) (m : mode) (h : guards) : outcome guards :=
  match m with
  | Read => if bool_decide ((k, Write) ∈ h) then Hang else Ret ((k, Read) :: h)
  | Write => if bool_decide ((k, Read) ∈ h) || bool_decide ((k, Write) ∈ h) then Hang
             else Ret ((k, Write) :: h)
  end.

(** Dropping a guard. *)
Fixpoint release (g : guard) (h : guards) : guards :=
  match h with
  | [] => []
  | g' :: h => if bool_decide (g = g') then h else g' :: release g h
  end.

(** An access under a guard that is dropped behind it. *)
Definition with_guard {A} (k : lock_id) (m : mode) (h : guards)
    (f : guards -> outcome (A * guards)) : outcome (A * guards) :=
  h ← acquire k m h;
  '(a, h) ← f h;
  Ret (a, release (k, m) h).

(** ** The operations *)

Section locked.
Context {W I : Type} `{FileSystems W I, HashOrder} (now : Z).

(** [Mounts::is_mount_path]: the name of each mount's entry is read until one
    matches. *)
Fixpoint l_any_mount (s : DirState I) (ms : list Mount) (path : str) (h : guards)
    : outcome (bool * guards) :=
  match ms with
  | [] => Ret (false, h)
  | m :: ms =>
      '(b, h) ← with_guard (LDEntry (m_dentry m)) Read h (fun h =>
        Ret (match arcs s !! m_dentry m with
             | Some e => bytes_eqb (d_name e) path
             | None => false
             end, h));
      if (b : bool) then Ret (true, h) else l_any_mount s ms path h
  end.
Definition l_is_mount_path (s : DirState I) (path : str) (h : guards) : outcome (bool * guards) :=
  with_guard LMounts Read h (l_any_mount s (mounts s) path).

(** [evict_entry]. *)
Fixpoint l_find_lru (s : DirState I) (it : list (str * (Z * Z))) (lru : option str)
    (lru_time : Z) (h : guards) : outcome (option str * guards) :=
  match it with
  | [] => Ret (lru, h)
  | (path, (_, last_access)) :: it =>
      '(b, h) ← l_is_mount_path s path h;
      if (b : bool) then l_find_lru s it lru lru_time h
      else if last_access <? lru_time then l_find_lru s it (Some path) last_access h
      else l_find_lru s it lru lru_time h
  end.
Definition l_evict_entry (s : DirState I) (h : guards) : outcome (DirState I * guards) :=
  '(o, h) ← l_find_lru s (hash_iter (cache s)) None u64_max h;
  Ret (match o with Some lru => set_cache s (delete lru (cache s)) | None => s end, h).

(** [insert_entry]; its caller has the cache locked. *)
Definition l_insert_entry (s : DirState I) (entry : Z) (h : guards)
    : outcome (DirState I * guards) :=
  '(s, h) ← (if (CACHE_SIZE <=? base.size (cache s))%nat then l_evict_entry s h else Ret (s, h));
  '(name, h) ← with_guard (LDEntry entry) Read h (fun h => e ← inner s entry; Ret (d_name e, h));
  Ret (set_cache s (<[name := (entry, now)]> (cache s)), h).

(** [DirectoryCache::mount], [get_opt] and [delete]. *)
Definition l_mount (s : DirState I) (dentry : Z) (h : guards) : outcome (DirState I * guards) :=
  with_guard LEntries Write h (l_insert_entry s dentry).
Definition l_get_opt (s : DirState I) (path : str) (h : guards)
    : outcome ((option Z * DirState I) * guards) :=
  with_guard LEntries Read h (fun h => Ret (get_opt now s path, h)).
Definition l_delete_path (s : DirState I) (path : str) (h : guards) : outcome (DirState I * guards) :=
  with_guard LEntries Write h (fun h => Ret (delete_path s path, h)).

(** The inode of an entry of a directory, as [fill_path] makes an entry of it:
    the file system and the super block are locked meanwhile, and [fs_arc] reads
    the entry once more when there is an inode. *)
Definition l_child (w : W) (pdentry fs inode_n : Z) (h : guards)
    : outcome (result (vInode I) FSError * guards) :=
  with_guard (LDEntry pdentry) Read h (fun h =>
  with_guard (LSuper fs) Read h (fun h =>
    r ← fs_get_inode w fs inode_n;
    match r with
    | Err err => Ret (Err err, h)
    | Ok None => Ret (Err MissingInode, h)
    | Ok (Some inode) => with_guard (LDEntry pdentry) Read h (fun h => Ret (Ok inode, h))
    end)).

(** [fill_path]: the guard on the inode of the parent is held until the call is
    over, the calls for the rest of the path included. *)
Fixpoint l_fill_path {C} `{ComponentIter C} (fuel : nat) (w : W) (s : DirState I) (parent : str)
    (pdentry : Z) (comps : Peekable C) (h : guards)
    : outcome ((result Z FSError * DirState I) * guards) :=
  match fuel with
  | O => NoFuel
  | S fuel =>
      '(o, comps) ← it_next comps;
      match o with
      | None => Ret ((Ok pdentry, s), h)
      | Some comp =>
          with_guard (LDEntry pdentry) Read h (fun h =>
            e ← inner s pdentry;
            '(more, comps) ←
              (if is_dir (d_inode e) then Ret (None, comps) else peek comps);
            if negb (is_dir (d_inode e)) && bool_decide (is_Some more) then Ret ((Err NoEntry, s), h)
            else
              r ← fs_list w (d_inode e);
              match r with
              | Err err => Ret ((Err err, s), h)
              | Ok dir_entries =>
                  match find_name comp dir_entries with
                  | None => Ret ((Err NoEntry, s), h)
                  | Some (path, inode_n) =>
                      let new_path := push parent path in
                      '(r, h) ← l_child w pdentry (d_fs e) inode_n h;
                      match r with
                      | Err err => Ret ((Err err, s), h)
                      | Ok inode =>
                          let '(entry, s) := dentry_new new_path inode (d_fs e) s in
                          '(s, h) ← l_insert_entry s entry h;
                          l_fill_path fuel w s new_path entry comps h
                      end
                  end
              end)
      end
  end.

(** [DirectoryCache::_get]. *)
Fixpoint l_get_from_ancestors (fuel : nat) (w : W) (s : DirState I) (path : str) (it : Ancestors)
    (h : guards) : outcome ((result Z FSError * DirState I) * guards) :=
  match fuel with
  | O => NoFuel
  | S fuel =>
      '(o, it) ← ancestors_next it;
      match o with
      | None => Panic
      | Some parent =>
          '((entry, s), h) ← l_get_opt s parent h;
          match entry with
          | Some entry =>
              r ← strip_prefix path parent;
              match r with
              | Ok remaining =>
                  with_guard LEntries Write h
                    (l_fill_path (length remaining + 4) w s parent entry
                       (peekable (components remaining)))
              | Err _ => Panic
              end
          | None => l_get_from_ancestors fuel w s path it h
          end
      end
  end.
Definition l_get (w : W) (s : DirState I) (path : str) (h : guards)
    : outcome ((result Z FSError * DirState I) * guards) :=
  '((entry, s), h) ← l_get_opt s path h;
  match entry with
  | Some entry => Ret ((Ok entry, s), h)
  | None => l_get_from_ancestors (length path + 4) w s path (ancestors path) h
  end.

(** [DirectoryCache::reload]: the guards of the first block are dropped at its
    end. *)
Definition l_reload (w : W) (s : DirState I) (dentry : Z) (h : guards)
    : outcome ((result unit FSError * DirState I) * guards) :=
  '(r, h) ← with_guard (LDEntry dentry) Read h (fun h =>
    e ← inner s dentry;
    with_guard (LSuper (d_fs e)) Read h (fun h =>
    with_guard (LDEntry dentry) Read h (fun h =>
      r ← fs_get_inode w (d_fs e) (v_num (d_inode e)); Ret (r, h))));
  match r with
  | Err err => Ret ((Err err, s), h)
  | Ok inode =>
      with_guard LEntries Write h (fun h =>
        match inode with
        | Some inode =>
            with_guard (LDEntry dentry) Write h (fun h =>
              s ← set_inode s dentry inode; Ret ((Ok tt, s), h))
        | None =>
            with_guard (LDEntry dentry) Read h (fun h =>
              e ← inner s dentry;
              Ret ((Ok tt, set_cache s (delete (d_name e) (cache s))), h))
        end)
  end.

(** ** The guards a caller gets *)

(** [DEntry::name], [inode], [inode_mut] and [fs]: the caller holds the guard of
    the entry for as long as it uses what it got. *)
Definition l_guarded {A} (m : mode) (f : DEntryInner I -> A) (s : DirState I) (dentry : Z) (h : guards)
    : outcome (A * guards) :=
  h ← acquire (LDEntry dentry) m h;
  e ← inner s dentry;
  Ret (f e, h).
Definition l_name : DirState I -> Z -> guards -> outcome (str * guards) := l_guarded Read d_name.
Definition l_inode : DirState I -> Z -> guards -> outcome (vInode I * guards) :=
  l_guarded Read d_inode.
Definition l_inode_mut : DirState I -> Z -> guards -> outcome (vInode I * guards) :=
  l_guarded Write d_inode.
Definition l_fs : DirState I -> Z -> guards -> outcome (Z * guards) := l_guarded Read d_fs.

(** [DEntry::fs_arc]: the guard is dropped with the statement. *)
Definition l_fs_arc (s : DirState I) (dentry : Z) (h : guards) : outcome (Z * guards) :=
  with_guard (LDEntry dentry) Read h (fun h => e ← inner s dentry; Ret (d_fs e, h)).

(** [DEntry::reload]. *)
Definition l_dentry_reload (w : W) (s : DirState I) (dentry : Z) (h : guards)
    : outcome ((result unit FSError * DirState I) * guards) := l_reload w s dentry h.

(** [delete_inode] and [unmount]: each entry is read under the lock of the cache;
    where the file systems have the same name [delete_inode] reads it twice. *)
Fixpoint l_visit (twice : Z -> bool) (it : list (str * (Z * Z))) (h : guards)
    : outcome (unit * guards) :=
  match it with
  | [] => Ret (tt, h)
  | (_, (d, _)) :: it =>
      '(_, h) ← with_guard (LDEntry d) Read h (fun h =>
        if twice d then with_guard (LDEntry d) Read h (fun h => Ret (tt, h)) else Ret (tt, h));
      l_visit twice it h
  end.
Definition same_fs (w : W) (s : DirState I) (fs d : Z) : bool :=
  match arcs s !! d with
  | Some e => bytes_eqb (fs_name w (d_fs e)) (fs_name w fs)
  | None => false
  end.
Definition l_delete_inode (w : W) (s : DirState I) (fs : Z) (inode : vInode I) (h : guards)
    : outcome (DirState I * guards) :=
  with_guard LEntries Write h (fun h =>
    '(_, h) ← l_visit (same_fs w s fs) (hash_iter (cache s)) h;
    Ret (delete_inode w s fs inode, h)).
Definition l_unmount (w : W) (s : DirState I) (fs : Z) (h : guards) : outcome (DirState I * guards) :=
  with_guard LEntries Write h (fun h =>
    '(_, h) ← l_visit (fun _ => false) (hash_iter (cache s)) h;
    Ret (unmount w s fs, h)).

(** [Mounts::mount_fs]: the mounts are unlocked again before the cache is
    locked. *)
Definition l_mount_fs (w : W) (s : DirState I) (fs : Z) (dest : option Z) (h : guards)
    : outcome ((result unit FSError * (W * DirState I)) * guards) :=
  '(r, w) ← mount_nodev w fs;
  match r with
  | Err e => Ret ((Err e, (w, s)), h)
  | Ok _ =>
      '((rd, s), h) ←
        match dest with
        | Some dentry => Ret ((Ok dentry, s), h)
        | None =>
            with_guard (LSuper fs) Read h (fun h =>
              r ← fs_root w fs;
              match r with
              | Err e => Ret ((Err e, s), h)
              | Ok inode => let '(d, s) := dentry_new (lit "/") inode fs s in Ret ((Ok d, s), h)
              end)
        end;
      match rd with
      | Err e => Ret ((Err e, (w, s)), h)
      | Ok dentry =>
          '(s, h) ← with_guard LMounts Write h (fun h =>
            Ret (mkDirState (arcs s) (arc_count s) (cache s) (mounts s ++ [mkMount fs dentry]), h));
          '(s, h) ← l_mount s dentry h;
          Ret ((Ok tt, (w, s)), h)
      end
  end.
End locked.

(** ** Lemmas *)

(** The lock can be taken. *)
Definition free (k : lock_id) (m : mode) (h : guards) : Prop :=
  ((k, Write) ∉ h) /\ (m = Write -> (k, Read) ∉ h).

Lemma acquire_free k m h : free k m h -> acquire k m h = Ret ((k, m) :: h).
Proof. intros [Hw Hr]. unfold acquire. destruct m; rewrite ?bool_decide_eq_false_2 by auto; done. Qed.

Lemma with_guard_free {A} k m h f (x : outcome A) :
  free k m h -> f ((k, m) :: h) = (a ← x; Ret (a, (k, m) :: h)) ->
  with_guard k m h f = (a ← x; Ret (a, h)).
Proof.
  intros Hk Hf. unfold with_guard. rewrite acquire_free by done. cbn [mbind outcome_bind]. rewrite Hf. destruct x; cbn [mbind outcome_bind release]; [|done..].
  by rewrite bool_decide_eq_true_2.
Qed.

(** A lock that is held is waited for. *)
Lemma with_guard_hangs {A} k m h (f : guards -> outcome (A * guards)) m' :
  (k, m') ∈ h -> m = Write \/ m' = Write -> with_guard k m h f = Hang.
Proof.
  intros Hin Hm. unfold with_guard, acquire.
  destruct m, m'; [by destruct Hm|..];
    rewrite (bool_decide_eq_true_2 _ Hin), ?orb_true_r; done.
Qed.

(** Nothing but the cache is locked for writing. *)
Definition reads (h : guards) : Prop := forall k, k <> LEntries -> (k, Write) ∉ h.

Lemma reads_read k h : reads h -> reads ((k, Read) :: h).
Proof. intros Hh k' Hk [?|?]%elem_of_cons; [done|]. by apply (Hh k'). Qed.
Lemma reads_entries m h : reads h -> reads ((LEntries, m) :: h).
Proof. intros Hh k' Hk [?|?]%elem_of_cons; [by simplify_eq|]. by apply (Hh k'). Qed.
Lemma reads_free k h : reads h -> k <> LEntries -> free k Read h.
Proof. intros Hh Hk. split; [by apply Hh|done]. Qed.

Create HintDb locks.
#[export] Hint Resolve reads_read reads_entries reads_free : locks.
#[export] Hint Extern 1 (_ <> LEntries) => discriminate : locks.

Section erase.
Context {W I : Type} `{FileSystems W I, HashOrder} (now : Z).

Lemma l_is_mount_path_ok (s : DirState I) path h :
  reads h -> l_is_mount_path s path h = Ret (is_mount_path s path, h).
Proof.
  intros Hh. unfold l_is_mount_path, is_mount_path.
  rewrite (with_guard_free _ _ _ _ (Ret (existsb (fun m => match arcs s !! m_dentry m with
    | Some e => bytes_eqb (d_name e) path | None => false end) (mounts s)))); [done|eauto with locks|].
  cbn [mbind outcome_bind]. apply (reads_read LMounts) in Hh. revert Hh.
  generalize ((LMounts, Read) :: h). intros h1 Hh.
  induction (mounts s) as [|m ms IH]; [done|]. cbn [l_any_mount existsb].
  erewrite with_guard_free; [|eauto with locks|instantiate (1 := Ret _); reflexivity].
  cbn [mbind outcome_bind].
  destruct (arcs s !! m_dentry m) as [e|]; [destruct (bytes_eqb (d_name e) path); [done|]|]; apply IH.
Qed.

Lemma l_evict_entry_ok (s : DirState I) h :
  reads h -> l_evict_entry s h = Ret (evict_entry s, h).
Proof.
  intros Hh. unfold l_evict_entry, evict_entry. generalize (@None str) at 1 2. generalize u64_max.
  assert (forall it lru t, l_find_lru s it lru t h = Ret (find_lru (is_mount_path s) it lru t, h)) as Hl.
  { induction it as [|[path [d la]] it IH]; intros lru t; [done|]. cbn [l_find_lru find_lru].
    rewrite l_is_mount_path_ok by done. cbn [mbind outcome_bind].
    destruct (is_mount_path s path), (la <? t); apply IH. }
  intros t lru. rewrite Hl. cbn [mbind outcome_bind]. by destruct (find_lru _ _ _ _).
Qed.

Lemma l_insert_entry_ok (s : DirState I) entry h :
  reads h -> l_insert_entry now s entry h = (s ← insert_entry now s entry; Ret (s, h)).
Proof.
  intros Hh. unfold l_insert_entry, insert_entry.
  assert ((if (CACHE_SIZE <=? base.size (cache s))%nat then l_evict_entry s h else Ret (s, h)) =
    Ret (if (CACHE_SIZE <=? base.size (cache s))%nat then evict_entry s else s, h)) as ->.
  { destruct (_ <=? _)%nat; [by apply l_evict_entry_ok|done]. }
  cbn [mbind outcome_bind]. cbv zeta.
  generalize (if (CACHE_SIZE <=? base.size (cache s))%nat then evict_entry s else s). intros s1.
  rewrite (with_guard_free _ _ _ _ (e ← inner s1 entry; Ret (d_name e)));
    [by destruct (inner s1 entry)|eauto with locks|by destruct (inner s1 entry)].
Qed.

Lemma l_child_ok (w : W) pdentry fs n h :
  reads h ->
  l_child (I:=I) w pdentry fs n h =
  (r ← fs_get_inode w fs n;
   Ret (match r with Err e => Err e | Ok None => Err MissingInode | Ok (Some i) => Ok i end, h)).
Proof.
  intros Hh. unfold l_child.
  rewrite (with_guard_free _ _ _ _ (r ← fs_get_inode w fs n;
    Ret (match r with Err e => Err e | Ok None => Err MissingInode | Ok (Some i) => Ok i end)));
    [by destruct (fs_get_inode w fs n)|eauto with locks|].
  apply with_guard_free; [eauto 6 with locks|].
  destruct (fs_get_inode w fs n) as [[[i|]|e]| | |]; cbn [mbind outcome_bind]; try done.
  apply (with_guard_free _ _ _ _ (Ret (Ok i))); [eauto 8 with locks|done].
Qed.

(** What a lookup does under the locks is what it does without them. *)
Lemma l_fill_path_ok {C} `{ComponentIter C} fuel (w : W) (s : DirState I) parent pdentry
    (comps : Peekable C) h :
  reads h ->
  l_fill_path now fuel w s parent pdentry comps h =
  (r ← fill_path now fuel w s parent pdentry comps; Ret (r, h)).
Proof.
  revert s parent pdentry comps h. induction fuel as [|fuel IH]; intros s parent pdentry comps h Hh; [done|].
  cbn [l_fill_path fill_path]. destruct (it_next comps) as [[[comp|] comps1]| | |]; try done.
  cbn [mbind outcome_bind]. apply with_guard_free; [eauto with locks|].
  destruct (inner s pdentry) as [e| | |]; try done. cbn [mbind outcome_bind].
  destruct (if is_dir (d_inode e) then Ret (None, comps1) else peek comps1) as [[more comps2]| | |];
    try done. cbn [mbind outcome_bind].
  destruct (negb (is_dir (d_inode e)) && bool_decide (is_Some more)); [done|].
  destruct (fs_list w (d_inode e)) as [[es|err]| | |]; try done. cbn [mbind outcome_bind].
  destruct (find_name comp es) as [[path n]|]; [|done]. cbv zeta.
  rewrite l_child_ok by eauto with locks.
  destruct (fs_get_inode w (d_fs e) n) as [[[i|]|err]| | |]; try done. cbn [mbind outcome_bind].
  destruct (dentry_new (push parent path) i (d_fs e) s) as [entry s1].
  rewrite l_insert_entry_ok by eauto with locks.
  destruct (insert_entry now s1 entry) as [s2| | |]; try done. cbn [mbind outcome_bind].
  apply IH. eauto with locks.
Qed.

(** The cache is not locked, and nothing else is locked for writing. *)
Definition lookup_free (h : guards) : Prop := reads h /\ free LEntries Write h.

Lemma lookup_free_read h : lookup_free h -> free LEntries Read h.
Proof. intros [_ [? _]]. by split. Qed.

Lemma l_get_opt_ok (s : DirState I) path h :
  lookup_free h -> l_get_opt now s path h = Ret (get_opt now s path, h).
Proof.
  intros Hh. unfold l_get_opt. rewrite (with_guard_free _ _ _ _ (Ret (get_opt now s path)));
    [done|by apply lookup_free_read|done].
Qed.

Lemma l_get_ok (w : W) (s : DirState I) path h :
  lookup_free h -> l_get now w s path h = (r ← get now w s path; Ret (r, h)).
Proof.
  intros Hh. unfold l_get, get. rewrite l_get_opt_ok by done. cbn [mbind outcome_bind].
  destruct (get_opt now s path) as [[entry|] s1]; [done|].
  generalize (length path + 4)%nat (ancestors path). intros fuel. revert s1.
  induction fuel as [|fuel IH]; intros s1 it; [done|]. cbn [l_get_from_ancestors get_from_ancestors].
  destruct (ancestors_next it) as [[[parent|] it1]| | |]; try done. cbn [mbind outcome_bind].
  rewrite l_get_opt_ok by done. cbn [mbind outcome_bind].
  destruct (get_opt now s1 parent) as [[entry|] s2]; [|apply IH].
  destruct (strip_prefix path parent) as [[rest|]| | |]; try done. cbn [mbind outcome_bind].
  apply with_guard_free; [apply Hh|]. apply l_fill_path_ok. apply reads_entries, Hh.
Qed.

Lemma l_mount_ok (s : DirState I) dentry h :
  lookup_free h -> l_mount now s dentry h = (s ← mount now s dentry; Ret (s, h)).
Proof.
  intros Hh. apply with_guard_free; [apply Hh|]. apply l_insert_entry_ok, reads_entries, Hh.
Qed.

Lemma l_visit_ok twice it h : reads h -> l_visit twice it h = Ret (tt, h).
Proof.
  intros Hh. induction it as [|[p [d t]] it IH]; [done|]. cbn [l_visit].
  rewrite (with_guard_free _ _ _ _ (Ret tt)); [exact IH|eauto with locks|].
  destruct (twice d); [|done]. by apply (with_guard_free _ _ _ _ (Ret tt)); [eauto with locks|].
Qed.

Lemma l_mount_fs_ok (w : W) (s : DirState I) fs dest h :
  lookup_free h -> free LMounts Write h ->
  l_mount_fs now w s fs dest h = (r ← mount_fs now w s fs dest; Ret (r, h)).
Proof.
  intros Hh Hm. unfold l_mount_fs, mount_fs.
  destruct (mount_nodev w fs) as [[[[]|e] w1]| | |]; try done. cbn [mbind outcome_bind].
  assert (forall (rd : result Z FSError) (s1 : DirState I), (match rd with
    | Err e => Ret ((Err e, (w1, s1)), h)
    | Ok dentry =>
        '(s, h) ← with_guard LMounts Write h (fun h =>
          Ret (mkDirState (arcs s1) (arc_count s1) (cache s1) (mounts s1 ++ [mkMount fs dentry]), h));
        '(s, h) ← l_mount now s dentry h;
        Ret ((Ok tt, (w1, s)), h)
    end) = (r ← match rd with
      | Err e => Ret (Err e, (w1, s1))
      | Ok dentry =>
          s ← mount now (mkDirState (arcs s1) (arc_count s1) (cache s1) (mounts s1 ++ [mkMount fs dentry])) dentry;
          Ret (Ok tt, (w1, s))
      end; Ret (r, h))) as Hrest.
  { intros [dentry|e] s1; [|done].
    erewrite with_guard_free; [|done|instantiate (1 := Ret _); reflexivity]. cbn [mbind outcome_bind].
    rewrite l_mount_ok by done. by destruct (mount now _ dentry). }
  destruct dest as [d|]; cbn [mbind outcome_bind]; [apply (Hrest (Ok d) s)|].
  erewrite (with_guard_free _ _ _ _ (r ← fs_root w1 fs; match r with
    | Err e => Ret (Err e, s)
    | Ok inode => let '(d, s) := dentry_new (lit "/") inode fs s in Ret (Ok d, s)
    end)); [|apply reads_free; [apply Hh|discriminate]|by destruct (fs_root w1 fs) as [[]| | |]].
  destruct (fs_root w1 fs) as [[i|e]| | |]; try done. cbn [mbind outcome_bind].
  destruct (dentry_new (lit "/") i fs s) as [d s1]. cbn [mbind outcome_bind]. apply (Hrest (Ok d) s1).
Qed.

(** The first block of [reload] reads. *)
Lemma l_reload_reads (w : W) (s : DirState I) d h :
  reads h ->
  with_guard (LDEntry d) Read h (fun h =>
    e ← inner s d;
    with_guard (LSuper (d_fs e)) Read h (fun h =>
    with_guard (LDEntry d) Read h (fun h =>
      r ← fs_get_inode w (d_fs e) (v_num (d_inode e)); Ret (r, h)))) =
  (r ← (e ← inner s d; fs_get_inode w (d_fs e) (v_num (d_inode e))); Ret (r, h)).
Proof.
  intros Hh. apply with_guard_free; [eauto with locks|].
  destruct (inner s d) as [e| | |]; try done. cbn [mbind outcome_bind].
  apply with_guard_free; [eauto 6 with locks|]. apply with_guard_free; [eauto 8 with locks|done].
Qed.

Lemma l_reload_ok (w : W) (s : DirState I) d h :
  lookup_free h -> free (LDEntry d) Write h ->
  l_reload w s d h = (r ← reload w s d; Ret (r, h)).
Proof.
  intros Hh Hd. unfold l_reload, reload. rewrite l_reload_reads by apply Hh.
  destruct (inner s d) as [e| | |] eqn:Hi; try done. cbn [mbind outcome_bind].
  destruct (fs_get_inode w (d_fs e) (v_num (d_inode e))) as [[o|err]| | |]; try done.
  cbn [mbind outcome_bind].
  assert (free (LDEntry d) Write ((LEntries, Write) :: h)) as Hd'.
  { destruct Hd as [H1' H2']. split; [|intros _]; rewrite not_elem_of_cons; auto. }
  rewrite (with_guard_free _ _ _ _ (match o with
    | Some inode => s ← set_inode s d inode; Ret (Ok tt, s)
    | None => Ret (Ok tt, set_cache s (delete (d_name e) (cache s)))
    end)); [by destruct o|apply Hh|].
  destruct o as [i|].
  - apply with_guard_free; [done|]. by destruct (set_inode s d i).
  - apply (with_guard_free _ _ _ _ (Ret _)); [split; [apply Hd'|done]|]. done.
Qed.

(** ** Properties *)

(** C9: the locks of the directory cache never block the thread that takes them
    alone: when no guard on the cache is held, none on the mounts, and no other
    one for writing, every operation of the cache and of the mounts returns what
    it returns without locks, and holds the guards it held before.  Reloading an
    entry also needs that no guard on that entry is held. *)
Theorem locks_transparent (w : W) (s : DirState I) (h : guards) :
  lookup_free h -> free LMounts Write h ->
  (forall path, l_get now w s path h = (r ← get now w s path; Ret (r, h))) /\
  (forall d, l_mount now s d h = (s ← mount now s d; Ret (s, h))) /\
  (forall path, l_delete_path s path h = Ret (delete_path s path, h)) /\
  (forall fs inode, l_delete_inode w s fs inode h = Ret (delete_inode w s fs inode, h)) /\
  (forall fs, l_unmount w s fs h = Ret (unmount w s fs, h)) /\
  (forall fs dest, l_mount_fs now w s fs dest h = (r ← mount_fs now w s fs dest; Ret (r, h))) /\
  (forall d, free (LDEntry d) Write h -> l_reload w s d h = (r ← reload w s d; Ret (r, h))).
Proof.
  intros Hh Hm. pose proof (reads_entries Write h (proj1 Hh)) as Hr. split_and!.
  - intros path. by apply l_get_ok.
  - intros d. by apply l_mount_ok.
  - intros path. by apply (with_guard_free _ _ _ _ (Ret _)); [apply Hh|].
  - intros fs inode. apply (with_guard_free _ _ _ _ (Ret _)); [apply Hh|]. by rewrite l_visit_ok.
  - intros fs. apply (with_guard_free _ _ _ _ (Ret _)); [apply Hh|]. by rewrite l_visit_ok.
  - intros fs dest. by apply l_mount_fs_ok.
  - intros d Hd. by apply l_reload_ok.
Qed.

(** C10: reloading an entry while one looks at its inode never returns: [reload]
    waits for the lock of the entry, which the guard [inode] gave holds, when the
    inode is still in the file system. *)
Theorem reload_hangs (w : W) (s : DirState I) d e i h :
  lookup_free h -> inner s d = Ret e ->
  fs_get_inode w (d_fs e) (v_num (d_inode e)) = Ret (Ok (Some i)) ->
  ('(_, h) ← l_inode s d h; l_dentry_reload w s d h) = Hang.
Proof.
  intros Hh He Hi. unfold l_inode, l_guarded.
  rewrite acquire_free by (apply reads_free; [apply Hh|done]). cbn [mbind outcome_bind]. rewrite He. cbn [mbind outcome_bind].
  unfold l_dentry_reload, l_reload. rewrite l_reload_reads by (apply reads_read, Hh).
  rewrite He. cbn [mbind outcome_bind]. rewrite Hi. cbn [mbind outcome_bind]. unfold with_guard at 1.
  destruct (acquire LEntries Write _) as [h1| | |] eqn:Ea; try done; cbn [mbind outcome_bind];
    unfold acquire in Ea; destruct (_ || _); simplify_eq.
  rewrite (with_guard_hangs _ _ _ _ Read); [done| |by left]. right. left.
Qed.
End erase.

(** ** Examples *)

(** A client that looks at the inode of an entry meanwhile. *)
Lemma locks_transparent_witness :
  l_get (H := ramfs_file_systems Debug 5) 5 ex_world_f ex_dirs (lit "/f") [(LDEntry 0, Read)] =
    (r ← get (H := ramfs_file_systems Debug 5) 5 ex_world_f ex_dirs (lit "/f");
     Ret (r, [(LDEntry 0, Read)])) /\
  exists s, get (H := ramfs_file_systems Debug 5) 5 ex_world_f ex_dirs (lit "/f") = Ret (Ok 1, s).
Proof.
  split; [|eexists; vm_compute; reflexivity].
  apply (locks_transparent (H := ramfs_file_systems Debug 5) 5 ex_world_f ex_dirs [(LDEntry 0, Read)]).
  - split; [intros k Hk [= ?]%list_elem_of_singleton|].
    split; [|intros _]; intros [= ?]%list_elem_of_singleton.
  - split; [|intros _]; intros [= ?]%list_elem_of_singleton.
Defined.

Lemma reload_hangs_witness :
  ('(_, h) ← l_inode ex_dirs 0 [];
   l_dentry_reload (H := ramfs_file_systems Debug 5) ex_world_f ex_dirs 0 h) = Hang.
Proof.
  eapply (reload_hangs (H := ramfs_file_systems Debug 5) ex_world_f ex_dirs 0 _ _ []).
  - split; [intros k Hk; apply not_elem_of_nil|]. split; [|intros _]; apply not_elem_of_nil.
  - reflexivity.
  - vm_compute. reflexivity.
Defined.
