(* ===== verification/Serial.v ===== *)
(** * serial.rs: the serial port

    The ports belong to the hardware: reading and writing them is a parameter,
    and the theorems ask of the device at the port only what the data sheet of
    the 16550 says of its registers ([UartLaws]). *)

From Stdlib Require Import ZArith Lia ZifyBool.
From stdpp Require Import base list numbers.
From S2P Require Import Prelude.

Local Open Scope Z_scope.

(** ** Interfaces *)

(** [PortRead] and [PortWrite] of the [x86_64] crate for bytes. *)
Class Ports (W : Type) := {
  read_from_port : W -> Z -> u8 * W;
  write_to_port : W -> Z -> u8 -> W
}.

(** The I/O APIC of the [x86] crate, by the address of its registers. *)
Class IoApic (W : Type) := {
  ioapic_enable : W -> Z -> Z -> Z -> W;
  ioapic_disable_all : W -> Z -> W
}.

(** ** Operations *)

Inductive SerialError := serial_error.

Record Serial := mkSerial { port : Z }.

Definition COM1_PORT : Z := 0x3F8.
Definition IRQ_COM1 : Z := 4.

Section serial.
Context {W : Type} `{Ports W} (prof : profile).

(** [u8::write_to_port(port + off, v)] and [u8::read_from_port(port + off)]. *)
Definition out (w : W) (port off : Z) (v : u8) : outcome W :=
  p ← arith prof 16 (port + off);
  Ret (write_to_port w p v).
Definition inp (w : W) (port off : Z) : outcome (u8 * W) :=
  p ← arith prof 16 (port + off);
  Ret (read_from_port w p).

Definition init_serial (port : Z) (w : W) : outcome (result unit SerialError * W) :=
  w ← out w port 1 0x00;
  w ← out w port 3 0x80;
  w ← out w port 0 0x03;
  w ← out w port 1 0x00;
  w ← out w port 3 0x03;
  w ← out w port 2 0xC7;
  w ← out w port 4 0x0B;
  w ← out w port 4 0x1E;
  w ← out w port 0 0xAE;
  '(b, w) ← inp w port 0;
  if negb (b =? 0xAE) then Ret (Err serial_error, w)
  else
    w ← out w port 4 0x0F;
    Ret (Ok tt, w).

Definition serial_new (port : Z) (w : W) : outcome (result Serial SerialError * W) :=
  '(r, w) ← init_serial port w;
  match r with
  | Err e => Ret (Err e, w)
  | Ok _ => Ret (Ok (mkSerial port), w)
  end.

Definition com1 (w : W) : outcome (result Serial SerialError * W) := serial_new COM1_PORT w.

(** [enable_interrupts] up to its last statement, in which the I/O APIC is told. *)
Definition enable_receiver (self : Serial) (w : W) : outcome W :=
  w ← out w (port self) 1 0x01;
  '(_, w) ← inp w (port self) 2;
  '(_, w) ← inp w (port self) 0;
  Ret w.

Definition write_byte (self : Serial) (byte : u8) (w : W) : W :=
  write_to_port w (port self) byte.

Definition data_available (self : Serial) (w : W) : outcome (bool * W) :=
  '(b, w) ← inp w (port self) 5;
  Ret (Z.land b 1 =? 1, w).

Definition read_byte (self : Serial) (w : W) : outcome (option u8 * W) :=
  '(available, w) ← data_available self w;
  if (available : bool) then
    let '(b, w) := read_from_port w (port self) in Ret (Some b, w)
  else Ret (None, w).

(** One turn of the loop of [handle_interrupt]. *)
Definition echo_byte (self : Serial) (byte : u8) (w : W) : W :=
  if byte =? 0x7f then
    let w := write_byte self 0x08 w in
    let w := write_byte self 0x20 w in
    write_byte self 0x08 w
  else if (byte =? 13) || (byte =? 10) then
    let w := write_byte self 13 w in
    write_byte self 10 w
  else write_byte self byte w.

(** The loop ends when the device has no more data. *)
Fixpoint handle_interrupt (fuel : nat) (self : Serial) (w : W) : outcome W :=
  match fuel with
  | O => NoFuel
  | S fuel =>
      '(o, w) ← read_byte self w;
      match o with
      | None => Ret w
      | Some byte => handle_interrupt fuel self (echo_byte self byte w)
      end
  end.

(** [write_str]: [Ok] always. *)
Fixpoint write_str (self : Serial) (s : str) (w : W) : W :=
  match s with
  | [] => w
  | byte :: s => write_str self s (write_byte self byte w)
  end.
End serial.

(** ** What the data sheet says *)

(** The registers of a 16550 the driver uses: divisor latch, interrupt enable,
    line and modem control, the bytes received and not yet read, and the bytes
    handed to the transmitter so far. *)
Record Uart := mkUart {
  dll : Z; dlm : Z; ier : Z; lcr : Z; mcr : Z;
  rx : list u8; tx : list u8
}.

Definition dlab (u : Uart) : bool := Z.testbit (lcr u) 7.
Definition loopback (u : Uart) : bool := Z.testbit (mcr u) 4.
Definition set_rx (u : Uart) (q : list u8) : Uart :=
  mkUart (dll u) (dlm u) (ier u) (lcr u) (mcr u) q (tx u).
Definition set_tx (u : Uart) (q : list u8) : Uart :=
  mkUart (dll u) (dlm u) (ier u) (lcr u) (mcr u) (rx u) q.

(** Writing register [r]. *)
Definition uart_write (u : Uart) (r : Z) (v : u8) : Uart :=
  match r with
  | 0 =>
      if dlab u then mkUart v (dlm u) (ier u) (lcr u) (mcr u) (rx u) (tx u)
      else if loopback u then set_rx u (rx u ++ [v])
      else set_tx u (tx u ++ [v])
  | 1 =>
      if dlab u then mkUart (dll u) v (ier u) (lcr u) (mcr u) (rx u) (tx u)
      else mkUart (dll u) (dlm u) v (lcr u) (mcr u) (rx u) (tx u)
  | 2 => if Z.testbit v 1 then set_rx u [] else u
  | 3 => mkUart (dll u) (dlm u) (ier u) v (mcr u) (rx u) (tx u)
  | 4 => mkUart (dll u) (dlm u) (ier u) (lcr u) v (rx u) (tx u)
  | _ => u
  end.

(** A 16550 at [base], while no byte arrives from the other side.  The value
    read from an empty receiver and the other bits of the line status are left
    open. *)
Class UartLaws (W : Type) `{Ports W} (base : Z) := {
  uart : W -> Uart;
  uart_base : 0 <= base /\ base + 5 < 2 ^ 16;
  uart_out : forall w r v, 0 <= r <= 4 ->
    uart (write_to_port w (base + r) v) = uart_write (uart w) r v;
  uart_in_data : forall w b q, dlab (uart w) = false -> rx (uart w) = b :: q ->
    exists w', read_from_port w base = (b, w') /\ uart w' = set_rx (uart w) q;
  uart_in_empty : forall w, dlab (uart w) = false -> rx (uart w) = [] ->
    uart (read_from_port w base).2 = uart w;
  uart_in_iir : forall w, uart (read_from_port w (base + 2)).2 = uart w;
  uart_in_status : forall w, exists v w', read_from_port w (base + 5) = (v, w') /\
    Z.testbit v 0 = bool_decide (rx (uart w) <> []) /\ uart w' = uart w
}.

(** ** Lemmas *)

Section lemmas.
Context {W : Type} (base : Z) `{HL : UartLaws W base} (prof : profile).

Lemma out_reg w r v :
  0 <= r <= 4 ->
  exists w', out prof w base r v = Ret w' /\ uart w' = uart_write (uart w) r v.
Proof.
  intros Hr. pose proof uart_base. unfold out. rewrite arith_ok by lia.
  eexists. split; [reflexivity|]. by apply uart_out.
Qed.

Lemma write_byte_uart self b w :
  port self = base -> dlab (uart w) = false -> loopback (uart w) = false ->
  uart (write_byte self b w) = set_tx (uart w) (tx (uart w) ++ [b]).
Proof.
  intros Hp Hd Hl. unfold write_byte. rewrite Hp.
  pose proof (uart_out w 0 b ltac:(lia)) as Ho. rewrite Z.add_0_r in Ho. rewrite Ho.
  cbn [uart_write]. by rewrite Hd, Hl.
Qed.

(** What a read gives, and what it leaves behind. *)
Lemma read_byte_uart self w :
  port self = base -> dlab (uart w) = false ->
  exists w', read_byte prof self w = Ret (head (rx (uart w)), w') /\
    uart w' = set_rx (uart w) (tail (rx (uart w))).
Proof.
  intros Hp Hd. pose proof uart_base. unfold read_byte, data_available, inp.
  rewrite Hp, arith_ok by lia. cbn [mbind outcome_bind].
  destruct (uart_in_status w) as (v & w1 & -> & Hv & Hw1). cbn [mbind outcome_bind].
  replace (Z.land v 1 =? 1) with (Z.testbit v 0)
    by (change 1 with (Z.ones 1) at 1; rewrite Z.land_ones, Z.bit0_eqb by lia; reflexivity).
  rewrite Hv. destruct (rx (uart w)) as [|b q] eqn:Hq.
  - rewrite bool_decide_eq_false_2 by (intros ?; done).
    eexists. split; [reflexivity|]. rewrite Hw1. cbn. destruct (uart w); cbn in *; by subst.
  - rewrite bool_decide_eq_true_2 by done.
    destruct (uart_in_data w1 b q) as (w2 & -> & Hw2); [by rewrite Hw1..|].
    eexists. split; [reflexivity|]. by rewrite Hw2, Hw1.
Qed.

(** What the console shows for a byte typed. *)
Definition echo (b : u8) : list u8 :=
  if b =? 0x7f then [0x08; 0x20; 0x08]
  else if (b =? 13) || (b =? 10) then [13; 10]
  else [b].

Lemma write_str_uart self s w :
  port self = base -> dlab (uart w) = false -> loopback (uart w) = false ->
  uart (write_str self s w) = set_tx (uart w) (tx (uart w) ++ s).
Proof.
  intros Hp. revert w. induction s as [|b s IH]; intros w Hd Hl; cbn [write_str].
  - rewrite app_nil_r. by destruct (uart w).
  - pose proof (write_byte_uart self b w Hp Hd Hl) as Hb.
    rewrite IH; rewrite Hb; [|done..]. cbn. by rewrite <- app_assoc.
Qed.

Lemma echo_byte_uart self b w :
  port self = base -> dlab (uart w) = false -> loopback (uart w) = false ->
  uart (echo_byte self b w) = set_tx (uart w) (tx (uart w) ++ echo b).
Proof.
  intros Hp Hd Hl. rewrite <- (write_str_uart self (echo b) w Hp Hd Hl).
  unfold echo_byte, echo. by repeat destruct (_ || _) || destruct (_ =? _).
Qed.

Lemma handle_interrupt_uart fuel self w :
  port self = base -> dlab (uart w) = false -> loopback (uart w) = false ->
  (length (rx (uart w)) < fuel)%nat ->
  exists w', handle_interrupt prof fuel self w = Ret w' /\
    uart w' = set_tx (set_rx (uart w) []) (tx (uart w) ++ mjoin (map echo (rx (uart w)))).
Proof.
  intros Hp. revert w. induction fuel as [|fuel IH]; intros w Hd Hl Hf; [lia|]. cbn [handle_interrupt].
  destruct (read_byte_uart self w Hp Hd) as (w1 & -> & Hw1). cbn [mbind outcome_bind].
  destruct (rx (uart w)) as [|b q] eqn:Hq; cbn [head tail] in *.
  - eexists. split; [reflexivity|]. rewrite Hw1. cbn. by rewrite app_nil_r.
  - pose proof (echo_byte_uart self b w1 Hp) as Hb. rewrite Hw1 in Hb. specialize (Hb Hd Hl).
    destruct (IH (echo_byte self b w1)) as (w' & -> & Hw'); try (rewrite Hb; done).
    { rewrite Hb. cbn in *. lia. }
    eexists. split; [reflexivity|]. rewrite Hw', Hb. cbn. by rewrite <- app_assoc.
Qed.
End lemmas.

(** ** Properties *)

(** A device that follows the data sheet, as a state of its own. *)
#[export] Instance uart_ports : Ports Uart := {|
  read_from_port u p :=
    if p =? COM1_PORT then
      (if dlab u then (dll u, u) else (default 0 (head (rx u)), set_rx u (tail (rx u))))
    else if p =? COM1_PORT + 5 then (if bool_decide (rx u <> []) then 0x61 else 0x60, u)
    else (0xC1, u);
  write_to_port u p v := uart_write u (p - COM1_PORT) v
|}.
#[export, refine] Instance uart_model : UartLaws Uart COM1_PORT := {| uart u := u |}.
Proof.
  - done.
  - intros u r v Hr. cbn. f_equal. lia.
  - intros u b q Hd Hq. cbn -[dlab]. rewrite Hd, Hq. by eexists.
  - intros u Hd Hq. cbn -[dlab]. rewrite Hd, Hq. cbn. destruct u; cbn in *; by subst.
  - done.
  - intros u. cbn. do 2 eexists. split; [reflexivity|]. by destruct (bool_decide _).
Defined.

Example uart_reset : Uart := mkUart 12 0 0 0 0 [0x41; 0x7f; 13] [].

Section properties.
Context {W : Type} (base : Z) `{HL : UartLaws W base} (prof : profile).

(** Write the next register of a device whose state is known. *)
Ltac out_step :=
  match goal with
  | Hu : uart ?w = _ |- context [out prof ?w base ?r ?v] =>
      let w' := fresh "w" in let Hw := fresh "Hw" in
      destruct (out_reg base prof w r v ltac:(lia)) as (w' & -> & Hw);
      rewrite Hu in Hw; cbn in Hw; clear Hu; cbn [mbind outcome_bind]
  end.

(** Initialising a device that works leaves it ready. *)
Lemma init_serial_spec w :
  dlab (uart w) = false ->
  exists w', init_serial prof base w = Ret (Ok tt, w') /\
    uart w' = mkUart 3 0 0 3 0x0F [] (tx (uart w)).
Proof.
  intros Hd. pose proof uart_base. unfold init_serial.
  destruct (out_reg base prof w 1 0 ltac:(lia)) as (w1 & -> & Hw1). cbn [mbind outcome_bind].
  cbn [uart_write] in Hw1. rewrite Hd in Hw1. do 8 out_step.
  unfold inp. rewrite arith_ok by lia. cbn [mbind outcome_bind]. rewrite Z.add_0_r.
  match goal with Hu : uart ?w = _ |- context [read_from_port ?w base] =>
    destruct (uart_in_data w 0xAE []) as (w' & -> & Hw'); [by rewrite Hu..|];
    rewrite Hu in Hw'; cbn in Hw'; clear Hu end.
  cbn [negb Z.eqb Pos.eqb]. out_step. by eexists.
Qed.

(** [Serial::new] on a device that works, in whatever state its receiver
    and modem control are, succeeds and leaves it configured: divisor 3 (38400
    baud), eight bits without parity, interrupts off, loopback off, nothing
    left of the test byte or of what was received before, and nothing sent. *)
Theorem serial_new_ready w :
  dlab (uart w) = false ->
  exists w', serial_new prof base w = Ret (Ok (mkSerial base), w') /\
    uart w' = mkUart 3 0 0 3 0x0F [] (tx (uart w)).
Proof.
  intros Hd. unfold serial_new. destruct (init_serial_spec w Hd) as (w' & -> & Hw'). by exists w'.
Qed.

(** C38: the interrupt handler of the serial port empties the receiver and
    sends, for each byte in order, what the console shows for it: a backspace
    erases, either line ending gives both, and every other byte is sent as it is.
    One turn more than there are bytes is enough for the loop. *)
Theorem handle_interrupt_echoes fuel self w :
  port self = base -> dlab (uart w) = false -> loopback (uart w) = false ->
  (length (rx (uart w)) < fuel)%nat ->
  exists w', handle_interrupt prof fuel self w = Ret w' /\
    rx (uart w') = [] /\ tx (uart w') = tx (uart w) ++ mjoin (map echo (rx (uart w))).
Proof.
  intros Hp Hd Hl Hf.
  destruct (handle_interrupt_uart base prof fuel self w Hp Hd Hl Hf) as (w' & -> & Hw').
  exists w'. by rewrite Hw'.
Qed.
End properties.

Lemma serial_new_ready_witness :
  exists w', serial_new Debug COM1_PORT uart_reset = Ret (Ok (mkSerial COM1_PORT), w') /\
    w' = mkUart 3 0 0 3 0x0F [] [].
Proof. exact (serial_new_ready COM1_PORT Debug uart_reset eq_refl). Defined.

Lemma handle_interrupt_echoes_witness :
  exists w', handle_interrupt Debug 4 (mkSerial COM1_PORT) uart_reset = Ret w' /\
    rx w' = [] /\ tx w' = [0x41; 8; 0x20; 8; 13; 10].
Proof.
  exact (handle_interrupt_echoes COM1_PORT Debug 4 (mkSerial COM1_PORT) uart_reset
    eq_refl eq_refl eq_refl ltac:(cbn; lia)).
Defined.
