(* ===== verification/Timer.v ===== *)
(** * pit.rs, time.rs and apic.rs: the interval timer and the clocks set by it

    The local APIC and the time stamp counter belong to the hardware and to the
    [x86] crate: their registers are parameters, as the ports are. *)

From Stdlib Require Import ZArith Lia ZifyBool.
From stdpp Require Import base list numbers.
From S2P Require Import Prelude Serial.

Local Open Scope Z_scope.

(** ** Interfaces *)

(** The registers of [ApicRegister] the kernel uses. *)
Inductive ApicRegister :=
| XAPIC_TIMER_DIV_CONF
| XAPIC_TIMER_INIT_COUNT
| XAPIC_TIMER_CURRENT_COUNT
| XAPIC_LVT_TIMER.

(** [XAPIC] of the [x86] crate, and [rdtsc]. *)
Class Lapic (W : Type) := {
  lapic_write : W -> ApicRegister -> Z -> W;
  lapic_read : W -> ApicRegister -> Z * W;
  lapic_eoi : W -> W;
  lapic_attach : W -> W;
  rdtsc : W -> Z * W
}.

(** ** pit.rs *)

Definition TIMER_FREQUENCY : Z := 1193182.

Inductive Channel := Channel0 | Channel1 | Channel2.
Definition channel_code (c : Channel) : Z :=
  match c with Channel0 => 0 | Channel1 => 1 | Channel2 => 2 end.
Definition channel_port (c : Channel) : Z :=
  match c with Channel0 => 0x40 | Channel1 => 0x41 | Channel2 => 0x42 end.

Inductive AccessMode := LatchCountValue | LoByte | HiByte | LoHiByte.
Definition access_code (a : AccessMode) : Z :=
  match a with LatchCountValue => 0 | LoByte => 1 | HiByte => 2 | LoHiByte => 3 end.

Inductive OperatingMode :=
| InterruptOnTerminalCount
| HardwareRetriggerableOneShot
| RateGenerator
| SquareWaveGenerator
| SoftwareTriggeredStrobe
| HardwareTriggeredStrobe.
Definition operating_code (m : OperatingMode) : Z :=
  match m with
  | InterruptOnTerminalCount => 0
  | HardwareRetriggerableOneShot => 1
  | RateGenerator => 2
  | SquareWaveGenerator => 3
  | SoftwareTriggeredStrobe => 4
  | HardwareTriggeredStrobe => 5
  end.

(** [ProgrammableIntervalTimer]: its two ports.  The mutex around them is only
    held inside one call. *)
Record Pit := mkPit { ch : Z; cmd : Z }.
Definition pit_new (c : Channel) : Pit := mkPit (channel_port c) 0x43.
Definition PIT0 : Pit := pit_new Channel0.
Definition PIT1 : Pit := pit_new Channel1.
Definition PIT2 : Pit := pit_new Channel2.

Inductive TryFromIntError := try_from_int_error.

Section pit.
Context {W : Type} `{Ports W}.

(** The shifts are of [u8] values that stay below 256. *)
Definition set_cmd (cmd : Z) (channel : Channel) (access_mode : AccessMode)
    (operating_mode : OperatingMode) (w : W) : W :=
  let val := channel_code channel in
  let val := Z.lor val (Z.shiftl (access_code access_mode) 4) in
  let val := Z.lor val (Z.shiftl (operating_code operating_mode) 1) in
  write_to_port w cmd val.

Definition pit_start_timer (self : Pit) (mode : OperatingMode) (freq : Z) (w : W)
    : outcome (result unit TryFromIntError * W) :=
  if freq =? 0 then Panic
  else
    let q := TIMER_FREQUENCY / freq in
    if 2 ^ 16 <=? q then Ret (Err try_from_int_error, w)
    else
      let divisor := q in
      let w := set_cmd (cmd self) Channel0 LoHiByte mode w in
      let w := write_to_port w (ch self) (Z.land divisor 0xff) in
      let w := write_to_port w (ch self) (Z.shiftr divisor 8) in
      Ret (Ok tt, w).

Definition get_count (self : Pit) (w : W) : Z * W :=
  let '(lo, w) := read_from_port w (ch self) in
  let '(hi, w) := read_from_port w (ch self) in
  (Z.lor (Z.shiftl hi 8) lo, w).

(** [while PIT0.get_count() != 0 {}]. *)
Fixpoint wait_pit (fuel : nat) (w : W) : outcome W :=
  match fuel with
  | O => NoFuel
  | S fuel =>
      let '(c, w) := get_count PIT0 w in
      if negb (c =? 0) then wait_pit fuel w else Ret w
  end.
End pit.

(** ** apic.rs and time.rs *)

Definition TICK_FREQ : Z := 1000.

(** [Ticks]: an atomic counter that wraps around. *)
Definition ticks_new : Z := 0.
Definition ticks_inc (t : Z) : Z := (t + 1) mod 2 ^ 64.

Section clocks.
Context {W : Type} `{Ports W} `{Lapic W} (prof : profile).

Definition disable_8259 (w : W) : W :=
  let w := write_to_port w 0xa1 0xff in
  write_to_port w 0x21 0xff.

(** The static [LAPIC]: its first use masks the old controller. *)
Definition lapic_force (ready : bool) (w : W) : W := if ready then w else disable_8259 w.

Definition unwrap_ok {A E} (r : result A E) : outcome A :=
  match r with Ok a => Ret a | Err _ => Panic end.

(** [calc_cpu_freq]; [fuel] bounds the wait for the interval timer. *)
Definition calc_cpu_freq (fuel : nat) (w : W) : outcome (Z * W) :=
  '(r, w) ← pit_start_timer PIT0 InterruptOnTerminalCount 100 w;
  _ ← unwrap_ok r;
  let '(start_tsc, w) := rdtsc w in
  w ← wait_pit fuel w;
  let '(end_tsc, w) := rdtsc w in
  cycles_per_10ms ← arith prof 64 (end_tsc - start_tsc);
  f ← arith prof 64 (cycles_per_10ms * 100);
  Ret (f, w).

(** [time::start_timer]. *)
Definition start_timer (fuel : nat) (ready : bool) (w : W) : outcome W :=
  let w := lapic_force ready w in
  let w := lapic_write w XAPIC_TIMER_DIV_CONF 0x3 in
  '(r, w) ← pit_start_timer PIT0 InterruptOnTerminalCount 100 w;
  _ ← unwrap_ok r;
  let w := lapic_write w XAPIC_TIMER_INIT_COUNT 0xffffffff in
  w ← wait_pit fuel w;
  let w := lapic_write w XAPIC_LVT_TIMER 0x10000 in
  let '(current, w) := lapic_read w XAPIC_TIMER_CURRENT_COUNT in
  ticks_per_10ms ← arith prof 32 (0xFFFFFFFF - current);
  ticks_per_s ← arith prof 32 (ticks_per_10ms * 100);
  let w := lapic_write w XAPIC_LVT_TIMER (Z.lor 0x20 0x20000) in
  let w := lapic_write w XAPIC_TIMER_DIV_CONF 0x3 in
  Ret (lapic_write w XAPIC_TIMER_INIT_COUNT (ticks_per_s / TICK_FREQ)).
End clocks.

(** ** What the timers do *)

(** The divisor a value of the divide configuration register stands for. *)
Definition divisor (conf : Z) : Z :=
  let k := Z.land conf 3 + 4 * Z.b2z (Z.testbit conf 3) in
  if k =? 7 then 1 else 2 ^ (k + 1).

(** The timer of the local APIC: [bus_clock] is the clock that drives it,
    [divide_conf] its divide configuration and [count_start] the initial count it was
    last given, with the time of that write.  It counts down by one in [divisor]
    cycles; nothing is said of the count once it has reached 0 or after the divisor
    was changed.  The interval timer is not described at all: of its counter the
    theorems only say what reading it found. *)
Class LapicTimerLaws (W : Type) `{Ports W} `{Lapic W} := {
  bus_clock : W -> Z;
  divide_conf : W -> Z;
  count_start : W -> option (Z * Z);
  clock_in : forall w p, bus_clock w <= bus_clock (read_from_port w p).2;
  clock_out : forall w p v, bus_clock w <= bus_clock (write_to_port w p v);
  clock_lapic : forall w r v, bus_clock w <= bus_clock (lapic_write w r v);
  timer_in : forall w p, divide_conf (read_from_port w p).2 = divide_conf w /\
    count_start (read_from_port w p).2 = count_start w;
  timer_out : forall w p v, divide_conf (write_to_port w p v) = divide_conf w /\
    count_start (write_to_port w p v) = count_start w;
  timer_divide : forall w v, divide_conf (lapic_write w XAPIC_TIMER_DIV_CONF v) = v;
  timer_init : forall w v, let w' := lapic_write w XAPIC_TIMER_INIT_COUNT v in
    divide_conf w' = divide_conf w /\ count_start w' = Some (v, bus_clock w');
  timer_lvt : forall w v, let w' := lapic_write w XAPIC_LVT_TIMER v in
    divide_conf w' = divide_conf w /\ count_start w' = count_start w;
  timer_current : forall w c t, count_start w = Some (c, t) ->
    (bus_clock w - t) / divisor (divide_conf w) <= c ->
    (lapic_read w XAPIC_TIMER_CURRENT_COUNT).1 = c - (bus_clock w - t) / divisor (divide_conf w)
}.

(** [n] reads of the interval timer find a count that is not 0, and the next one
    finds 0. *)
Fixpoint polls {W} `{Ports W} (n : nat) (w : W) : option W :=
  let '(c, w) := get_count PIT0 w in
  match n with
  | O => if c =? 0 then Some w else None
  | S n => if c =? 0 then None else polls n w
  end.

(** ** Lemmas *)

Lemma low_high_byte d : Z.land d 0xff + 256 * Z.shiftr d 8 = d.
Proof.
  change 0xff with (Z.ones 8). rewrite Z.land_ones, Z.shiftr_div_pow2 by lia.
  change (2 ^ 8) with 256. pose proof (Z.div_mod d 256). lia.
Qed.

Section wait.
Context {W : Type} `{Ports W}.

(** The wait ends with the first read that finds 0, and with no other. *)
Lemma wait_pit_polls n fuel (w w' : W) :
  polls n w = Some w' -> (n < fuel)%nat -> wait_pit fuel w = Ret w'.
Proof.
  revert fuel w. induction n as [|n IH]; intros [|fuel] w Hp Hf; try lia;
    cbn [polls wait_pit] in *; destruct (get_count PIT0 w) as [c w1]; destruct (c =? 0); cbn [negb]; try done.
  - by injection Hp as ->.
  - apply IH; [done|lia].
Qed.

Lemma wait_pit_waits fuel (w : W) :
  (forall n, (n < fuel)%nat -> polls n w = None) -> wait_pit fuel w = NoFuel.
Proof.
  revert w. induction fuel as [|fuel IH]; intros w Hp; [done|]. cbn [wait_pit].
  pose proof (Hp 0%nat ltac:(lia)) as H0. cbn [polls] in H0.
  destruct (get_count PIT0 w) as [c w1] eqn:E. destruct (c =? 0) eqn:Ec; [done|]. cbn [negb].
  apply IH. intros n Hn. specialize (Hp (S n) ltac:(lia)). cbn [polls] in Hp. by rewrite E, Ec in Hp.
Qed.
End wait.

Section timer_lemmas.
Context {W : Type} `{LapicTimerLaws W}.

(** The local timer goes on while the interval timer is read. *)
Definition counts_on (w w' : W) : Prop :=
  divide_conf w' = divide_conf w /\ count_start w' = count_start w /\ bus_clock w <= bus_clock w'.

Lemma get_count_timer pit w : counts_on w (get_count pit w).2.
Proof.
  unfold get_count. pose proof (timer_in w (ch pit)) as [Hd Hc]. pose proof (clock_in w (ch pit)) as Hk.
  destruct (read_from_port w (ch pit)) as [lo w1]. cbn in *.
  pose proof (timer_in w1 (ch pit)) as [Hd1 Hc1]. pose proof (clock_in w1 (ch pit)) as Hk1.
  destruct (read_from_port w1 (ch pit)) as [hi w2]. cbn in *. split_and!; [congruence..|lia].
Qed.

Lemma polls_timer n w w' : polls n w = Some w' -> counts_on w w'.
Proof.
  revert w. induction n as [|n IH]; intros w Hp; cbn [polls] in Hp;
    pose proof (get_count_timer PIT0 w) as Hg; destruct (get_count PIT0 w) as [c w1];
    destruct (c =? 0); try done; cbn in Hg.
  - by injection Hp as ->.
  - destruct (IH _ Hp) as (? & ? & ?), Hg as (? & ? & ?). split_and!; [congruence..|lia].
Qed.
End timer_lemmas.

(** The frequency of 100 Hz fits the counter. *)
Lemma pit_10ms {W} `{Ports W} mode (w : W) :
  pit_start_timer PIT0 mode 100 w =
  Ret (Ok tt, write_to_port (write_to_port
    (write_to_port w 0x43 (0x30 + 2 * operating_code mode)) 0x40 0x9B) 0x40 0x2E).
Proof. by destruct mode. Qed.

(** ** Properties *)

(** Programming the interval timer on every frequency: 0 divides by zero;
    below 19 Hz the divisor has no sixteen bits and nothing is written; from
    19 Hz on the low and the high byte of the divisor are written to the data
    port of the timer, after a command that selects channel 0 whichever channel
    the timer stands for. *)
Theorem pit_start_timer_branches {W} `{Ports W} self mode freq (w : W) :
  0 <= freq ->
  (freq = 0 -> pit_start_timer self mode freq w = Panic) /\
  (0 < freq < 19 -> pit_start_timer self mode freq w = Ret (Err try_from_int_error, w)) /\
  (19 <= freq -> exists lo hi, 0 <= lo < 256 /\ 0 <= hi < 256 /\
     lo + 256 * hi = TIMER_FREQUENCY / freq /\
     pit_start_timer self mode freq w =
       Ret (Ok tt, write_to_port (write_to_port
         (write_to_port w (cmd self) (0x30 + 2 * operating_code mode)) (ch self) lo) (ch self) hi)).
Proof.
  intros Hf. unfold pit_start_timer, TIMER_FREQUENCY. split_and!.
  - by intros ->.
  - intros Hr. destruct (Z.eqb_spec freq 0); [lia|].
    assert (2 ^ 16 <= 1193182 / freq) by (apply Z.div_le_lower_bound; lia).
    by destruct (Z.leb_spec (2 ^ 16) (1193182 / freq)); [|lia].
  - intros Hr. destruct (Z.eqb_spec freq 0); [lia|].
    assert (0 <= 1193182 / freq) by (apply Z.div_pos; lia).
    assert (1193182 / freq < 2 ^ 16) by (apply Z.div_lt_upper_bound; lia).
    destruct (Z.leb_spec (2 ^ 16) (1193182 / freq)); [lia|].
    set (d := 1193182 / freq) in *. exists (Z.land d 0xff), (Z.shiftr d 8).
    pose proof (low_high_byte d) as Hd.
    assert (0 <= Z.land d 0xff < 256) by (change 0xff with (Z.ones 8); rewrite Z.land_ones by lia;
      apply Z.mod_pos_bound; lia).
    split_and!; try lia. by destruct mode.
Qed.

(** The state in which [start_timer] begins to wait: the local timer divides by 16,
    the interval timer has been given 10 ms, and the local timer counts down from its
    largest count. *)
Definition timer_armed {W} `{Ports W} `{Lapic W} (ready : bool) (w : W) : W :=
  let w := lapic_write (lapic_force ready w) XAPIC_TIMER_DIV_CONF 0x3 in
  let w := write_to_port (write_to_port (write_to_port w 0x43 0x30) 0x40 0x9B) 0x40 0x2E in
  lapic_write w XAPIC_TIMER_INIT_COUNT 0xffffffff.

(** The local timer as it is left: periodic on the vector of IRQ 0, dividing by 16. *)
Definition timer_running {W} `{Lapic W} (w : W) (rate : Z) : W :=
  let w := lapic_write w XAPIC_LVT_TIMER 0x20020 in
  let w := lapic_write w XAPIC_TIMER_DIV_CONF 0x3 in
  lapic_write w XAPIC_TIMER_INIT_COUNT rate.

Section start.
Context {W : Type} `{LapicTimerLaws W} (prof : profile).

(** The ticks of the local timer, one in 16 cycles, from the write of its initial
    count to the end of the wait in [w3]. *)
Definition ticks_counted (w1 w3 : W) : Z :=
  (bus_clock (lapic_write w3 XAPIC_LVT_TIMER 0x10000) - bus_clock w1) / 16.

Lemma armed_timer ready w :
  divide_conf (timer_armed ready w) = 0x3 /\
  count_start (timer_armed ready w) = Some (0xffffffff, bus_clock (timer_armed ready w)).
Proof.
  unfold timer_armed. cbv zeta.
  match goal with |- context [lapic_write ?w0 XAPIC_TIMER_INIT_COUNT ?v] =>
    destruct (timer_init w0 v) as [-> ->] end.
  by rewrite !(proj1 (timer_out _ _ _)), timer_divide.
Qed.

Lemma current_count_armed n ready w w3 :
  polls n (timer_armed ready w) = Some w3 ->
  let ticks := ticks_counted (timer_armed ready w) w3 in 0 <= ticks <= 0xFFFFFFFF ->
  (lapic_read (lapic_write w3 XAPIC_LVT_TIMER 0x10000) XAPIC_TIMER_CURRENT_COUNT).1 = 0xFFFFFFFF - ticks.
Proof.
  intros Hp ticks Ht. destruct (polls_timer n _ _ Hp) as (Hd & Hc & _).
  destruct (armed_timer ready w) as [Ha1 Ha2]. rewrite Ha1 in Hd. rewrite Ha2 in Hc.
  destruct (timer_lvt w3 0x10000) as [Hl1 Hl2].
  assert (divisor (divide_conf (lapic_write w3 XAPIC_LVT_TIMER 0x10000)) = 16) as Hdiv
    by (rewrite Hl1, Hd; reflexivity).
  rewrite (timer_current _ 0xFFFFFFFF (bus_clock (timer_armed ready w))), Hdiv;
    [done|by rewrite Hl2, Hc|rewrite Hdiv; apply Ht].
Qed.

Lemma ticks_counted_pos n w w3 : polls n w = Some w3 -> 0 <= ticks_counted w w3.
Proof.
  intros Hp. destruct (polls_timer n _ _ Hp) as (_ & _ & Hk).
  pose proof (clock_lapic w3 XAPIC_LVT_TIMER 0x10000). apply Z.div_pos; lia.
Qed.

Lemma start_timer_polled n fuel ready w w3 :
  polls n (timer_armed ready w) = Some w3 -> (n < fuel)%nat ->
  let ticks := ticks_counted (timer_armed ready w) w3 in
  let w5 := (lapic_read (lapic_write w3 XAPIC_LVT_TIMER 0x10000) XAPIC_TIMER_CURRENT_COUNT).2 in
  (ticks <= 42949672 -> start_timer prof fuel ready w = Ret (timer_running w5 (ticks / 10))) /\
  (42949672 < ticks <= 0xFFFFFFFF -> start_timer prof fuel ready w =
     match prof with
     | Debug => Panic
     | Release => Ret (timer_running w5 ((ticks * 100) mod 2 ^ 32 / 1000))
     end).
Proof.
  intros Hp Hf ticks w5. pose proof (ticks_counted_pos n _ _ Hp) as Hpos. fold ticks in Hpos.
  pose proof (current_count_armed n ready w w3 Hp) as Hcur. cbv zeta in Hcur. fold ticks in Hcur.
  unfold start_timer. rewrite pit_10ms. cbn [mbind outcome_bind unwrap_ok].
  match goal with |- context [wait_pit fuel ?w0] => change w0 with (timer_armed ready w) end.
  rewrite (wait_pit_polls n fuel _ w3 Hp Hf). cbn [mbind outcome_bind]. unfold w5.
  destruct (lapic_read (lapic_write w3 XAPIC_LVT_TIMER 0x10000) XAPIC_TIMER_CURRENT_COUNT) as [current w4].
  cbn [fst snd] in *. split; intros Ht; rewrite Hcur by lia;
    rewrite arith_ok by lia; cbn [mbind outcome_bind];
    replace (0xFFFFFFFF - (0xFFFFFFFF - ticks)) with ticks by lia.
  - rewrite arith_ok by lia. cbn [mbind outcome_bind]. unfold timer_running. do 2 f_equal.
    unfold TICK_FREQ. change 1000 with (10 * 100). by rewrite Z.div_mul_cancel_r by lia.
  - rewrite arith_overflow by lia. by destruct prof.
Qed.

(** C37: starting the clock.  The local timer is set to divide by 16 and to count
    down from 0xffffffff, the interval timer to 10 ms, and its count is read until a
    read finds 0.  Then the local timer is left periodic, on the vector of IRQ 0 and
    dividing by 16, with a tenth of the ticks it has counted in the meantime as its
    period: [TICK_FREQ] interrupts a second.  The count for a second is formed in 32
    bits: from 42949673 ticks on a build with overflow checks panics and one without
    them sets a wrong rate.  As long as no read finds exactly 0 the wait goes on. *)
Theorem start_timer_calibrates fuel ready w :
  let w1 := timer_armed ready w in
  (forall n w3, polls n w1 = Some w3 -> (n < fuel)%nat ->
     let ticks := ticks_counted w1 w3 in
     let w5 := (lapic_read (lapic_write w3 XAPIC_LVT_TIMER 0x10000) XAPIC_TIMER_CURRENT_COUNT).2 in
     (ticks <= 42949672 -> start_timer prof fuel ready w = Ret (timer_running w5 (ticks / 10))) /\
     (42949672 < ticks <= 0xFFFFFFFF -> start_timer prof fuel ready w =
        match prof with
        | Debug => Panic
        | Release => Ret (timer_running w5 ((ticks * 100) mod 2 ^ 32 / 1000))
        end)) /\
  ((forall n, (n < fuel)%nat -> polls n w1 = None) -> start_timer prof fuel ready w = NoFuel).
Proof.
  intros w1. split; [intros n w3; apply start_timer_polled|]. intros Hp.
  unfold start_timer. rewrite pit_10ms. cbn [mbind outcome_bind unwrap_ok].
  match goal with |- context [wait_pit fuel ?w0] => change w0 with w1 end.
  by rewrite wait_pit_waits.
Qed.
End start.

(** ** A machine with both timers *)

(** The cycles so far, what was written to the local timer, the count the interval
    timer was loaded with and when, the low byte of a count that is being written,
    whether the next read gives the high byte, and the steps of the interval timer
    from one read of its count to the next.  It counts down once in 1000 cycles and
    goes on behind 0. *)
Record sim := mkSim {
  s_clock : Z; s_conf : Z; s_count : option (Z * Z); s_pit : Z * Z;
  s_low : option Z; s_high : bool; s_stride : nat
}.
Definition sim_pit (w : sim) : Z := ((s_pit w).1 - (s_clock w - (s_pit w).2) / 1000) mod 65536.
#[export] Instance sim_ports : Ports sim := {|
  read_from_port w p :=
    if p =? 0x40 then
      let later := if s_high w then 1000 * Z.of_nat (s_stride w) else 0 in
      (if s_high w then sim_pit w / 256 else sim_pit w mod 256,
       mkSim (s_clock w + later) (s_conf w) (s_count w) (s_pit w) (s_low w) (negb (s_high w)) (s_stride w))
    else (0, w);
  write_to_port w p v :=
    if p =? 0x43 then mkSim (s_clock w) (s_conf w) (s_count w) (s_pit w) None false (s_stride w)
    else if p =? 0x40 then
      match s_low w with
      | None => mkSim (s_clock w) (s_conf w) (s_count w) (s_pit w) (Some v) false (s_stride w)
      | Some low => mkSim (s_clock w) (s_conf w) (s_count w) (low + 256 * v, s_clock w) None false (s_stride w)
      end
    else w
|}.
#[export] Instance sim_lapic : Lapic sim := {|
  lapic_write w r v :=
    match r with
    | XAPIC_TIMER_DIV_CONF => mkSim (s_clock w) v None (s_pit w) (s_low w) (s_high w) (s_stride w)
    | XAPIC_TIMER_INIT_COUNT =>
        mkSim (s_clock w) (s_conf w) (Some (v, s_clock w)) (s_pit w) (s_low w) (s_high w) (s_stride w)
    | _ => w
    end;
  lapic_read w r :=
    (match r, s_count w with
     | XAPIC_TIMER_CURRENT_COUNT, Some (c, t) => Z.max 0 (c - (s_clock w - t) / divisor (s_conf w))
     | _, _ => 0
     end, w);
  lapic_eoi w := w;
  lapic_attach w := w;
  rdtsc w := (s_clock w, w)
|}.
#[export, refine] Instance sim_laws : LapicTimerLaws sim :=
  {| bus_clock := s_clock; divide_conf := s_conf; count_start := s_count |}.
Proof.
  - intros w p. cbn. destruct (p =? 0x40), (s_high w); cbn; lia.
  - intros w p v. cbn. destruct (p =? 0x43), (p =? 0x40), (s_low w); cbn; lia.
  - intros w [] v; cbn; lia.
  - intros w p. cbn. by destruct (p =? 0x40).
  - intros w p v. cbn. by destruct (p =? 0x43), (p =? 0x40), (s_low w).
  - done.
  - done.
  - done.
  - intros w c t Hc Hle. cbn. rewrite Hc. lia.
Defined.

Definition sim_start (stride : nat) : sim := mkSim 0 0 None (0, 0) None false stride.

(** The count of 11931 is read after every 97 steps: the read after 123 of them finds
    0, and the local timer is given a tenth of the ticks of 124 times 97000 cycles. *)
Lemma start_timer_calibrates_witness :
  exists w3, polls 123 (timer_armed true (sim_start 97)) = Some w3 /\
    ticks_counted (timer_armed true (sim_start 97)) w3 = 751750 /\
    start_timer Debug 124 true (sim_start 97) = Ret (timer_running w3 75175).
Proof.
  eexists. split; [vm_compute; reflexivity|]. split; [vm_compute; reflexivity|].
  destruct (start_timer_calibrates Debug 124 true (sim_start 97)) as [Hc _].
  edestruct (Hc 123%nat) as [Hr _]; [vm_compute; reflexivity|lia|].
  rewrite Hr by (vm_compute; discriminate). vm_compute. reflexivity.
Defined.

(** An odd count is not read as 0. *)
Lemma odd_count x : Z.odd x = true -> (Z.lor (Z.shiftl (x / 256) 8) (x mod 256) =? 0) = false.
Proof.
  intros Ho. apply Z.eqb_neq. intros He. apply (f_equal (fun y => Z.testbit y 0)) in He.
  rewrite Z.lor_spec, Z.shiftl_spec_low, Z.bits_0 in He by lia.
  change 256 with (2 ^ 8) in He. by rewrite Z.mod_pow2_bits_low, Z.bit0_odd, Ho in He by lia.
Qed.

Lemma sim_missed n clock conf count low :
  (2000 | clock) -> polls n (mkSim clock conf count (11931, 0) low false 2) = None.
Proof.
  revert clock. induction n as [|n IH]; intros clock [k ->]; cbn [polls];
    match goal with |- context [get_count PIT0 ?w] => assert (get_count PIT0 w =
      (Z.lor (Z.shiftl (sim_pit w / 256) 8) (sim_pit w mod 256),
       mkSim (k * 2000 + 0 + 2000) conf count (11931, 0) low false 2)) as ->;
      [unfold get_count, sim_pit; cbn -[Z.mul Z.div Z.modulo Z.lor Z.shiftl Z.sub Z.add];
       by rewrite Z.add_0_r|] end.
  all: rewrite odd_count; [first [done | apply IH; exists (k + 1); lia]|].
  all: unfold sim_pit; cbn [s_pit s_clock fst snd].
  all: replace ((k * 2000 - 0) / 1000) with (2 * k) by
    (replace (k * 2000 - 0) with (2 * k * 1000) by lia; by rewrite Z.div_mul).
  all: rewrite <- Z.bit0_odd; change 65536 with (2 ^ 16); rewrite Z.mod_pow2_bits_low by lia.
  all: rewrite Z.bit0_odd; replace (11931 - 2 * k) with (1 + 2 * (5965 - k)) by lia; by rewrite Z.odd_add_mul_2.
Qed.

(** The count is tested for 0 only: on the same machine, when it is read at every
    second step, it is odd whenever it is read, and the clock is never started. *)
Theorem pit_zero_missed prof fuel : start_timer prof fuel true (sim_start 2) = NoFuel.
Proof.
  unfold start_timer. rewrite pit_10ms. cbn [mbind outcome_bind unwrap_ok].
  rewrite wait_pit_waits; [done|]. intros n _. apply sim_missed. by exists 0.
Qed.

Lemma pit_start_timer_branches_witness :
  (18 = 0 -> pit_start_timer PIT0 RateGenerator 18 (sim_start 0) = Panic) /\
  (0 < 18 < 19 -> pit_start_timer PIT0 RateGenerator 18 (sim_start 0) =
     Ret (Err try_from_int_error, (sim_start 0))) /\
  (19 <= 18 -> exists lo hi, 0 <= lo < 256 /\ 0 <= hi < 256 /\
     lo + 256 * hi = TIMER_FREQUENCY / 18 /\
     pit_start_timer PIT0 RateGenerator 18 (sim_start 0) =
       Ret (Ok tt, write_to_port (write_to_port
         (write_to_port (sim_start 0) 0x43 0x34) 0x40 lo) 0x40 hi)).
Proof. exact (pit_start_timer_branches PIT0 RateGenerator 18 (sim_start 0) ltac:(lia)). Defined.
