(* ===== verification/Trap.v ===== *)
(** * trap.rs and panic.rs: the console and interrupts

    The console is the static [COM1], a serial port behind a spin lock.  Both
    [kprintln!] and the interrupt handlers take the lock: an interrupt can come
    between any two steps of a [kprintln!], which is therefore also given as the
    sequence of its steps. *)

From Stdlib Require Import ZArith Lia ZifyBool.
From stdpp Require Import base sets list numbers strings.
From S2P Require Import Prelude Serial Timer.

Local Open Scope Z_scope.

(** ** State *)

(** The hardware, the statics [COM1] (the port once it was set up, and the
    lock), [TICKS], whether [LAPIC] was set up, and of the processor whether it takes
    interrupts and has been given the table [IDT]. *)
Record Kernel (W : Type) := mkKernel {
  hw : W;
  com1_port : option Serial;
  com1_locked : bool;
  ticks : Z;
  lapic_ready : bool;
  interrupts_on : bool;
  idt_loaded : bool
}.
Arguments mkKernel {W}.
Arguments hw {W}.
Arguments com1_port {W}.
Arguments com1_locked {W}.
Arguments ticks {W}.
Arguments lapic_ready {W}.
Arguments interrupts_on {W}.
Arguments idt_loaded {W}.

(** The processor goes on, or has halted for ever. *)
Variant progress (W : Type) := Running (k : Kernel W) | Halted (k : Kernel W).
Arguments Running {W}.
Arguments Halted {W}.

Definition IRQ0 : Z := 0x20.
Definition CR : u8 := 13.
Definition LF : u8 := 10.

(** [{:x}] and [{}] of an unsigned number, by at most [n] digits. *)
Definition digit (d : Z) : u8 := if d <? 10 then 48 + d else 87 + d.
Fixpoint digits (n : nat) (base x : Z) (acc : str) : str :=
  match n with
  | O => acc
  | S n =>
      let acc := digit (x mod base) :: acc in
      if x / base =? 0 then acc else digits n base (x / base) acc
  end.
Definition fmt_hex (x : Z) : str := digits 16 16 x [].
Definition fmt_dec (x : Z) : str := digits 20 10 x [].
(** [{:?}] of an [Option<u64>]. *)
Definition fmt_option (o : option Z) : str :=
  match o with
  | None => lit "None"
  | Some x => lit "Some(" ++ fmt_dec x ++ lit ")"
  end.

Section kernel.
Context {W : Type} `{Ports W} `{Lapic W} `{IoApic W} (prof : profile).

Definition set_hw (k : Kernel W) (w : W) : Kernel W :=
  mkKernel w (com1_port k) (com1_locked k) (ticks k) (lapic_ready k) (interrupts_on k) (idt_loaded k).
Definition set_locked (k : Kernel W) (b : bool) : Kernel W :=
  mkKernel (hw k) (com1_port k) b (ticks k) (lapic_ready k) (interrupts_on k) (idt_loaded k).
(** [interrupts::enable()] and [interrupts::disable()]. *)
Definition set_interrupts (k : Kernel W) (b : bool) : Kernel W :=
  mkKernel (hw k) (com1_port k) (com1_locked k) (ticks k) (lapic_ready k) b (idt_loaded k).
(** [trap::init_idt]. *)
Definition init_idt (k : Kernel W) : Kernel W :=
  mkKernel (hw k) (com1_port k) (com1_locked k) (ticks k) (lapic_ready k) (interrupts_on k) true.

(** ** The console *)

(** [COM1.lock()]: the first use sets the port up, or halts the processor. *)
Definition com1_lock (k : Kernel W) : outcome (Serial * Kernel W) :=
  '(serial, k) ←
    match com1_port k with
    | Some serial => Ret (serial, k)
    | None =>
        '(r, w) ← com1 prof (hw k);
        match r with
        | Err _ => Hang
        | Ok serial =>
            Ret (serial, mkKernel w (Some serial) (com1_locked k) (ticks k) (lapic_ready k)
                           (interrupts_on k) (idt_loaded k))
        end
    end;
  if com1_locked k then Hang else Ret (serial, set_locked k true).

(** [kprint!] and [kprintln!] of a formatted text. *)
Definition kprint (s : str) (k : Kernel W) : outcome (Kernel W) :=
  '(serial, k) ← com1_lock k;
  let k := set_hw k (write_str serial s (hw k)) in
  Ret (set_locked k false).
Definition kprintln (s : str) (k : Kernel W) : outcome (Kernel W) :=
  '(serial, k) ← com1_lock k;
  let w := write_str serial s (hw k) in
  let w := write_byte serial CR w in
  let w := write_byte serial LF w in
  Ret (set_locked (set_hw k w) false).

(** ** panic.rs *)

(** [panic], with the text of the [PanicInfo].  From its first statement on no
    interrupt is taken. *)
Definition panic_handler (info : str) (k : Kernel W) : outcome (progress W) :=
  let k := set_interrupts k false in
  k ← kprintln (lit "KERNEL PANIC:") k;
  k ← kprintln info k;
  Ret (Halted k).

(** ** trap.rs *)

(** The debug text of a [PageFaultErrorCode], the register CR2 and the text of
    a [PanicInfo] with a message belong to other crates. *)
Context (fmt_fault : Z -> str) (cr2 : W -> Z) (panic_info : str -> str).

Definition ack_lapic (k : Kernel W) : Kernel W :=
  mkKernel (lapic_eoi (lapic_force (lapic_ready k) (hw k))) (com1_port k) (com1_locked k)
    (ticks k) true (interrupts_on k) (idt_loaded k).

Definition general_handler (idx : Z) (errcode : option Z) (k : Kernel W)
    : outcome (progress W) :=
  k ← kprintln (lit "Interrupt!:") k;
  k ← kprintln ([9] ++ lit "idx: " ++ fmt_hex idx) k;
  k ← kprintln ([9] ++ lit "errcode: " ++ fmt_option errcode) k;
  panic_handler (panic_info (lit "Interrupt!")) k.

Definition timer_handler (k : Kernel W) : outcome (progress W) :=
  let k := mkKernel (hw k) (com1_port k) (com1_locked k) (ticks_inc (ticks k)) (lapic_ready k)
             (interrupts_on k) (idt_loaded k) in
  Ret (Running (ack_lapic k)).

(** [fuel] bounds the bytes the port has received. *)
Definition com1_handler (fuel : nat) (k : Kernel W) : outcome (progress W) :=
  '(serial, k) ← com1_lock k;
  w ← handle_interrupt prof fuel serial (hw k);
  Ret (Running (ack_lapic (set_locked (set_hw k w) false))).

Definition page_fault_handler (errcode : Z) (k : Kernel W) : outcome (progress W) :=
  k ← kprintln (lit "Page fault!") k;
  k ← kprintln ([9] ++ lit "err code: " ++ fmt_fault errcode) k;
  k ← kprintln ([9] ++ lit "address accessed: " ++ fmt_hex (cr2 (hw k))) k;
  panic_handler (panic_info (lit "Page fault!")) k.

(** The table [IDT]: the handler an interrupt vector runs. *)
Definition IDT (fuel : nat) (vector : Z) (errcode : option Z) (k : Kernel W)
    : outcome (progress W) :=
  if vector =? IRQ0 then timer_handler k
  else if vector =? IRQ0 + IRQ_COM1 then com1_handler fuel k
  else if vector =? 14 then page_fault_handler (default 0 errcode) k
  else general_handler vector errcode k.

(** ** [kprintln!] with interrupts enabled *)

(** [UnwrapNone] is an argument of [kprintln!] that panics while it is formatted. *)
Variant print_step := TakeLock | PutByte (b : u8) | DropLock | UnwrapNone.

Definition kprintln_steps (s : str) : list print_step :=
  TakeLock :: map PutByte (s ++ [CR; LF]) ++ [DropLock].

Definition print_step_run (st : print_step) (k : Kernel W) : outcome (progress W) :=
  match st with
  | TakeLock => '(_, k) ← com1_lock k; Ret (Running k)
  | PutByte b =>
      serial ← unwrap (com1_port k);
      Ret (Running (set_hw k (write_byte serial b (hw k))))
  | DropLock => Ret (Running (set_locked k false))
  | UnwrapNone => panic_handler (panic_info (lit "called `Option::unwrap()` on a `None` value")) k
  end.

(** Device interrupts, one after the other. *)
Fixpoint interrupts (fuel : nat) (vectors : list Z) (k : Kernel W) : outcome (progress W) :=
  match vectors with
  | [] => Ret (Running k)
  | v :: vectors =>
      p ← IDT fuel v None k;
      match p with
      | Running k => interrupts fuel vectors k
      | Halted k => Ret (Halted k)
      end
  end.

(** Steps of the program, each after the interrupts [sched] has for it. *)
Fixpoint interleave (fuel : nat) (sched : list (list Z)) (steps : list print_step) (k : Kernel W)
    : outcome (progress W) :=
  match steps with
  | [] => Ret (Running k)
  | st :: steps =>
      p ← interrupts fuel (default [] (head sched)) k;
      match p with
      | Running k =>
          p ← print_step_run st k;
          match p with
          | Running k => interleave fuel (tail sched) steps k
          | Halted k => Ret (Halted k)
          end
      | Halted k => Ret (Halted k)
      end
  end.

End kernel.

(** ** What the machine promises *)

(** The serial port at COM1 is alone on its eight ports, and neither APIC touches
    it. *)
Class MachineLaws (W : Type) `{Ports W} `{Lapic W} `{IoApic W} `{!UartLaws W COM1_PORT} := {
  other_out : forall w p v, p < COM1_PORT \/ COM1_PORT + 7 < p ->
    uart (write_to_port w p v) = uart w;
  other_in : forall w p, p < COM1_PORT \/ COM1_PORT + 7 < p ->
    uart (read_from_port w p).2 = uart w;
  lapic_write_uart : forall w r v, uart (lapic_write w r v) = uart w;
  lapic_read_uart : forall w r, uart (lapic_read w r).2 = uart w;
  lapic_eoi_uart : forall w, uart (lapic_eoi w) = uart w;
  lapic_attach_uart : forall w, uart (lapic_attach w) = uart w;
  ioapic_enable_uart : forall w a i c, uart (ioapic_enable w a i c) = uart w;
  ioapic_disable_uart : forall w a, uart (ioapic_disable_all w a) = uart w
}.

(** ** Lemmas *)

Section lemmas.
Context {W : Type} `{Ports W} `{Lapic W} `{IoApic W} `{!UartLaws W COM1_PORT} `{!MachineLaws W}.
Context (prof : profile) (fmt_fault : Z -> str) (cr2 : W -> Z) (panic_info : str -> str).

(** The console is set up and the serial port in normal operation. *)
Definition console_ready (k : Kernel W) : Prop :=
  com1_port k = Some (mkSerial COM1_PORT) /\ lapic_ready k = true /\
  dlab (uart (hw k)) = false /\ loopback (uart (hw k)) = false.

Lemma com1_lock_ready k :
  console_ready k ->
  com1_lock prof k = if com1_locked k then Hang else Ret (mkSerial COM1_PORT, set_locked k true).
Proof. intros (Hp & _). unfold com1_lock. by rewrite Hp. Qed.

(** Bytes written to the port are handed to the transmitter. *)
Lemma console_write s k :
  console_ready k ->
  let k' := set_hw k (write_str (mkSerial COM1_PORT) s (hw k)) in
  console_ready k' /\ uart (hw k') = set_tx (uart (hw k)) (tx (uart (hw k)) ++ s).
Proof.
  intros (Hp & Hr & Hd & Hl). cbn. unfold console_ready. cbn.
  pose proof (write_str_uart COM1_PORT (mkSerial COM1_PORT) s (hw k) eq_refl Hd Hl) as Hw.
  by rewrite Hw.
Qed.

(** The last two bytes of [kprintln!] are part of its text. *)
Lemma kprintln_write s k :
  kprintln prof s k =
  '(serial, k) ← com1_lock prof k;
  Ret (set_locked (set_hw k (write_str serial (s ++ [CR; LF]) (hw k))) false).
Proof.
  unfold kprintln. destruct (com1_lock prof k) as [[serial k1]| | |]; [|done..].
  cbn [mbind outcome_bind]. do 3 f_equal. generalize (hw k1).
  induction s as [|b s IH]; intros w; cbn [write_str app]; [done|]. by rewrite IH.
Qed.

(** The text a [kprintln!] shows, and that it waits for a lock that is held. *)
Definition shows (k : Kernel W) (s : str) (k' : Kernel W) : Prop :=
  console_ready k' /\ com1_locked k' = false /\ ticks k' = ticks k /\
  uart (hw k') = set_tx (uart (hw k)) (tx (uart (hw k)) ++ s).

Lemma kprintln_free s k :
  console_ready k -> com1_locked k = false ->
  exists k', kprintln prof s k = Ret k' /\ shows k (s ++ [CR; LF]) k'.
Proof.
  intros Hk Hf. rewrite kprintln_write, com1_lock_ready, Hf by done. cbn [mbind outcome_bind].
  eexists. split; [reflexivity|]. by destruct (console_write (s ++ [CR; LF]) k Hk) as [Hr Hu].
Qed.

Lemma kprintln_held s k :
  console_ready k -> com1_locked k = true -> kprintln prof s k = Hang.
Proof. intros Hk Hf. by rewrite kprintln_write, com1_lock_ready, Hf. Qed.

(** Printing leaves the flags of the processor alone. *)
Lemma com1_lock_flags k serial k' : com1_lock prof k = Ret (serial, k') -> interrupts_on k' = interrupts_on k.
Proof.
  intros E. unfold com1_lock in E. destruct (com1_port k) as [p|].
  - cbn [mbind outcome_bind] in E. destruct (com1_locked k); [done|]. by injection E as _ <-.
  - destruct (com1 prof (hw k)) as [[[p|] w]| | |]; try discriminate. cbn in E.
    destruct (com1_locked k); [done|]. by injection E as _ <-.
Qed.

Lemma kprintln_flags s k k' : kprintln prof s k = Ret k' -> interrupts_on k' = interrupts_on k.
Proof.
  rewrite kprintln_write. intros Hr. destruct (com1_lock prof k) as [[serial k1]| | |] eqn:E; try discriminate.
  injection Hr as <-. by apply com1_lock_flags in E.
Qed.

(** *** Interrupts while the lock is held *)

(** A timer interrupt counts, and leaves the console as it is. *)
Definition ticked (k k' : Kernel W) (n : Z) : Prop :=
  com1_port k' = com1_port k /\ com1_locked k' = com1_locked k /\
  lapic_ready k' = lapic_ready k /\ uart (hw k') = uart (hw k) /\
  ticks k' = (ticks k + n) mod 2 ^ 64.

Lemma timer_handler_ticks k :
  lapic_ready k = true ->
  exists k', timer_handler k = Ret (Running k') /\ ticked k k' 1.
Proof.
  intros Hr. eexists. split; [reflexivity|]. unfold ticked, ack_lapic, lapic_force. cbn.
  by rewrite Hr, lapic_eoi_uart.
Qed.

Abbreviation IDT' := (IDT prof fmt_fault cr2 panic_info) (only parsing).
Abbreviation interrupts' := (interrupts prof fmt_fault cr2 panic_info) (only parsing).
Abbreviation interleave' := (interleave prof fmt_fault cr2 panic_info) (only parsing).

Lemma ticked_ready k k' n : ticked k k' n -> console_ready k -> console_ready k'.
Proof. intros (Hp & _ & Hr & Hu & _) Hk. unfold console_ready. by rewrite Hp, Hr, Hu. Qed.

Lemma ticked_trans k1 k2 k3 n m : ticked k1 k2 n -> ticked k2 k3 m -> ticked k1 k3 (n + m).
Proof.
  intros (Hp & Hl & Hr & Hu & Ht) (Hp' & Hl' & Hr' & Hu' & Ht'). unfold ticked.
  rewrite Hp', Hl', Hr', Hu', Ht', Ht. split_and!; try done.
  rewrite Zplus_mod_idemp_l. f_equal. lia.
Qed.

Definition device_vector (v : Z) : Prop := v = IRQ0 \/ v = IRQ0 + IRQ_COM1.

Lemma interrupts_held fuel vs k :
  console_ready k -> com1_locked k = true -> 0 <= ticks k < 2 ^ 64 ->
  Forall device_vector vs ->
  if decide (IRQ0 + IRQ_COM1 ∈ vs) then interrupts' fuel vs k = Hang
  else exists k', interrupts' fuel vs k = Ret (Running k') /\ ticked k k' (Z.of_nat (length vs)).
Proof.
  intros Hk Hl Ht Hvs. revert k Hk Hl Ht. induction Hvs as [|v vs Hv _ IH]; intros k Hk Hl Ht.
  - rewrite decide_False by apply not_elem_of_nil. exists k. split; [done|]. unfold ticked.
    rewrite Z.add_0_r, Z.mod_small by done. done.
  - cbn [interrupts]. destruct Hv as [-> | ->].
    + change (IDT' fuel IRQ0 None k) with (timer_handler k).
      destruct (timer_handler_ticks k) as (k1 & -> & Hk1); [apply Hk|]. cbn [mbind outcome_bind].
      specialize (IH k1 (ticked_ready _ _ _ Hk1 Hk)).
      pose proof Hk1 as (_ & Hl1 & _ & _ & Ht1). rewrite Hl1, Ht1 in IH.
      specialize (IH Hl ltac:(apply Z.mod_pos_bound; lia)).
      destruct (decide (IRQ0 + IRQ_COM1 ∈ vs)) as [Hin|Hin].
      * rewrite decide_True by (apply elem_of_cons; auto). done.
      * rewrite decide_False by (intros [|]%elem_of_cons; done).
        destruct IH as (k2 & Hk2 & Ht2). exists k2. split; [done|].
        replace (Z.of_nat (length (IRQ0 :: vs))) with (1 + Z.of_nat (length vs)) by (cbn [length]; lia).
        by apply (ticked_trans k k1 k2).
    + rewrite decide_True by (apply elem_of_cons; auto).
      change (IDT' fuel (IRQ0 + IRQ_COM1) None k) with (com1_handler prof fuel k).
      unfold com1_handler. by rewrite com1_lock_ready, Hl.
Qed.

(** The bytes and the release of the lock, under interrupts of the devices. *)
Lemma interleave_held fuel l sched k :
  console_ready k -> com1_locked k = true -> 0 <= ticks k < 2 ^ 64 ->
  (length sched <= S (length l))%nat -> Forall device_vector (mjoin sched) ->
  if decide (IRQ0 + IRQ_COM1 ∈ mjoin sched) then
    interleave' fuel sched (map PutByte l ++ [DropLock]) k = Hang
  else exists k', interleave' fuel sched (map PutByte l ++ [DropLock]) k = Ret (Running k') /\
    console_ready k' /\ com1_locked k' = false /\
    uart (hw k') = set_tx (uart (hw k)) (tx (uart (hw k)) ++ l) /\
    ticks k' = (ticks k + Z.of_nat (length (mjoin sched))) mod 2 ^ 64.
Proof.
  revert sched k. induction l as [|b l IH]; intros sched k Hk Hl Ht Hs Hv;
    set (vs := default [] (head sched));
    assert (mjoin sched = vs ++ mjoin (tail sched)) as Hj by (by destruct sched);
    rewrite Hj in Hv |- *; apply Forall_app in Hv as [Hv Hv'];
    pose proof (interrupts_held fuel vs k Hk Hl Ht Hv) as Hi; cbn [map app interleave]; fold vs.
  - assert (mjoin (tail sched) = []) as -> by (destruct sched as [|? [|]]; [done|done|cbn in Hs; lia]).
    rewrite app_nil_r. destruct (decide _); [by rewrite Hi|].
    destruct Hi as (k1 & -> & Hk1). eexists. split; [reflexivity|].
    pose proof (ticked_ready _ _ _ Hk1 Hk) as Hr1. destruct Hk1 as (_ & _ & _ & Hu & Ht1). cbn.
    rewrite app_nil_r, Ht1, Hu. split_and!; try done. by destruct (uart (hw k)).
  - destruct (decide (IRQ0 + IRQ_COM1 ∈ vs)).
    { rewrite decide_True by (apply elem_of_app; auto). by rewrite Hi. }
    destruct Hi as (k1 & -> & Hk1). cbn [mbind outcome_bind print_step_run].
    pose proof (ticked_ready _ _ _ Hk1 Hk) as Hr1. destruct Hk1 as (_ & Hl1 & _ & Hu & Ht1).
    rewrite (proj1 Hr1). cbn [mbind outcome_bind unwrap].
    destruct (console_write [b] k1 Hr1) as [Hk2 Hu2]. cbn [write_str] in Hk2, Hu2.
    specialize (IH (tail sched) _ Hk2). cbn [com1_locked ticks set_hw] in IH.
    rewrite Hl1, Ht1, Hu2, Hu in IH. specialize (IH Hl ltac:(apply Z.mod_pos_bound; lia)
      ltac:(destruct sched; cbn in *; lia) Hv').
    destruct (decide (IRQ0 + IRQ_COM1 ∈ mjoin (tail sched))).
    { rewrite decide_True by (apply elem_of_app; auto). by rewrite IH. }
    rewrite decide_False by (rewrite elem_of_app; tauto).
    destruct IH as (k2 & -> & Hk3 & Hf & Hu3 & Ht3). exists k2. split_and!; try done.
    + rewrite Hu3. cbn. by rewrite <- app_assoc.
    + rewrite Ht3, Zplus_mod_idemp_l, length_app. f_equal. lia.
Qed.

(** *** Lines one after the other *)

(** Timer interrupts are counted whoever holds the lock. *)
Lemma interrupts_timers fuel vs k :
  lapic_ready k = true -> 0 <= ticks k < 2 ^ 64 -> Forall (eq IRQ0) vs ->
  exists k', interrupts' fuel vs k = Ret (Running k') /\ ticked k k' (Z.of_nat (length vs)).
Proof.
  intros Hr Ht Hvs. revert k Hr Ht. induction Hvs as [|v vs <- _ IH]; intros k Hr Ht.
  - exists k. split; [done|]. unfold ticked. by rewrite Z.add_0_r, Z.mod_small.
  - cbn [interrupts]. change (IDT' fuel IRQ0 None k) with (timer_handler k).
    destruct (timer_handler_ticks k Hr) as (k1 & -> & Hk1). cbn [mbind outcome_bind].
    pose proof Hk1 as (_ & _ & Hr1 & _ & Ht1).
    destruct (IH k1) as (k2 & Hk2 & Ht2); [by rewrite Hr1|rewrite Ht1; apply Z.mod_pos_bound; lia|].
    exists k2. split; [done|].
    replace (Z.of_nat (length (IRQ0 :: vs))) with (1 + Z.of_nat (length vs)) by (cbn [length]; lia).
    by apply (ticked_trans k k1 k2).
Qed.

(** A line, with timer interrupts before it takes the lock. *)
Lemma interleave_line fuel s vs sched k :
  console_ready k -> com1_locked k = false -> 0 <= ticks k < 2 ^ 64 -> Forall (eq IRQ0) vs ->
  (length sched <= length s + 3)%nat -> Forall device_vector (mjoin sched) ->
  if decide (IRQ0 + IRQ_COM1 ∈ mjoin sched) then
    interleave' fuel (vs :: sched) (kprintln_steps s) k = Hang
  else exists k', interleave' fuel (vs :: sched) (kprintln_steps s) k = Ret (Running k') /\
    console_ready k' /\ com1_locked k' = false /\
    uart (hw k') = set_tx (uart (hw k)) (tx (uart (hw k)) ++ s ++ [CR; LF]) /\
    ticks k' = (ticks k + Z.of_nat (length (vs ++ mjoin sched))) mod 2 ^ 64.
Proof.
  intros Hk Hf Ht Hvs Hs Hv. unfold kprintln_steps. cbn [interleave head tail from_option id].
  destruct (interrupts_timers fuel vs k) as (k1 & -> & Hk1); [apply Hk|done..|].
  pose proof (ticked_ready _ _ _ Hk1 Hk) as Hr1. pose proof Hk1 as (_ & Hl1 & _ & Hu1 & Ht1).
  cbn [mbind outcome_bind print_step_run]. rewrite com1_lock_ready, Hl1, Hf by done.
  cbn [mbind outcome_bind].
  pose proof (interleave_held fuel (s ++ [CR; LF]) sched (set_locked k1 true) Hr1 eq_refl) as Hi.
  cbn [hw ticks set_locked] in Hi. rewrite length_app, Ht1, Hu1 in Hi.
  specialize (Hi ltac:(apply Z.mod_pos_bound; lia) ltac:(cbn; lia) Hv).
  destruct (decide _); [done|]. destruct Hi as (k' & -> & Hk' & Hl & Hu & Ht').
  exists k'. split_and!; try done. rewrite Ht', Zplus_mod_idemp_l, length_app. f_equal. lia.
Qed.

Lemma interleave_app fuel sched s1 s2 k :
  interleave' fuel sched (s1 ++ s2) k =
  (p ← interleave' fuel (take (length s1) sched) s1 k;
   match p with
   | Running k => interleave' fuel (drop (length s1) sched) s2 k
   | Halted k => Ret (Halted k)
   end).
Proof.
  revert sched k. induction s1 as [|st s1 IH]; intros sched k; [done|].
  cbn [app interleave length].
  replace (default [] (head (take (S (length s1)) sched))) with (default [] (head sched)) by by destruct sched.
  destruct (interrupts' fuel _ k) as [[k1|k1]| | |]; try done. cbn [mbind outcome_bind].
  destruct (print_step_run _ _ st k1) as [[k2|k2]| | |]; try done. cbn [mbind outcome_bind].
  rewrite IH. by destruct sched; cbn [take drop tail]; rewrite ?take_nil, ?drop_nil.
Qed.

(** The steps of a program that prints lines. *)
Definition lines_steps (lines : list str) : list print_step := mjoin (map kprintln_steps lines).
Definition line (s : str) : str := s ++ [CR; LF].

(** What a program that was only interrupted by the timer printed. *)
Definition has_printed (sched : list (list Z)) (text : str) (k k' : Kernel W) : Prop :=
  console_ready k' /\ com1_locked k' = false /\
  uart (hw k') = set_tx (uart (hw k)) (tx (uart (hw k)) ++ text) /\
  ticks k' = (ticks k + Z.of_nat (length (mjoin sched))) mod 2 ^ 64.

Lemma interleave_line_timers fuel s sched k :
  console_ready k -> com1_locked k = false -> 0 <= ticks k < 2 ^ 64 ->
  (length sched <= length (kprintln_steps s))%nat -> Forall (eq IRQ0) (mjoin sched) ->
  exists k', interleave' fuel sched (kprintln_steps s) k = Ret (Running k') /\
    has_printed sched (line s) k k'.
Proof.
  intros Hk Hl Ht Hlen Hv.
  assert (Forall (eq IRQ0) (default [] (head sched)) /\ Forall (eq IRQ0) (mjoin (tail sched))) as [Hh Htl].
  { destruct sched as [|v l]; [by split; constructor|]. by apply Forall_app in Hv. }
  assert (length (tail sched) <= length s + 3)%nat as Hn.
  { unfold kprintln_steps in Hlen. cbn [length] in Hlen. rewrite length_app, length_map, length_app in Hlen.
    destruct sched; cbn in *; lia. }
  pose proof (interleave_line fuel s (default [] (head sched)) (tail sched) k Hk Hl Ht Hh Hn) as Hi.
  rewrite decide_False in Hi by (intros Hin; rewrite list.Forall_forall in Htl; by apply Htl in Hin).
  destruct Hi as (k1 & Hr1 & ? & ? & ? & Ht1).
  { eapply Forall_impl; [exact Htl|]. intros ? <-. by left. }
  exists k1. split; [rewrite <- Hr1; by destruct sched|].
  split_and!; try done. rewrite Ht1. by destruct sched.
Qed.

Lemma interleave_lines fuel lines sched k :
  console_ready k -> com1_locked k = false -> 0 <= ticks k < 2 ^ 64 ->
  (length sched <= length (lines_steps lines))%nat -> Forall (eq IRQ0) (mjoin sched) ->
  exists k', interleave' fuel sched (lines_steps lines) k = Ret (Running k') /\
    has_printed sched (mjoin (map line lines)) k k'.
Proof.
  revert sched k. induction lines as [|s lines IH]; intros sched k Hk Hl Ht Hlen Hv.
  { exists k. assert (sched = []) as -> by (destruct sched; [done|cbn in Hlen; lia]).
    split; [done|]. unfold has_printed. cbn. rewrite app_nil_r, Z.add_0_r, Z.mod_small by done.
    split_and!; try done. by destruct (uart (hw k)). }
  change (lines_steps (s :: lines)) with (kprintln_steps s ++ lines_steps lines) in *.
  rewrite interleave_app. set (n := length (kprintln_steps s)) in *.
  assert (mjoin sched = mjoin (take n sched) ++ mjoin (drop n sched)) as Hj.
  { rewrite <- join_app. by rewrite take_drop. }
  rewrite Hj in Hv. apply Forall_app in Hv as [Hv1 Hv2].
  destruct (interleave_line_timers fuel s (take n sched) k) as (k1 & -> & Hk1 & Hl1 & Hu1 & Ht1); try done.
  { fold n. rewrite length_take. lia. }
  cbn [mbind outcome_bind].
  destruct (IH (drop n sched) k1) as (k' & -> & Hk' & Hl' & Hu' & Ht'); try done.
  { rewrite Ht1. apply Z.mod_pos_bound. lia. }
  { rewrite length_app in Hlen. fold n in Hlen. rewrite length_drop. lia. }
  exists k'. split; [done|]. split_and!; try done.
  - rewrite Hu', Hu1. cbn [tx set_tx map mjoin list_join]. by rewrite <- app_assoc.
  - rewrite Ht', Ht1, Zplus_mod_idemp_l, Hj, length_app. f_equal. lia.
Qed.

(** As soon as the serial port interrupts a line, the program hangs. *)
Lemma interleave_lines_serial fuel pre s post sched1 vs sched sched2 k :
  console_ready k -> com1_locked k = false -> 0 <= ticks k < 2 ^ 64 ->
  length sched1 = length (lines_steps pre) -> Forall (eq IRQ0) (mjoin sched1) -> Forall (eq IRQ0) vs ->
  (length sched = length s + 3)%nat -> Forall device_vector (mjoin sched) ->
  IRQ0 + IRQ_COM1 ∈ mjoin sched ->
  interleave' fuel (sched1 ++ (vs :: sched) ++ sched2) (lines_steps (pre ++ s :: post)) k = Hang.
Proof.
  intros Hk Hl Ht Hlen Hv1 Hvs Hs Hv Hin.
  replace (lines_steps (pre ++ s :: post)) with (lines_steps pre ++ kprintln_steps s ++ lines_steps post).
  2:{ unfold lines_steps. rewrite map_app, join_app. done. }
  rewrite interleave_app, <- Hlen, take_app_length, drop_app_length.
  destruct (interleave_lines fuel pre sched1 k) as (k1 & -> & Hk1 & Hl1 & _ & Ht1); try (done || lia).
  cbn [mbind outcome_bind]. rewrite interleave_app.
  assert (length (kprintln_steps s) = length (vs :: sched)) as ->.
  { unfold kprintln_steps. cbn [length]. rewrite length_app, length_map, length_app. cbn. lia. }
  rewrite take_app_length.
  pose proof (interleave_line fuel s vs sched k1 Hk1 Hl1) as Hi. rewrite decide_True in Hi by done.
  rewrite Hi; [done|rewrite Ht1; apply Z.mod_pos_bound; lia|done|lia|done].
Qed.

(** Whoever goes on has the flags of the processor he had. *)
Lemma panic_not_running info k k' : panic_handler prof info k = Ret (Running k') -> False.
Proof.
  unfold panic_handler. cbv zeta. intros Hr. destruct (kprintln prof _ _) as [k1| | |]; try discriminate.
  cbn [mbind outcome_bind] in Hr. by destruct (kprintln prof info k1).
Qed.

Lemma print_step_flags st k k' :
  print_step_run prof panic_info st k = Ret (Running k') -> interrupts_on k' = interrupts_on k.
Proof.
  destruct st; cbn [print_step_run]; intros Hr.
  - destruct (com1_lock prof k) as [[serial k1]| | |] eqn:E; try discriminate. injection Hr as <-.
    by apply com1_lock_flags in E.
  - destruct (com1_port k); [|discriminate]. by injection Hr as <-.
  - by injection Hr as <-.
  - by apply panic_not_running in Hr.
Qed.

Lemma IDT_flags fuel v e k k' : IDT' fuel v e k = Ret (Running k') -> interrupts_on k' = interrupts_on k.
Proof.
  unfold IDT. intros Hr. destruct (v =? IRQ0); [by injection Hr as <-|].
  destruct (v =? IRQ0 + IRQ_COM1).
  { unfold com1_handler in Hr. destruct (com1_lock prof k) as [[serial k1]| | |] eqn:E; try discriminate.
    cbn [mbind outcome_bind] in Hr. destruct (handle_interrupt prof fuel serial (hw k1)); try discriminate.
    injection Hr as <-. by apply com1_lock_flags in E. }
  unfold page_fault_handler, general_handler in Hr.
  destruct (v =? 14); repeat (destruct (kprintln prof _ _); [|discriminate..]; cbn [mbind outcome_bind] in Hr);
    by apply panic_not_running in Hr.
Qed.

Lemma interrupts_flags fuel vs k k' :
  interrupts' fuel vs k = Ret (Running k') -> interrupts_on k' = interrupts_on k.
Proof.
  revert k. induction vs as [|v vs IH]; intros k Hr; cbn [interrupts] in Hr; [by injection Hr as <-|].
  destruct (IDT' fuel v None k) as [[k1|k1]| | |] eqn:E; try discriminate. cbn [mbind outcome_bind] in Hr.
  rewrite (IH _ Hr). by apply IDT_flags in E.
Qed.

Lemma interleave_flags fuel sched steps k k' :
  interleave' fuel sched steps k = Ret (Running k') -> interrupts_on k' = interrupts_on k.
Proof.
  revert sched k. induction steps as [|st steps IH]; intros sched k Hr; cbn [interleave] in Hr;
    [by injection Hr as <-|].
  destruct (interrupts' fuel _ k) as [[k1|k1]| | |] eqn:E1; try discriminate. cbn [mbind outcome_bind] in Hr.
  destruct (print_step_run prof panic_info st k1) as [[k2|k2]| | |] eqn:E2; try discriminate.
  cbn [mbind outcome_bind] in Hr. rewrite (IH _ _ Hr), (print_step_flags _ _ _ E2).
  by apply interrupts_flags in E1.
Qed.
End lemmas.

Section device_lemmas.
Context {W : Type} `{Ports W} `{Lapic W} `{IoApic W} `{!UartLaws W COM1_PORT} `{!MachineLaws W}.
Context (prof : profile).

Lemma get_count_uart w : uart (get_count PIT0 w).2 = uart w.
Proof.
  unfold get_count. cbn [ch PIT0 pit_new channel_port].
  pose proof (other_in w 0x40) as Hlo. destruct (read_from_port w 0x40) as [lo w1].
  pose proof (other_in w1 0x40) as Hhi. destruct (read_from_port w1 0x40) as [hi w2].
  cbn in *. by rewrite Hhi, Hlo by (unfold COM1_PORT; lia).
Qed.

Lemma polls_uart n w w' : polls n w = Some w' -> uart w' = uart w.
Proof.
  revert w. induction n as [|n IH]; intros w Hp; cbn [polls] in Hp;
    pose proof (get_count_uart w) as Hu; destruct (get_count PIT0 w) as [c w1]; cbn in Hu;
    destruct (c =? 0); try done.
  - by injection Hp as ->.
  - by rewrite (IH _ Hp).
Qed.

Lemma lapic_force_uart ready w : uart (lapic_force ready w) = uart w.
Proof.
  destruct ready; [done|]. unfold lapic_force, disable_8259.
  by rewrite !other_out by (unfold COM1_PORT; lia).
Qed.

(** The clocks are set without touching the console. *)
Lemma timer_armed_uart ready w : uart (timer_armed ready w) = uart w.
Proof.
  unfold timer_armed. cbv zeta. rewrite lapic_write_uart.
  by rewrite !other_out, lapic_write_uart, lapic_force_uart by (unfold COM1_PORT; lia).
Qed.

Lemma timer_running_uart w rate : uart (timer_running w rate) = uart w.
Proof. unfold timer_running. cbv zeta. by rewrite !lapic_write_uart. Qed.

Lemma start_timer_uart `{!LapicTimerLaws W} n fuel ready w w3 :
  polls n (timer_armed ready w) = Some w3 -> (n < fuel)%nat ->
  ticks_counted (timer_armed ready w) w3 <= 42949672 ->
  exists w', start_timer prof fuel ready w = Ret w' /\ uart w' = uart w.
Proof.
  intros Hp Hf Ht. destruct (start_timer_polled prof n fuel ready w w3 Hp Hf) as [Hr _].
  rewrite Hr by done. eexists. split; [reflexivity|].
  by rewrite timer_running_uart, lapic_read_uart, lapic_write_uart, (polls_uart _ _ _ Hp), timer_armed_uart.
Qed.

(** Enabling interrupts of a port that has received nothing. *)
Lemma enable_receiver_uart w :
  dlab (uart w) = false -> rx (uart w) = [] ->
  exists w', enable_receiver prof (mkSerial COM1_PORT) w = Ret w' /\
    uart w' = uart_write (uart w) 1 0x01.
Proof.
  intros Hd Hq. unfold enable_receiver, inp. cbn [port].
  destruct (out_reg COM1_PORT prof w 1 1 ltac:(lia)) as (w1 & -> & Hw1).
  rewrite !arith_ok by (unfold COM1_PORT; lia). cbn [mbind outcome_bind].
  pose proof (uart_in_iir w1) as Hi. destruct (read_from_port w1 _) as [v w2]. cbn in Hi.
  rewrite Z.add_0_r. pose proof (uart_in_empty w2) as He. rewrite Hi, Hw1 in He. cbn [uart_write] in *.
  rewrite Hd in He, Hw1 |- *. specialize (He Hd Hq).
  destruct (read_from_port w2 _) as [v' w3]. cbn in He.
  exists w3. split; [done|]. exact He.
Qed.
End device_lemmas.

(** ** Properties *)

Section properties.
Context {W : Type} `{Ports W} `{Lapic W} `{IoApic W} `{!UartLaws W COM1_PORT} `{!MachineLaws W}.
Context (prof : profile) (fmt_fault : Z -> str) (cr2 : W -> Z) (panic_info : str -> str).

(** C14: a line printed while the devices interrupt it.  Timer interrupts between
    any of its steps are all counted and the line comes out whole; but as soon
    as one interrupt of the serial port is among them, the handler waits for the
    lock that the interrupted [kprintln!] holds and the kernel hangs. *)
Theorem kprintln_interrupted fuel s sched k :
  console_ready k -> com1_locked k = false -> 0 <= ticks k < 2 ^ 64 ->
  (length sched <= length s + 3)%nat -> Forall device_vector (mjoin sched) ->
  let r := interleave prof fmt_fault cr2 panic_info fuel ([] :: sched) (kprintln_steps s) k in
  (IRQ0 + IRQ_COM1 ∉ mjoin sched -> exists k', r = Ret (Running k') /\
     console_ready k' /\ com1_locked k' = false /\
     tx (uart (hw k')) = tx (uart (hw k)) ++ s ++ [CR; LF] /\
     ticks k' = (ticks k + Z.of_nat (length (mjoin sched))) mod 2 ^ 64) /\
  (IRQ0 + IRQ_COM1 ∈ mjoin sched -> r = Hang).
Proof.
  intros Hk Hf Ht Hs Hv. cbn zeta. unfold kprintln_steps. cbn [interleave interrupts head tail from_option id].
  cbn [mbind outcome_bind print_step_run]. rewrite com1_lock_ready, Hf by done.
  cbn [mbind outcome_bind].
  pose proof (interleave_held prof fmt_fault cr2 panic_info fuel (s ++ [CR; LF]) sched
    (set_locked k true) Hk eq_refl Ht) as Hi.
  rewrite length_app in Hi. specialize (Hi ltac:(cbn; lia) Hv). cbn [hw ticks set_locked] in Hi.
  destruct (decide _) as [Hin|Hin]; (split; intros Hc; [|try done]); try done.
  destruct Hi as (k' & -> & Hk' & Hl & Hu & Ht'). exists k'. split_and!; try done.
  by rewrite Hu.
Qed.

(** C39: the panic handler reports on the console and halts with interrupts
    disabled, unless the console was locked when the kernel panicked: then it waits
    for ever and reports nothing. *)
Theorem panic_reports info k :
  console_ready k ->
  (com1_locked k = false -> exists k', panic_handler prof info k = Ret (Halted k') /\
     tx (uart (hw k')) = tx (uart (hw k)) ++ lit "KERNEL PANIC:" ++ [CR; LF] ++ info ++ [CR; LF] /\
     interrupts_on k' = false) /\
  (com1_locked k = true -> panic_handler prof info k = Hang).
Proof.
  intros Hk. unfold panic_handler. cbv zeta. set (k0 := set_interrupts k false).
  assert (console_ready k0) as Hk0 by done.
  split; intros Hl; [|by rewrite kprintln_held].
  destruct (kprintln_free prof (lit "KERNEL PANIC:") k0 Hk0 Hl) as (k1 & E1 & Hk1 & Hl1 & _ & Hu1).
  rewrite E1. cbn [mbind outcome_bind].
  destruct (kprintln_free prof info k1 Hk1 Hl1) as (k2 & E2 & Hk2 & Hl2 & _ & Hu2). rewrite E2.
  eexists. split; [reflexivity|]. rewrite Hu2, Hu1. cbn [tx set_tx].
  rewrite (kprintln_flags _ _ _ _ E2), (kprintln_flags _ _ _ _ E1). by rewrite <- !app_assoc.
Qed.
End properties.

(** ** A machine as documented *)

Definition machine : Type := Uart * sim.
Definition is_com1 (p : Z) : bool := (COM1_PORT <=? p) && (p <=? COM1_PORT + 7).

#[export] Instance machine_ports : Ports machine := {|
  read_from_port w p :=
    if is_com1 p then let '(v, u) := read_from_port w.1 p in (v, (u, w.2))
    else let '(v, t) := read_from_port w.2 p in (v, (w.1, t));
  write_to_port w p v :=
    if is_com1 p then (write_to_port w.1 p v, w.2) else (w.1, write_to_port w.2 p v)
|}.
#[export] Instance machine_lapic : Lapic machine := {|
  lapic_write w r v := (w.1, lapic_write w.2 r v);
  lapic_read w r := let '(v, t) := lapic_read w.2 r in (v, (w.1, t));
  lapic_eoi w := w;
  lapic_attach w := w;
  rdtsc w := (0, w)
|}.
#[export] Instance machine_ioapic : IoApic machine := {|
  ioapic_enable w _ _ _ := w;
  ioapic_disable_all w _ := w
|}.
#[export, refine] Instance machine_uart : UartLaws machine COM1_PORT := {| uart w := w.1 |}.
Proof.
  - done.
  - intros w r v Hr. unfold write_to_port, machine_ports, is_com1.
    replace (_ && _) with true by lia. exact (@uart_out Uart _ COM1_PORT uart_model w.1 r v Hr).
  - intros w b q Hd Hq. destruct (@uart_in_data Uart _ COM1_PORT uart_model w.1 b q Hd Hq) as (u & Hu & Hs).
    exists (u, w.2). split; [|done]. unfold read_from_port, machine_ports.
    change (is_com1 COM1_PORT) with true. cbn iota. by rewrite Hu.
  - intros w Hd Hq. pose proof (@uart_in_empty Uart _ COM1_PORT uart_model w.1 Hd Hq) as Hu.
    unfold read_from_port, machine_ports. change (is_com1 COM1_PORT) with true. cbn iota.
    by destruct (read_from_port w.1 COM1_PORT).
  - done.
  - intros w. destruct (@uart_in_status Uart _ COM1_PORT uart_model w.1) as (v & u & Hu & Hv & Hs).
    exists v, (u, w.2). split; [|done]. unfold read_from_port, machine_ports.
    change (is_com1 (COM1_PORT + 5)) with true. cbn iota. by rewrite Hu.
Defined.
#[export, refine] Instance machine_timer : LapicTimerLaws machine :=
  {| bus_clock w := s_clock w.2; divide_conf w := s_conf w.2; count_start w := s_count w.2 |}.
Proof.
  - intros w p. cbn -[read_from_port]. pose proof (@clock_in sim _ _ sim_laws w.2 p) as Hc.
    unfold read_from_port, machine_ports. destruct (is_com1 p); [by destruct (read_from_port w.1 p)|].
    by destruct (read_from_port w.2 p).
  - intros w p v. unfold write_to_port, machine_ports. destruct (is_com1 p); [done|].
    exact (@clock_out sim _ _ sim_laws w.2 p v).
  - intros w r v. exact (@clock_lapic sim _ _ sim_laws w.2 r v).
  - intros w p. pose proof (@timer_in sim _ _ sim_laws w.2 p) as Hc.
    unfold read_from_port, machine_ports. destruct (is_com1 p); [by destruct (read_from_port w.1 p)|].
    by destruct (read_from_port w.2 p).
  - intros w p v. unfold write_to_port, machine_ports. destruct (is_com1 p); [done|].
    exact (@timer_out sim _ _ sim_laws w.2 p v).
  - done.
  - done.
  - done.
  - intros w c t. exact (@timer_current sim _ _ sim_laws w.2 c t).
Defined.
#[export] Instance machine_laws : MachineLaws machine.
Proof.
  split; try done.
  - intros w p v Hp. cbn. unfold is_com1. by replace (_ && _) with false by lia.
  - intros w p Hp. unfold read_from_port, machine_ports, is_com1. replace (_ && _) with false by lia.
    by destruct (read_from_port w.2 p).
Qed.

Definition machine_reset : Kernel machine :=
  mkKernel (uart_reset, sim_start 97) None false 0 false false false.
Definition machine_up : Kernel machine :=
  mkKernel (mkUart 3 0 1 3 0x0F [] [], sim_start 97) (Some (mkSerial COM1_PORT)) false 7 true true true.
Definition no_fault (_ : Z) : str := [].
Definition no_cr2 (_ : machine) : Z := 0.

Lemma kprintln_interrupted_witness :
  let r sched := interleave Debug no_fault no_cr2 id 1 ([] :: sched) (kprintln_steps (lit "ok"))
                   machine_up in
  (IRQ0 + IRQ_COM1 ∉ mjoin [[0x20]; []; [0x20; 0x20]] -> exists k',
     r [[0x20]; []; [0x20; 0x20]] = Ret (Running k') /\
     console_ready k' /\ com1_locked k' = false /\
     tx (uart (hw k')) = [] ++ lit "ok" ++ [CR; LF] /\ ticks k' = 10) /\
  (IRQ0 + IRQ_COM1 ∈ mjoin [[0x20]; []; [0x24]] -> r [[0x20]; []; [0x24]] = Hang).
Proof.
  split.
  - refine (proj1 (kprintln_interrupted Debug no_fault no_cr2 id 1 (lit "ok")
      [[0x20]; []; [0x20; 0x20]] machine_up _ _ _ _ _));
      [done|done|cbn; lia|cbn; lia|repeat (constructor; [by left|]); constructor].
  - refine (proj2 (kprintln_interrupted Debug no_fault no_cr2 id 1 (lit "ok")
      [[0x20]; []; [0x24]] machine_up _ _ _ _ _));
      [done|done|cbn; lia|cbn; lia|repeat (constructor; [by left + by right|]); constructor].
Defined.

Lemma panic_reports_witness :
  (com1_locked machine_up = false -> exists k',
     panic_handler Debug (lit "oops") machine_up = Ret (Halted k') /\
     tx (uart (hw k')) = [] ++ lit "KERNEL PANIC:" ++ [CR; LF] ++ lit "oops" ++ [CR; LF] /\
     interrupts_on k' = false) /\
  (com1_locked machine_up = true -> panic_handler Debug (lit "oops") machine_up = Hang).
Proof. by refine (panic_reports Debug (lit "oops") machine_up _). Defined.
