(* ===== verification/Boot.v ===== *)
(** * main.rs, acpi.rs and apic.rs: from the entry point to the idle loop

    [kmain] sets the memory up ([Kpage]) and then the devices, enables interrupts,
    reports what the boot loader told it on the console ([Trap]), and idles.  The I/O
    APIC is looked for on first use, in the ACPI tables: they are read by the [acpi]
    crate, a parameter, through the handler of acpi.rs, which needs the page table. *)

From Stdlib Require Import ZArith Lia ZifyBool.
From stdpp Require Import base list numbers strings.
From S2P Require Import Prelude Layout Frame Kpage Serial Timer Trap.

Local Open Scope Z_scope.

(** ** acpi.rs *)

(** [PhysicalMapping]: where a physical region is seen. *)
Record PhysicalMapping := mkMapping {
  pm_physical_start : Z;
  pm_virtual_start : Z;
  pm_region_length : Z;
  pm_mapped_length : Z
}.

(** [InterruptModel] of the platform, with the addresses of the I/O APICs. *)
Inductive InterruptModel := ModelUnknown | ModelApic (io_apics : list Z).

(** What the crate is asked for, with the handler that maps physical regions. *)
Class AcpiCrate (T E : Type) := {
  search_for_on_bios : (Z -> Z -> outcome PhysicalMapping) -> outcome (result Z E);
  from_rsdp : (Z -> Z -> outcome PhysicalMapping) -> Z -> outcome (result T E);
  platform_info : T -> outcome (result InterruptModel E)
}.

Section acpi.
Context `{X86Addr} {PT T E : Type} `{AcpiCrate T E} (phys_offset : PT -> Z).

(** [ACPIHandler::map_physical_region]. *)
Definition map_physical_region (m : Memory PT) (physical_address size : Z)
    : outcome PhysicalMapping :=
  pt ← unwrap (PAGE_TABLE m);
  virt_addr ← va_add (phys_offset pt) physical_address;
  Ret (mkMapping physical_address virt_addr size size).

(** [get_acpi]; [rsdp] is the static [RDSP_ADDRESS], which only keeps what a
    search has found. *)
Definition get_acpi (m : Memory PT) (rsdp : option Z)
    : outcome (result T E * option Z) :=
  found ← match rsdp with
          | Some a => Ret (Ok a)
          | None => search_for_on_bios (map_physical_region m)
          end;
  match found with
  | Err e => Ret (Err e, rsdp)
  | Ok a => r ← from_rsdp (map_physical_region m) a; Ret (r, Some a)
  end.

(** The static [IOAPIC] of apic.rs: the address its registers are seen at. *)
Definition ioapic_init (m : Memory PT) (rsdp : option Z) : outcome (Z * option Z) :=
  '(acpi, rsdp) ← get_acpi m rsdp;
  acpi ← unwrap_ok acpi;
  platform ← platform_info acpi;
  platform ← unwrap_ok platform;
  match platform with
  | ModelUnknown => Panic
  | ModelApic io_apics =>
      phys_addr ← index io_apics 0;
      virt_addr ← va_add PHYSICAL_MEM_START phys_addr;
      Ret (virt_addr, rsdp)
  end.
End acpi.

(** ** main.rs *)

(** [BootInfo], as far as the kernel reads it. *)
Record BootInfo := mkBootInfo {
  memory_regions : list MemoryRegion;
  physical_memory_offset : option Z
}.

(** The configuration of the boot loader, as far as the kernel sets it. *)
Inductive Mapping := Dynamic | FixedAddress (addr : Z).
Record Mappings := mkMappings { physical_memory : option Mapping }.
Record BootloaderConfig := mkConfig { kernel_stack_size : Z; mappings : Mappings }.

(** The defaults of the crate, and what the boot loader tells a kernel with a
    configuration on a machine with these regions. *)
Class BootLoader := {
  config_default : BootloaderConfig;
  mappings_default : Mappings;
  boot_info : BootloaderConfig -> list MemoryRegion -> BootInfo
}.

(** Physical memory that is asked for at an address is mapped there. *)
Class BootLoaderLaws `{BootLoader} := {
  boot_info_offset c regions a :
    physical_memory (mappings c) = Some (FixedAddress a) ->
    physical_memory_offset (boot_info c regions) = Some a
}.

Definition BOOT_CONFIG `{X86Addr, BootLoader} : BootloaderConfig :=
  let config := config_default in
  let config := mkConfig (64 * 1024) (mappings config) in
  let config := mkConfig (kernel_stack_size config) mappings_default in
  mkConfig (kernel_stack_size config) (mkMappings (Some (FixedAddress PHYSICAL_MEM_START))).

(** The kernel's state at boot: processor and console, the statics of memory/mod.rs,
    [IOAPIC] (the address of its registers once it was set up) and [RDSP_ADDRESS]. *)
Record System (W PT : Type) := mkSystem {
  kern : Kernel W;
  mem : Memory PT;
  IOAPIC : option Z;
  RDSP_ADDRESS : option Z
}.
Arguments mkSystem {W PT}.
Arguments kern {W PT}.
Arguments mem {W PT}.
Arguments IOAPIC {W PT}.
Arguments RDSP_ADDRESS {W PT}.

Section main.
Context `{X86Addr} {W PT T E : Type} `{Ports W} `{Lapic W} `{IoApic W} `{PageTable PT} `{AcpiCrate T E}.
Context (prof : profile) (phys_offset : PT -> Z).

(** The debug text of a [PageFaultErrorCode] and of a region's kind, the register
    CR2, the text of a [PanicInfo], the address of [kmain], and what [Cr3] and
    [OffsetPageTable::new] give. *)
Context (fmt_fault : Z -> str) (cr2 : W -> Z) (panic_info : str -> str).
Context (fmt_kind : MemoryRegion -> str) (kmain_addr : Z).
Context (cr3 : Z) (offset_page_table : Z -> Z -> PT).

Definition set_kern (s : System W PT) (k : Kernel W) : System W PT :=
  mkSystem k (mem s) (IOAPIC s) (RDSP_ADDRESS s).
Definition set_w (s : System W PT) (w : W) : System W PT := set_kern s (set_hw (kern s) w).

(** [IOAPIC.lock()]: the first use looks for it, or panics. *)
Definition ioapic_lock (s : System W PT) : outcome (Z * System W PT) :=
  match IOAPIC s with
  | Some a => Ret (a, s)
  | None =>
      '(a, rsdp) ← ioapic_init phys_offset (mem s) (RDSP_ADDRESS s);
      Ret (a, mkSystem (kern s) (mem s) (Some a) rsdp)
  end.

(** [LAPIC.lock().attach()]. *)
Definition attach_lapic (s : System W PT) : System W PT :=
  let k := kern s in
  set_kern s (mkKernel (lapic_attach (lapic_force (lapic_ready k) (hw k))) (com1_port k) (com1_locked k)
                (ticks k) true (interrupts_on k) (idt_loaded k)).

(** [Serial::enable_interrupts] on the port locked by the caller. *)
Definition enable_interrupts (serial : Serial) (s : System W PT) : outcome (System W PT) :=
  w ← enable_receiver prof serial (hw (kern s));
  '(ioapic, s) ← ioapic_lock (set_w s w);
  Ret (set_w s (ioapic_enable (hw (kern s)) ioapic IRQ_COM1 0)).

(** [memory::init] and [memory::init_frame_allocator]. *)
Definition memory_setup (info : BootInfo) (m : Memory PT) : outcome (Memory PT) :=
  m ← init cr3 offset_page_table m;
  init_frame_allocator prof cr3 offset_page_table (memory_regions info) m.

(** [kmain] up to the start of the clock, all of it with interrupts disabled. *)
Definition kmain_setup (info : BootInfo) (s : System W PT) : outcome (System W PT) :=
  let s := set_kern s (init_idt (kern s)) in
  m ← memory_setup info (mem s);
  let s := attach_lapic (mkSystem (kern s) m (IOAPIC s) (RDSP_ADDRESS s)) in
  '(ioapic, s) ← ioapic_lock s;
  let s := set_w s (ioapic_disable_all (hw (kern s)) ioapic) in
  '(serial, k) ← com1_lock prof (kern s);
  s ← enable_interrupts serial (set_kern s k);
  Ret (set_kern s (set_locked (kern s) false)).

(** [without_interrupts]: the flag is restored afterwards. *)
Definition without_interrupts (f : Kernel W -> outcome (Kernel W)) (k : Kernel W) : outcome (Kernel W) :=
  let on := interrupts_on k in
  k ← f (set_interrupts k false);
  Ret (set_interrupts k on).

(** The steps of a [kprintln!] whose argument is computed while the console is
    locked; [None] when that panics. *)
Definition kprintln_args (args : option str) : list print_step :=
  match args with
  | Some s => kprintln_steps s
  | None => [TakeLock; UnwrapNone]
  end.

Definition region_line (r : MemoryRegion) : str :=
  [9] ++ fmt_hex (r_start r) ++ lit " - " ++ fmt_hex (r_end r) ++ lit " (" ++ fmt_kind r ++ lit ")".

(** What [kmain] prints. *)
Definition report (info : BootInfo) : list print_step :=
  kprintln_steps (lit "Hello, world!") ++
  kprintln_args
    ((fun o => lit "Physical memory offset: " ++ fmt_hex o) <$> physical_memory_offset info) ++
  kprintln_steps (lit "Memory regions:") ++
  mjoin (map (fun r => kprintln_steps (region_line r)) (memory_regions info)) ++
  kprintln_steps (lit "kmain address: " ++ fmt_hex kmain_addr) ++
  kprintln_steps (lit "ALLOCATOR MEM RANGE: " ++ fmt_hex ALLOCATOR_START ++ lit " - " ++
                  fmt_hex ALLOCATOR_END) ++
  kprintln_steps (lit "No Crash!").

(** [kmain] up to its idle loop, with the interrupts [sched] before the steps of its
    prints; they are only taken while interrupts are enabled and there is a table of
    handlers.  [Panic] is a panic outside a print: the panic handler takes over. *)
Definition kmain (fuel : nat) (sched : list (list Z)) (info : BootInfo) (s : System W PT)
    : outcome (progress W * Memory PT) :=
  s ← kmain_setup info s;
  k ← without_interrupts (fun k =>
        w ← start_timer prof fuel (lapic_ready k) (hw k); Ret (set_hw k w)) (kern s);
  let k := set_interrupts k true in
  let taken := if interrupts_on k && idt_loaded k then sched else [] in
  p ← interleave prof fmt_fault cr2 panic_info fuel taken (report info) k;
  Ret (p, mem s).
End main.

(** ** Lemmas *)

Section report_lemmas.
Context `{X86Addr} (fmt_kind : MemoryRegion -> str) (kmain_addr : Z).

(** The report line by line. *)
Definition report_lines (info : BootInfo) (offset : Z) : list str :=
  [lit "Hello, world!"; lit "Physical memory offset: " ++ fmt_hex offset; lit "Memory regions:"] ++
  map (region_line fmt_kind) (memory_regions info) ++
  [lit "kmain address: " ++ fmt_hex kmain_addr;
   lit "ALLOCATOR MEM RANGE: " ++ fmt_hex ALLOCATOR_START ++ lit " - " ++ fmt_hex ALLOCATOR_END;
   lit "No Crash!"].

Lemma report_steps info offset :
  physical_memory_offset info = Some offset ->
  report fmt_kind kmain_addr info = lines_steps (report_lines info offset).
Proof.
  intros Ho. unfold report, report_lines, lines_steps. rewrite Ho, !map_app, !join_app, map_map.
  cbn [fmap option_fmap option_map kprintln_args map mjoin list_join]. by rewrite !app_nil_r, <- !app_assoc.
Qed.
End report_lemmas.

Section setup_lemmas.
Context `{X86AddrLaws} {W PT T E : Type} `{Ports W} `{Lapic W} `{IoApic W} `{!UartLaws W COM1_PORT}.
Context `{!MachineLaws W} `{PageTableLaws PT} `{AcpiCrate T E}.
Context (prof : profile) (phys_offset : PT -> Z) (cr3 : Z) (offset_page_table : Z -> Z -> PT).

(** A memory map with room for the bitmap in its first usable region, and page
    tables from the boot loader that leave that region and the bitmap's pages alone. *)
Definition memory_map_ok (rs : list MemoryRegion) (r : MemoryRegion) (more : list MemoryRegion) : Prop :=
  usable_regions rs = r :: more /\ Forall region_ok (r :: more) /\
  total_bytes (r :: more) <= 2 ^ 52 /\ 0 < total_bytes (r :: more) /\
  4 * bitmap_frames r more <= region_frames r.
Definition boot_tables_ok (r : MemoryRegion) (more : list MemoryRegion) : Prop :=
  let pt := offset_page_table (PHYSICAL_MEM_START + cr3) PHYSICAL_MEM_START in
  pt_wf pt /\ (forall g, 0 <= g < region_frames r -> ~ in_use pt (region_frame r g)) /\
  forall j, 0 <= j < bitmap_frames r more ->
    mapped pt (BITMAP_FRAME_ALLOCATOR_START + j * 4096) = None /\
    huge pt (BITMAP_FRAME_ALLOCATOR_START + j * 4096) = false.

(** The memory is set up. *)
Lemma memory_setup_spec info r more (m : Memory PT) :
  memory_map_ok (memory_regions info) r more -> 0 <= cr3 < 2 ^ 46 -> boot_tables_ok r more ->
  exists m', memory_setup prof cr3 offset_page_table info m = Ret m' /\
    is_Some (PAGE_TABLE m') /\ is_Some (FRAME_ALLOCATOR m').
Proof.
  intros (Hu & Hok & Ht & Hpos & Hroom) Hcr (Hwf & Hin & Hfree).
  unfold memory_setup, init_frame_allocator, init, active_level_4_table.
  pose proof layout_values as (_ & _ & Hps & _).
  assert (va_add PHYSICAL_MEM_START cr3 = Ret (PHYSICAL_MEM_START + cr3)) as Hva.
  { apply va_add_law; rewrite ?Hps; unfold canonical; lia. }
  rewrite Hva. cbn [mbind outcome_bind PAGE_TABLE unwrap].
  destruct (allocate_bitmap_spec prof _ r more Hu Hok Ht Hpos Hroom _ Hwf Hin Hfree)
    as (bm & pt' & alloc' & Hb & _).
  unfold bitmap_new. rewrite Hb. cbn [mbind outcome_bind]. eexists. split; [reflexivity|].
  cbn. split; by eexists.
Qed.

(** The firmware names an I/O APIC, and the kernel finds it with the memory [m]. *)
Definition apic_found (m : Memory PT) (rsdp : option Z) (io : Z) : Prop :=
  exists tables a ios, get_acpi phys_offset m rsdp = Ret (Ok tables, a) /\
    platform_info tables = Ret (Ok (ModelApic (io :: ios))) /\ 0 <= io < 2 ^ 32.

Lemma ioapic_init_found m rsdp io :
  apic_found m rsdp io ->
  exists a, ioapic_init phys_offset m rsdp = Ret (PHYSICAL_MEM_START + io, a).
Proof.
  intros (tables & a & ios & Hg & Hp & Hio). unfold ioapic_init. rewrite Hg. cbn [mbind outcome_bind unwrap_ok].
  rewrite Hp. cbn [mbind outcome_bind unwrap_ok index lookup list_lookup unwrap].
  pose proof layout_values as (_ & _ & Hps & _).
  rewrite va_add_law by (rewrite ?Hps; unfold canonical; lia). cbn [mbind outcome_bind]. by eexists.
Qed.

(** The devices are set up: the console is ready, free and in normal operation, with
    the receive interrupt on, and nothing has been sent. *)
Lemma kmain_setup_spec info (s : System W PT) m io :
  memory_setup prof cr3 offset_page_table info (mem s) = Ret m -> apic_found m (RDSP_ADDRESS s) io ->
  IOAPIC s = None -> com1_port (kern s) = None -> com1_locked (kern s) = false ->
  dlab (uart (hw (kern s))) = false ->
  exists s', kmain_setup prof phys_offset cr3 offset_page_table info s = Ret s' /\
    mem s' = m /\ IOAPIC s' = Some (PHYSICAL_MEM_START + io) /\
    console_ready (kern s') /\ com1_locked (kern s') = false /\ idt_loaded (kern s') = true /\
    interrupts_on (kern s') = interrupts_on (kern s) /\ ticks (kern s') = ticks (kern s) /\
    uart (hw (kern s')) = mkUart 3 0 1 3 0x0F [] (tx (uart (hw (kern s)))).
Proof.
  intros Hm Hio Hap Hp Hl Hd. unfold kmain_setup. cbv zeta. cbn [mem set_kern]. rewrite Hm.
  cbn [mbind outcome_bind]. unfold ioapic_lock at 1. cbn [attach_lapic set_kern kern mem IOAPIC RDSP_ADDRESS].
  rewrite Hap. destruct (ioapic_init_found m _ io Hio) as (a & ->). cbn [mbind outcome_bind].
  cbn [attach_lapic set_w set_kern set_hw init_idt kern mem IOAPIC RDSP_ADDRESS hw com1_port com1_locked ticks lapic_ready
       interrupts_on idt_loaded].
  set (w1 := ioapic_disable_all _ _).
  assert (uart w1 = uart (hw (kern s))) as Hw1
    by (unfold w1; by rewrite ioapic_disable_uart, lapic_attach_uart, lapic_force_uart).
  unfold com1_lock, com1, serial_new, set_hw. cbn [com1_port hw com1_locked]. rewrite ?Hp.
  destruct (init_serial_spec COM1_PORT prof w1) as (w2 & -> & Hw2); [by rewrite Hw1|].
  cbn [mbind outcome_bind com1_locked]. rewrite Hl. cbn [mbind outcome_bind set_locked hw].
  unfold enable_interrupts, set_w, set_kern, set_hw, set_locked. cbn [kern hw].
  destruct (enable_receiver_uart prof w2) as (w3 & -> & Hw3); [by rewrite Hw2..|].
  unfold ioapic_lock. cbn [mbind outcome_bind kern mem IOAPIC RDSP_ADDRESS hw].
  eexists. split; [reflexivity|]. rewrite Hw2 in Hw3. cbn in Hw3.
  unfold console_ready. cbn [kern mem IOAPIC hw com1_port com1_locked lapic_ready idt_loaded interrupts_on ticks].
  rewrite ioapic_enable_uart, Hw3, Hw1. done.
Qed.
End setup_lemmas.

(** ** Properties *)

Section properties.
Context `{X86AddrLaws} {PT T E : Type} `{AcpiCrate T E} (phys_offset : PT -> Z).

(** The I/O APIC is looked for in the tables and seen through the map of
    physical memory: when the search succeeds, the registers of the first I/O
    APIC are at its physical address (of 32 bits) in that map, and the address of
    the tables is kept. *)
Theorem ioapic_window (m : Memory PT) rsdp a a' tables io_apics :
  get_acpi phys_offset m rsdp = Ret (Ok tables, Some a') ->
  platform_info tables = Ret (Ok (ModelApic (a :: io_apics))) -> 0 <= a < 2 ^ 32 ->
  exists va, ioapic_init phys_offset m rsdp = Ret (va, Some a') /\
    va = PHYSICAL_MEM_START + a /\ PHYSICAL_MEM_START <= va <= PHYSICAL_MEM_END.
Proof.
  intros Hg Hp Ha. unfold ioapic_init. rewrite Hg. cbn [mbind outcome_bind unwrap_ok].
  rewrite Hp. cbn [mbind outcome_bind unwrap_ok index lookup list_lookup unwrap].
  pose proof layout_values as (_ & _ & Hps & Hpe & _).
  rewrite va_add_law by (rewrite ?Hps; unfold canonical; lia). cbn [mbind outcome_bind].
  eexists. split; [reflexivity|]. rewrite Hps, Hpe. lia.
Qed.

(** The tables are searched for once: after a search that found them, a
    further call asks for the tables at the same address and does not depend on
    what a search would find. *)
Theorem get_acpi_once (m : Memory PT) rsdp a r :
  get_acpi phys_offset m rsdp = Ret (r, Some a) ->
  get_acpi phys_offset m (Some a) = Ret (r, Some a).
Proof.
  unfold get_acpi. intros Hg.
  destruct rsdp as [b|]; cbn [mbind outcome_bind] in *.
  - destruct (from_rsdp _ b) as [r'| | |] eqn:E1; try done. cbn in Hg. injection Hg as <- <-.
    by rewrite E1.
  - destruct (search_for_on_bios _) as [[b|e]| | |]; try done. cbn [mbind outcome_bind] in Hg.
    destruct (from_rsdp _ b) as [r'| | |] eqn:E1; try done. cbn in Hg. injection Hg as <- <-.
    by rewrite E1.
Qed.
End properties.

Section kmain_property.
Context `{X86AddrLaws} {W PT T E : Type} `{Ports W} `{Lapic W} `{IoApic W} `{!UartLaws W COM1_PORT}.
Context `{!MachineLaws W} `{!LapicTimerLaws W} `{PageTableLaws PT} `{AcpiCrate T E}.
Context (prof : profile) (phys_offset : PT -> Z).
Context (fmt_fault : Z -> str) (cr2 : W -> Z) (panic_info : str -> str).
Context (fmt_kind : MemoryRegion -> str) (kmain_addr : Z).
Context (cr3 : Z) (offset_page_table : Z -> Z -> PT).

#[local] Abbreviation kmain_setup' := (kmain_setup prof phys_offset cr3 offset_page_table).
#[local] Abbreviation kmain' :=
  (kmain prof phys_offset fmt_fault cr2 panic_info fmt_kind kmain_addr cr3 offset_page_table).

(** What the interval timer and the local timer have to do when the clock is started
    with the hardware in [w]: a read finds 0 before the fuel ends, and the count is not
    too fast for 32 bits. *)
Definition clock_starts (fuel : nat) (w : W) : Prop :=
  exists n w3, polls n (timer_armed true w) = Some w3 /\ (n < fuel)%nat /\
    ticks_counted (timer_armed true w) w3 <= 42949672.

(** [kmain] prints its report with the clock running and interrupts enabled. *)
Lemma kmain_prints fuel sched info (s s1 : System W PT) :
  kmain_setup' info s = Ret s1 -> console_ready (kern s1) -> idt_loaded (kern s1) = true ->
  com1_locked (kern s1) = false -> clock_starts fuel (hw (kern s1)) ->
  exists k, kmain' fuel sched info s =
      ('(p) ← interleave prof fmt_fault cr2 panic_info fuel sched (report fmt_kind kmain_addr info) k;
       Ret (p, mem s1)) /\
    console_ready k /\ com1_locked k = false /\ interrupts_on k = true /\ ticks k = ticks (kern s1) /\
    uart (hw k) = uart (hw (kern s1)).
Proof.
  intros Hs Hk Hi Hl (n & w3 & Hp & Hf & Ht). unfold kmain. rewrite Hs. cbn [mbind outcome_bind].
  unfold without_interrupts. cbv zeta. cbn [set_interrupts lapic_ready hw]. rewrite (proj1 (proj2 Hk)).
  destruct (start_timer_uart prof n fuel true _ w3 Hp Hf Ht) as (w' & -> & Hw').
  cbn [mbind outcome_bind set_interrupts set_hw interrupts_on idt_loaded]. rewrite Hi. cbn [andb].
  eexists. split; [reflexivity|]. unfold console_ready in *. cbn [set_interrupts set_hw com1_port lapic_ready hw
    com1_locked interrupts_on ticks]. rewrite Hw'. tauto.
Qed.

(** The unwrap in the second line panics with the console locked. *)
Lemma report_unwrap fuel sched info k :
  console_ready k -> com1_locked k = false -> 0 <= ticks k < 2 ^ 64 ->
  physical_memory_offset info = None -> Forall (eq IRQ0) (mjoin sched) ->
  interleave prof fmt_fault cr2 panic_info fuel sched (report fmt_kind kmain_addr info) k = Hang.
Proof.
  intros Hk Hl Ht Ho Hv. unfold report. rewrite Ho. cbn [fmap option_fmap option_map kprintln_args].
  rewrite interleave_app. set (n := length (kprintln_steps _)).
  assert (mjoin sched = mjoin (take n sched) ++ mjoin (drop n sched)) as Hj
    by (rewrite <- join_app; by rewrite take_drop).
  rewrite Hj in Hv. apply Forall_app in Hv as [Hv1 Hv2].
  destruct (interleave_line_timers prof fmt_fault cr2 panic_info fuel (lit "Hello, world!") (take n sched) k)
    as (k1 & -> & Hk1 & Hl1 & _ & Ht1); try done; [rewrite length_take; fold n; lia|].
  cbn [mbind outcome_bind app interleave]. set (sc := drop n sched) in *.
  assert (Forall (eq IRQ0) (default [] (head sc)) /\ Forall (eq IRQ0) (default [] (head (tail sc)))) as [Hh1 Hh2].
  { destruct sc as [|v1 [|v2 sc']]; cbn in *; rewrite ?Forall_app in Hv2; split; (constructor || tauto). }
  destruct (interrupts_timers prof fmt_fault cr2 panic_info fuel _ k1 (proj1 (proj2 Hk1))
    ltac:(rewrite Ht1; apply Z.mod_pos_bound; lia) Hh1) as (k2 & -> & Hk2).
  pose proof (ticked_ready _ _ _ Hk2 Hk1) as Hr2. pose proof Hk2 as (_ & Hl2 & _ & _ & Ht2).
  cbn [mbind outcome_bind print_step_run]. rewrite com1_lock_ready, Hl2, Hl1 by done. cbn [mbind outcome_bind].
  destruct (interrupts_timers prof fmt_fault cr2 panic_info fuel _ (set_locked k2 true) (proj1 (proj2 Hr2))
    ltac:(cbn; rewrite Ht2; apply Z.mod_pos_bound; lia) Hh2) as (k3 & -> & Hk3).
  cbn [mbind outcome_bind]. unfold panic_handler. cbv zeta. rewrite kprintln_held; [done| |].
  - exact (ticked_ready _ _ _ Hk3 Hr2).
  - cbn. by destruct Hk3 as (_ & -> & _).
Qed.

End kmain_property.

(** A kernel booted with its own configuration has the physical memory mapped, at the
    start of its region of the layout: the [unwrap] of [kmain] does not panic. *)
Lemma configured_offset `{X86Addr} `{BootLoaderLaws} regions :
  physical_memory_offset (boot_info BOOT_CONFIG regions) = Some PHYSICAL_MEM_START.
Proof. by apply boot_info_offset. Qed.

(** ** Examples *)

(** A boot loader that maps physical memory where it is asked to. *)
#[export] Instance example_loader : BootLoader := {|
  config_default := mkConfig (80 * 1024) (mkMappings None);
  mappings_default := mkMappings None;
  boot_info c regions := mkBootInfo regions
    (match physical_memory (mappings c) with
     | Some (FixedAddress a) => Some a
     | Some Dynamic => Some 0x18000000000
     | None => None
     end)
|}.
#[export] Instance example_loader_laws : BootLoaderLaws.
Proof. split. intros c regions a Hc. cbn. by rewrite Hc. Qed.

(** A machine whose tables are at one address and name one I/O APIC. *)
#[export] Instance example_acpi : AcpiCrate unit unit := {|
  search_for_on_bios _ := Ret (Ok 0xf5000);
  from_rsdp _ _ := Ret (Ok tt);
  platform_info _ := Ret (Ok (ModelApic [0xfec00000]))
|}.

Definition example_info : BootInfo := boot_info (@BOOT_CONFIG x86_model _) one_region.
Definition no_kind (_ : MemoryRegion) : str := lit "Usable".
Definition empty_table (_ _ : Z) : small_table := mkSmall [] [].
Definition example_system : System machine small_table :=
  mkSystem machine_reset (mkMemory None None) None None.
Definition example_kmain (sched : list (list Z)) : outcome (progress machine * Memory small_table) :=
  @kmain x86_model machine small_table unit unit _ _ _ small_page_table example_acpi Debug
    (fun _ => @PHYSICAL_MEM_START x86_model) no_fault no_cr2 id no_kind 0x8000 0x1000 empty_table
    124 sched example_info example_system.
Definition example_setup : outcome (System machine small_table) :=
  @kmain_setup x86_model machine small_table unit unit _ _ _ small_page_table example_acpi Debug
    (fun _ => @PHYSICAL_MEM_START x86_model) 0x1000 empty_table example_info example_system.

(** The interval timer of this machine is found at 0 by the 124th read. *)
Lemma example_clock s1 : example_setup = Ret s1 -> clock_starts 124 (hw (kern s1)).
Proof.
  intros Hs. vm_compute in Hs. injection Hs as <-. exists 123%nat. eexists.
  split; [vm_compute; reflexivity|]. split; [lia|]. vm_compute. discriminate.
Qed.


Lemma ioapic_window_witness :
  exists va, @ioapic_init x86_model unit unit unit example_acpi (fun _ => 0) (mkMemory None None) None =
      Ret (va, Some 0xf5000) /\
    va = @PHYSICAL_MEM_START x86_model + 0xfec00000 /\
    @PHYSICAL_MEM_START x86_model <= va <= @PHYSICAL_MEM_END x86_model.
Proof.
  apply (@ioapic_window x86_model x86_model_laws unit unit unit example_acpi (fun _ => 0)
    (mkMemory None None) None 0xfec00000 0xf5000 tt []); [reflexivity..|lia].
Defined.
