(* ===== verification/Runner.v ===== *)
(** * build.rs and src/main.rs: building the disk image and starting it

    The two programs of the host: the build script splits the debug symbols off
    the kernel, has the boot loader's crate write a disk image and tells Cargo
    where both are; the runner starts the emulator on the image, for a debugger
    on request.  What they do to the host is a list of actions; whether an action
    succeeds, the environment and Cargo are parameters. *)

From Stdlib Require Import ZArith Lia.
From stdpp Require Import base list numbers strings.
From S2P Require Import Prelude PathComponents Path PathBuf PathUtf8.

(** ** The host *)

(** What is done to the host, in order. *)
Inductive action :=
| Spawn (program : str) (args : list str)
| Wait
| WriteFile (path contents : str)
| CreateDiskImage (kernel path : str)
| PrintLine (line : str).

(** Whether the host lets it be done. *)
Class Host := permits : action -> bool.

Section host.
Context `{Host}.

(** An action whose result is unwrapped. *)
Definition act (a : action) (log : list action) : outcome (list action) :=
  if permits a then Ret (log ++ [a]) else Panic.

(** [Command]: the program and the arguments so far. *)
Record Command := mkCommand { program : str; cmd_args : list str }.
Definition command_new (p : str) : Command := mkCommand p [].
Definition arg (c : Command) (a : str) : Command := mkCommand (program c) (cmd_args c ++ [a]).

(** [cmd.spawn().unwrap()] and [child.wait().unwrap()]. *)
Definition spawn (c : Command) (log : list action) : outcome (list action) :=
  act (Spawn (program c) (cmd_args c)) log.
Definition wait (log : list action) : outcome (list action) := act Wait log.

(** ** Paths of the standard library *)

(** [Path::join]: a separator is put between, unless there is one. *)
Definition std_join (p q : str) : str :=
  if is_absolute q then q
  else match last p with
       | Some b => if is_sep b then p ++ q else p ++ SEPERATOR_STR ++ q
       | None => q
       end.

(** [Path::with_extension]: as [set_extension] of fs/path on a copy, but the paths of
    the host are any bytes, and are cut anywhere. *)
Definition std_with_extension (p ext : str) : outcome str :=
  o ← file_stem p;
  match o with
  | None => Ret p
  | Some stem =>
      i ← file_name_ptr p;
      let p := take (i + length stem) p in
      Ret (if bytes_eqb ext [] then p else p ++ DOT :: ext)
  end.

(** [Path::display]: the text of the path, with U+FFFD for every sequence of bytes
    that is not UTF-8. *)
Definition REPLACEMENT : str := [0xEF; 0xBF; 0xBD]%Z.
Definition second_ok (b0 b1 : u8) : bool :=
  if (b0 =? 224)%Z then in_range 160 191 b1
  else if (b0 =? 237)%Z then in_range 128 159 b1
  else if (b0 =? 240)%Z then in_range 144 191 b1
  else if (b0 =? 244)%Z then in_range 128 143 b1
  else is_cont b1.
Fixpoint display (s : str) : str :=
  match s with
  | [] => []
  | b0 :: s1 =>
      if in_range 0 127 b0 then b0 :: display s1
      else if in_range 194 223 b0 then
        match s1 with
        | b1 :: s2 => if is_cont b1 then b0 :: b1 :: display s2 else REPLACEMENT ++ display s1
        | [] => REPLACEMENT
        end
      else if in_range 224 239 b0 then
        match s1 with
        | b1 :: s2 =>
            if second_ok b0 b1 then
              match s2 with
              | b2 :: s3 => if is_cont b2 then b0 :: b1 :: b2 :: display s3 else REPLACEMENT ++ display s2
              | [] => REPLACEMENT
              end
            else REPLACEMENT ++ display s1
        | [] => REPLACEMENT
        end
      else if in_range 240 244 b0 then
        match s1 with
        | b1 :: s2 =>
            if second_ok b0 b1 then
              match s2 with
              | b2 :: s3 =>
                  if is_cont b2 then
                    match s3 with
                    | b3 :: s4 =>
                        if is_cont b3 then b0 :: b1 :: b2 :: b3 :: display s4 else REPLACEMENT ++ display s3
                    | [] => REPLACEMENT
                    end
                  else REPLACEMENT ++ display s2
              | [] => REPLACEMENT
              end
            else REPLACEMENT ++ display s1
        | [] => REPLACEMENT
        end
      else REPLACEMENT ++ display s1
  end.

(** [std::env::args().collect()] panics on an argument that is not Unicode. *)
Definition env_args (args : list str) : outcome (list str) :=
  if forallb utf8 args then Ret args else Panic.

(** ** build.rs *)

Definition extract_debug_symbols (kernel : str) (log : list action) : outcome (str * list action) :=
  path ← std_with_extension kernel (lit "sym");
  let cmd := command_new (lit "x86_64-elf-objcopy") in
  let cmd := arg (arg (arg cmd (lit "--only-keep-debug")) kernel) path in
  log ← spawn cmd log;
  log ← wait log;
  Ret (path, log).

Definition rustc_env_line (key value : str) : str :=
  lit "cargo:rustc-env=" ++ key ++ lit "=" ++ value.

(** [main] of build.rs, in the environment [env]. *)
Definition build_main (env : str -> option str) (log : list action) : outcome (list action) :=
  out_dir ← unwrap (env (lit "OUT_DIR"));
  kernel ← unwrap (env (lit "CARGO_BIN_FILE_KERNEL_kernel"));
  '(sym, log) ← extract_debug_symbols kernel log;
  let bios_path := std_join out_dir (lit "bios.img") in
  log ← act (CreateDiskImage kernel bios_path) log;
  log ← act (PrintLine (rustc_env_line (lit "BIOS_PATH") (display bios_path))) log;
  act (PrintLine (rustc_env_line (lit "KERNEL_SYM_PATH") (display sym))) log.

(** ** src/main.rs *)

Definition gdbinit (kernel_sym_path : str) : str :=
  lit "
    target remote localhost:1234
    symbol-file -o 0x8000000000 " ++ kernel_sym_path ++ lit "
    set substitute-path /rustc/3340d49d22b1aba425779767278c40781826c2f5 /Volumes/Source/.rustup/toolchains/nightly-aarch64-apple-darwin/lib/rustlib/src/rust
    b kernel::kmain
    ".

Definition set_debug (kernel_sym_path : str) (cmd : Command) (log : list action)
    : outcome (Command * list action) :=
  let cmd := arg (arg cmd (lit "-s")) (lit "-S") in
  log ← act (WriteFile (lit ".gdbinit") (gdbinit kernel_sym_path)) log;
  log ← act (PrintLine (lit "Run `gdb` to debug the kernel")) log;
  Ret (cmd, log).

(** [main] with the arguments [args]; the two paths are compiled in. *)
Definition run_main (bios_path kernel_sym_path : str) (args : list str) (log : list action)
    : outcome (list action) :=
  args ← env_args args;
  let debug := bool_decide (args !! 1 = Some (lit "debug")) in
  let cmd := command_new (lit "qemu-system-x86_64") in
  let cmd := arg (arg cmd (lit "-drive")) (lit "format=raw,file=" ++ bios_path) in
  let cmd := arg (arg cmd (lit "-m")) (lit "1G") in
  let cmd := arg (arg cmd (lit "-smp")) (lit "4") in
  let cmd := arg cmd (lit "-nographic") in
  '(cmd, log) ← (if debug then set_debug kernel_sym_path cmd log else Ret (cmd, log));
  log ← spawn cmd log;
  wait log.
End host.

(** ** Cargo *)

(** The lines a build script prints become variables of the compiler. *)
Class Cargo := rustc_env : list str -> str -> option str.

Definition NEWLINE : u8 := 10%Z.
Definition EQUALS : u8 := 61%Z.

(** A variable that is set once has the value it is set to; lines are lines, and
    the name ends at the first [=]. *)
Class CargoLaws `{Cargo} := {
  rustc_env_law : forall lines key value,
    (EQUALS ∉ key) -> Forall (fun l => NEWLINE ∉ l) lines ->
    rustc_env_line key value ∈ lines ->
    (forall value', rustc_env_line key value' ∈ lines -> value' = value) ->
    rustc_env lines key = Some value
}.

Definition printed (log : list action) : list str :=
  omap (fun a => match a with PrintLine l => Some l | _ => None end) log.

(** ** Lemmas *)

(** A byte does not occur in a literal. *)
Ltac not_in_literal :=
  match goal with |- ?Q => refine (bool_decide_unpack Q _) end; vm_compute; exact I.

(** Joining a name appends it to the components. *)
Lemma std_join_components p q :
  p <> [] -> is_name q = true -> spec_components (std_join p q) = spec_components p ++ [Normal q].
Proof.
  intros Hp Hq. unfold std_join. rewrite name_relative by done.
  destruct p as [|b p' _] using rev_ind; [done|]. rewrite last_snoc. unfold spec_components.
  destruct (is_sep b) eqn:Eb.
  - apply is_sep_eq in Eb as ->. rewrite <- app_assoc. cbn [app].
    rewrite !body_app, (body_name q), body_nil, app_nil_r by done.
    rewrite app_assoc. f_equal. f_equal.
    destruct p' as [|x p']; [done|]. by rewrite !start_components_app by (done || by left).
  - unfold SEPERATOR_STR. cbn [app]. rewrite body_app, (body_name q) by done.
    rewrite start_components_app by first [by left | by destruct p']. by rewrite app_assoc.
Qed.

(** The new path is the beginning of the old one with the extension behind it. *)
Lemma set_extension_take s ext s' :
  set_extension s ext = Ret (true, s') ->
  exists i, s' = take i s ++ (if bytes_eqb ext [] then [] else DOT :: ext).
Proof.
  unfold set_extension. intros Hs. destruct (file_stem s) as [[stem|]| | |]; try done.
  cbn [mbind outcome_bind] in Hs. destruct (file_name_ptr s) as [i| | |]; try done.
  cbn [mbind outcome_bind] in Hs. unfold truncate in Hs.
  exists (i + length stem). destruct (_ <=? length s) eqn:El.
  - destruct (is_char_boundary _ _); [|done]. cbn in Hs. injection Hs as <-.
    by destruct (bytes_eqb ext []); rewrite ?app_nil_r.
  - cbn in Hs. injection Hs as <-. rewrite take_ge by (apply Nat.leb_gt in El; lia).
    by destruct (bytes_eqb ext []); rewrite ?app_nil_r.
Qed.

(** A path that is UTF-8 is shown as it is. *)
Lemma display_valid s : utf8 s = true -> display s = s.
Proof.
  induction s as [s IH] using (induction_ltof1 _ length). unfold ltof in IH. intros Hu.
  destruct s as [|b0 s1]; [done|]. cbn [utf8] in Hu. cbn [display].
  destruct (in_range 0 127 b0); [f_equal; apply IH; [cbn; lia|done]|].
  destruct s1 as [|b1 s2]; [done|].
  destruct (in_range 194 223 b0).
  { apply andb_prop in Hu as [-> Hu]. do 2 f_equal. apply IH; [cbn; lia|done]. }
  destruct s2 as [|b2 s3]; [done|]. destruct (in_range 224 239 b0) eqn:E3.
  { apply andb_prop in Hu as [[H1 ->]%andb_prop Hu].
    replace (second_ok b0 b1) with true; [do 3 f_equal; apply IH; [cbn; lia|done]|].
    rewrite <- H1. unfold second_ok. revert E3. unfold in_range. repeat case_match; lia. }
  destruct s3 as [|b3 s4]; [done|].
  apply andb_prop in Hu as [[[[-> H1]%andb_prop ->]%andb_prop ->]%andb_prop Hu].
  replace (second_ok b0 b1) with true; [do 4 f_equal; apply IH; [cbn; lia|done]|].
  rewrite <- H1. unfold second_ok. revert E3. unfold in_range. repeat case_match; lia.
Qed.

(** On valid paths [with_extension] is [set_extension]. *)
Lemma std_with_extension_set p ext b p' :
  set_extension p ext = Ret (b, p') -> std_with_extension p ext = Ret p'.
Proof.
  unfold set_extension, std_with_extension. intros Hs.
  destruct (file_stem p) as [[stem|]| | |]; try done; cbn [mbind outcome_bind] in *; [|by injection Hs as _ <-].
  destruct (file_name_ptr p) as [i| | |]; try done. cbn [mbind outcome_bind] in *. unfold truncate in Hs.
  destruct (_ <=? length p) eqn:El.
  - destruct (is_char_boundary _ _); [|done]. cbn in Hs. by injection Hs as _ <-.
  - rewrite take_ge by (apply Nat.leb_gt in El; lia). cbn in Hs. by injection Hs as _ <-.
Qed.

Lemma std_join_valid p q : valid p -> valid q -> valid (std_join p q).
Proof.
  intros Hp Hq. unfold std_join. destruct (is_absolute q); [done|]. destruct (last p); [|done].
  destruct (is_sep _); repeat (apply utf8_app; try done).
Qed.

Section properties.
Context `{CargoLaws} `{Host} (Hpermits : forall a, permits a = true).

Lemma act_permitted a log : act a log = Ret (log ++ [a]).
Proof. unfold act. by rewrite Hpermits. Qed.

(** What the runner does. *)
Lemma run_main_spec bios sym args log :
  forallb utf8 args = true ->
  let debug := bool_decide (args !! 1 = Some (lit "debug")) in
  run_main bios sym args log =
  Ret (log ++
       (if debug then [WriteFile (lit ".gdbinit") (gdbinit sym);
                       PrintLine (lit "Run `gdb` to debug the kernel")] else []) ++
       [Spawn (lit "qemu-system-x86_64")
          ([lit "-drive"; lit "format=raw,file=" ++ bios; lit "-m"; lit "1G"; lit "-smp"; lit "4";
            lit "-nographic"] ++ if debug then [lit "-s"; lit "-S"] else []);
        Wait]).
Proof.
  intros Ha debug. unfold run_main, env_args, set_debug. rewrite Ha. cbn [mbind outcome_bind].
  fold debug. destruct debug;
    rewrite ?act_permitted; cbn [mbind outcome_bind]; rewrite ?act_permitted; cbn [mbind outcome_bind];
    unfold spawn, wait; rewrite ?act_permitted; cbn [mbind outcome_bind]; rewrite ?act_permitted;
    by rewrite <- !app_assoc.
Qed.

Lemma newline_line key v : (NEWLINE ∉ key) -> (NEWLINE ∉ v) -> NEWLINE ∉ rustc_env_line key v.
Proof.
  intros Hk Hv. unfold rustc_env_line. rewrite !elem_of_app. intros [Hx|[Hx|[Hx|Hx]]]; [|done| |done];
    revert Hx; not_in_literal.
Qed.

Lemma newline_join p q : (NEWLINE ∉ p) -> (NEWLINE ∉ q) -> NEWLINE ∉ std_join p q.
Proof.
  intros Hp Hq. unfold std_join. destruct (is_absolute q); [done|]. destruct (last p) as [b|]; [|done].
  destruct (is_sep b); rewrite !elem_of_app; [tauto|].
  intros [?|[Hx|?]]; [done| |done]. by apply list_elem_of_singleton in Hx.
Qed.

(** Cargo passes both paths on. *)
Lemma cargo_reads bios sym :
  (NEWLINE ∉ bios) -> (NEWLINE ∉ sym) ->
  let lines := [rustc_env_line (lit "BIOS_PATH") bios; rustc_env_line (lit "KERNEL_SYM_PATH") sym] in
  rustc_env lines (lit "BIOS_PATH") = Some bios /\ rustc_env lines (lit "KERNEL_SYM_PATH") = Some sym.
Proof.
  intros Hb Hs lines.
  assert (Forall (fun l => NEWLINE ∉ l) lines) as Hl.
  { repeat constructor; apply newline_line; try done;
      not_in_literal. }
  split; apply rustc_env_law; try done;
    try not_in_literal;
    try (unfold lines; rewrite !elem_of_cons; by auto);
    intros v [Hv|[Hv|[]%elem_of_nil]%elem_of_cons]%elem_of_cons;
    unfold rustc_env_line in Hv; apply app_inv_head in Hv; try discriminate;
    by do 2 apply app_inv_head in Hv.
Qed.

(** C40: building and running fit together: the build script writes the symbols
    next to the kernel, under its name with the extension [sym], and the disk image
    into [OUT_DIR], and the runner compiled with what it prints starts the emulator
    on that image; with the argument [debug], and only then, it first leaves the
    debugger a script that reads those symbols, and has the emulator wait.  The two
    directories are UTF-8; an argument of the runner that is not makes it panic before
    it does anything. *)
Theorem build_and_run env d k n :
  env (lit "OUT_DIR") = Some d -> env (lit "CARGO_BIN_FILE_KERNEL_kernel") = Some k ->
  d <> [] -> utf8 d = true -> utf8 k = true -> file_name k = Ret (Some n) -> (NEWLINE ∉ d) -> (NEWLINE ∉ k) ->
  exists bios sym stem log, build_main env [] = Ret log /\
    log = [Spawn (lit "x86_64-elf-objcopy") [lit "--only-keep-debug"; k; sym]; Wait;
           CreateDiskImage k bios;
           PrintLine (rustc_env_line (lit "BIOS_PATH") bios);
           PrintLine (rustc_env_line (lit "KERNEL_SYM_PATH") sym)] /\
    spec_components bios = spec_components d ++ [Normal (lit "bios.img")] /\
    file_stem k = Ret (Some stem) /\
    spec_components sym = removelast (spec_components k) ++ [Normal (stem ++ lit ".sym")] /\
    rustc_env (printed log) (lit "BIOS_PATH") = Some bios /\
    rustc_env (printed log) (lit "KERNEL_SYM_PATH") = Some sym /\
    forall args, run_main bios sym args [] =
      if negb (forallb utf8 args) then Panic else
      let debug := bool_decide (args !! 1 = Some (lit "debug")) in
      Ret ((if debug then [WriteFile (lit ".gdbinit") (gdbinit sym);
                           PrintLine (lit "Run `gdb` to debug the kernel")] else []) ++
           [Spawn (lit "qemu-system-x86_64")
              ([lit "-drive"; lit "format=raw,file=" ++ bios; lit "-m"; lit "1G"; lit "-smp";
                lit "4"; lit "-nographic"] ++ if debug then [lit "-s"; lit "-S"] else []);
            Wait]).
Proof.
  intros Hd Hk Hne Hud Hu Hn Hnd Hnk.
  destruct (set_extension_reads k n (lit "sym") Hu Hn) as (stem & sym & Hstem & Hset & Hsym & _);
    [done|by repeat constructor|not_in_literal|].
  set (bios := std_join d (lit "bios.img")).
  assert (display bios = bios) as Hdb by (by apply display_valid, std_join_valid).
  assert (display sym = sym) as Hds.
  { destruct (set_extension_valid k (lit "sym") Hu) as (b & s' & Hs' & Hv); [reflexivity|].
    rewrite Hset in Hs'. injection Hs' as _ <-. by apply display_valid. }
  assert (NEWLINE ∉ bios) as Hnb.
  { apply newline_join; [done|]. not_in_literal. }
  assert (NEWLINE ∉ sym) as Hns.
  { destruct (set_extension_take _ _ _ Hset) as [i ->]. rewrite elem_of_app.
    intros [Hx|Hx]; [by apply elem_of_take in Hx as (? & ? & _); apply Hnk, list_elem_of_lookup; eexists|].
    revert Hx. not_in_literal. }
  exists bios, sym, stem. eexists. split_and!.
  - unfold build_main, extract_debug_symbols. rewrite Hd, Hk. cbn [unwrap mbind outcome_bind].
    rewrite (std_with_extension_set _ _ _ _ Hset). cbn [mbind outcome_bind]. unfold spawn, wait. fold bios.
    repeat (rewrite act_permitted; cbn [mbind outcome_bind]). rewrite Hdb, Hds. reflexivity.
  - reflexivity.
  - by apply std_join_components.
  - done.
  - done.
  - by apply cargo_reads.
  - by apply cargo_reads.
  - intros args. destruct (forallb utf8 args) eqn:Ea; [by apply run_main_spec|].
    unfold run_main, env_args. by rewrite Ea.
Qed.
End properties.

(** The build script does all of its work or panics: when it returns, both
    variables were set, every action was permitted, and the last ones are writing
    the image and telling Cargo about it. *)
Theorem build_all_or_panic `{Host} env log :
  build_main env [] = Ret log ->
  exists d k sym, env (lit "OUT_DIR") = Some d /\ env (lit "CARGO_BIN_FILE_KERNEL_kernel") = Some k /\
    std_with_extension k (lit "sym") = Ret sym /\ Forall (fun a => permits a = true) log /\
    log = [Spawn (lit "x86_64-elf-objcopy") [lit "--only-keep-debug"; k; sym]; Wait;
           CreateDiskImage k (std_join d (lit "bios.img"));
           PrintLine (rustc_env_line (lit "BIOS_PATH") (display (std_join d (lit "bios.img"))));
           PrintLine (rustc_env_line (lit "KERNEL_SYM_PATH") (display sym))].
Proof.
  unfold build_main, extract_debug_symbols. intros Hb.
  destruct (env (lit "OUT_DIR")) as [d|]; [|done]. cbn [unwrap mbind outcome_bind] in Hb.
  destruct (env (lit "CARGO_BIN_FILE_KERNEL_kernel")) as [k|]; [|done].
  cbn [unwrap mbind outcome_bind] in Hb.
  destruct (std_with_extension k (lit "sym")) as [sym| | |] eqn:Es; try done. cbn [mbind outcome_bind] in Hb.
  exists d, k, sym. unfold spawn, wait, act in Hb.
  repeat match type of Hb with context [if permits ?a then _ else _] =>
    let E := fresh "E" in destruct (permits a) eqn:E; [|discriminate Hb]; cbn [mbind outcome_bind] in Hb end.
  injection Hb as <-. split_and!; [done..| |done]. by repeat constructor.
Qed.

(** ** Examples *)

(** A host that permits everything, and the first line for a variable. *)
Definition free_host : Host := fun _ => true.
Definition line_cargo : Cargo := fun lines key =>
  let pre := rustc_env_line key [] in
  (fun l => drop (length pre) l) <$> List.find (fun l => bytes_eqb (take (length pre) l) pre) lines.

Lemma rustc_env_line_app key v : rustc_env_line key v = rustc_env_line key [] ++ v.
Proof. unfold rustc_env_line. by rewrite app_nil_r, <- !app_assoc. Qed.

Lemma line_cargo_laws : @CargoLaws line_cargo.
Proof.
  split. intros lines key value _ _ Hin Huniq. unfold rustc_env, line_cargo. cbv zeta.
  destruct (List.find _ lines) as [l|] eqn:Ef.
  - apply List.find_some in Ef as [Hl Hp]. apply bool_decide_eq_true in Hp. cbn. f_equal. apply Huniq.
    rewrite (rustc_env_line_app key (drop _ _)). rewrite <- Hp at 1. rewrite take_drop. by apply list_elem_of_In.
  - eapply List.find_none in Ef; [|by apply list_elem_of_In]. apply bool_decide_eq_false in Ef.
    destruct Ef. by rewrite (rustc_env_line_app key value), take_app_length.
Qed.

Definition ex_env (key : str) : option str :=
  if bytes_eqb key (lit "OUT_DIR") then Some (lit "/work/out")
  else if bytes_eqb key (lit "CARGO_BIN_FILE_KERNEL_kernel") then Some (lit "/work/bin/kernel-1f.elf")
  else None.

Lemma build_and_run_witness :
  exists bios sym stem log, @build_main free_host ex_env [] = Ret log /\ bios = lit "/work/out/bios.img" /\
    spec_components bios = spec_components (lit "/work/out") ++ [Normal (lit "bios.img")] /\
    file_stem (lit "/work/bin/kernel-1f.elf") = Ret (Some stem) /\
    @rustc_env line_cargo (printed log) (lit "BIOS_PATH") = Some bios /\
    @rustc_env line_cargo (printed log) (lit "KERNEL_SYM_PATH") = Some sym.
Proof.
  destruct (@build_and_run line_cargo line_cargo_laws free_host (fun _ => eq_refl) ex_env (lit "/work/out")
    (lit "/work/bin/kernel-1f.elf") (lit "kernel-1f.elf"))
    as (bios & sym & stem & log & Hb & Hlog & Hbios & Hstem & _ & Hc1 & Hc2 & _).
  - reflexivity.
  - reflexivity.
  - discriminate.
  - reflexivity.
  - reflexivity.
  - reflexivity.
  - not_in_literal.
  - not_in_literal.
  - exists bios, sym, stem, log. split; [exact Hb|]. split; [|split; [exact Hbios|]].
    + rewrite Hlog in Hb. vm_compute in Hb. injection Hb as _ <-. reflexivity.
    + split; [exact Hstem|]. split; [exact Hc1|exact Hc2].
Defined.

(** A directory of the host that is not UTF-8: Cargo is told of another one. *)
Example display_lossy :
  display (lit "/out" ++ [0xC3; 0x28; 0xE2; 0x82; 0x2F]%Z) =
  lit "/out" ++ REPLACEMENT ++ [0x28]%Z ++ REPLACEMENT ++ [0x2F]%Z.
Proof. reflexivity. Qed.
